(* ===== verification/_CoqProject ===== *)
-Q . S2P
Prelude.v
Float64.v
GoTime.v
Errors.v
GoHash.v
Keys.v
Policy.v
Backend.v
Service.v
StrictService.v
StrictFacts.v
StrictBatch.v
StrictLeases.v
AtomicBatch.v
MemoryState.v
TokenBucket.v
Windows.v
SlidingWindow.v
MemoryLeases.v
MemoryStore.v
StoreFacts.v
MemoryStrict.v
MemoryContract.v
PgState.v
PgTokens.v
PgRows.v
PgAgree.v
PgLeases.v
GoJson.v
JsonFacts.v
PgCodec.v
PgWire.v
PgStore.v
PgLaws.v
PgOutcomes.v
PgHistory.v
Rfc3339.v
PgAtomic.v
PgReceipts.v
PgBatch.v
PgCommands.v
PgRetries.v
Reference.v
ReferenceFacts.v
GoNet.v
Lua.v
ValkeyServer.v
ValkeyScripts.v
ValkeyStore.v
ValkeyState.v
ValkeyTokens.v
ValkeyWindows.v
ValkeySliding.v
ValkeyAdmit.v
ValkeyHistory.v
ValkeyLeases.v
ClientIP.v
Http.v
Queue.v
Rpc.v
Telemetry.v
