(* ===== verification/Prelude.v ===== *)
(** * go-rate-limit: a verification development

    The program is a Go rate-limiting library.  A caller builds a policy and a
    key, makes a request, and asks a service to admit it; the service calls a
    backend and normalizes what comes back; the backend keeps one state per
    policy and key and runs one of four algorithms on it (token bucket, fixed
    window, sliding window, concurrency leases).  This library models the root
    package, the in-memory, PostgreSQL and Valkey backends, the adapters and the
    reference model of the test kit as executable definitions and proves what each
    part promises to the next.

    ** Files, in dependency order, and the sources they model

    - [Prelude]: machine integers ([u64], [i64] and the double words of
      math/bits), the effect monad [M] (a world, a result or a panic), interface
      values, tactics and hint databases.
    - [Float64]: IEEE doubles as the programs use them (Go's seconds, the numbers
      of Lua), with exactness within 53 bits.
    - [GoTime], [GoHash]: the parts of Go's [time], [hash/fnv], [crypto/sha256]
      and [encoding/hex] that the sources call.
    - [Errors]: errors.go, strict_errors.go.  Error values, [errors.Is], texts,
      the closed set of declarations a strict service trusts.
    - [Keys]: key.go.  [Policy]: policy.go, request.go, decision.go,
      observation.go and the value types of lease.go.
    - [Backend]: the interfaces of service.go, strict_service.go, lease.go,
      batch.go and atomic_batch.go as records of operations on a world.
    - [Service]: service.go, lease.go, batch.go.
    - [StrictService]: strict_service.go, strict_lease.go.  [StrictFacts],
      [StrictBatch] and [StrictLeases] hold the documented result tables
      ([admit_verdict], [acquire_verdict]) and the theorems that the code
      implements them.
    - [AtomicBatch]: atomic_batch.go.
    - [MemoryState]: the per-key state and the algorithms of memory/store.go;
      [TokenBucket], [Windows], [SlidingWindow] and [MemoryLeases] prove them
      against ideal models (a rational bucket, the history of grants, the
      weights of leases).
    - [MemoryStore]: shards and the store of memory/store.go; [StoreFacts] proves
      the quota, eviction, frame and interleaving theorems.
    - [MemoryStrict]: memory/strict.go.  [MemoryContract] states the strict
      backend contract as a type class, proves that a strict service over any
      instance never reports an unknown outcome, and that the in-memory store is
      an instance.
    - [PgState]: the persisted row of postgres/state.go and its strict and
      released mutators.  [PgTokens] and [PgRows] prove that strict admission
      keeps rows sound, [PgAgree] that it agrees with the in-memory backend,
      [PgLeases] the same of leases.
    - [GoJson]: the parts of [encoding/json] the row envelope uses (the grammar,
      strings, numbers, struct decoding); [JsonFacts]: parsing inverts printing,
      for every document and also when members are reordered.
    - [PgCodec]: [encodeState] and [decodeState] of postgres/state.go; [PgWire]:
      rows survive the [jsonb] column.
    - [PgStore]: postgres/store.go, native.go, lease.go and strict.go: the
      transactions, the error classification and the methods, strict and released.
    - [PgLaws]: what the package relies on in PostgreSQL, as a type class;
      [PgOutcomes]: the outcomes of the strict calls of every database that obeys
      it, and that transactions end; [PgHistory]: the rows of a key, through the
      encoding and the time to live, decide as the in-memory backend does.
    - [Rfc3339]: Go's [time.Time] as JSON, with calendar dates; [PgAtomic]:
      postgres/atomic.go and migration.go: the intent of a command, its receipt
      and the transaction; [PgReceipts]: intents are injective and receipts are
      read back; [PgBatch]: what a batch decides and that its receipt replays;
      [PgCommands]: what an atomic batch relies on in PostgreSQL, as a type class,
      and the outcome of its transaction; [PgRetries]: commands take effect once.
    - [Reference]: ratelimittest/reference.go, strict.go and clock.go, with the
      rationals of math/big; [ReferenceFacts]: the in-memory backend answers as
      the reference model does.
    - [GoNet]: the parts of net, net/netip and strings the adapters call.
    - [Lua]: the Lua 5.1 library functions of the scripts; [ValkeyServer]: the
      commands of a key as a monad of programs, the server as a class with laws
      and a weakest precondition, and a server in memory.
    - [ValkeyScripts]: the scripts of valkey/scripts.go, statement by statement;
      [ValkeyStore]: valkey/store.go, native.go, lease.go and strict.go.
    - [ValkeyState], [ValkeyTokens], [ValkeyWindows], [ValkeySliding] relate the
      hash of a key to a PostgreSQL row and each algorithm of the script to that
      of the row; [ValkeyAdmit] is the whole admission, on the server and through
      the client; [ValkeyHistory] the histories of a key and its expiry;
      [ValkeyLeases] acquisition and release.
    - [ClientIP] and [Http]: adapters/http; [Queue]: adapters/queue; [Rpc]:
      ratelimitrpc; [Telemetry]: adapters/authentication, slog and otel.

    ** Modelling conventions

    A [uint64] or [int64] is a [Z] and every operation that can wrap is written
    with its wrap.  A [time.Time] is an instant in nanoseconds with a location;
    monotonic readings are not modelled.  Code that calls contexts, clocks,
    observers or backends runs in [M W] for an arbitrary world [W], so a theorem
    holds for every implementation and every interleaving with cancellation.  A
    Go map is a [gmap]; a loop over a map is a fold whose result does not depend
    on the order.  A goroutine that waits for a lock lets others run: waiting is a
    parameter of the model, and the store theorems assume of it only that it runs
    operations of the store (or keeps the invariant they keep).  Waiting always
    ends in the model, so deadlock is not a claim of any theorem.  Division by zero
    gives 0 in [Z] where Go panics; every divisor is a period, a capacity or a
    segment width, which is positive for a validated policy, and the theorems are
    about those.  Advisory locks of PostgreSQL are cooperative: the laws say that a
    row does not change while its lock is held, which is so for every method of the
    package but [Cleanup] (it deletes expired rows without the lock).

    ** What the theorems show

    - Construction and validation accept exactly what is documented (policies,
      requests, keys, atomic commands, store options).
    - A token bucket never grants more than its rate allows over any history, and
      equals the ideal bucket whenever the [uint64] sum of a refill does not
      wrap; its [RetryAfter] and [Reset] are exact to the microsecond.  When the
      sum wraps by less than the cost, the request is refused although the ideal
      bucket grants it.
    - Fixed windows decide exactly by the grants of their window; the ring of 16
      sliding segments decides exactly by the grants of the counted segments.
      One theorem exhibits the limit granted twice within a period.
    - Lease weights never exceed the limit in any reachable state; acquisition is
      exact and idempotent and release is its inverse.
    - Shard operations touch one key and evict only idle ones; the store never
      holds more than its configured keys, under every interleaving.
    - The strict service grants only with a justification, never dispatches a
      dead or invalid request, isolates observers, returns bounded ordered batch
      errors, and treats atomic batches as all or nothing.
    - Over the in-memory store, end to end, no admission ends in an unknown
      outcome.
    - The strict PostgreSQL mutators never refuse a row they wrote, with clocks
      that run backwards and revisions that change the limits; their token bucket
      is the ideal bucket at any rate; on the same history of one policy they
      return the decisions of the in-memory backend, field by field; acquisition on
      a row is acquisition on the leases it stands for.  One theorem exhibits a first lease
      before 1970 that is moved to the epoch.
    - A strict PostgreSQL call is atomic: its outcome is unknown, or refused
      without a trace, or decided on the row that was visible when the call had its
      lock, with exactly the successor visible; every transaction of a strict call
      ends, panics included, and every transaction of a released call whose lock
      statements return; a row is read back field by field as it was written; and a
      whole history of one policy through the database, with rows that expire, is
      an in-memory history.
    - An atomic command is bound to its intent: two commands have the same intent
      document only if they agree in everything but the time.  The receipt of a
      batch fits its column and gives a retry the answer of the first attempt.
      Through the database a batch publishes all of its rows or none, together
      with its record, and a command that has a record never debits again.
    - On histories over a catalog of policies, with room for their keys, the
      in-memory backend answers as the rational reference model of the test kit,
      unless a refill wraps or a sliding window is charged in the segment of the
      epoch.  One theorem exhibits the epoch segment that the reference model
      overlooks.
    - The strict admission script of Valkey, on every server that obeys the laws
      of its commands, is the PostgreSQL mutator on the row the hash stands for,
      with the same decision and successor; through the client the outcome is that
      decision, an ended context or an unknown outcome; histories of a key that
      does not expire are in-memory histories.  One theorem exhibits a drained
      burst that returns because its key expires too early.  The strict
      acquisition script is the PostgreSQL acquisition on the leases of the hash,
      and the strict release script takes away exactly the lease it names.
    - The HTTP, queue and RPC middlewares call the handler only after an allowed
      decision, answer rejections as documented, and every other answer has its
      cause; the client address is the rightmost hop outside the configured proxy
      networks, whatever a client writes in front of it; headers are exact; an
      admission of a valid request logs one record, of the returned decision.

    ** Bounds and fuel

    Every loop is structural on a list, a map or a string, except for the JSON
    parser and the decimal printers: [parse] starts with fuel from the length of
    its input, and [parse_enough] shows that it never runs out; 20 digits are
    enough for any 64-bit integer, and [integer] of [Lua] takes its digits from
    the size of the number; the trimming loops of [GoNet] take theirs from the
    length of the string.  The theorems on the Valkey scripts ask that no number
    computed from a time leave the 53 bits of a double ([exact_time],
    [leasable]): until the year 2255 less the refill time or the lease of the
    policy; those on leases also ask for a clock after 1970, because the scan
    starts from expiry 0.  Time ranges ([window_time], [refill_fits]) are
    hypotheses of the theorems that need arithmetic not to wrap; they hold for
    times between 1970 and 2100 and periods up to decades.  The agreement of the backends asks that a
    sliding period be a multiple of 16 microseconds: the in-memory ring divides
    the period in nanoseconds and the row divides it in microseconds, and only
    then are the segments the same.

    ** Not modelled

    The conformance suite of the test kit, whose content is stated as theorems
    about the backends.  The databases behind pgx and valkey-go, the network, the
    process clock and time zones are parameters. *)

From Stdlib Require Export ZArith Lia.
From stdpp Require Export base gmap strings list fin_maps numbers pretty sorting.

#[global] Open Scope Z_scope.
#[global] Set Default Goal Selector "!".

(** ** Machine integers

    A Go [uint64] or [int64] is a [Z]; the operations that can wrap say so. *)

Abbreviation two64 := 18446744073709551616.
Abbreviation two63 := 9223372036854775808.
Abbreviation MaxInt64 := 9223372036854775807.

Definition u64 (z : Z) : Z := z mod two64.
Definition i64 (z : Z) : Z := (z + two63) mod two64 - two63.

Definition is_u64 (z : Z) : Prop := 0 <= z < two64.
Definition is_i64 (z : Z) : Prop := - two63 <= z < two63.

Declare Scope go_scope.
Delimit Scope go_scope with go.
Notation "a +u b" := (u64 (a + b)) (at level 50, left associativity) : go_scope.
Notation "a -u b" := (u64 (a - b)) (at level 50, left associativity) : go_scope.
Notation "a *u b" := (u64 (a * b)) (at level 40, left associativity) : go_scope.
Notation "a +i b" := (i64 (a + b)) (at level 50, left associativity) : go_scope.
Notation "a -i b" := (i64 (a - b)) (at level 50, left associativity) : go_scope.
Notation "a *i b" := (i64 (a * b)) (at level 40, left associativity) : go_scope.
#[global] Open Scope go_scope.

(** [math/bits]: double-word arithmetic on [uint64]. *)
Definition Add64 (x y carry : Z) : Z * Z :=
  ((x + y + carry) mod two64, (x + y + carry) / two64).
Definition Sub64 (x y borrow : Z) : Z * Z :=
  ((x - y - borrow) mod two64, if x <? y + borrow then 1 else 0).
Definition Mul64 (x y : Z) : Z * Z := (x * y / two64, x * y mod two64).
(** Go's [bits.Div64] panics unless [hi < y]; every caller guards that. *)
Definition Div64 (hi lo y : Z) : Z * Z :=
  ((hi * two64 + lo) / y, (hi * two64 + lo) mod y).

(** ** Automation *)

Create HintDb golib.

(** [lia] with Euclidean equations for division and remainder. *)
Ltac zlia := Z.div_mod_to_equations; lia.
Ltac qlia := Z.quot_rem_to_equations; Z.div_mod_to_equations; lia.

(** Case analysis on the first boolean test or [match] of the goal. *)
Ltac case_test :=
  match goal with
  | |- context [if ?c then _ else _] => destruct c eqn:?
  | |- context [match ?c with _ => _ end] => destruct c eqn:?
  end.
Ltac case_test_in H :=
  match type of H with
  | context [if ?c then _ else _] => destruct c eqn:?
  | context [match ?c with _ => _ end] => destruct c eqn:?
  end.

(** Turn boolean connectives and [bool_decide] hypotheses into propositions. *)
Ltac btrue :=
  repeat match goal with
  | H : (_ && _)%bool = true |- _ => apply andb_true_iff in H as [? ?]
  | H : (_ || _)%bool = false |- _ => apply orb_false_iff in H as [? ?]
  | H : negb _ = true |- _ => apply negb_true_iff in H
  | H : negb _ = false |- _ => apply negb_false_iff in H
  | H : bool_decide _ = true |- _ => apply bool_decide_eq_true_1 in H
  | H : bool_decide _ = false |- _ => apply bool_decide_eq_false_1 in H
  end.

(** ** Lemmas on machine integers *)

Lemma u64_id z : is_u64 z -> u64 z = z.
Proof. unfold is_u64, u64. intros H. apply Z.mod_small. lia. Qed.

Lemma u64_range z : is_u64 (u64 z).
Proof. unfold is_u64, u64. apply Z.mod_pos_bound. lia. Qed.

Lemma i64_id z : is_i64 z -> i64 z = z.
Proof. unfold is_i64, i64. intros H. rewrite Z.mod_small; lia. Qed.

Lemma i64_range z : is_i64 (i64 z).
Proof.
  unfold is_i64, i64. pose proof (Z.mod_pos_bound (z + two63) two64). lia.
Qed.

#[export] Hint Resolve u64_range i64_range : golib.

(** Products with a nonnegative factor, for [lia]. *)
Lemma scale_le a b k : 0 <= k -> a <= b -> a * k <= b * k.
Proof. intros. by apply Z.mul_le_mono_nonneg_r. Qed.

Lemma scale_lt a b k : 0 < k -> a < b -> a * k < b * k.
Proof. intros. by apply Z.mul_lt_mono_pos_r. Qed.

Lemma le_div_iff a b c : 0 < b -> a * b <= c <-> a <= c / b.
Proof.
  intros Hb. split; intros H.
  - apply Z.div_le_lower_bound; lia.
  - pose proof (Z.mul_div_le c b Hb). pose proof (scale_le a (c / b) b). lia.
Qed.

Lemma Mul64_value x y :
  (Mul64 x y).1 * two64 + (Mul64 x y).2 = x * y.
Proof. unfold Mul64; simpl. pose proof (Z.div_mod (x * y) two64). lia. Qed.

Lemma Mul64_range x y :
  is_u64 x -> is_u64 y -> is_u64 (Mul64 x y).1 /\ is_u64 (Mul64 x y).2.
Proof.
  unfold is_u64, Mul64; simpl. intros Hx Hy. split.
  - split; [apply Z.div_pos; nia|]. apply Z.div_lt_upper_bound; nia.
  - apply Z.mod_pos_bound. lia.
Qed.

(** Adding a word to a double word, as the refill code does with [Add64]. *)
Lemma wide_add x y r :
  is_u64 x -> is_u64 y -> is_u64 r -> x * y + r < two64 * two64 ->
  let '(hi, lo) := Mul64 x y in
  let '(lo', carry) := Add64 lo r 0 in
  let '(hi', _) := Add64 hi carry 0 in
  hi' * two64 + lo' = x * y + r /\ is_u64 hi' /\ is_u64 lo'.
Proof.
  intros Hx Hy Hr Hb. pose proof (Mul64_value x y) as Hv.
  pose proof (Mul64_range x y Hx Hy) as [Hh Hl].
  destruct (Mul64 x y) as [hi lo]; simpl in *. unfold Add64, is_u64 in *.
  assert (0 <= hi + (lo + r + 0) / two64 + 0 < two64) as Hc by zlia.
  rewrite (Z.mod_small (hi + _ + 0)) by exact Hc. zlia.
Qed.

(** Subtracting a word from a double word, as the retry code does. *)
Lemma wide_sub x y r :
  is_u64 x -> is_u64 y -> is_u64 r -> r <= x * y ->
  let '(hi, lo) := Mul64 x y in
  let '(lo', borrow) := Sub64 lo r 0 in
  let '(hi', _) := Sub64 hi 0 borrow in
  hi' * two64 + lo' = x * y - r /\ is_u64 hi' /\ is_u64 lo'.
Proof.
  intros Hx Hy Hr Hb. pose proof (Mul64_value x y) as Hv.
  pose proof (Mul64_range x y Hx Hy) as [Hh Hl].
  destruct (Mul64 x y) as [hi lo]; simpl in *. unfold Sub64, is_u64 in *.
  destruct (Z.ltb_spec lo (r + 0)).
  - rewrite (Z.mod_small (hi - 0 - 1)) by lia. zlia.
  - rewrite (Z.mod_small (hi - 0 - 0)) by lia. zlia.
Qed.

(** Go's [/] truncates; on nonnegative operands it is the floor. *)
Lemma quot_nonneg a b : 0 <= a -> 0 < b -> a ÷ b = a / b.
Proof. intros. apply Z.quot_div_nonneg; lia. Qed.

(** ** Results, interface values and the effect monad *)

(** A fallible constructor: Go returns [(T, error)] with a zero [T] on error. *)
Inductive result (E A : Type) : Type :=
| Ok (a : A)
| Err (e : E).
Arguments Ok {E A} a.
Arguments Err {E A} e.

(** A Go interface value: the nil interface, an interface that holds a nil
    pointer (its methods still exist), or one that holds an object. *)
Inductive iface (A : Type) : Type :=
| nil_iface
| typed_nil (a : A)
| iface_of (a : A).
Arguments nil_iface {A}.
Arguments typed_nil {A} a.
Arguments iface_of {A} a.

Definition is_nil_iface {A} (i : iface A) : bool :=
  match i with nil_iface => true | _ => false end.

(** [isNilInterface] of the sources: nil or typed nil. *)
Definition isNilInterface {A} (i : iface A) : bool :=
  match i with iface_of _ => false | _ => true end.

(** A call over a world [W] of mutable state returns or panics, and either way
    leaves a new world behind. *)
Inductive outcome (A : Type) : Type :=
| Ret (a : A)
| Panic.
Arguments Ret {A} a.
Arguments Panic {A}.

Definition M (W A : Type) : Type := W -> outcome A * W.

Section Monad.
Context {W : Type}.

#[global] Instance M_ret : MRet (M W) := fun A a w => (Ret a, w).
#[global] Instance M_bind : MBind (M W) := fun A B k c w =>
  match c w with
  | (Ret a, w') => k a w'
  | (Panic, w') => (Panic, w')
  end.

(** An operation of the world that cannot panic. *)
Definition lift {A} (f : W -> A * W) : M W A :=
  fun w => let '(a, w') := f w in (Ret a, w').

Definition panic {A} : M W A := fun w => (Panic, w).

(** [defer func() { _ = recover() }()] around a call. *)
Definition recovered (c : M W unit) : M W unit := fun w =>
  (Ret tt, (c w).2).

(** A deferred closure over the named results: it runs on return and on panic
    (with the results assigned so far), and a panic continues after it. *)
Definition deferred {A} (zero : A) (body : M W A) (d : A -> M W A) : M W A :=
  fun w => match body w with
           | (Ret a, w') => d a w'
           | (Panic, w') => (Panic, (d zero w').2)
           end.

(** [defer func() { if recover() != nil { results = r } }()]. *)
Definition recover_with {A} (body handler : M W A) : M W A :=
  fun w => match body w with
           | (Ret a, w') => (Ret a, w')
           | (Panic, w') => handler w'
           end.

(** A call that returns normally from a world. *)
Definition returns {A} (c : M W A) (w : W) (a : A) (w' : W) : Prop :=
  c w = (Ret a, w').

Lemma bind_unfold {A B} (c : M W A) (k : A -> M W B) w :
  (c ≫= k) w = match c w with
               | (Ret a, w') => k a w'
               | (Panic, w') => (Panic, w')
               end.
Proof. reflexivity. Qed.

Lemma bind_ret_l {A B} (a : A) (k : A -> M W B) w :
  (mret a ≫= k) w = k a w.
Proof. reflexivity. Qed.

Lemma lift_returns {A} (f : W -> A * W) w a w' :
  returns (lift f) w a w' <-> f w = (a, w').
Proof. unfold returns, lift. destruct (f w). split; congruence. Qed.

Lemma ret_returns {A} (a b : A) w w' : returns (mret a) w b w' <-> a = b /\ w = w'.
Proof. unfold returns, mret, M_ret. split; [intros [=]; done | by intros [-> ->]]. Qed.

Lemma bind_returns {A B} (c : M W A) (k : A -> M W B) w b w'' :
  returns (c ≫= k) w b w'' <->
  exists a w', returns c w a w' /\ returns (k a) w' b w''.
Proof.
  unfold returns, mbind, M_bind. split.
  - destruct (c w) as [[a|] w']; [|discriminate]. eauto.
  - intros (a & w' & -> & H). exact H.
Qed.

(** A computation that returns from every world. *)
Definition total {A} (c : M W A) : Prop := forall w, exists a w', returns c w a w'.

Lemma total_no_panic {A} (c : M W A) : total c <-> forall w, (c w).1 <> Panic.
Proof.
  unfold total, returns. split; intros H w.
  - by destruct (H w) as (a & w' & ->).
  - specialize (H w). destruct (c w) as [[a|] w']; [eauto|done].
Qed.

Lemma total_bind {A B} (c : M W A) (k : A -> M W B) :
  total c -> (forall a, total (k a)) -> total (c ≫= k).
Proof.
  intros Hc Hk w. destruct (Hc w) as (a & w1 & H1). destruct (Hk a w1) as (b & w2 & H2).
  exists b, w2. apply bind_returns. eauto.
Qed.

Lemma total_ret {A} (a : A) : total (mret a).
Proof. intros w. exists a, w. by apply ret_returns. Qed.

Lemma total_lift {A} (f : W -> A * W) : total (lift f).
Proof. intros w. destruct (f w) as [a w'] eqn:E. exists a, w'. by apply lift_returns. Qed.

Lemma total_deferred {A} (zero : A) body d : total body -> (forall a, total (d a)) -> total (deferred zero body d).
Proof.
  intros Hb Hd w. destruct (Hb w) as (a & w1 & E). destruct (Hd a w1) as (b & w2 & E2). exists b, w2.
  unfold returns, deferred in *. by rewrite E.
Qed.

Lemma recovered_returns (c : M W unit) w : returns (recovered c) w tt (c w).2.
Proof. reflexivity. Qed.
End Monad.

#[export] Hint Resolve total_bind total_ret total_lift : golib.

Create Rewrite HintDb golib.
#[export] Hint Rewrite @bind_returns @ret_returns @lift_returns : golib.
