(* ===== verification/Float64.v ===== *)
(** * IEEE 754 binary64 arithmetic

    The numbers of the Lua scripts and Go's [float64]: every operation rounds
    its exact rational result to the nearest representable value, ties to even,
    with 53 bits of precision.  A finite nonzero value is a reduced rational.
    The second half shows where the arithmetic is exact: on integers within
    2^53, and for the floor of a quotient of such integers. *)

From Stdlib Require Import QArith Qround.
From S2P Require Import Prelude.

Local Open Scope Z_scope.

Inductive float64 :=
| Zero (negative : bool)
| Finite (q : Q)
| Inf (negative : bool)
| NaN.

(** The nearest integer to [n / d], ties to even. *)
Definition nearestEven (n d : Z) : Z :=
  let f := n / d in
  let r := n mod d in
  if 2 * r <? d then f else if d <? 2 * r then f + 1 else if Z.even f then f else f + 1.

(** [floor (log2 (n / d))] for positive [n] and [d]. *)
Definition logQuotient (n d : Z) : Z :=
  let k := Z.log2 n - Z.log2 d in
  if (if 0 <=? k then d * 2 ^ k <=? n else d <=? n * 2 ^ (- k)) then k else k - 1.

(** The exponent of the last bit of the values near [n / d]. *)
Definition lastBit (n d : Z) : Z := Z.max (logQuotient (Z.abs n) d - 52) (-1074).

(** [m * 2 ^ e]. *)
Definition dyadic (m e : Z) : Q :=
  if 0 <=? e then inject_Z (m * 2 ^ e) else Qmake m (Z.to_pos (2 ^ (- e))).

Definition roundRatio (n d : Z) : float64 :=
  if n =? 0 then Zero false else
  let e := lastBit n d in
  let m := if 0 <=? e then nearestEven n (d * 2 ^ e) else nearestEven (n * 2 ^ (- e)) d in
  if m =? 0 then Zero (n <? 0) else
  if 2 ^ (1024 - Z.max e 0) <=? Z.abs m then Inf (n <? 0) else Finite (Qred (dyadic m e)).

(** The double nearest to a rational. *)
Definition round64 (q : Q) : float64 := roundRatio (Qnum (Qred q)) (Z.pos (Qden (Qred q))).

Definition ofZ (z : Z) : float64 := round64 (inject_Z z).

(** ** Operations *)

Definition negative (x : float64) : bool :=
  match x with
  | Zero b | Inf b => b
  | Finite q => Qnum q <? 0
  | NaN => false
  end.

(** The exact value of a finite number. *)
Definition value (x : float64) : option Q :=
  match x with
  | Zero _ => Some 0%Q
  | Finite q => Some q
  | _ => None
  end.

Definition fopp (x : float64) : float64 :=
  match x with
  | Zero b => Zero (negb b)
  | Finite q => Finite (- q)
  | Inf b => Inf (negb b)
  | NaN => NaN
  end.

Definition fadd (x y : float64) : float64 :=
  match x, y with
  | NaN, _ | _, NaN => NaN
  | Inf a, Inf b => if Bool.eqb a b then Inf a else NaN
  | Inf a, _ => Inf a
  | _, Inf b => Inf b
  | Zero a, Zero b => Zero (a && b)
  | Zero _, y => y
  | x, Zero _ => x
  | Finite p, Finite q => round64 (p + q)
  end.

Definition fsub (x y : float64) : float64 := fadd x (fopp y).

Definition fmul (x y : float64) : float64 :=
  let sign := xorb (negative x) (negative y) in
  match x, y with
  | NaN, _ | _, NaN => NaN
  | Inf _, Zero _ | Zero _, Inf _ => NaN
  | Inf _, _ | _, Inf _ => Inf sign
  | Zero _, _ | _, Zero _ => Zero sign
  | Finite p, Finite q => round64 (p * q)
  end.

Definition fdiv (x y : float64) : float64 :=
  let sign := xorb (negative x) (negative y) in
  match x, y with
  | NaN, _ | _, NaN => NaN
  | Inf _, Inf _ | Zero _, Zero _ => NaN
  | Inf _, _ => Inf sign
  | _, Inf _ => Zero sign
  | Zero _, _ => Zero sign
  | _, Zero _ => Inf sign
  | Finite p, Finite q => round64 (p / q)
  end.

(** [None] when a NaN is involved. *)
Definition fcompare (x y : float64) : option comparison :=
  match x, y with
  | NaN, _ | _, NaN => None
  | Inf a, Inf b => Some (if Bool.eqb a b then Eq else if a then Lt else Gt)
  | Inf a, _ => Some (if a then Lt else Gt)
  | _, Inf b => Some (if b then Gt else Lt)
  | x, y => Some (Qcompare (default 0%Q (value x)) (default 0%Q (value y)))
  end.

Definition flt (x y : float64) : bool :=
  match fcompare x y with Some Lt => true | _ => false end.
Definition fle (x y : float64) : bool :=
  match fcompare x y with Some Lt | Some Eq => true | _ => false end.
Definition feq (x y : float64) : bool :=
  match fcompare x y with Some Eq => true | _ => false end.

(** An integral value; zero keeps the sign of what was rounded to it. *)
Definition integral (sign : bool) (z : Z) : float64 :=
  if z =? 0 then Zero sign else Finite (inject_Z z).

Definition ffloor (x : float64) : float64 :=
  match x with
  | Finite q => integral false (Qfloor q)
  | x => x
  end.

Definition fceil (x : float64) : float64 :=
  match x with
  | Finite q => integral (Qnum q <? 0) (Qceiling q)
  | x => x
  end.

(** Go's [int64] of a finite number truncates; what does not fit gives the
    smallest integer on amd64. *)
Definition toInt64 (x : float64) : Z :=
  match value x with
  | Some q =>
      let z := Z.quot (Qnum q) (Z.pos (Qden q)) in
      if (- two63 <=? z) && (z <? two63) then z else - two63
  | None => - two63
  end.

(** [time.Duration.Seconds]. *)
Definition Seconds (d : Z) : float64 :=
  fadd (ofZ (Z.quot d 1000000000)) (fdiv (ofZ (Z.rem d 1000000000)) (ofZ 1000000000)).

(** ** Rounding to the nearest integer *)

Abbreviation two53 := 9007199254740992.
Abbreviation two53p := 9007199254740992%positive.

Lemma nearestEven_cases n d :
  0 < d -> nearestEven n d = n / d /\ 2 * (n mod d) <= d \/
           nearestEven n d = n / d + 1 /\ d <= 2 * (n mod d).
Proof.
  intros Hd. unfold nearestEven. pose proof (Z.mod_pos_bound n d Hd).
  destruct (Z.ltb_spec (2 * (n mod d)) d); [lia|].
  destruct (Z.ltb_spec d (2 * (n mod d))); [lia|]. destruct (Z.even (n / d)); lia.
Qed.

Lemma nearestEven_error n d : 0 < d -> 2 * Z.abs (nearestEven n d * d - n) <= d.
Proof.
  intros Hd. pose proof (Z.div_mod n d ltac:(lia)). pose proof (Z.mod_pos_bound n d Hd).
  destruct (nearestEven_cases n d Hd) as [[-> ?]|[-> ?]]; lia.
Qed.

Lemma nearestEven_lower n d k : 0 < d -> k * d <= n -> k <= nearestEven n d.
Proof.
  intros Hd Hk. apply le_div_iff in Hk; [|done].
  destruct (nearestEven_cases n d Hd) as [[-> ?]|[-> ?]]; lia.
Qed.

Lemma nearestEven_upper n d k : 0 < d -> n <= k * d -> nearestEven n d <= k.
Proof.
  intros Hd Hk. pose proof (Z.div_mod n d ltac:(lia)). pose proof (Z.mod_pos_bound n d Hd).
  assert (n / d <= k) by (apply Z.div_le_upper_bound; lia).
  destruct (nearestEven_cases n d Hd) as [[-> ?]|[-> Hr]]; [lia|].
  destruct (Z.eq_dec (n / d) k) as [<-|]; lia.
Qed.

(** ** Rounding a ratio of integers within 53 bits *)

Lemma pow_shift a b : 0 <= a -> 0 <= b -> 2 ^ (a + b) = 2 ^ a * 2 ^ b.
Proof. intros. by apply Z.pow_add_r. Qed.

(** [2 ^ logQuotient <= n / d < 2 ^ (logQuotient + 1)], scaled by any [2 ^ j]. *)
Lemma logQuotient_lower n d j :
  0 < n -> 0 < d -> 0 <= j -> 0 <= j + logQuotient n d ->
  d * 2 ^ (j + logQuotient n d) <= n * 2 ^ j.
Proof.
  intros Hn Hd Hj. unfold logQuotient.
  pose proof (Z.log2_spec n Hn) as [Hn1 _]. pose proof (Z.log2_spec d Hd) as [_ Hd2].
  pose proof (Z.log2_nonneg n). pose proof (Z.log2_nonneg d).
  set (k := Z.log2 n - Z.log2 d) in *. pose proof (Z.pow_nonneg 2 j ltac:(lia)) as Hp.
  destruct (if 0 <=? k then d * 2 ^ k <=? n else d <=? n * 2 ^ (- k)) eqn:E; intros Hs.
  - destruct (Z.leb_spec 0 k); apply Z.leb_le in E.
    + rewrite Z.add_comm, pow_shift by lia. pose proof (scale_le _ _ (2 ^ j) Hp E). lia.
    + pose proof (scale_le _ _ (2 ^ (j + k)) ltac:(apply Z.pow_nonneg; lia) E) as Hm.
      replace (2 ^ j) with (2 ^ (- k) * 2 ^ (j + k)); [lia|].
      rewrite <- pow_shift by lia. f_equal. lia.
  - assert (d * 2 ^ (j + (k - 1)) <= 2 ^ Z.succ (Z.log2 d) * 2 ^ (j + (k - 1))) as H2
      by (apply scale_le; [apply Z.pow_nonneg|]; lia).
    rewrite <- pow_shift in H2 by lia.
    replace (Z.succ (Z.log2 d) + (j + (k - 1))) with (Z.log2 n + j) in H2 by lia.
    rewrite (pow_shift (Z.log2 n)) in H2 by lia. pose proof (scale_le _ _ (2 ^ j) Hp Hn1). lia.
Qed.

Lemma logQuotient_upper n d j :
  0 < n -> 0 < d -> 0 <= j -> 0 <= j + logQuotient n d + 1 ->
  n * 2 ^ j < d * 2 ^ (j + logQuotient n d + 1).
Proof.
  intros Hn Hd Hj. unfold logQuotient.
  pose proof (Z.log2_spec n Hn) as [_ Hn2]. pose proof (Z.log2_spec d Hd) as [Hd1 _].
  pose proof (Z.log2_nonneg n). pose proof (Z.log2_nonneg d).
  set (k := Z.log2 n - Z.log2 d) in *. pose proof (Z.pow_pos_nonneg 2 j ltac:(lia) Hj) as Hp.
  destruct (if 0 <=? k then d * 2 ^ k <=? n else d <=? n * 2 ^ (- k)) eqn:E; intros Hs.
  - pose proof (scale_le _ _ (2 ^ (j + k + 1)) ltac:(apply Z.pow_nonneg; lia) Hd1) as Hm.
    rewrite <- pow_shift in Hm by lia.
    replace (Z.log2 d + (j + k + 1)) with (Z.succ (Z.log2 n) + j) in Hm by lia.
    rewrite (pow_shift (Z.succ (Z.log2 n))) in Hm by lia.
    pose proof (scale_lt _ _ _ Hp Hn2). lia.
  - replace (j + (k - 1) + 1) with (j + k) in * by lia.
    destruct (Z.leb_spec 0 k); apply Z.leb_gt in E.
    + rewrite Z.add_comm, pow_shift by lia.
      pose proof (scale_lt _ _ _ Hp E). lia.
    + pose proof (scale_lt _ _ (2 ^ (j + k)) ltac:(apply Z.pow_pos_nonneg; lia) E) as Hlt. rewrite <- Z.mul_assoc, <- pow_shift in Hlt by lia.
      by replace (- k + (j + k)) with j in Hlt by lia.
Qed.

(** [n / d] lies strictly within 53 bits and far above the smallest double. *)
Definition in_scale (n d : Z) : Prop := 0 < d /\ 0 < n < two53 * d /\ d <= n * 2 ^ 1000.

Lemma logQuotient_range n d : in_scale n d -> -1001 <= logQuotient n d <= 52.
Proof.
  intros (Hd & [Hn Hu] & Hl). set (k := logQuotient n d). split.
  - destruct (Z.le_gt_cases (-1001) k) as [|Hk]; [done|exfalso].
    pose proof (logQuotient_upper n d (- k - 1) Hn Hd ltac:(lia)) as H. fold k in H.
    replace (- k - 1 + k + 1) with 0 in H by lia. specialize (H ltac:(lia)).
    assert (2 ^ 1000 <= 2 ^ (- k - 1)) as Hp by (apply Z.pow_le_mono_r; lia).
    pose proof (scale_le _ _ n ltac:(lia) Hp). lia.
  - destruct (Z.le_gt_cases k 52) as [|Hk]; [done|exfalso].
    pose proof (logQuotient_lower n d 0 Hn Hd ltac:(lia)) as H. fold k in H.
    specialize (H ltac:(lia)). rewrite Z.add_0_l, Z.mul_1_r in H.
    assert (2 ^ 53 <= 2 ^ k) as Hp by (apply Z.pow_le_mono_r; lia).
    pose proof (scale_le _ _ d ltac:(lia) Hp). lia.
Qed.

(** The double [m / 2 ^ j] that [n / d] rounds to, and how far it is. *)
Record nearest (n d m j : Z) : Prop := {
  ne_scale : 0 <= j;
  ne_nonzero : m <> 0;
  ne_low : d * 2 ^ 52 <= Z.abs n * 2 ^ j;
  ne_high : Z.abs n * 2 ^ j < d * 2 ^ 53;
  ne_is : m = nearestEven (n * 2 ^ j) d
}.

Lemma roundRatio_nearest n d :
  in_scale (Z.abs n) d ->
  exists m j, nearest n d m j /\ roundRatio n d = Finite (Qred (dyadic m (- j))).
Proof.
  intros Hr. pose proof (logQuotient_range _ _ Hr) as Hk. destruct Hr as (Hd & [Hn Hb] & _).
  set (k := logQuotient (Z.abs n) d) in *. set (j := 52 - k). set (m := nearestEven (n * 2 ^ j) d).
  assert (lastBit n d = - j) as He by (unfold lastBit; fold k; lia).
  pose proof (logQuotient_lower (Z.abs n) d j Hn Hd ltac:(lia)) as Hlo. fold k in Hlo.
  replace (j + k) with 52 in Hlo by lia. specialize (Hlo ltac:(lia)).
  pose proof (logQuotient_upper (Z.abs n) d j Hn Hd ltac:(lia)) as Hhi. fold k in Hhi.
  replace (j + k + 1) with 53 in Hhi by lia. specialize (Hhi ltac:(lia)).
  assert (0 < 2 ^ j) as Hj by (apply Z.pow_pos_nonneg; lia).
  pose proof (nearestEven_error (n * 2 ^ j) d Hd) as Herr. fold m in Herr.
  assert (Z.abs (n * 2 ^ j) = Z.abs n * 2 ^ j) as Habs by (rewrite Z.abs_mul; lia).
  assert (m <> 0) as Hm0 by (intros E; rewrite E in Herr; lia).
  assert (Z.abs m <= 2 ^ 53 + 1) as Hm.
  { apply (Z.mul_le_mono_pos_r _ _ d Hd). rewrite <- (Z.abs_eq d) at 1 by lia.
    rewrite <- Z.abs_mul. lia. }
  exists m, j. split; [by constructor; [lia|..]|].
  unfold roundRatio. rewrite He. destruct (Z.eqb_spec n 0); [lia|].
  assert ((if 0 <=? - j then nearestEven n (d * 2 ^ (- j)) else nearestEven (n * 2 ^ (- - j)) d) = m) as ->.
  { destruct (Z.leb_spec 0 (- j)).
    - unfold m. assert (j = 0) as -> by lia. by rewrite !Z.mul_1_r.
    - by rewrite Z.opp_involutive. }
  destruct (Z.eqb_spec m 0); [done|]. rewrite Z.max_r by lia.
  destruct (Z.leb_spec (2 ^ (1024 - 0)) (Z.abs m)) as [Hov|]; [|done].
  assert (2 ^ 53 + 1 < 2 ^ (1024 - 0)) by (vm_compute; reflexivity). lia.
Qed.

Section Nearest.
Context (n d m j : Z).
Hypothesis Hd : 0 < d.
Hypothesis H : nearest n d m j.

(** Rounding keeps the order with every integer. *)
Lemma nearest_lower k : k * d <= n -> k * 2 ^ j <= m.
Proof.
  destruct H as [Hj _ _ _ ->]. intros Hx. apply nearestEven_lower; [done|].
  pose proof (scale_le _ _ (2 ^ j) ltac:(apply Z.pow_nonneg; lia) Hx). lia.
Qed.

Lemma nearest_upper k : n <= k * d -> m <= k * 2 ^ j.
Proof.
  destruct H as [Hj _ _ _ ->]. intros Hx. apply nearestEven_upper; [done|].
  pose proof (scale_le _ _ (2 ^ j) ltac:(apply Z.pow_nonneg; lia) Hx). lia.
Qed.

Lemma nearest_error : 2 * Z.abs (m * d - n * 2 ^ j) <= d.
Proof. destruct H as [_ _ _ _ ->]. by apply nearestEven_error. Qed.

(** Integers within 53 bits leave a gap wider than the rounding error. *)
Lemma nearest_below k : Z.abs n < two53 -> n < k * d -> m < k * 2 ^ j.
Proof.
  intros Hb Hx. destruct (Z.lt_ge_cases m (k * 2 ^ j)) as [|Hge]; [done|exfalso].
  pose proof nearest_error as Herr. destruct H as [Hj _ Hlo _ _].
  assert (0 < 2 ^ j) by (apply Z.pow_pos_nonneg; lia).
  pose proof (scale_le _ _ d ltac:(lia) Hge). pose proof (scale_le (n + 1) (k * d) (2 ^ j) ltac:(lia) ltac:(lia)).
  pose proof (scale_le (Z.abs n) (two53 - 1) (2 ^ j) ltac:(lia) ltac:(lia)).
  change (2 ^ 52) with 4503599627370496 in Hlo. lia.
Qed.
End Nearest.

Lemma small_in_scale n d : 0 < n < two53 -> 0 < d <= two53 -> in_scale n d.
Proof.
  intros Hn Hd. split_and!; [lia..|].
  assert (two53 <= 2 ^ 1000) by (vm_compute; discriminate).
  pose proof (scale_le 1 n (2 ^ 1000) ltac:(lia) ltac:(lia)). lia.
Qed.

(** ** Integers *)

Lemma Qred_Z z : Qred (inject_Z z) = inject_Z z.
Proof.
  unfold Qred, inject_Z. pose proof (Z.ggcd_gcd z 1) as Hg.
  pose proof (Z.ggcd_correct_divisors z 1) as Hd. destruct (Z.ggcd z 1) as [g [a b]].
  simpl in *. rewrite Z.gcd_1_r in Hg. subst g. destruct Hd as [-> Hb].
  by rewrite !Z.mul_1_l in *; subst b.
Qed.

Lemma Qred_factor q :
  exists g, 0 < g /\ Qnum q = g * Qnum (Qred q) /\ Z.pos (Qden q) = g * Z.pos (Qden (Qred q)).
Proof.
  destruct q as [n d]. unfold Qred. simpl.
  pose proof (Z.ggcd_correct_divisors n (Z.pos d)) as Hd. pose proof (Z.ggcd_gcd n (Z.pos d)) as Hg.
  destruct (Z.ggcd n (Z.pos d)) as [g [aa bb]]. simpl in *. destruct Hd as [Ha Hb].
  pose proof (Z.gcd_nonneg n (Z.pos d)). assert (0 < g) by (destruct (Z.eq_dec g 0); subst; lia).
  assert (0 < bb) by (apply (Z.mul_pos_cancel_l g); lia).
  exists g. rewrite Z2Pos.id by done. done.
Qed.

Lemma round64_proper p q : (p == q)%Q -> round64 p = round64 q.
Proof. intros H. unfold round64. by rewrite (Qred_complete _ _ H). Qed.

Lemma dyadic_int m j : 0 <= j -> (dyadic (m * 2 ^ j) (- j) == inject_Z m)%Q.
Proof.
  intros Hj. unfold dyadic. assert (0 < 2 ^ j) by (apply Z.pow_pos_nonneg; lia).
  destruct (Z.leb_spec 0 (- j)).
  - assert (j = 0) as -> by lia. simpl. by rewrite !Z.mul_1_r.
  - unfold Qeq. simpl. rewrite Z.opp_involutive, Z2Pos.id by done. lia.
Qed.

Lemma floor_dyadic m j : 0 <= j -> Qfloor (Qred (dyadic m (- j))) = m / 2 ^ j.
Proof.
  intros Hj. rewrite (Qfloor_comp _ _ (Qred_correct _)). unfold dyadic.
  assert (0 < 2 ^ j) by (apply Z.pow_pos_nonneg; lia).
  destruct (Z.leb_spec 0 (- j)).
  - assert (j = 0) as -> by lia. rewrite Qfloor_Z. change (2 ^ (- 0)) with 1. by rewrite Z.mul_1_r, Z.div_1_r.
  - simpl. by rewrite Z.opp_involutive, Z2Pos.id.
Qed.

Lemma ofZ_exact z : Z.abs z <= two53 -> ofZ z = integral false z.
Proof.
  intros Hz. unfold ofZ, round64, integral. rewrite Qred_Z. simpl.
  destruct (Z.eqb_spec z 0) as [->|Hn]; [done|].
  destruct (Z.eq_dec z two53) as [->|]; [done|]. destruct (Z.eq_dec z (- two53)) as [->|]; [done|].
  destruct (roundRatio_nearest z 1) as (m & j & Hne & ->); [apply small_in_scale; lia|].
  pose proof (ne_scale _ _ _ _ Hne) as Hj.
  pose proof (nearest_lower z 1 m j ltac:(lia) Hne z). pose proof (nearest_upper z 1 m j ltac:(lia) Hne z).
  assert (m = z * 2 ^ j) as -> by lia.
  by rewrite (Qred_complete _ _ (dyadic_int z j Hj)), Qred_Z.
Qed.

Lemma ofZ_value z : Z.abs z <= two53 -> value (ofZ z) = Some (inject_Z z).
Proof. intros. rewrite ofZ_exact by done. unfold integral. by destruct (Z.eqb_spec z 0) as [->|]. Qed.

Lemma ofZ_cases z : Z.abs z <= two53 ->
  ofZ z = Zero false /\ z = 0 \/ ofZ z = Finite (inject_Z z) /\ z <> 0.
Proof. intros. rewrite ofZ_exact by done. unfold integral. destruct (Z.eqb_spec z 0); auto. Qed.

Lemma ofZ_nonzero z : Z.abs z <= two53 -> z <> 0 -> ofZ z = Finite (inject_Z z).
Proof. intros Hz Hn. by destruct (ofZ_cases z Hz) as [[_ ->]|[-> _]]. Qed.

Lemma toInt64_Z z : Z.abs z <= two53 -> toInt64 (ofZ z) = z.
Proof.
  intros Hz. unfold toInt64. rewrite ofZ_value by done. cbn [Qnum Qden inject_Z]. rewrite Z.quot_1_r.
  by rewrite (proj2 (Z.leb_le _ _)), (proj2 (Z.ltb_lt _ _)) by lia.
Qed.

(** Integral values of [Finite] denote [ofZ]. *)
Lemma round64_Z q z : (q == inject_Z z)%Q -> round64 q = ofZ z.
Proof. intros H. by apply round64_proper. Qed.

Section Exact.
Context (a b : Z).
Hypothesis Ha : Z.abs a <= two53.
Hypothesis Hb : Z.abs b <= two53.

Lemma fadd_Z : fadd (ofZ a) (ofZ b) = ofZ (a + b).
Proof.
  destruct (ofZ_cases a Ha) as [[-> ->]|[-> ?]], (ofZ_cases b Hb) as [[-> ->]|[-> ?]]; simpl.
  - done.
  - by rewrite Z.add_0_l, ofZ_nonzero.
  - by rewrite Z.add_0_r, ofZ_nonzero.
  - apply round64_Z. by rewrite inject_Z_plus.
Qed.

Lemma fsub_Z : fsub (ofZ a) (ofZ b) = ofZ (a - b).
Proof.
  unfold fsub. destruct (ofZ_cases a Ha) as [[-> ->]|[-> ?]], (ofZ_cases b Hb) as [[-> ->]|[-> ?]]; simpl.
  - done.
  - by rewrite Z.sub_0_l, ofZ_nonzero by lia.
  - by rewrite Z.sub_0_r, ofZ_nonzero.
  - apply round64_Z. unfold Z.sub. by rewrite inject_Z_plus, inject_Z_opp.
Qed.

(** A product with a nonnegative factor has the sign of the other. *)
Lemma fmul_Z : 0 <= b -> (a < 0 -> b <> 0) -> fmul (ofZ a) (ofZ b) = ofZ (a * b).
Proof.
  intros Hnn Hneg. destruct (ofZ_cases a Ha) as [[-> ->]|[-> ?]], (ofZ_cases b Hb) as [[-> ->]|[-> ?]]; simpl.
  - done.
  - destruct (Z.ltb_spec b 0); [lia|]. done.
  - rewrite Z.mul_0_r. destruct (Z.ltb_spec a 0); [|done]. by destruct (Hneg H0).
  - apply round64_Z. by rewrite inject_Z_mult.
Qed.

Lemma fcompare_Z : fcompare (ofZ a) (ofZ b) = Some (a ?= b).
Proof.
  assert (fcompare (ofZ a) (ofZ b) = Some (inject_Z a ?= inject_Z b)%Q) as ->.
  { destruct (ofZ_cases a Ha) as [[-> ->]|[-> ?]], (ofZ_cases b Hb) as [[-> ->]|[-> ?]]; done. }
  unfold Qcompare. simpl. by rewrite !Z.mul_1_r.
Qed.

Lemma flt_Z : flt (ofZ a) (ofZ b) = (a <? b).
Proof. unfold flt. rewrite fcompare_Z. unfold Z.ltb. by destruct (a ?= b). Qed.

Lemma fle_Z : fle (ofZ a) (ofZ b) = (a <=? b).
Proof. unfold fle. rewrite fcompare_Z. unfold Z.leb. by destruct (a ?= b). Qed.

Lemma feq_Z : feq (ofZ a) (ofZ b) = (a =? b).
Proof.
  unfold feq. rewrite fcompare_Z. destruct (Z.compare_spec a b); destruct (Z.eqb_spec a b); done || lia.
Qed.

(** The rounded quotient of integers within 53 bits never crosses an integer. *)
Lemma ffloor_div : 0 < b -> Z.abs a < two53 -> ffloor (fdiv (ofZ a) (ofZ b)) = ofZ (a / b).
Proof.
  intros Hpos Hlt. destruct (ofZ_cases a Ha) as [[-> ->]|[-> Hn]], (ofZ_cases b Hb) as [[-> ->]|[-> ?]]; try lia; simpl.
  { destruct (Z.ltb_spec b 0); [lia|]. done. }
  set (q := (inject_Z a / inject_Z b)%Q).
  assert (Qnum q = a /\ Z.pos (Qden q) = b) as [Eq1 Eq2].
  { unfold q, Qdiv, Qinv, inject_Z, Qmult. simpl. destruct b; simpl; lia. }
  destruct (Qred_factor q) as (g & Hg & Hnum & Hden). unfold round64.
  set (n := Qnum (Qred q)) in *. set (d := Qden (Qred q)) in *.
  assert (Z.abs n <= Z.abs a /\ n <> 0 /\ Z.pos d <= b) as (Hn1 & Hn2 & Hd1).
  { rewrite <- Eq1, <- Eq2, Hnum, Hden, Z.abs_mul. split_and!; [nia|intros E; rewrite E in Hnum; lia|nia]. }
  destruct (roundRatio_nearest n (Z.pos d)) as (m & j & Hne & ->); [apply small_in_scale; lia|].
  pose proof (ne_scale _ _ _ _ Hne) as Hj.
  simpl. rewrite floor_dyadic by done. assert (0 < 2 ^ j) by (apply Z.pow_pos_nonneg; lia).
  assert (a / b = n / Z.pos d) as ->.
  { rewrite <- Eq1, <- Eq2, Hnum, Hden. apply Z.div_mul_cancel_l; lia. }
  assert (m / 2 ^ j = n / Z.pos d) as ->.
  { apply Z.le_antisymm.
    - apply Z.lt_succ_r, Z.div_lt_upper_bound; [done|].
      rewrite Z.mul_comm. apply (nearest_below n (Z.pos d)); [done..|lia|]. pose proof (Z.mul_succ_div_gt n (Z.pos d)). lia.
    - apply le_div_iff; [done|]. apply (nearest_lower n (Z.pos d)); [done..|]. pose proof (Z.mul_div_le n (Z.pos d)). lia. }
  rewrite ofZ_exact; [done|]. apply Z.abs_le.
  split; [apply Z.div_le_lower_bound|apply Z.div_le_upper_bound]; lia.
Qed.

Lemma ffloor_Z : ffloor (ofZ a) = ofZ a.
Proof.
  destruct (ofZ_cases a Ha) as [[-> ->]|[E Hn]]; [done|]. rewrite E. unfold ffloor.
  rewrite Qfloor_Z. unfold integral. by destruct (Z.eqb_spec a 0).
Qed.
End Exact.

(** Integers past 53 bits stay past them. *)
Lemma ofZ_large z :
  two53 <= z -> z < 2 ^ 64 -> fle (ofZ two53) (ofZ z) = true.
Proof.
  intros Hl Hu. unfold ofZ at 2, round64. rewrite Qred_Z. cbn [Qnum Qden inject_Z].
  unfold roundRatio. destruct (Z.eqb_spec z 0); [lia|].
  assert (53 <= Z.log2 z < 64) as Hlog.
  { split; [by apply Z.log2_le_pow2; [lia|]|apply Z.log2_lt_pow2; lia]. }
  assert (lastBit z 1 = Z.log2 z - 52) as ->.
  { unfold lastBit, logQuotient. rewrite Z.abs_eq by lia. change (Z.log2 1) with 0.
    destruct (Z.leb_spec 0 (Z.log2 z - 0)); [|lia].
    pose proof (Z.log2_spec z ltac:(lia)). rewrite Z.sub_0_r. destruct (Z.leb_spec (1 * 2 ^ Z.log2 z) z); lia. }
  set (e := Z.log2 z - 52). destruct (Z.leb_spec 0 e); [|lia].
  set (m := nearestEven z (1 * 2 ^ e)).
  assert (2 ^ (53 - e) * 2 ^ e = two53) as Hp.
  { rewrite <- pow_shift by lia. by replace (53 - e + e) with 53 by lia. }
  assert (0 < 2 ^ e) by (apply Z.pow_pos_nonneg; lia).
  assert (0 < 2 ^ (53 - e)) by (apply Z.pow_pos_nonneg; lia).
  assert (2 ^ (53 - e) <= m) as Hm by (apply nearestEven_lower; lia).
  assert (m <= z) as Hmz by (apply nearestEven_upper; [lia|]; nia).
  destruct (Z.eqb_spec m 0); [lia|].
  destruct (Z.leb_spec (2 ^ (1024 - Z.max e 0)) (Z.abs m)) as [Hov|].
  { exfalso. assert (2 ^ 64 <= 2 ^ (1024 - Z.max e 0)) by (apply Z.pow_le_mono_r; lia). lia. }
  unfold fle. change (ofZ two53) with (Finite (inject_Z two53)). simpl fcompare.
  assert ((inject_Z two53 ?= Qred (dyadic m e))%Q <> Gt) as Hc.
  { apply (proj1 (Qle_alt _ _)). rewrite Qred_correct. unfold dyadic. destruct (Z.leb_spec 0 e); [|lia].
    unfold Qle. simpl Qnum. simpl Qden. pose proof (scale_le _ _ (2 ^ e) ltac:(lia) Hm). lia. }
  by destruct (inject_Z two53 ?= Qred (dyadic m e))%Q.
Qed.

(** ** Rationals *)

(** The double nearest to a positive rational below 2^53, between integers. *)
Lemma round64_nearest q :
  (0 < q)%Q -> (q < inject_Z two53)%Q -> (1 <= q * inject_Z (2 ^ 100))%Q ->
  exists n d m j, 0 < d /\ (q == n # Z.to_pos d)%Q /\ nearest n d m j /\
    round64 q = Finite (Qred (dyadic m (- j))).
Proof.
  intros Hpos Hup Hlow. unfold round64. pose proof (Qred_correct q) as Hr.
  set (n := Qnum (Qred q)). set (d := Qden (Qred q)).
  assert (q == n # d)%Q as Hq by (rewrite <- Hr; unfold n, d; by destruct (Qred q)).
  assert (in_scale (Z.abs n) (Z.pos d)) as Hs.
  { rewrite Hq in Hpos, Hup, Hlow. unfold Qlt, Qle, Qmult, inject_Z in Hpos, Hup, Hlow. simpl Qnum in *. simpl Qden in *.
    rewrite Z.mul_1_r in *. rewrite Pos.mul_1_r in Hlow. rewrite Z.mul_1_l in *.
    assert (2 ^ 100 <= 2 ^ 1000) as Hp by (vm_compute; discriminate).
    split_and!; [lia..|]. rewrite Z.abs_eq by lia.
    pose proof (Z.mul_le_mono_nonneg_l (2 ^ 100) (2 ^ 1000) n ltac:(lia) Hp). lia. }
  destruct (roundRatio_nearest n (Z.pos d) Hs) as (m & j & Hne & E).
  exists n, (Z.pos d), m, j. split_and!; [done|exact Hq|exact Hne|exact E].
Qed.

(** Rounding keeps the order with integers and is off by at most one part in
    2^53. *)
Lemma round64_spec q :
  (0 < q)%Q -> (q < inject_Z two53)%Q -> (1 <= q * inject_Z (2 ^ 100))%Q ->
  exists v, round64 q = Finite (Qred v) /\
    (forall k, inject_Z k <= q -> inject_Z k <= v)%Q /\ (forall k, q <= inject_Z k -> v <= inject_Z k)%Q /\
    (q - q * (1 # two53p) <= v <= q + q * (1 # two53p))%Q.
Proof.
  intros Hpos Hup Hlow. destruct (round64_nearest q Hpos Hup Hlow) as (n & d & m & j & Hd & Hq & Hne & E).
  exists (m # Z.to_pos (2 ^ j)). pose proof (ne_scale _ _ _ _ Hne) as Hj.
  assert (0 < 2 ^ j) as Hp by (apply Z.pow_pos_nonneg; lia).
  split; [|split; [|split]].
  - rewrite E. f_equal. apply Qred_complete. unfold dyadic. destruct (Z.leb_spec 0 (- j)).
    + assert (j = 0) as -> by lia. unfold Qeq. simpl. lia.
    + by rewrite Z.opp_involutive.
  - intros k. rewrite Hq. unfold Qle. simpl. rewrite !Z2Pos.id, !Z.mul_1_r by done.
    by apply nearest_lower.
  - intros k. rewrite Hq. unfold Qle. simpl. rewrite !Z2Pos.id, !Z.mul_1_r by done.
    by apply nearest_upper.
  - pose proof (nearest_error n d m j Hd Hne) as He. destruct Hne as [_ _ Hlo _ _].
    change (2 ^ 52) with 4503599627370496 in Hlo.
    assert (0 < n) as Hn.
    { rewrite Hq in Hpos. unfold Qlt in Hpos. simpl in Hpos. lia. }
    rewrite Z.abs_eq in Hlo by lia. rewrite Hq. unfold Qle, Qminus, Qplus, Qopp, Qmult. simpl Qnum. simpl Qden.
    rewrite !Pos2Z.inj_mul, !Z2Pos.id by done. split; nia.
Qed.

Lemma flt_large k z : Z.abs k < two53 -> two53 <= z < 2 ^ 64 -> flt (ofZ k) (ofZ z) = true.
Proof.
  intros Hk [Hl Hu]. pose proof (ofZ_large z Hl Hu) as Hle. change (ofZ two53) with (Finite (inject_Z two53)) in Hle.
  assert (forall q, ofZ z = Finite q -> inject_Z k < q)%Q as Hlt.
  { intros q E. rewrite E in Hle. apply (Qlt_le_trans _ (inject_Z two53)); [rewrite <- Zlt_Qlt; lia|].
    unfold fle in Hle. simpl in Hle. apply (proj2 (Qle_alt _ _)). by destruct (_ ?= q)%Q. }
  unfold flt. destruct (ofZ_cases k ltac:(lia)) as [[-> ->]|[-> _]];
    destruct (ofZ z) as [b|q|[]|]; try done;
    exact (f_equal (fun c => match c with Lt => true | _ => false end) (proj1 (Qlt_alt _ _) (Hlt q eq_refl))).
Qed.

Lemma flt_asym x y : flt x y = true -> flt y x = false.
Proof.
  unfold flt. assert (forall q r : Q, match (q ?= r)%Q with Lt => true | _ => false end = true ->
    match (r ?= q)%Q with Lt => true | _ => false end = false) as HQ.
  { intros q r. rewrite <- (Qcompare_antisym r q). by destruct (r ?= q)%Q. }
  destruct x as [b|q|[]|], y as [b'|q'|[]|]; try done; exact (HQ _ _).
Qed.
