(* ===== verification/GoTime.v ===== *)
(** * Go's [time] package, as far as the limiter uses it

    A [Duration] is an [int64] of nanoseconds.  A [Time] is an instant in
    nanoseconds since the Unix epoch together with its location, which [==] on
    structs compares and [Equal], [Before] and [After] ignore.  Monotonic clock
    readings are not modelled: the code under verification strips them (with
    [UnixMicro] or [Truncate]) before it stores or compares an instant. *)

From S2P Require Import Prelude.

Local Open Scope Z_scope.
Local Open Scope go_scope.

Definition Duration := Z.

Abbreviation Nanosecond := 1.
Abbreviation Microsecond := 1000.
Abbreviation Millisecond := 1000000.
Abbreviation Second := 1000000000.

Inductive Location := UTC | Local | Zone (id : nat).

Record Time := mkTime { instant : Z; location : Location }.

#[global] Instance Location_eq_dec : EqDecision Location.
Proof. solve_decision. Defined.
#[global] Instance Time_eq_dec : EqDecision Time.
Proof. solve_decision. Defined.

(** [time.Time{}] is 1 January of year 1, UTC. *)
Abbreviation zero_instant := (-62135596800000000000).
Definition zeroTime : Time := mkTime zero_instant UTC.

Definition IsZero (t : Time) : bool := instant t =? zero_instant.
Definition Equal (t u : Time) : bool := instant t =? instant u.
Definition Before (t u : Time) : bool := instant t <? instant u.
Definition After (t u : Time) : bool := instant u <? instant t.

Definition Add (t : Time) (d : Duration) : Time := mkTime (instant t + d) (location t).
(** [t.Sub(u)] saturates at the ends of the [int64] range. *)
Definition Sub (t u : Time) : Duration :=
  Z.max (- two63) (Z.min MaxInt64 (instant t - instant u)).
Definition toUTC (t : Time) : Time := mkTime (instant t) UTC.

(** [t.UnixNano()] and [t.UnixMicro()] wrap outside the [int64] range. *)
Definition UnixNano (t : Time) : Z := i64 (instant t).
Definition UnixMicro (t : Time) : Z := i64 (instant t / 1000).
(** [time.Unix(0, ns)] and [time.UnixMicro(us)]. *)
Definition ofUnixNano (ns : Z) : Time := mkTime ns Local.
Definition ofUnixMicro (us : Z) : Time := mkTime (us * 1000) Local.
(** [t.Truncate(time.Microsecond)] rounds down (the zero time is a whole second). *)
Definition TruncateMicro (t : Time) : Time := mkTime (instant t / 1000 * 1000) (location t).

(** [d.Microseconds()] is an integer division. *)
Definition Microseconds (d : Duration) : Z := d ÷ 1000.

Lemma Microseconds_exact d : d mod 1000 = 0 -> Microseconds d * 1000 = d.
Proof. unfold Microseconds. intros H. qlia. Qed.

Lemma Microseconds_nonneg d : 0 <= d -> Microseconds d = d / 1000.
Proof. unfold Microseconds. intros H. apply quot_nonneg; lia. Qed.

Lemma Sub_small t u :
  is_i64 (instant t - instant u) -> Sub t u = instant t - instant u.
Proof. unfold Sub, is_i64. lia. Qed.

Lemma UnixMicro_small t :
  is_i64 (instant t / 1000) -> UnixMicro t = instant t / 1000.
Proof. apply i64_id. Qed.

(** Both ways of stripping sub-microsecond precision give the same instant. *)
Lemma micro_normalizations_agree t :
  is_i64 (instant t / 1000) ->
  toUTC (ofUnixMicro (UnixMicro t)) = toUTC (TruncateMicro t).
Proof. intros H. unfold toUTC, ofUnixMicro. rewrite UnixMicro_small by done. done. Qed.
