(* ===== verification/Errors.v ===== *)
(** * Error values: errors.go and strict_errors.go

    A Go [error] is [option error]: [None] is nil.  Sentinels made by
    [errors.New] are compared by identity ([ErrInvalidClientIP] is that of
    adapters/http); every other constructor is one of the error types the packages
    declare ([persistedStateError] is that of postgres), [fmt.Errorf] with [%w]
    verbs, [errors.Join], or an error of foreign code whose [Is] and [Unwrap]
    methods answer for an arbitrary list of sentinels. *)

From S2P Require Import Prelude.

Local Open Scope Z_scope.
Local Open Scope string_scope.

(** ** Sentinels *)

Inductive Sentinel :=
| ErrRejected | ErrInvalidPolicy | ErrInvalidKey | ErrInvalidRequest
| ErrUnavailable | ErrDeadline | ErrOverflow | ErrCorrupt | ErrUnsupported
| ErrLeaseNotFound | ErrLeaseNotOwned
| ErrCanceled | ErrOutcomeUnknown
| ErrInvalidClientIP
| CtxCanceled | CtxDeadlineExceeded.

#[global] Instance Sentinel_eq_dec : EqDecision Sentinel.
Proof. solve_decision. Defined.

Definition sentinelText (s : Sentinel) : string :=
  match s with
  | ErrRejected => "rate limit rejected"
  | ErrInvalidPolicy => "invalid rate limit policy"
  | ErrInvalidKey => "invalid rate limit key"
  | ErrInvalidRequest => "invalid rate limit request"
  | ErrUnavailable => "rate limit backend unavailable"
  | ErrDeadline => "rate limit deadline exceeded"
  | ErrOverflow => "rate limit arithmetic overflow"
  | ErrCorrupt => "rate limit state corrupt"
  | ErrUnsupported => "rate limit operation unsupported"
  | ErrLeaseNotFound => "rate limit lease not found"
  | ErrLeaseNotOwned => "rate limit lease not owned"
  | ErrCanceled => "rate limit canceled"
  | ErrOutcomeUnknown => "rate limit outcome unknown"
  | ErrInvalidClientIP => "invalid client IP"
  | CtxCanceled => "context canceled"
  | CtxDeadlineExceeded => "context deadline exceeded"
  end.

Definition MaxBackendNameBytes : nat := 64.
Definition MaxBackendErrorBytes : nat := 32.
Definition MaxStrictBatchErrorBytes : N := 11007.

(** ** Error trees *)

(** [strictOutcomeKind] counts from 1; 0 is the absent context class. *)
Inductive strictOutcomeKind :=
| strictOutcomeNone | strictOutcomeCanceled | strictOutcomeDeadline | strictOutcomeUnknown.

#[global] Instance strictOutcomeKind_eq_dec : EqDecision strictOutcomeKind.
Proof. solve_decision. Defined.

#[warnings="-register-all"] Inductive error :=
| Sent (s : Sentinel)
| Wrapped (text : string) (causes : list error)
| Joined (errs : list error)
| strictOutcomeError (kind context : strictOutcomeKind)
| nilOutcomeError
| BackendError (category : option error)
| nilBackendError
| BatchItemError (index : Z) (cause : option error)
| StrictBatchError (items : list error)
| persistedStateError (cause : error)
| Foreign (id : nat) (text : string) (comparable : bool) (matches : list Sentinel).

(** [fmt.Errorf("%w: message", sentinel)]. *)
Definition errorf (s : Sentinel) (message : string) : error :=
  Wrapped (sentinelText s +:+ ": " +:+ message) [Sent s].

(** [directError err target]: identity with a sentinel; the dynamic type of a
    non-comparable foreign error answers false before [==] could panic.  Every
    call of the sources has a sentinel as its target. *)
Definition directError (err : option error) (target : Sentinel) : bool :=
  match err with
  | Some (Sent s) => bool_decide (s = target)
  | _ => false
  end.

Definition CanceledOutcome : error := strictOutcomeError strictOutcomeCanceled strictOutcomeNone.
Definition DeadlineOutcome : error := strictOutcomeError strictOutcomeDeadline strictOutcomeNone.
Definition UnknownOutcome (contextCategory : option error) : error :=
  let contextKind :=
    if directError contextCategory CtxCanceled then strictOutcomeCanceled
    else if directError contextCategory CtxDeadlineExceeded then strictOutcomeDeadline
    else strictOutcomeNone in
  strictOutcomeError strictOutcomeUnknown contextKind.

(** The [Is] method of a non-nil [strictOutcomeError]. *)
Definition outcomeIs (kind context : strictOutcomeKind) (target : Sentinel) : bool :=
  let direct s := bool_decide (target = s) in
  match kind with
  | strictOutcomeCanceled => direct ErrCanceled || direct CtxCanceled || direct ErrDeadline
  | strictOutcomeDeadline => direct ErrDeadline || direct CtxDeadlineExceeded
  | strictOutcomeUnknown =>
      if direct ErrOutcomeUnknown then true
      else match context with
           | strictOutcomeCanceled => direct ErrCanceled || direct CtxCanceled || direct ErrDeadline
           | strictOutcomeDeadline => direct ErrDeadline || direct CtxDeadlineExceeded
           | _ => false
           end
  | strictOutcomeNone => false
  end.

(** [errors.Is err target] over the tree: identity, the [Is] methods, and
    [Unwrap] in both of its forms. *)
Fixpoint errorsIsAt (err : error) (target : Sentinel) : bool :=
  match err with
  | Sent s => bool_decide (s = target)
  | Wrapped _ causes | Joined causes | StrictBatchError causes =>
      existsb (fun e => errorsIsAt e target) causes
  | strictOutcomeError kind context => outcomeIs kind context target
  | BackendError (Some e) | BatchItemError _ (Some e) | persistedStateError e => errorsIsAt e target
  | nilOutcomeError | nilBackendError | BackendError None | BatchItemError _ None => false
  | Foreign _ _ _ matches => bool_decide (target ∈ matches)
  end.
Definition errorsIs (err : option error) (target : Sentinel) : bool :=
  match err with Some e => errorsIsAt e target | None => false end.

(** The [Error] methods. *)
Definition outcomeText (kind : strictOutcomeKind) : string :=
  match kind with
  | strictOutcomeCanceled => sentinelText ErrCanceled
  | strictOutcomeDeadline => sentinelText ErrDeadline
  | strictOutcomeUnknown => sentinelText ErrOutcomeUnknown
  | strictOutcomeNone => "rate limit outcome error"
  end.

Definition newline : string := String (Ascii.ascii_of_nat 10) EmptyString.

Fixpoint errorText (err : error) : string :=
  match err with
  | Sent s => sentinelText s
  | Wrapped text _ | Foreign _ text _ _ => text
  | Joined errs => String.concat newline (map errorText errs)
  | strictOutcomeError kind _ => outcomeText kind
  | nilOutcomeError => "rate limit outcome error"
  | BackendError (Some e) | persistedStateError e => errorText e
  | BackendError None | nilBackendError => "rate limit backend error"
  | BatchItemError index (Some e) => "item " +:+ pretty index +:+ ": " +:+ errorText e
  | BatchItemError _ None => "item error"
  | StrictBatchError items =>
      match items with
      | [] => "batch error"
      | _ => String.concat newline (map errorText items)
      end
  end.

(** ** Safe categories *)

Definition safeBackendCategory (err : option error) : bool :=
  directError err ErrRejected || directError err ErrUnavailable ||
  directError err ErrOverflow || directError err ErrCorrupt ||
  directError err ErrUnsupported || directError err ErrLeaseNotFound ||
  directError err ErrLeaseNotOwned.

Definition NewBackendError (category : option error) : result error error :=
  if negb (safeBackendCategory category)
  then Err (errorf ErrInvalidPolicy "backend error category is not safe")
  else Ok (BackendError category).

(** [Unwrap] and [Category] of a non-nil [BackendError]. *)
Definition BackendError_Category (err : error) : option error :=
  match err with BackendError category => category | _ => None end.

(** [Index] of a [BatchItemError]: -1 for a nil or zero value. *)
Definition BatchItemError_Index (err : error) : Z :=
  match err with BatchItemError index (Some _) => index | _ => -1 end.

(** [Items] of a [StrictBatchError]. *)
Definition StrictBatchError_Items (err : error) : list error :=
  match err with StrictBatchError items => items | _ => [] end.

(** ** Lemmas *)

Lemma directError_true err s : directError err s = true <-> err = Some (Sent s).
Proof.
  split.
  - destruct err as [[]|]; simpl; try done. intros ?; btrue. congruence.
  - intros ->. simpl. by apply bool_decide_eq_true_2.
Qed.

Definition safe_sentinel (s : Sentinel) : bool := safeBackendCategory (Some (Sent s)).

Lemma safeBackendCategory_spec err :
  safeBackendCategory err = true <-> exists s, err = Some (Sent s) /\ safe_sentinel s = true.
Proof.
  split.
  - destruct err as [[]|]; try done. eauto.
  - intros (s & -> & H). exact H.
Qed.

Lemma errorsIs_Some e t : errorsIs (Some e) t = errorsIsAt e t.
Proof. reflexivity. Qed.

Lemma UnknownOutcome_is_unknown c : errorsIsAt (UnknownOutcome c) ErrOutcomeUnknown = true.
Proof. unfold UnknownOutcome. repeat case_match; reflexivity. Qed.

(** An unknown outcome never matches a category that could be failed open. *)
Lemma UnknownOutcome_not_unavailable c : errorsIsAt (UnknownOutcome c) ErrUnavailable = false.
Proof. unfold UnknownOutcome. repeat case_match; reflexivity. Qed.

Lemma UnknownOutcome_not_rejected c : errorsIsAt (UnknownOutcome c) ErrRejected = false.
Proof. unfold UnknownOutcome. repeat case_match; reflexivity. Qed.
