(* ===== verification/GoHash.v ===== *)
(** * Go's [crypto/sha256], [hash/fnv] and [encoding/hex]

    The limiter derives keys with SHA-256 and picks a shard with FNV-1a, both
    executable here on byte lists (a byte is a [Z] in [0, 256)). *)

From S2P Require Import Prelude.

Local Open Scope Z_scope.

Definition byte_of (c : Ascii.ascii) : Z := Z.of_N (Ascii.N_of_ascii c).

Fixpoint bytes_of (s : string) : list Z :=
  match s with
  | EmptyString => []
  | String c s' => byte_of c :: bytes_of s'
  end.

(** ** FNV-1a, 64 bits *)

Definition fnv64a (s : string) : Z :=
  foldl (fun h b => u64 (Z.lxor h b * 1099511628211)) 14695981039346656037 (bytes_of s).

(** ** SHA-256 (FIPS 180-4) *)

Module Sha256.
Definition w32 (z : Z) : Z := z mod 4294967296.
Definition rotr (n x : Z) : Z := Z.lor (Z.shiftr x n) (w32 (Z.shiftl x (32 - n))).
Definition not32 (x : Z) : Z := 4294967295 - x.

Definition K : list Z := [
  1116352408; 1899447441; 3049323471; 3921009573; 961987163; 1508970993; 2453635748; 2870763221;
  3624381080; 310598401; 607225278; 1426881987; 1925078388; 2162078206; 2614888103; 3248222580;
  3835390401; 4022224774; 264347078; 604807628; 770255983; 1249150122; 1555081692; 1996064986;
  2554220882; 2821834349; 2952996808; 3210313671; 3336571891; 3584528711; 113926993; 338241895;
  666307205; 773529912; 1294757372; 1396182291; 1695183700; 1986661051; 2177026350; 2456956037;
  2730485921; 2820302411; 3259730800; 3345764771; 3516065817; 3600352804; 4094571909; 275423344;
  430227734; 506948616; 659060556; 883997877; 958139571; 1322822218; 1537002063; 1747873779;
  1955562222; 2024104815; 2227730452; 2361852424; 2428436474; 2756734187; 3204031479; 3329325298].

Definition H0 : list Z := [
  1779033703; 3144134277; 1013904242; 2773480762; 1359893119; 2600822924; 528734635; 1541459225].

Fixpoint be_bytes (n : nat) (z : Z) : list Z :=
  match n with
  | O => []
  | S n' => be_bytes n' (z / 256) ++ [z mod 256]
  end.

(** The message, a one bit, zeros, and the bit length as a 64-bit word. *)
Definition pad (msg : list Z) : list Z :=
  let l := length msg in
  let zeros := ((119 - (l mod 64)) mod 64)%nat in
  msg ++ [128] ++ replicate zeros 0 ++ be_bytes 8 (8 * Z.of_nat l).

Fixpoint words (fuel : nat) (bs : list Z) : list Z :=
  match fuel, bs with
  | S fuel', a :: b :: c :: d :: rest =>
      ((a * 256 + b) * 256 + c) * 256 + d :: words fuel' rest
  | _, _ => []
  end.

Definition ssig0 x := Z.lxor (Z.lxor (rotr 7 x) (rotr 18 x)) (Z.shiftr x 3).
Definition ssig1 x := Z.lxor (Z.lxor (rotr 17 x) (rotr 19 x)) (Z.shiftr x 10).
Definition bsig0 x := Z.lxor (Z.lxor (rotr 2 x) (rotr 13 x)) (rotr 22 x).
Definition bsig1 x := Z.lxor (Z.lxor (rotr 6 x) (rotr 11 x)) (rotr 25 x).

(** The schedule, newest word first. *)
Fixpoint extend (n : nat) (ws : list Z) : list Z :=
  match n with
  | O => ws
  | S n' =>
      let w i := nth i ws 0 in
      extend n' (w32 (ssig1 (w 1%nat) + w 6%nat + ssig0 (w 14%nat) + w 15%nat) :: ws)
  end.

Definition round (st : list Z) (kw : Z * Z) : list Z :=
  match st with
  | [a; b; c; d; e; f; g; h] =>
      let ch := Z.lxor (Z.land e f) (Z.land (not32 e) g) in
      let maj := Z.lxor (Z.lxor (Z.land a b) (Z.land a c)) (Z.land b c) in
      let t1 := h + bsig1 e + ch + kw.1 + kw.2 in
      let t2 := bsig0 a + maj in
      [w32 (t1 + t2); a; b; c; w32 (d + t1); e; f; g]
  | _ => st
  end.

Definition compress (st : list Z) (block : list Z) : list Z :=
  let ws := rev (extend 48 (rev (words 16 block))) in
  zip_with (fun x y => w32 (x + y)) st (foldl round st (zip K ws)).

Fixpoint blocks (fuel : nat) (st : list Z) (bs : list Z) : list Z :=
  match fuel with
  | O => st
  | S fuel' => blocks fuel' (compress st (take 64 bs)) (drop 64 bs)
  end.

Definition sum (msg : list Z) : list Z :=
  let p := pad msg in
  mjoin (be_bytes 4 <$> blocks (length p / 64) H0 p).
End Sha256.

Definition hexDigit (z : Z) : Ascii.ascii :=
  Ascii.ascii_of_N (Z.to_N (if z <? 10 then 48 + z else 87 + z)).

(** [hex.EncodeToString]. *)
Fixpoint hexEncode (bs : list Z) : string :=
  match bs with
  | [] => EmptyString
  | b :: bs' => String (hexDigit (b / 16)) (String (hexDigit (b mod 16)) (hexEncode bs'))
  end.

Definition sha256 (s : string) : list Z := Sha256.sum (bytes_of s).

(** FIPS 180-4 test vectors. *)
Example sha256_abc :
  hexEncode (sha256 "abc")
  = "ba7816bf8f01cfea414140de5dae2223b00361a396177a9cb410ff61f20015ad"%string.
Proof. vm_compute. reflexivity. Qed.

Example sha256_empty :
  hexEncode (sha256 EmptyString)
  = "e3b0c44298fc1c149afbf4c8996fb92427ae41e4649b934ca495991b7852b855"%string.
Proof. vm_compute. reflexivity. Qed.

Example sha256_two_blocks :
  hexEncode (sha256 "abcdbcdecdefdefgefghfghighijhijkijkljklmklmnlmnomnopnopq")
  = "248d6a61d20638b8e5c026930c3e6039a33ce45964ff2167f6ecedd419db06c1"%string.
Proof. vm_compute. reflexivity. Qed.

Example fnv64a_a : fnv64a "a" = 12638187200555641996.
Proof. vm_compute. reflexivity. Qed.

(** ** Digests are 32 bytes, and the hexadecimal form determines them *)

Definition is_byte (b : Z) : Prop := 0 <= b < 256.

Lemma length_be_bytes n z : length (Sha256.be_bytes n z) = n.
Proof.
  revert z. induction n as [|n IH]; intros z; simpl; [done|].
  rewrite length_app, IH. simpl. lia.
Qed.

Lemma be_bytes_range n z : Forall is_byte (Sha256.be_bytes n z).
Proof.
  revert z. induction n as [|n IH]; intros z; simpl; [constructor|].
  apply Forall_app. split; [apply IH|]. repeat constructor; apply Z.mod_pos_bound; lia.
Qed.

Lemma length_round st kw : length (Sha256.round st kw) = length st.
Proof. unfold Sha256.round. repeat case_match; subst; done. Qed.

Lemma length_rounds kws st : length (foldl Sha256.round st kws) = length st.
Proof.
  revert st. induction kws as [|kw kws IH]; intros st; simpl; [done|].
  by rewrite IH, length_round.
Qed.

Lemma length_blocks fuel st bs : length (Sha256.blocks fuel st bs) = length st.
Proof.
  revert st bs. induction fuel as [|fuel IH]; intros st bs; simpl; [done|].
  rewrite IH. unfold Sha256.compress. rewrite length_zip_with, length_rounds. lia.
Qed.

Lemma length_flat_bytes (ws : list Z) :
  length (mjoin (Sha256.be_bytes 4 <$> ws)) = (4 * length ws)%nat.
Proof.
  induction ws as [|w ws IH]; [done|].
  change (mjoin (Sha256.be_bytes 4 <$> w :: ws))
    with (Sha256.be_bytes 4 w ++ mjoin (Sha256.be_bytes 4 <$> ws)).
  rewrite length_app, IH, length_be_bytes. simpl length. lia.
Qed.

Lemma sha256_length s : length (sha256 s) = 32%nat.
Proof.
  unfold sha256, Sha256.sum. rewrite length_flat_bytes, length_blocks. reflexivity.
Qed.

Lemma sha256_bytes s : Forall is_byte (sha256 s).
Proof.
  unfold sha256, Sha256.sum. apply Forall_join. apply Forall_fmap, Forall_true.
  intros w. apply be_bytes_range.
Qed.

Definition hexValue (c : Ascii.ascii) : Z :=
  let z := byte_of c in if z <? 58 then z - 48 else z - 87.

Lemma hexValue_hexDigit z : 0 <= z < 16 -> hexValue (hexDigit z) = z.
Proof.
  intros H. assert (exists n, (n < 16)%nat /\ z = Z.of_nat n) as (n & Hn & ->)
    by (exists (Z.to_nat z); lia).
  do 16 (destruct n as [|n]; [reflexivity|]). lia.
Qed.

Lemma hexEncode_length bs : String.length (hexEncode bs) = (2 * length bs)%nat.
Proof. induction bs as [|b bs IH]; simpl; [done|]. rewrite IH. lia. Qed.

Lemma hexEncode_inj bs bs' :
  Forall is_byte bs -> Forall is_byte bs' -> hexEncode bs = hexEncode bs' -> bs = bs'.
Proof.
  intros H. revert bs'. induction H as [|b bs Hb _ IH]; intros bs' H'.
  - destruct H'; simpl; congruence.
  - destruct H' as [|b' bs' Hb' H']; simpl; [congruence|]. intros [= E1 E2 E3].
    unfold is_byte in *.
    assert (hexValue (hexDigit (b / 16)) = hexValue (hexDigit (b' / 16))) as F1 by congruence.
    assert (hexValue (hexDigit (b mod 16)) = hexValue (hexDigit (b' mod 16))) as F2 by congruence.
    rewrite !hexValue_hexDigit in F1, F2 by zlia.
    f_equal; [zlia | by apply IH].
Qed.
