(* ===== verification/Keys.v ===== *)
(** * Admission keys: key.go

    Validation and derivation of the bounded key under which every backend
    stores a subject's state, with the injectivity of the derivation. *)

From S2P Require Import Prelude GoHash Errors.

Local Open Scope string_scope.
Local Open Scope Z_scope.

(** ** Byte strings *)

Definition strlen (s : string) : Z := Z.of_nat (String.length s).

(** A test on every byte.  The sources range over runes; a byte above 127
    starts or continues a rune above 127 (or decodes to U+FFFD), which no test
    accepts, so the byte view decides the same strings. *)
Fixpoint all_bytes (ok : Z -> bool) (s : string) : bool :=
  match s with
  | EmptyString => true
  | String c s' => ok (byte_of c) && all_bytes ok s'
  end.

Definition in_range (lo hi c : Z) : bool := (lo <=? c) && (c <=? hi).

(** ** Key *)

Definition MaxSubjectBytes : Z := 256.
Definition maxKeyPartBytes : Z := 48.

Record Subject := mkSubject { Kind : string; Value : string }.

Record KeySpec := mkKeySpec {
  Namespace : string;
  Version : string;
  key_Subject : Subject;
  Hash : bool
}.

Record Key := mkKey { key_value : string; subjectKind : string }.

#[global] Instance Key_eq_dec : EqDecision Key.
Proof. solve_decision. Defined.

Definition zeroKey : Key := mkKey EmptyString EmptyString.

Definition keyByte (c : Z) : bool :=
  in_range 97 122 c || in_range 48 57 c || (c =? 45) || (c =? 95).

Definition validKeyPart (value : string) : bool :=
  if bool_decide (value = EmptyString) then false
  else if maxKeyPartBytes <? strlen value then false
  else all_bytes keyByte value.

(** [strings.ContainsAny(value, "{}\x00\r\n")]. *)
Definition unsafeByte (c : Z) : bool :=
  (c =? 123) || (c =? 125) || (c =? 0) || (c =? 13) || (c =? 10).

Definition NUL : string := String (Ascii.ascii_of_nat 0) EmptyString.

(** The bytes that the digest of a hashed key covers. *)
Definition keyPreimage (spec : KeySpec) : string :=
  Namespace spec +:+ NUL +:+ Version spec +:+ NUL +:+
  Kind (key_Subject spec) +:+ NUL +:+ Value (key_Subject spec).

Definition keyString (spec : KeySpec) (value : string) : string :=
  Namespace spec +:+ ":" +:+ Version spec +:+ ":" +:+ Kind (key_Subject spec) +:+ ":" +:+ value.

Definition NewKey (spec : KeySpec) : result error Key :=
  let subject := key_Subject spec in
  if negb (validKeyPart (Namespace spec)) || negb (validKeyPart (Version spec)) ||
     negb (validKeyPart (Kind subject)) || bool_decide (Value subject = EmptyString) ||
     (MaxSubjectBytes <? strlen (Value subject))
  then Err (errorf ErrInvalidKey "invalid or oversized component") else
  if Hash spec then
    Ok (mkKey (keyString spec (hexEncode (sha256 (keyPreimage spec)))) (Kind subject))
  else if negb (all_bytes (fun c => negb (unsafeByte c)) (Value subject))
  then Err (errorf ErrInvalidKey "unsafe subject characters")
  else Ok (mkKey (keyString spec (Value subject)) (Kind subject)).

(** ** Lemmas on byte strings *)

Lemma all_bytes_Forall ok s :
  all_bytes ok s = true <-> Forall (fun c => ok c = true) (bytes_of s).
Proof.
  induction s as [|c s IH]; simpl.
  - split; [constructor | done].
  - rewrite andb_true_iff, Forall_cons, IH. done.
Qed.

Lemma strlen_nonneg s : 0 <= strlen s.
Proof. unfold strlen. lia. Qed.

Lemma strlen_zero s : strlen s = 0 <-> s = EmptyString.
Proof. unfold strlen. destruct s; simpl; split; try done; lia. Qed.

(** ** Separators *)

(** No byte of the string is [sep]. *)
Definition free_of (sep : Ascii.ascii) (s : string) : Prop :=
  all_bytes (fun c => negb (c =? byte_of sep)) s = true.

Lemma byte_of_inj a b : byte_of a = byte_of b -> a = b.
Proof.
  unfold byte_of. intros H. apply N2Z.inj in H.
  rewrite <- (Ascii.ascii_N_embedding a), <- (Ascii.ascii_N_embedding b). congruence.
Qed.

(** Splitting at the first separator is unambiguous. *)
Lemma separator_inj sep s1 s2 t1 t2 :
  free_of sep s1 -> free_of sep s2 ->
  s1 +:+ String sep t1 = s2 +:+ String sep t2 -> s1 = s2 /\ t1 = t2.
Proof.
  unfold free_of. revert s2. induction s1 as [|c s1 IH]; intros [|c' s2]; simpl.
  - intros _ _ [= ->]. done.
  - intros _ H [= <- _]. by rewrite Z.eqb_refl in H.
  - intros H _ [= -> _]. by rewrite Z.eqb_refl in H.
  - rewrite !andb_true_iff. intros [_ H1] [_ H2] [= -> E].
    destruct (IH s2 H1 H2 E) as [-> ->]. done.
Qed.

Lemma all_bytes_mono (f g : Z -> bool) s :
  (forall c, f c = true -> g c = true) -> all_bytes f s = true -> all_bytes g s = true.
Proof.
  intros Hfg. induction s as [|c s IH]; simpl; [done|].
  rewrite !andb_true_iff. intros [H1 H2]. auto.
Qed.

Lemma validKeyPart_spec s :
  validKeyPart s = true <->
  1 <= strlen s <= 48 /\ Forall (fun c => keyByte c = true) (bytes_of s).
Proof.
  unfold validKeyPart, maxKeyPartBytes. rewrite <- all_bytes_Forall.
  pose proof (strlen_nonneg s). pose proof (strlen_zero s).
  destruct (bool_decide_reflect (s = EmptyString)) as [->|Hs].
  - split; [done|]. unfold strlen; simpl. lia.
  - destruct (Z.ltb_spec 48 (strlen s)); [split; [done|lia]|].
    assert (strlen s <> 0) by tauto. intuition lia.
Qed.

(** A byte outside the key alphabet separates valid parts. *)
Lemma validKeyPart_free s sep :
  validKeyPart s = true -> keyByte (byte_of sep) = false -> free_of sep s.
Proof.
  rewrite validKeyPart_spec, <- all_bytes_Forall. intros [_ H] Hsep.
  revert H. apply all_bytes_mono. intros c Hc. apply negb_true_iff, Z.eqb_neq. congruence.
Qed.

Lemma NewKey_inv spec k :
  NewKey spec = Ok k ->
  validKeyPart (Namespace spec) = true /\ validKeyPart (Version spec) = true /\
  validKeyPart (Kind (key_Subject spec)) = true /\
  1 <= strlen (Value (key_Subject spec)) <= MaxSubjectBytes /\
  (Hash spec = false ->
   all_bytes (fun c => negb (unsafeByte c)) (Value (key_Subject spec)) = true) /\
  k = mkKey (keyString spec (if Hash spec then hexEncode (sha256 (keyPreimage spec))
                             else Value (key_Subject spec)))
            (Kind (key_Subject spec)).
Proof.
  unfold NewKey.
  destruct (validKeyPart (Namespace spec)); simpl; [|done].
  destruct (validKeyPart (Version spec)); simpl; [|done].
  destruct (validKeyPart (Kind (key_Subject spec))); simpl; [|done].
  pose proof (strlen_nonneg (Value (key_Subject spec))).
  pose proof (strlen_zero (Value (key_Subject spec))).
  case_bool_decide; simpl; [done|].
  destruct (Z.ltb_spec MaxSubjectBytes (strlen (Value (key_Subject spec)))); [done|].
  assert (strlen (Value (key_Subject spec)) <> 0) by tauto.
  destruct (Hash spec).
  - intros [= <-]. split_and!; (done || lia).
  - case_match; [done|]. intros [= <-]. btrue. split_and!; (done || lia).
Qed.

Lemma append_length (s t : string) :
  String.length (s +:+ t) = (String.length s + String.length t)%nat.
Proof.
  induction s as [|c s IH]; [done|].
  change (String c s +:+ t) with (String c (s +:+ t)). simpl. by rewrite IH.
Qed.

Lemma strlen_app s t : strlen (s +:+ t) = strlen s + strlen t.
Proof. unfold strlen. rewrite append_length. lia. Qed.

Lemma all_bytes_app ok s t : all_bytes ok (s +:+ t) = all_bytes ok s && all_bytes ok t.
Proof. induction s as [|c s IH]; simpl; [done|]. by rewrite IH, andb_assoc. Qed.

Lemma keyByte_safe c : keyByte c = true -> negb (unsafeByte c) = true.
Proof. unfold keyByte, unsafeByte, in_range. lia. Qed.

Lemma validKeyPart_safe s :
  validKeyPart s = true -> all_bytes (fun c => negb (unsafeByte c)) s = true.
Proof.
  rewrite validKeyPart_spec, <- all_bytes_Forall. intros [_ H]. revert H.
  apply all_bytes_mono, keyByte_safe.
Qed.

Lemma hexDigit_safe z : 0 <= z < 16 -> negb (unsafeByte (byte_of (hexDigit z))) = true.
Proof.
  intros H. assert (exists n, (n < 16)%nat /\ z = Z.of_nat n) as (n & Hn & ->)
    by (exists (Z.to_nat z); lia).
  do 16 (destruct n as [|n]; [reflexivity|]). lia.
Qed.

Lemma hexEncode_safe bs :
  Forall is_byte bs -> all_bytes (fun c => negb (unsafeByte c)) (hexEncode bs) = true.
Proof.
  unfold is_byte. induction 1 as [|b bs Hb _ IH]; simpl; [done|].
  rewrite !hexDigit_safe, IH by zlia. done.
Qed.

(** The three parts and what follows them can be read back. *)
Lemma parts_inj sep a b v w :
  keyByte (byte_of sep) = false ->
  validKeyPart (Namespace a) = true -> validKeyPart (Version a) = true ->
  validKeyPart (Kind (key_Subject a)) = true ->
  validKeyPart (Namespace b) = true -> validKeyPart (Version b) = true ->
  validKeyPart (Kind (key_Subject b)) = true ->
  let sepS := String sep EmptyString in
  Namespace a +:+ sepS +:+ Version a +:+ sepS +:+ Kind (key_Subject a) +:+ sepS +:+ v =
  Namespace b +:+ sepS +:+ Version b +:+ sepS +:+ Kind (key_Subject b) +:+ sepS +:+ w ->
  Namespace a = Namespace b /\ Version a = Version b /\
  Kind (key_Subject a) = Kind (key_Subject b) /\ v = w.
Proof.
  intros Hsep ?????? sepS. subst sepS. simpl. intros E.
  apply separator_inj in E as [-> E]; [|by eapply validKeyPart_free..].
  apply separator_inj in E as [-> E]; [|by eapply validKeyPart_free..].
  apply separator_inj in E as [-> E]; [|by eapply validKeyPart_free..].
  done.
Qed.

(** Key derivation is injective: two specifications of the same hash mode
    that [NewKey] maps to the same key are the same specification, or else they
    exhibit a SHA-256 collision of two distinct inputs.  Without hashing there
    is no such exception. *)
Theorem NewKey_injective a b k :
  NewKey a = Ok k -> NewKey b = Ok k -> Hash a = Hash b ->
  a = b \/ (Hash a = true /\ keyPreimage a <> keyPreimage b /\
            sha256 (keyPreimage a) = sha256 (keyPreimage b)).
Proof.
  intros Ha Hb Hh.
  apply NewKey_inv in Ha as (Na & Va & Ka & _ & _ & ->).
  apply NewKey_inv in Hb as (Nb & Vb & Kb & _ & _ & E). injection E as E _.
  pose proof (parts_inj (Ascii.ascii_of_nat 58) a b _ _ eq_refl Na Va Ka Nb Vb Kb E)
    as (HN & HV & HK & Hv).
  destruct a as [na va [ka la] ha], b as [nb vb [kb lb] hb]; simpl in *; subst.
  destruct hb; [|by left; subst].
  apply hexEncode_inj in Hv; [|apply sha256_bytes..].
  destruct (decide (la = lb)) as [->|Hne]; [by left|right].
  split_and!; [done| |done]. intros E'.
  by apply (parts_inj (Ascii.ascii_of_nat 0) (mkKeySpec nb vb (mkSubject kb la) true)
              (mkKeySpec nb vb (mkSubject kb lb) true) _ _ eq_refl) in E' as (_ & _ & _ & ?).
Qed.

Definition principal_spec (user : string) : KeySpec :=
  mkKeySpec "http" "v1" (mkSubject "principal" user) false.

Lemma NewKey_injective_witness :
  NewKey (principal_spec "user-42") = Ok (mkKey "http:v1:principal:user-42" "principal") /\
  (principal_spec "user-42" = principal_spec "user-42" \/
   Hash (principal_spec "user-42") = true /\
   keyPreimage (principal_spec "user-42") <> keyPreimage (principal_spec "user-42") /\
   sha256 (keyPreimage (principal_spec "user-42")) = sha256 (keyPreimage (principal_spec "user-42"))).
Proof.
  assert (H : NewKey (principal_spec "user-42") = Ok (mkKey "http:v1:principal:user-42" "principal"))
    by (vm_compute; reflexivity).
  split; [exact H|]. exact (NewKey_injective _ _ _ H H eq_refl).
Defined.

(** An accepted key is nonempty, at most 403 bytes (211 when hashed), keeps
    the subject kind, and contains none of the bytes that would break a Valkey
    hash tag or a line protocol. *)
Theorem NewKey_bounded spec k :
  NewKey spec = Ok k ->
  7 <= strlen (key_value k) <= (if Hash spec then 211 else 403) /\
  subjectKind k = Kind (key_Subject spec) /\
  all_bytes (fun c => negb (unsafeByte c)) (key_value k) = true.
Proof.
  intros H. apply NewKey_inv in H as (HN & HV & HK & Hv & Hs & ->). simpl.
  split; [|split; [done|]].
  - unfold keyString. rewrite !strlen_app. unfold MaxSubjectBytes in *.
    apply validKeyPart_spec in HN as [? _], HV as [? _], HK as [? _].
    change (strlen ":") with 1. destruct (Hash spec); [|lia].
    assert (strlen (hexEncode (sha256 (keyPreimage spec))) = 64) as ->; [|lia].
    unfold strlen. rewrite hexEncode_length, sha256_length. done.
  - unfold keyString. rewrite !all_bytes_app.
    rewrite (validKeyPart_safe _ HN), (validKeyPart_safe _ HV), (validKeyPart_safe _ HK). simpl.
    destruct (Hash spec); [apply hexEncode_safe, sha256_bytes | by apply Hs].
Qed.

Lemma NewKey_bounded_witness :
  7 <= strlen "http:v1:principal:user-42" <= 403 /\
  subjectKind (mkKey "http:v1:principal:user-42" "principal") = "principal" /\
  all_bytes (fun c => negb (unsafeByte c)) "http:v1:principal:user-42" = true.
Proof. exact (NewKey_bounded (principal_spec "user-42") _ eq_refl). Defined.
