(* ===== verification/Policy.v ===== *)
(** * Policies, requests and decisions: policy.go, request.go, decision.go,
    observation.go and the value types of lease.go

    The named string types of the sources ([Algorithm], [Consistency],
    [Reason]) are strings, because the code compares them as strings and has
    branches for unknown values; [FailureMode] is the [uint8] it is. *)

From S2P Require Import Prelude GoTime GoHash Errors Keys.

Local Open Scope string_scope.
Local Open Scope Z_scope.
Local Open Scope go_scope.

(** ** Policy *)

Definition MaxPolicyIDBytes : Z := 64.
Definition MaxPolicyRevisionBytes : Z := 64.
Abbreviation MaxConcurrencyLeases := 1024.
Abbreviation maxExactInteger := 9007199254740991.

Definition Algorithm := string.
Definition TokenBucket : Algorithm := "token_bucket".
Definition FixedWindow : Algorithm := "fixed_window".
Definition SlidingWindow : Algorithm := "sliding_window".
Definition Concurrency : Algorithm := "concurrency".

Definition FailureMode := Z.
Abbreviation FailClosed := 0.
Abbreviation FailOpen := 1.

Definition Consistency := string.
Definition ConsistencyProcessLocal : Consistency := "process_local".
Definition ConsistencyStrong : Consistency := "strong".

Record PolicySpec := mkPolicySpec {
  spec_ID : string;
  spec_Revision : string;
  spec_Algorithm : Algorithm;
  spec_Capacity : Z;
  spec_Period : Duration;
  spec_Burst : Z;
  spec_MaxCost : Z;
  spec_FailureMode : FailureMode;
  spec_Consistency : Consistency;
  spec_Lease : Duration
}.

Record Policy := mkPolicy {
  id : string;
  revision : string;
  algorithm : Algorithm;
  capacity : Z;
  period : Duration;
  burst : Z;
  maxCost : Z;
  failureMode : FailureMode;
  consistency : Consistency;
  lease : Duration
}.

#[global] Instance Policy_eq_dec : EqDecision Policy.
Proof. solve_decision. Defined.

(** [p.Limit()] is a [uint64] sum. *)
Definition Limit (p : Policy) : Z := capacity p +u burst p.

Definition identifierByte (c : Z) : bool :=
  in_range 97 122 c || in_range 65 90 c || in_range 48 57 c ||
  (c =? 45) || (c =? 95) || (c =? 46) || (c =? 58).

Definition validPolicyIdentifier (value : string) (limit : Z) : bool :=
  if bool_decide (value = EmptyString) || (limit <? strlen value) then false
  else all_bytes identifierByte value.

Definition invalidPolicy (message : string) : result error Policy :=
  Err (errorf ErrInvalidPolicy message).

Definition NewPolicy (spec : PolicySpec) : result error Policy :=
  if negb (validPolicyIdentifier (spec_ID spec) MaxPolicyIDBytes) ||
     negb (validPolicyIdentifier (spec_Revision spec) MaxPolicyRevisionBytes) ||
     (spec_Capacity spec =? 0)
  then invalidPolicy "identity and capacity are required" else
  let '(limit, carry) := Add64 (spec_Capacity spec) (spec_Burst spec) 0 in
  if negb (carry =? 0) then invalidPolicy "capacity plus burst exceeds exact arithmetic" else
  if maxExactInteger <? limit then invalidPolicy "capacity plus burst exceeds exact arithmetic" else
  let windowed := bool_decide (spec_Algorithm spec = TokenBucket) ||
                  bool_decide (spec_Algorithm spec = FixedWindow) ||
                  bool_decide (spec_Algorithm spec = SlidingWindow) in
  let concurrent := bool_decide (spec_Algorithm spec = Concurrency) in
  if windowed && ((spec_Period spec <? Microsecond) || negb (Z.rem (spec_Period spec) Microsecond =? 0))
  then invalidPolicy "period must use positive microsecond precision" else
  if concurrent && ((spec_Lease spec <? Microsecond) || negb (Z.rem (spec_Lease spec) Microsecond =? 0))
  then invalidPolicy "concurrency lease must use positive microsecond precision" else
  if negb windowed && negb concurrent then invalidPolicy "unknown algorithm" else
  let periodMicros := u64 (Microseconds (spec_Period spec)) in
  if negb concurrent && (maxExactInteger / periodMicros <? limit)
  then invalidPolicy "limit and period exceed exact arithmetic bounds" else
  if concurrent && (MaxConcurrencyLeases <? limit)
  then invalidPolicy "concurrency limit exceeds lease budget" else
  let max_cost := if spec_MaxCost spec =? 0 then limit else spec_MaxCost spec in
  if limit <? max_cost then invalidPolicy "maximum cost exceeds limit" else
  if negb (spec_FailureMode spec =? FailClosed) && negb (spec_FailureMode spec =? FailOpen)
  then invalidPolicy "unknown failure mode" else
  if concurrent && (spec_FailureMode spec =? FailOpen)
  then invalidPolicy "concurrency leases cannot fail open" else
  let consistent := if bool_decide (spec_Consistency spec = EmptyString)
                    then ConsistencyProcessLocal else spec_Consistency spec in
  if negb (bool_decide (consistent = ConsistencyProcessLocal)) &&
     negb (bool_decide (consistent = ConsistencyStrong))
  then invalidPolicy "unknown consistency" else
  Ok {| id := spec_ID spec; revision := spec_Revision spec;
        algorithm := spec_Algorithm spec; capacity := spec_Capacity spec;
        period := spec_Period spec; burst := spec_Burst spec; maxCost := max_cost;
        failureMode := spec_FailureMode spec; consistency := consistent;
        lease := spec_Lease spec |}.

(** ** Request, decision, lease and observation *)

Record Request := mkRequest {
  req_Policy : Policy;
  req_Key : Key;
  Cost : Z;
  Now : Time
}.

Definition withNow (r : Request) (t : Time) : Request :=
  mkRequest (req_Policy r) (req_Key r) (Cost r) t.

Definition invalidRequest (message : string) : option error :=
  Some (errorf ErrInvalidRequest message).

Definition Validate (r : Request) : option error :=
  let incomplete := invalidRequest "policy, key, time, and bounded cost are required" in
  if bool_decide (id (req_Policy r) = EmptyString) then incomplete else
  if bool_decide (key_value (req_Key r) = EmptyString) then incomplete else
  if IsZero (Now r) then incomplete else
  if Cost r =? 0 then incomplete else
  if maxCost (req_Policy r) <? Cost r then incomplete else
  let micros := UnixMicro (Now r) in
  if micros <? - maxExactInteger then invalidRequest "time exceeds exact backend range" else
  let duration := if bool_decide (algorithm (req_Policy r) = Concurrency)
                  then lease (req_Policy r) else period (req_Policy r) in
  if maxExactInteger -i Microseconds duration <? micros
  then invalidRequest "reset exceeds exact backend range" else
  None.

Definition Reason := string.
Definition ReasonAllowed : Reason := "allowed".
Definition ReasonLimited : Reason := "limited".
Definition ReasonFailOpen : Reason := "fail_open".
Definition ReasonBackendUnavailable : Reason := "backend_unavailable".

Record Decision := mkDecision {
  Allowed : bool;
  Remaining : Z;
  dec_Limit : Z;
  Reset : Time;
  RetryAfter : Duration;
  dec_Reason : Reason;
  dec_Backend : string;
  dec_PolicyRevision : string
}.

#[global] Instance Decision_eq_dec : EqDecision Decision.
Proof. solve_decision. Defined.

Definition emptyDecision : Decision :=
  mkDecision false 0 0 zeroTime 0 EmptyString EmptyString EmptyString.

Definition MaxLeaseIDBytes : Z := 128.

Record LeaseRequest := mkLeaseRequest { lr_Request : Request; LeaseID : string }.

Definition LeaseRequest_Validate (request : LeaseRequest) : option error :=
  match Validate (lr_Request request) with
  | Some err => Some err
  | None =>
      if negb (bool_decide (algorithm (req_Policy (lr_Request request)) = Concurrency)) ||
         bool_decide (LeaseID request = EmptyString) ||
         (MaxLeaseIDBytes <? strlen (LeaseID request))
      then invalidRequest "concurrency policy and bounded lease ID are required"
      else None
  end.

Record Lease := mkLease {
  lease_ID : string;
  lease_Key : Key;
  lease_PolicyID : string;
  lease_PolicyRevision : string;
  lease_Cost : Z;
  ExpiresAt : Time;
  lease_Backend : string
}.

#[global] Instance Lease_eq_dec : EqDecision Lease.
Proof. solve_decision. Defined.

Definition zeroLease : Lease :=
  mkLease EmptyString zeroKey EmptyString EmptyString 0 zeroTime EmptyString.

Record Observation := mkObservation {
  obs_PolicyID : string;
  obs_SubjectKind : string;
  obs_Decision : Decision;
  obs_Err : option error;
  obs_Duration : Duration
}.

(** ** Well-formedness *)

(** The fields of a specification at their Go types. *)
Record spec_typed (spec : PolicySpec) : Prop := {
  typed_capacity : is_u64 (spec_Capacity spec);
  typed_burst : is_u64 (spec_Burst spec);
  typed_max_cost : is_u64 (spec_MaxCost spec);
  typed_period : is_i64 (spec_Period spec);
  typed_lease : is_i64 (spec_Lease spec)
}.

Definition windowed (a : Algorithm) : Prop :=
  a = TokenBucket \/ a = FixedWindow \/ a = SlidingWindow.

(** Decide the comparisons of algorithm names that occur in the goal. *)
Ltac eval_algorithms :=
  repeat match goal with
  | |- context [bool_decide (?a = ?b)] =>
      let v := eval vm_compute in (bool_decide (a = b)) in
      match v with true => idtac | false => idtac end;
      change (bool_decide (a = b)) with v
  end.

(** What [NewPolicy] promises of the policy it returns. *)
Record wf_policy (p : Policy) : Prop := {
  wf_id : id p <> EmptyString;
  wf_capacity : 1 <= capacity p;
  wf_burst : 0 <= burst p;
  wf_limit : capacity p + burst p <= maxExactInteger;
  wf_max_cost : 1 <= maxCost p <= capacity p + burst p;
  wf_mode : failureMode p = FailClosed \/ failureMode p = FailOpen;
  wf_consistency : consistency p = ConsistencyProcessLocal \/ consistency p = ConsistencyStrong;
  wf_period_typed : is_i64 (period p);
  wf_lease_typed : is_i64 (lease p);
  wf_algorithm :
    (windowed (algorithm p) /\ Microsecond <= period p /\ period p mod Microsecond = 0 /\
     (capacity p + burst p) * (period p / Microsecond) <= maxExactInteger) \/
    (algorithm p = Concurrency /\ Microsecond <= lease p /\ lease p mod Microsecond = 0 /\
     capacity p + burst p <= MaxConcurrencyLeases /\ failureMode p = FailClosed)
}.

(** An identifier of 1 to 64 bytes over the documented alphabet. *)
Definition identifier (s : string) : Prop :=
  1 <= strlen s <= 64 /\ Forall (fun c => identifierByte c = true) (bytes_of s).

(** The documented acceptance condition of [NewPolicy]. *)
Definition spec_valid (spec : PolicySpec) : Prop :=
  let limit := spec_Capacity spec + spec_Burst spec in
  identifier (spec_ID spec) /\ identifier (spec_Revision spec) /\
  1 <= spec_Capacity spec /\ limit <= maxExactInteger /\ spec_MaxCost spec <= limit /\
  (spec_FailureMode spec = FailClosed \/ spec_FailureMode spec = FailOpen) /\
  (spec_Consistency spec = EmptyString \/ spec_Consistency spec = ConsistencyProcessLocal \/
   spec_Consistency spec = ConsistencyStrong) /\
  ((windowed (spec_Algorithm spec) /\ Microsecond <= spec_Period spec /\
    spec_Period spec mod Microsecond = 0 /\
    limit * (spec_Period spec / Microsecond) <= maxExactInteger) \/
   (spec_Algorithm spec = Concurrency /\ Microsecond <= spec_Lease spec /\
    spec_Lease spec mod Microsecond = 0 /\ limit <= MaxConcurrencyLeases /\
    spec_FailureMode spec = FailClosed)).

Lemma Limit_wf p : wf_policy p -> Limit p = capacity p + burst p.
Proof.
  intros []. unfold Limit. apply u64_id. unfold is_u64. lia.
Qed.

Lemma validPolicyIdentifier_spec s :
  validPolicyIdentifier s 64 = true <-> identifier s.
Proof.
  unfold validPolicyIdentifier, identifier. rewrite <- all_bytes_Forall.
  pose proof (strlen_nonneg s). pose proof (strlen_zero s).
  destruct (bool_decide_reflect (s = EmptyString)) as [->|Hs]; simpl.
  - split; [done|]. unfold strlen; simpl. lia.
  - destruct (Z.ltb_spec 64 (strlen s)); simpl; [split; [done|lia]|].
    split; [|tauto]. intros ->. split; [|done].
    assert (strlen s <> 0) by tauto. lia.
Qed.

Lemma Add64_fits x y :
  0 <= x -> 0 <= y -> x + y < two64 -> Add64 x y 0 = (x + y, 0).
Proof.
  intros. unfold Add64. rewrite Z.add_0_r, Z.mod_small, Z.div_small by lia. done.
Qed.

Lemma Add64_carry x y :
  is_u64 x -> is_u64 y -> two64 <= x + y -> (Add64 x y 0).2 <> 0.
Proof. unfold is_u64, Add64; simpl. intros. zlia. Qed.

Lemma div_limit limit p :
  0 <= limit -> 0 < p -> (maxExactInteger / p <? limit) = negb (limit * p <=? maxExactInteger).
Proof.
  intros Hl Hp.
  destruct (Z.ltb_spec (maxExactInteger / p) limit) as [H|H];
    destruct (Z.leb_spec (limit * p) maxExactInteger) as [H'|H']; try done; exfalso.
  - assert (limit <= maxExactInteger / p) by (apply Z.div_le_lower_bound; lia). lia.
  - pose proof (Z.mul_div_le maxExactInteger p Hp). nia.
Qed.

(** The periods the limiter converts: Go's truncating operators agree with
    floor on them. *)
Lemma micro_ok d :
  (d <? Microsecond) || negb (Z.rem d Microsecond =? 0) = false <->
  Microsecond <= d /\ d mod Microsecond = 0.
Proof.
  destruct (Z.ltb_spec d 1000); simpl; [split; [done|lia]|].
  rewrite Z.rem_mod_nonneg by lia.
  destruct (Z.eqb_spec (d mod 1000) 0); simpl; split; try done; lia.
Qed.

Lemma micro_bad d :
  (d <? Microsecond) || negb (Z.rem d Microsecond =? 0) = true ->
  ~ (Microsecond <= d /\ d mod Microsecond = 0).
Proof. intros H H'. apply micro_ok in H'. congruence. Qed.

Lemma u64_Microseconds d :
  is_i64 d -> Microsecond <= d -> u64 (Microseconds d) = d / 1000.
Proof.
  intros [? ?] ?. rewrite Microseconds_nonneg by lia. apply u64_id. unfold is_u64. zlia.
Qed.

Definition windowedb (a : Algorithm) : bool :=
  bool_decide (a = TokenBucket) || bool_decide (a = FixedWindow) || bool_decide (a = SlidingWindow).

Lemma windowedb_spec a : windowedb a = true <-> windowed a.
Proof.
  unfold windowedb, windowed. rewrite !orb_true_iff, !bool_decide_eq_true. tauto.
Qed.

Lemma windowed_not_concurrency a : windowed a -> a <> Concurrency.
Proof. intros [-> | [-> | ->]]; discriminate. Qed.

(** ** Policy construction *)

(** The body of [NewPolicy] once identities and the sum are known good. *)
Section Construction.
Context (spec : PolicySpec).
Hypothesis Htyped : spec_typed spec.
Let limit := spec_Capacity spec + spec_Burst spec.

Ltac refuse := split; [by intros [? [=]] | intros; exfalso; intuition (try lia)].
Ltac decide_test := match goal with
  | |- context [if ?c then _ else _] => destruct c eqn:?
  end.

Ltac accept := split; [intros _; intuition lia | eauto].
Ltac consistent :=
  destruct (bool_decide_reflect (spec_Consistency spec = EmptyString));
  [simpl; accept|];
  destruct (bool_decide_reflect (spec_Consistency spec = ConsistencyProcessLocal));
  [simpl; accept|];
  destruct (bool_decide_reflect (spec_Consistency spec = ConsistencyStrong));
  simpl; [accept | refuse].

(** The checks common to both algorithm families. *)
Ltac tail :=
  destruct (Z.eqb_spec (spec_MaxCost spec) 0);
    [destruct (Z.ltb_spec limit limit); [lia|]
    |destruct (Z.ltb_spec limit (spec_MaxCost spec)); [refuse|]];
  (destruct (Z.eqb_spec (spec_FailureMode spec) FailClosed);
     destruct (Z.eqb_spec (spec_FailureMode spec) FailOpen); simpl; try lia; try refuse);
  consistent.

Lemma accepts_rest :
  1 <= spec_Capacity spec -> limit <= maxExactInteger ->
  (exists p, NewPolicy spec = Ok p) <->
  validPolicyIdentifier (spec_ID spec) 64 = true /\
  validPolicyIdentifier (spec_Revision spec) 64 = true /\
  spec_MaxCost spec <= limit /\
  (spec_FailureMode spec = FailClosed \/ spec_FailureMode spec = FailOpen) /\
  (spec_Consistency spec = EmptyString \/ spec_Consistency spec = ConsistencyProcessLocal \/
   spec_Consistency spec = ConsistencyStrong) /\
  ((windowed (spec_Algorithm spec) /\ Microsecond <= spec_Period spec /\
    spec_Period spec mod Microsecond = 0 /\
    limit * (spec_Period spec / Microsecond) <= maxExactInteger) \/
   (spec_Algorithm spec = Concurrency /\ Microsecond <= spec_Lease spec /\
    spec_Lease spec mod Microsecond = 0 /\ limit <= MaxConcurrencyLeases /\
    spec_FailureMode spec = FailClosed)).
Proof.
  intros Hcap Hlim. destruct Htyped as [Hc Hb Hm Hp Hl]. unfold is_u64 in *.
  unfold NewPolicy, MaxPolicyIDBytes, MaxPolicyRevisionBytes. fold limit.
  rewrite Add64_fits by lia. fold limit.
  destruct (validPolicyIdentifier (spec_ID spec) 64); simpl; [|refuse].
  destruct (validPolicyIdentifier (spec_Revision spec) 64); simpl; [|refuse].
  destruct (Z.eqb_spec (spec_Capacity spec) 0); [lia|]. simpl.
  destruct (Z.ltb_spec maxExactInteger limit); [lia|].
  fold (windowedb (spec_Algorithm spec)).
  destruct (windowedb (spec_Algorithm spec)) eqn:Hw.
  - apply windowedb_spec in Hw. pose proof (windowed_not_concurrency _ Hw) as Hnc.
    rewrite (bool_decide_eq_false_2 (spec_Algorithm spec = Concurrency)) by done. simpl.
    decide_test; [apply micro_bad in Heqb; refuse|]. apply micro_ok in Heqb as [? ?].
    rewrite u64_Microseconds, div_limit by (done || zlia).
    destruct (Z.leb_spec (limit * (spec_Period spec / Microsecond)) maxExactInteger);
      simpl; [|refuse].
    tail.
  - assert (~ windowed (spec_Algorithm spec)) by (rewrite <- windowedb_spec; congruence).
    destruct (bool_decide_reflect (spec_Algorithm spec = Concurrency)); simpl; [|refuse].
    decide_test; [apply micro_bad in Heqb; refuse|]. apply micro_ok in Heqb as [? ?].
    destruct (Z.ltb_spec MaxConcurrencyLeases limit); [refuse|].
    tail.
Qed.
End Construction.

(** The policy an accepted specification becomes. *)
Definition policy_of (spec : PolicySpec) : Policy :=
  {| id := spec_ID spec; revision := spec_Revision spec;
     algorithm := spec_Algorithm spec; capacity := spec_Capacity spec;
     period := spec_Period spec; burst := spec_Burst spec;
     maxCost := if spec_MaxCost spec =? 0 then spec_Capacity spec + spec_Burst spec
                else spec_MaxCost spec;
     failureMode := spec_FailureMode spec;
     consistency := if bool_decide (spec_Consistency spec = EmptyString)
                    then ConsistencyProcessLocal else spec_Consistency spec;
     lease := spec_Lease spec |}.

Lemma NewPolicy_inv spec p :
  spec_typed spec -> NewPolicy spec = Ok p ->
  1 <= spec_Capacity spec /\ spec_Capacity spec + spec_Burst spec <= maxExactInteger /\
  p = policy_of spec.
Proof.
  intros [Hc Hb _ _ _] H. unfold is_u64 in *. revert H. unfold NewPolicy.
  destruct (Z.eqb_spec (spec_Capacity spec) 0); [by rewrite orb_true_r|].
  case_match; [done|].
  destruct (Z.lt_ge_cases (spec_Capacity spec + spec_Burst spec) two64) as [Hs|Hs].
  - rewrite Add64_fits by lia. simpl.
    destruct (Z.ltb_spec maxExactInteger (spec_Capacity spec + spec_Burst spec)); [done|].
    intros Hrest. split_and!; [lia..|]. unfold policy_of, invalidPolicy in *.
    revert Hrest. repeat (case_match; try done); by intros [= <-].
  - pose proof (Add64_carry (spec_Capacity spec) (spec_Burst spec)).
    destruct (Add64 (spec_Capacity spec) (spec_Burst spec) 0) as [s c]; simpl in *.
    destruct (Z.eqb_spec c 0); [|done]. unfold is_u64 in *. lia.
Qed.

Lemma identifier_nonempty s : identifier s -> s <> EmptyString.
Proof. intros [H _] ->. unfold strlen in H; simpl in H. lia. Qed.

Lemma NewPolicy_wf_lemma spec p :
  spec_typed spec -> NewPolicy spec = Ok p -> p = policy_of spec /\ wf_policy p.
Proof.
  intros Ht H. destruct (NewPolicy_inv _ _ Ht H) as (Hc & Hl & ->). split; [done|].
  destruct (proj1 (accepts_rest spec Ht Hc Hl) (ex_intro _ _ H))
    as (Hid & Hrev & Hm & Hf & Hcons & Halg).
  apply validPolicyIdentifier_spec, identifier_nonempty in Hid.
  destruct Ht as [[? ?] [? ?] [? ?] ? ?].
  split; simpl; try done.
  - destruct (Z.eqb_spec (spec_MaxCost spec) 0); lia.
  - case_bool_decide; tauto.
Qed.

(** C33: [NewPolicy] accepts exactly the specifications its documentation
    describes: identifiers of 1..64 bytes over the alphabet, a positive capacity
    whose sum with the burst fits the exact integer range, a cost bound within
    the limit, and a microsecond-precise period whose product with the limit is
    exact (or, for concurrency, a microsecond-precise lease, at most 1024 units
    and fail-closed).  What it returns carries the specification's fields with
    the two defaults filled in. *)
Theorem NewPolicy_accepts_iff spec :
  spec_typed spec ->
  ((exists p, NewPolicy spec = Ok p) <-> spec_valid spec) /\
  (forall p, NewPolicy spec = Ok p -> p = policy_of spec /\ wf_policy p) /\
  (forall e, NewPolicy spec = Err e -> errorsIsAt e ErrInvalidPolicy = true).
Proof.
  intros Ht. split_and!.
  - unfold spec_valid. rewrite <- !validPolicyIdentifier_spec. split.
    + intros [p Hp]. destruct (NewPolicy_inv _ _ Ht Hp) as (Hc & Hl & _).
      pose proof (proj1 (accepts_rest spec Ht Hc Hl) (ex_intro _ _ Hp)). tauto.
    + intros (? & ? & Hc & Hl & ?). apply (accepts_rest spec Ht Hc Hl). tauto.
  - intros p. by apply NewPolicy_wf_lemma.
  - intros e. unfold NewPolicy, invalidPolicy.
    repeat (case_match; try (by intros [= <-])); done.
Qed.

(** A token bucket of 10 per minute with a burst of 2, the quickstart policy. *)
Definition quickstart : PolicySpec :=
  mkPolicySpec "login" "v1" TokenBucket 10 60000000000 2 2 FailClosed EmptyString 0.

Lemma NewPolicy_accepts_iff_witness :
  (exists p, NewPolicy quickstart = Ok p) /\ spec_valid quickstart.
Proof.
  assert (Ht : spec_typed quickstart) by (split; vm_compute; split; discriminate || reflexivity).
  destruct (NewPolicy_accepts_iff quickstart Ht) as [Hiff _].
  assert (He : exists p, NewPolicy quickstart = Ok p) by (eexists; vm_compute; reflexivity).
  exact (conj He (proj1 Hiff He)).
Defined.

(** ** Requests *)

(** The duration whose end a request must be able to represent. *)
Definition request_duration (r : Request) : Duration :=
  if bool_decide (algorithm (req_Policy r) = Concurrency)
  then lease (req_Policy r) else period (req_Policy r).

(** The range in which Go defines [UnixMicro]. *)
Definition micro_time (t : Time) : Prop := is_i64 (instant t / 1000).

Record valid_request (r : Request) : Prop := {
  valid_key : key_value (req_Key r) <> EmptyString;
  valid_cost : 1 <= Cost r <= maxCost (req_Policy r);
  valid_low : - maxExactInteger <= instant (Now r) / 1000;
  valid_high : instant (Now r) / 1000 + request_duration r / 1000 <= maxExactInteger
}.

Lemma request_duration_wf r :
  wf_policy (req_Policy r) ->
  Microsecond <= request_duration r /\ request_duration r mod Microsecond = 0 /\
  is_i64 (request_duration r).
Proof.
  intros []. unfold request_duration.
  destruct wf_algorithm0 as [(Hw & ? & ? & _)|(Hc & ? & ? & _)].
  - rewrite bool_decide_eq_false_2; [done|]. by apply windowed_not_concurrency.
  - by rewrite bool_decide_eq_true_2.
Qed.

Lemma not_zero_instant t : - maxExactInteger <= instant t / 1000 -> IsZero t = false.
Proof. unfold IsZero. intros H. apply Z.eqb_neq. intros E. rewrite E in H. by vm_compute in H. Qed.

Lemma Validate_iff r :
  wf_policy (req_Policy r) -> is_u64 (Cost r) -> micro_time (Now r) ->
  Validate r = None <-> valid_request r.
Proof.
  intros Hwf Hcost Ht.
  destruct (request_duration_wf r Hwf) as (Hd & Hmod & Hdi).
  unfold Validate. fold (request_duration r).
  rewrite (bool_decide_eq_false_2 _ (wf_id _ Hwf)), UnixMicro_small, Microseconds_nonneg by (done || lia).
  unfold is_i64, is_u64 in *.
  rewrite (i64_id (maxExactInteger - _)) by (unfold is_i64; zlia).
  destruct (bool_decide_reflect (key_value (req_Key r) = EmptyString)).
  { split; [done|]. by intros []. }
  destruct (IsZero (Now r)) eqn:Hz.
  { split; [done|]. intros [_ _ Hl _]. apply not_zero_instant in Hl. congruence. }
  destruct (Z.eqb_spec (Cost r) 0); [split; [done|intros []; lia]|].
  destruct (Z.ltb_spec (maxCost (req_Policy r)) (Cost r)); [split; [done|intros []; lia]|].
  destruct (Z.ltb_spec (instant (Now r) / 1000) (- maxExactInteger)); [split; [done|intros []; lia]|].
  destruct (Z.ltb_spec (maxExactInteger - request_duration r / 1000) (instant (Now r) / 1000));
    split; try done; [intros []; lia|].
  split; [done|lia..].
Qed.

(** For a constructed policy and a time Go can express in microseconds,
    [Request.Validate] accepts exactly the requests with a key, a cost in
    1..MaxCost and a time whose microsecond value, and whose value plus the
    period (or lease), lie in the exact integer range; every rejection is an
    [ErrInvalidRequest]. *)
Theorem Validate_exact r :
  wf_policy (req_Policy r) -> is_u64 (Cost r) -> micro_time (Now r) ->
  (Validate r = None <-> valid_request r) /\
  (forall e, Validate r = Some e -> errorsIsAt e ErrInvalidRequest = true).
Proof.
  intros Hwf Hc Ht. split; [by apply Validate_iff|].
  intros e. unfold Validate, invalidRequest. repeat (case_match; try (by intros [= <-])); done.
Qed.

Definition quickstart_request : Request :=
  mkRequest (policy_of quickstart) (mkKey "http:v1:principal:x" "principal") 1
            (mkTime 1700000000000000000 UTC).

Lemma quickstart_wf : wf_policy (policy_of quickstart).
Proof.
  apply (NewPolicy_wf_lemma quickstart); [|vm_compute; reflexivity].
  split; vm_compute; split; discriminate || reflexivity.
Qed.

(** The range check of [Request.Validate] reads the time with [UnixMicro],
    which wraps: a time some 584,000 years ahead, far outside the exact range,
    passes validation. *)
Theorem Validate_accepts_wrapped_time :
  exists r, wf_policy (req_Policy r) /\ Validate r = None /\
            maxExactInteger < instant (Now r) / 1000.
Proof.
  exists (withNow quickstart_request (mkTime (two64 * 1000 + 1700000000000000000) UTC)).
  split_and!; [apply quickstart_wf | vm_compute; reflexivity | vm_compute; reflexivity].
Qed.
