(* ===== verification/Backend.v ===== *)
(** * The collaborators of a service: the interfaces of service.go,
    strict_service.go, lease.go, batch.go and atomic_batch.go

    A service calls contexts, observers, clocks and backends it does not own.
    Each is a record of operations on an arbitrary world [W], so the theorems
    about the services hold for every implementation and every interleaving of
    cancellation with the calls. *)

From S2P Require Import Prelude GoTime Errors Keys Policy.

Local Open Scope string_scope.
Local Open Scope Z_scope.

(** [context.Context]: only [Err] is called, and it does not panic. *)
Record Context (W : Type) := mkContext { ctxErr : W -> option error * W }.
Arguments mkContext {W} _.
Arguments ctxErr {W} _ _.

(** [Observer]: may block, mutate the world and panic. *)
Record Observer (W : Type) := mkObserver { Observe : Observation -> M W unit }.
Arguments mkObserver {W} _.
Arguments Observe {W} _ _.

(** ** Batches *)

Definition MaxBatchSize : nat := 256.

Definition Atomicity := string.
Definition AtomicityPerItem : Atomicity := "per_item".
Definition AtomicityAllOrNothing : Atomicity := "all_or_nothing".

Record BatchRequest := mkBatchRequest {
  batch_Requests : list Request;
  batch_Atomicity : Atomicity
}.

Record BatchDecision := mkBatchDecision {
  bd_Decisions : list Decision;
  bd_Atomicity : Atomicity
}.

Definition emptyBatchDecision : BatchDecision := mkBatchDecision [] EmptyString.

Definition MaxAtomicBatchSize : nat := 16.
Definition ReasonAtomicRejected : Reason := "atomic_rejected".

Record AtomicBatchRequest := mkAtomicBatchRequest {
  CommandID : string;
  abr_Requests : list Request
}.

Record AtomicBatchDecision := mkAtomicBatchDecision {
  abd_CommandID : string;
  abd_Allowed : bool;
  abd_Decisions : list Decision
}.

Definition emptyAtomicBatchDecision : AtomicBatchDecision :=
  mkAtomicBatchDecision EmptyString false [].

(** ** Backends *)

(** [LeaseBackend]. *)
Record LeaseBackend (W : Type) := mkLeaseBackend {
  lb_Acquire : Context W -> LeaseRequest -> M W (Lease * Decision * option error);
  lb_Release : Context W -> Lease -> M W (option error)
}.
Arguments mkLeaseBackend {W} _ _.
Arguments lb_Acquire {W} _ _ _.
Arguments lb_Release {W} _ _ _.

(** [Backend], with the result of asserting it to [LeaseBackend]. *)
Record Backend (W : Type) := mkBackend {
  be_Name : string;
  be_Admit : Context W -> Request -> M W (Decision * option error);
  be_lease : option (LeaseBackend W)
}.
Arguments mkBackend {W} _ _ _.
Arguments be_Name {W} _.
Arguments be_Admit {W} _ _ _.
Arguments be_lease {W} _.

(** [StrictLeaseBackend]. *)
Record StrictLeaseBackend (W : Type) := mkStrictLeaseBackend {
  AcquireStrict : Context W -> LeaseRequest -> M W (Lease * Decision * option error);
  ReleaseStrict : Context W -> Lease -> M W (option error)
}.
Arguments mkStrictLeaseBackend {W} _ _.
Arguments AcquireStrict {W} _ _ _.
Arguments ReleaseStrict {W} _ _ _.

(** [StrictBackend], with the results of asserting it to [StrictLeaseBackend]
    and to [StrictAtomicBatchBackend]. *)
Record StrictBackend (W : Type) := mkStrictBackend {
  sb_Name : string;
  AdmitStrict : Context W -> Request -> M W (Decision * option error);
  sb_lease : option (StrictLeaseBackend W);
  sb_atomic : option (Context W -> AtomicBatchRequest ->
                      M W (AtomicBatchDecision * option error))
}.
Arguments mkStrictBackend {W} _ _ _ _.
Arguments sb_Name {W} _.
Arguments AdmitStrict {W} _ _ _.
Arguments sb_lease {W} _.
Arguments sb_atomic {W} _.

Definition MaxObservers : nat := 16.

(** ** Observation fan-out *)

Section Observers.
Context {W : Type}.

(** [safeObserve] isolates a panic of the observer. *)
Definition safeObserve (observer : Observer W) (observation : Observation) : M W unit :=
  recovered (Observe observer observation).

Fixpoint observeAll (observers : list (Observer W)) (observation : Observation) : M W unit :=
  match observers with
  | [] => mret tt
  | observer :: rest => safeObserve observer observation ≫= fun _ => observeAll rest observation
  end.

(** The fan-out always returns, whatever the observers do. *)
Lemma observeAll_returns observers observation w :
  exists w', returns (observeAll observers observation) w tt w'.
Proof.
  revert w. induction observers as [|o os IH]; intros w; simpl.
  - exists w. by apply ret_returns.
  - destruct (IH (Observe o observation w).2) as [w' H]. exists w'.
    apply bind_returns. exists tt, (Observe o observation w).2. split; [done|exact H].
Qed.
End Observers.
