(* ===== verification/Service.v ===== *)
(** * The compatibility service: service.go, the service methods of lease.go,
    and batch.go *)

From S2P Require Import Prelude GoTime Errors Keys Policy Backend.

Local Open Scope string_scope.
Local Open Scope Z_scope.

Record Service (W : Type) := mkService {
  svc_backend : Backend W;
  svc_observers : list (Observer W)
}.
Arguments mkService {W} _ _.
Arguments svc_backend {W} _.
Arguments svc_observers {W} _.

Section Service.
Context {W : Type}.
(** [time.Now] as a monotonic reading in nanoseconds. *)
Context (clock : W -> Z * W).

(** [NewService] keeps a typed nil: only the nil interface is refused. *)
Definition NewService (backend : iface (Backend W)) (observers : list (iface (Observer W)))
    : result error (Service W) :=
  match backend with
  | nil_iface => Err (errorf ErrUnavailable "backend is required")
  | typed_nil b | iface_of b =>
      if bool_decide (be_Name b = EmptyString)
      then Err (errorf ErrUnavailable "backend is required") else
      let filtered := omap (fun o => match o with
                                     | nil_iface => None
                                     | typed_nil o' | iface_of o' => Some o'
                                     end) observers in
      if (MaxObservers <? length filtered)%nat
      then Err (errorf ErrInvalidPolicy "at most 16 observers are allowed")
      else Ok (mkService b filtered)
  end.

Definition normalizeBackendError (ctx : Context W) (err : option error) : M W error :=
  ctx1 ← lift (ctxErr ctx);
  if errorsIs ctx1 CtxDeadlineExceeded || errorsIs err CtxDeadlineExceeded
  then mret (Sent ErrDeadline) else
  ctx2 ← lift (ctxErr ctx);
  if errorsIs ctx2 CtxCanceled || errorsIs err CtxCanceled
  then mret (Sent ErrDeadline) else
  if errorsIs err ErrOverflow then mret (Sent ErrOverflow) else
  if errorsIs err ErrCorrupt then mret (Sent ErrCorrupt) else
  mret (Sent ErrUnavailable).

(** Stamp a decision with the backend name and the policy revision. *)
Definition stamp (name : string) (request : Request) (d : Decision) : Decision :=
  mkDecision (Allowed d) (Remaining d) (dec_Limit d) (Reset d) (RetryAfter d)
             (dec_Reason d) name (revision (req_Policy request)).

Definition failOpenDecision (request : Request) : Decision :=
  mkDecision true (Limit (req_Policy request)) (Limit (req_Policy request)) zeroTime 0
             ReasonFailOpen EmptyString EmptyString.

Definition unavailableDecision (request : Request) : Decision :=
  mkDecision false 0 (Limit (req_Policy request)) zeroTime 0
             ReasonBackendUnavailable EmptyString EmptyString.

(** The deferred observation of [Admit] and [Acquire]. *)
Definition observe (service : Service W) (request : Request) (started : Z)
    (decision : Decision) (err : option error) : M W unit :=
  finished ← lift clock;
  observeAll (svc_observers service)
    (mkObservation (id (req_Policy request)) (subjectKind (req_Key request))
                   decision err (finished - started)).

(** [Admit] between the backend's answer and the deferred closure. *)
Definition admitBody (service : Service W) (ctx : Context W) (request : Request)
    : M W (Decision * option error) :=
  result ← be_Admit (svc_backend service) ctx request;
  let '(decision, err) := result in
  match err with
  | None => mret (decision, None)
  | Some _ =>
      if errorsIs err ErrRejected then mret (decision, err) else
      err' ← normalizeBackendError ctx err;
      if (failureMode (req_Policy request) =? FailOpen) &&
         (errorsIs (Some err') ErrUnavailable || errorsIs (Some err') ErrDeadline)
      then mret (failOpenDecision request, None)
      else mret (unavailableDecision request, Some err')
  end.

Definition Admit (service : Service W) (ctx : Context W) (request : Request)
    : M W (Decision * option error) :=
  match Validate request with
  | Some err => mret (emptyDecision, Some err)
  | None =>
      started ← lift clock;
      deferred (emptyDecision, None) (admitBody service ctx request) (fun '(decision, err) =>
        let decision := stamp (be_Name (svc_backend service)) request decision in
        _ ← observe service request started decision err;
        mret (decision, err))
  end.

(** ** Leases *)

Definition errorsIsStableLease (err : option error) : bool :=
  errorsIs err ErrRejected || errorsIs err ErrLeaseNotFound ||
  errorsIs err ErrLeaseNotOwned || errorsIs err ErrUnavailable ||
  errorsIs err ErrDeadline || errorsIs err ErrCorrupt.

Definition withLeaseBackend (l : Lease) (name : string) : Lease :=
  mkLease (lease_ID l) (lease_Key l) (lease_PolicyID l) (lease_PolicyRevision l)
          (lease_Cost l) (ExpiresAt l) name.

Definition Acquire (service : Service W) (ctx : Context W) (request : LeaseRequest)
    : M W (Lease * Decision * option error) :=
  match LeaseRequest_Validate request with
  | Some err => mret (zeroLease, emptyDecision, Some err)
  | None =>
      match be_lease (svc_backend service) with
      | None => mret (zeroLease, emptyDecision,
                      Some (errorf ErrUnsupported "backend does not guarantee leases"))
      | Some backend =>
          started ← lift clock;
          deferred (zeroLease, emptyDecision, None)
            (result ← lb_Acquire backend ctx request;
             let '(lease, decision, err) := result in
             match err with
             | Some _ =>
                 if errorsIsStableLease err then mret (lease, decision, err)
                 else err' ← normalizeBackendError ctx err; mret (lease, decision, Some err')
             | None => mret (lease, decision, None)
             end)
            (fun '(lease, decision, err) =>
               let name := be_Name (svc_backend service) in
               let decision := stamp name (lr_Request request) decision in
               _ ← observe service (lr_Request request) started decision err;
               mret (withLeaseBackend lease name, decision, err))
      end
  end.

Definition incompleteLease (l : Lease) : bool :=
  bool_decide (lease_ID l = EmptyString) || bool_decide (key_value (lease_Key l) = EmptyString) ||
  bool_decide (lease_PolicyID l = EmptyString) || (lease_Cost l =? 0) || IsZero (ExpiresAt l).

Definition Release (service : Service W) (ctx : Context W) (l : Lease) : M W (option error) :=
  if incompleteLease l then mret (invalidRequest "complete lease is required") else
  if negb (bool_decide (lease_Backend l = EmptyString)) &&
     negb (bool_decide (lease_Backend l = be_Name (svc_backend service)))
  then mret (Some (Sent ErrLeaseNotOwned)) else
  match be_lease (svc_backend service) with
  | None => mret (Some (Sent ErrUnsupported))
  | Some backend =>
      err ← lb_Release backend ctx l;
      match err with
      | Some _ => if errorsIsStableLease err then mret err
                  else err' ← normalizeBackendError ctx err; mret (Some err')
      | None => mret None
      end
  end.

(** ** Batches *)

(** The first validation error, in input order. *)
Fixpoint firstInvalid (requests : list Request) : option error :=
  match requests with
  | [] => None
  | r :: rest => match Validate r with Some e => Some e | None => firstInvalid rest end
  end.

(** [fmt.Errorf("item %d: %w", index, err)]. *)
Definition itemError (index : nat) (err : error) : error :=
  Wrapped ("item " +:+ pretty (Z.of_nat index) +:+ ": " +:+ errorText err) [err].

Fixpoint admitItems (service : Service W) (ctx : Context W) (index : nat)
    (requests : list Request) : M W (list Decision * list error) :=
  match requests with
  | [] => mret ([], [])
  | request :: rest =>
      result ← Admit service ctx request;
      let '(decision, err) := result in
      tail ← admitItems service ctx (S index) rest;
      let '(decisions, failures) := tail in
      mret (decision :: decisions,
            match err with Some e => itemError index e :: failures | None => failures end)
  end.

(** [errors.Join]: nil for no errors. *)
Definition errorsJoin (errs : list error) : option error :=
  match errs with [] => None | _ => Some (Joined errs) end.

Definition Batch (service : Service W) (ctx : Context W) (batch : BatchRequest)
    : M W (BatchDecision * option error) :=
  let size := length (batch_Requests batch) in
  let badSize := (emptyBatchDecision, invalidRequest "batch size must be between 1 and 256") in
  if (size =? 0)%nat then mret badSize else
  if (MaxBatchSize <? size)%nat then mret badSize else
  if bool_decide (batch_Atomicity batch = AtomicityAllOrNothing)
  then mret (emptyBatchDecision,
             Some (errorf ErrUnsupported "backend-independent batches are per-item")) else
  if negb (bool_decide (batch_Atomicity batch = AtomicityPerItem))
  then mret (emptyBatchDecision, invalidRequest "unknown batch atomicity") else
  match firstInvalid (batch_Requests batch) with
  | Some err => mret (emptyBatchDecision, Some err)
  | None =>
      result ← admitItems service ctx 0 (batch_Requests batch);
      let '(decisions, failures) := result in
      mret (mkBatchDecision decisions AtomicityPerItem, errorsJoin failures)
  end.
End Service.

(** ** Theorems *)

Section ServiceTheorems.
Context {W : Type} (clock : W -> Z * W).
Implicit Types (service : Service W) (ctx : Context W) (w : W).

Definition normalized (s : Sentinel) : Prop :=
  s = ErrDeadline \/ s = ErrOverflow \/ s = ErrCorrupt \/ s = ErrUnavailable.

Lemma normalizeBackendError_returns ctx err w :
  exists s w', returns (normalizeBackendError ctx err) w (Sent s) w' /\ normalized s.
Proof.
  unfold normalizeBackendError, returns, mbind, M_bind, lift, normalized.
  destruct (ctxErr ctx w) as [c1 w1].
  destruct (errorsIs c1 _ || _); [eexists _, _; split; [done|tauto]|].
  destruct (ctxErr ctx w1) as [c2 w2].
  destruct (errorsIs c2 _ || _); [eexists _, _; split; [done|tauto]|].
  destruct (errorsIs err ErrOverflow); [eexists _, _; split; [done|tauto]|].
  destruct (errorsIs err ErrCorrupt); eexists _, _; (split; [done|tauto]).
Qed.

Lemma observe_returns service request started d e w :
  exists w', returns (observe clock service request started d e) w tt w'.
Proof.
  unfold observe. destruct (clock w) as [t w1] eqn:Hc.
  destruct (observeAll_returns (svc_observers service)
    (mkObservation (id (req_Policy request)) (subjectKind (req_Key request)) d e (t - started)) w1)
    as [w2 H].
  exists w2. apply bind_returns. exists t, w1. split; [by apply lift_returns|done].
Qed.

(** The deferred closure stamps, observes and passes the results through. *)
Lemma deferred_stamp service request started (body : M W (Decision * option error)) w d e w1 :
  returns body w (d, e) w1 ->
  exists w2, returns (deferred (emptyDecision, None) body (fun '(decision, err) =>
      let decision := stamp (be_Name (svc_backend service)) request decision in
      _ ← observe clock service request started decision err;
      mret (decision, err))) w (stamp (be_Name (svc_backend service)) request d, e) w2.
Proof.
  unfold returns, deferred. intros ->.
  destruct (observe_returns service request started
              (stamp (be_Name (svc_backend service)) request d) e w1) as [w2 H].
  exists w2. unfold mbind, M_bind. by rewrite H.
Qed.

(** Failing open is decided by the policy and the normalized category. *)
Definition failsOpen (request : Request) (s : Sentinel) : bool :=
  (failureMode (req_Policy request) =? FailOpen) &&
  (bool_decide (s = ErrUnavailable) || bool_decide (s = ErrDeadline)).

Lemma admitBody_returns service ctx request w d0 e0 w1 :
  returns (be_Admit (svc_backend service) ctx request) w (d0, e0) w1 ->
  exists d e w2, returns (admitBody service ctx request) w (d, e) w2 /\
    ((e0 = None \/ errorsIs e0 ErrRejected = true) /\ d = d0 /\ e = e0 \/
     e0 <> None /\ errorsIs e0 ErrRejected = false /\
     exists s, normalized s /\
       (d, e) = if failsOpen request s then (failOpenDecision request, None)
                else (unavailableDecision request, Some (Sent s))).
Proof.
  intros H. unfold admitBody, returns, mbind, M_bind. rewrite H.
  destruct e0 as [e0|]; [|eexists _, _, _; split; [done|tauto]].
  destruct (errorsIs (Some e0) ErrRejected) eqn:Hr; [eexists _, _, _; split; [done|tauto]|].
  destruct (normalizeBackendError_returns ctx (Some e0) w1) as (s & w2 & Hn & Hs).
  rewrite Hn. unfold failsOpen. simpl errorsIs.
  destruct (failureMode (req_Policy request) =? FailOpen) eqn:Hf; simpl;
    [destruct (bool_decide (s = ErrUnavailable) || bool_decide (s = ErrDeadline)) eqn:Hc|];
    eexists _, _, _; (split; [done|right; split_and!; try done; exists s;
                              rewrite ?Hf, ?Hc; by split]).
Qed.

(** [Service.Admit] on a valid request whose backend answers always
    returns.  A nil error or a rejection passes through; any other error is
    normalized to one of four categories, and then the request is admitted
    exactly when the policy fails open and the category is availability or
    deadline.  Every result is stamped with the backend name and revision. *)
Theorem Admit_outcome service ctx request w started w1 d0 e0 w2 :
  Validate request = None -> clock w = (started, w1) ->
  returns (be_Admit (svc_backend service) ctx request) w1 (d0, e0) w2 ->
  exists d e w3,
    returns (Admit clock service ctx request) w
            (stamp (be_Name (svc_backend service)) request d, e) w3 /\
    ((e0 = None \/ errorsIs e0 ErrRejected = true) /\ d = d0 /\ e = e0 \/
     e0 <> None /\ errorsIs e0 ErrRejected = false /\
     exists s, normalized s /\
       (d, e) = if failsOpen request s then (failOpenDecision request, None)
                else (unavailableDecision request, Some (Sent s))).
Proof.
  intros Hv Hc Hb. destruct (admitBody_returns _ _ _ _ _ _ _ Hb) as (d & e & w3 & Hbody & Hcase).
  destruct (deferred_stamp service request started _ _ _ _ _ Hbody) as [w4 H4].
  exists d, e, w4. split; [|done]. unfold Admit. rewrite Hv.
  apply bind_returns. exists started, w1. split; [by apply lift_returns|done].
Qed.

Lemma admitItems_length service ctx requests index w ds fs w' :
  returns (admitItems clock service ctx index requests) w (ds, fs) w' ->
  length ds = length requests.
Proof.
  revert index w ds fs w'.
  induction requests as [|r rs IH]; intros index w ds fs w'; simpl.
  - rewrite ret_returns. by intros [[= <- <-] _].
  - rewrite bind_returns. intros ([d e] & w1 & _ & H).
    apply bind_returns in H as ([ds' fs'] & w2 & Htail & H).
    apply ret_returns in H as [[= <- <-] _]. simpl. by rewrite (IH _ _ _ _ _ Htail).
Qed.

(** [Service.Batch] validates everything before it dispatches anything: a
    refused batch (wrong size, wrong atomicity, or any invalid item) leaves the
    world untouched, and an accepted one yields one decision per request, in
    order. *)
Theorem Batch_validates_first service ctx batch w :
  let ok := (1 <= length (batch_Requests batch) <= MaxBatchSize)%nat /\
            batch_Atomicity batch = AtomicityPerItem /\
            firstInvalid (batch_Requests batch) = None in
  (~ ok -> exists e, Batch clock service ctx batch w = (Ret (emptyBatchDecision, Some e), w)) /\
  (forall r e w', returns (Batch clock service ctx batch) w (r, e) w' -> ok ->
     length (bd_Decisions r) = length (batch_Requests batch) /\
     bd_Atomicity r = AtomicityPerItem).
Proof.
  intros ok. unfold Batch. split.
  - intros Hnot. destruct (Nat.eqb_spec (length (batch_Requests batch)) 0); [by eexists|].
    destruct (Nat.ltb_spec MaxBatchSize (length (batch_Requests batch))); [by eexists|].
    case_bool_decide; [by eexists|]. case_bool_decide; simpl; [|by eexists].
    destruct (firstInvalid (batch_Requests batch)); [by eexists|].
    exfalso. apply Hnot. subst ok. split_and!; (done || lia).
  - intros r e w' H ([Hlo Hhi] & Ha & Hv). revert H.
    destruct (Nat.eqb_spec (length (batch_Requests batch)) 0); [lia|].
    destruct (Nat.ltb_spec MaxBatchSize (length (batch_Requests batch))); [lia|].
    rewrite Ha, Hv. simpl. rewrite bind_returns. intros ([ds fs] & w1 & Hi & Hret).
    apply ret_returns in Hret as [[= <- <-] _]. simpl. split; [|done].
    by eapply admitItems_length.
Qed.
End ServiceTheorems.

(** A world without state, a context that is never done and a backend that is
    down: the quickstart policy, failing open, admits. *)
Definition live : Context unit := mkContext (fun w => (None, w)).
Definition still : unit -> Z * unit := fun w => (0, w).
Definition down : Backend unit :=
  mkBackend "down" (fun _ _ => mret (emptyDecision, Some (Sent ErrUnavailable))) None.

Lemma Admit_outcome_witness :
  Validate quickstart_request = None /\
  exists d e w3,
    returns (Admit still (mkService down []) live quickstart_request) tt
            (stamp "down" quickstart_request d, e) w3 /\
    ((Some (Sent ErrUnavailable) = None \/
      errorsIs (Some (Sent ErrUnavailable)) ErrRejected = true) /\ d = emptyDecision /\
      e = Some (Sent ErrUnavailable) \/
     Some (Sent ErrUnavailable) <> None /\ errorsIs (Some (Sent ErrUnavailable)) ErrRejected = false /\
     exists s, normalized s /\
       (d, e) = if failsOpen quickstart_request s then (failOpenDecision quickstart_request, None)
                else (unavailableDecision quickstart_request, Some (Sent s))).
Proof.
  assert (H : Validate quickstart_request = None) by (vm_compute; reflexivity).
  split; [exact H|].
  exact (Admit_outcome still (mkService down []) live quickstart_request tt 0 tt _ _ tt
           H eq_refl eq_refl).
Defined.
