(* ===== verification/StrictService.v ===== *)
(** * The strict service: strict_service.go and strict_lease.go

    The strict service trusts only complete results and direct declarations of
    a backend; everything else becomes an unknown outcome that is never failed
    open.  A receiver is [option (StrictService W)]: [None] is a nil pointer. *)

From S2P Require Import Prelude GoTime GoHash Errors Keys Policy Backend.

Local Open Scope string_scope.
Local Open Scope Z_scope.
Local Open Scope go_scope.

Definition ReasonCanceled : Reason := "canceled".
Definition ReasonDeadline : Reason := "deadline".
Definition ReasonOutcomeUnknown : Reason := "outcome_unknown".

Record StrictService (W : Type) := mkStrictService {
  ss_backend : iface (StrictBackend W);
  ss_observers : list (Observer W);
  ss_name : string
}.
Arguments mkStrictService {W} _ _ _.
Arguments ss_backend {W} _.
Arguments ss_observers {W} _.
Arguments ss_name {W} _.

(** ** Validation of results and declarations *)

Fixpoint validBackendNameFrom (previousHyphen : bool) (bytes : list Z) : bool :=
  match bytes with
  | [] => negb previousHyphen
  | current :: rest =>
      if current =? 45 then
        if previousHyphen then false else validBackendNameFrom true rest
      else if negb (in_range 97 122 current) && negb (in_range 48 57 current) then false
      else validBackendNameFrom false rest
  end.

Definition validBackendName (name : string) : bool :=
  match bytes_of name with
  | [] => false
  | first :: _ =>
      if (MaxBackendNameBytes <? String.length name)%nat || negb (in_range 97 122 first)
      then false else validBackendNameFrom false (bytes_of name)
  end.

Definition strictFailOpen (request : Request) : Decision :=
  mkDecision true (Limit (req_Policy request)) (Limit (req_Policy request)) zeroTime 0
             ReasonFailOpen EmptyString EmptyString.

Definition strictDenied (request : Request) (reason : Reason) : Decision :=
  mkDecision false 0 (Limit (req_Policy request)) zeroTime 0 reason EmptyString EmptyString.

Definition completeAllowed (decision : Decision) (request : Request) : bool :=
  Allowed decision && bool_decide (dec_Reason decision = ReasonAllowed) &&
  (dec_Limit decision =? Limit (req_Policy request)) &&
  (Remaining decision <=? Limit (req_Policy request) -u Cost request) &&
  negb (IsZero (Reset decision)) && (RetryAfter decision =? 0).

Definition completeRejected (decision : Decision) (request : Request) : bool :=
  negb (Allowed decision) && bool_decide (dec_Reason decision = ReasonLimited) &&
  (dec_Limit decision =? Limit (req_Policy request)) && (Remaining decision <? Cost request) &&
  negb (IsZero (Reset decision)) && (0 <=? RetryAfter decision).

Definition zeroDecision (decision : Decision) : bool := bool_decide (decision = emptyDecision).

Inductive declarationKind := declarationUnsafe | declarationSafe | declarationOutcome.

#[global] Instance declarationKind_eq_dec : EqDecision declarationKind.
Proof. solve_decision. Defined.

Definition strictDeclaration (err : option error) : declarationKind * option error :=
  match err with
  | None => (declarationUnsafe, None)
  | Some (strictOutcomeError _ _) => (declarationOutcome, err)
  | Some (BackendError category) =>
      if safeBackendCategory category then (declarationSafe, category)
      else (declarationUnsafe, None)
  | Some _ => if safeBackendCategory err then (declarationSafe, err) else (declarationUnsafe, None)
  end.

Inductive strictMethod := strictMethodAdmit | strictMethodAcquire | strictMethodRelease.

Definition applicableCategory (category : option error) (method : strictMethod) : bool :=
  match method with
  | strictMethodAdmit =>
      directError category ErrRejected || directError category ErrUnavailable ||
      directError category ErrOverflow || directError category ErrCorrupt ||
      directError category ErrUnsupported
  | strictMethodAcquire =>
      directError category ErrRejected || directError category ErrUnavailable ||
      directError category ErrOverflow || directError category ErrCorrupt ||
      directError category ErrLeaseNotOwned
  | strictMethodRelease =>
      directError category ErrUnavailable || directError category ErrCorrupt ||
      directError category ErrLeaseNotFound || directError category ErrLeaseNotOwned
  end.

Definition reconstructUnknown (context : strictOutcomeKind) : error :=
  match context with
  | strictOutcomeCanceled => UnknownOutcome (Some (Sent CtxCanceled))
  | strictOutcomeDeadline => UnknownOutcome (Some (Sent CtxDeadlineExceeded))
  | _ => UnknownOutcome None
  end.

Definition contextReason (err : error) : Reason :=
  match err with
  | strictOutcomeError strictOutcomeCanceled _ => ReasonCanceled
  | _ => ReasonDeadline
  end.

(** The policy allows failing open at all. *)
Definition mayFailOpen (request : Request) : bool :=
  (failureMode (req_Policy request) =? FailOpen) &&
  negb (bool_decide (algorithm (req_Policy request) = Concurrency)).

Definition strictDeadlineFailOpen (request : Request) (err : error) : bool :=
  match err with
  | strictOutcomeError strictOutcomeDeadline _ => mayFailOpen request
  | _ => false
  end.

Definition completeLease (l : Lease) (decision : Decision) (request : LeaseRequest) : bool :=
  bool_decide (lease_ID l = LeaseID request) &&
  bool_decide (lease_Key l = req_Key (lr_Request request)) &&
  bool_decide (lease_PolicyID l = id (req_Policy (lr_Request request))) &&
  bool_decide (lease_PolicyRevision l = revision (req_Policy (lr_Request request))) &&
  (lease_Cost l =? Cost (lr_Request request)) &&
  negb (IsZero (ExpiresAt l)) && Equal (ExpiresAt l) (Reset decision).

Definition validateStrictLease (l : Lease) : option error :=
  if bool_decide (lease_ID l = EmptyString) || bool_decide (key_value (lease_Key l) = EmptyString) ||
     bool_decide (lease_PolicyID l = EmptyString) || (lease_Cost l =? 0) || IsZero (ExpiresAt l)
  then invalidRequest "complete lease is required" else None.

Definition validateBatch (batch : BatchRequest) : option error :=
  let size := length (batch_Requests batch) in
  if (size =? 0)%nat || (MaxBatchSize <? size)%nat
  then invalidRequest "batch size must be between 1 and 256" else
  if bool_decide (batch_Atomicity batch = AtomicityAllOrNothing)
  then Some (errorf ErrUnsupported "backend-independent batches are per-item") else
  if negb (bool_decide (batch_Atomicity batch = AtomicityPerItem))
  then invalidRequest "unknown batch atomicity" else
  (fix go requests := match requests with
                      | [] => None
                      | r :: rest => match Validate r with Some e => Some e | None => go rest end
                      end) (batch_Requests batch).

Record StrictBatchDecision := mkStrictBatchDecision {
  sbd_Decisions : list Decision;
  Attempted : list nat;
  sbd_Atomicity : Atomicity
}.

Definition emptyStrictBatchDecision : StrictBatchDecision :=
  mkStrictBatchDecision [] [] EmptyString.

(** [err == nil]. *)
Definition isNil (err : option error) : bool :=
  match err with None => true | Some _ => false end.

(** ** Operations *)

Section StrictService.
Context {W : Type}.
(** [time.Now] as a monotonic reading in nanoseconds. *)
Context (clock : W -> Z * W).

Fixpoint filterObservers (index : nat) (observers : list (iface (Observer W)))
    : result error (list (Observer W)) :=
  match observers with
  | [] => Ok []
  | nil_iface :: rest => filterObservers (S index) rest
  | typed_nil _ :: _ =>
      Err (errorf ErrInvalidPolicy ("observer at index " +:+ pretty (Z.of_nat index) +:+ " is nil"))
  | iface_of o :: rest =>
      match filterObservers (S index) rest with
      | Ok os => Ok (o :: os)
      | Err e => Err e
      end
  end.

Definition NewStrictService (backend : iface (StrictBackend W))
    (observers : list (iface (Observer W))) : result error (StrictService W) :=
  match backend with
  | iface_of b =>
      match filterObservers 0 observers with
      | Err e => Err e
      | Ok filtered =>
          if (MaxObservers <? length filtered)%nat
          then Err (errorf ErrInvalidPolicy "at most 16 observers are allowed") else
          if negb (validBackendName (sb_Name b))
          then Err (errorf ErrInvalidPolicy "backend name must be 1 to 64 lowercase ASCII bytes using letters, digits, and single hyphens")
          else Ok (mkStrictService backend filtered (sb_Name b))
      end
  | _ => Err (errorf ErrInvalidPolicy "backend is required")
  end.

Definition stampDecision (service : StrictService W) (decision : Decision) (request : Request)
    : Decision :=
  mkDecision (Allowed decision) (Remaining decision) (dec_Limit decision) (Reset decision)
             (RetryAfter decision) (dec_Reason decision) (ss_name service)
             (revision (req_Policy request)).

Definition observe (service : StrictService W) (request : Request) (decision : Decision)
    (err : option error) (started : Z) : M W unit :=
  finished ← lift clock;
  observeAll (ss_observers service)
    (mkObservation (id (req_Policy request)) (subjectKind (req_Key request))
                   decision err (finished - started)).

Definition strictCallerContext (ctx : Context W) : M W (option error) :=
  err ← lift (ctxErr ctx);
  mret (if directError err CtxCanceled then Some CanceledOutcome
        else if directError err CtxDeadlineExceeded then Some DeadlineOutcome
        else None).

Definition unknownDecision (service : StrictService W) (ctx : Context W) (request : Request)
    : M W (Decision * option error) :=
  err ← lift (ctxErr ctx);
  mret (stampDecision service (strictDenied request ReasonOutcomeUnknown) request,
        Some (UnknownOutcome err)).

(** The type assertion to a non-nil [strictOutcomeError]. *)
Definition asOutcome (err : option error) : option (strictOutcomeKind * strictOutcomeKind) :=
  match err with
  | Some (strictOutcomeError kind context) => Some (kind, context)
  | _ => None
  end.

Definition normalizeAdmit (service : StrictService W) (ctx : Context W) (request : Request)
    (raw : Decision) (rawErr : option error) : M W (Decision * option error) :=
  let '(declaration, category) := strictDeclaration rawErr in
  let safe := bool_decide (declaration = declarationSafe) in
  let stamped d := stampDecision service d request in
  if isNil rawErr && completeAllowed raw request
  then mret (stamped raw, None) else
  if safe && directError category ErrRejected && completeRejected raw request
  then mret (stamped raw, rawErr) else
  match (if bool_decide (declaration = declarationOutcome) && zeroDecision raw
         then asOutcome rawErr else None) with
  | Some (strictOutcomeCanceled, _) =>
      mret (stamped (strictDenied request ReasonCanceled), Some CanceledOutcome)
  | Some (strictOutcomeDeadline, _) =>
      if mayFailOpen request then mret (stamped (strictFailOpen request), None)
      else mret (stamped (strictDenied request ReasonDeadline), Some DeadlineOutcome)
  | Some (strictOutcomeUnknown, context) =>
      mret (stamped (strictDenied request ReasonOutcomeUnknown), Some (reconstructUnknown context))
  | _ =>
      if safe && negb (directError category ErrRejected) &&
         applicableCategory category strictMethodAdmit && zeroDecision raw
      then if directError category ErrUnavailable && mayFailOpen request
           then mret (stamped (strictFailOpen request), None)
           else mret (stamped (strictDenied request ReasonBackendUnavailable), rawErr)
      else unknownDecision service ctx request
  end.

(** [admit] past its argument checks. *)
Definition admitReady (service : StrictService W) (backend : StrictBackend W) (ctx : Context W)
    (request : Request) (validated : bool) : M W (Decision * option error * bool) :=
  started ← lift clock;
  callerErr ← strictCallerContext ctx;
  match callerErr with
  | Some err =>
      if validated then mret (emptyDecision, Some err, false) else
      if strictDeadlineFailOpen request err then
        let decision := stampDecision service (strictFailOpen request) request in
        _ ← observe service request decision None started;
        mret (decision, None, false)
      else
        let decision :=
          stampDecision service (strictDenied request (contextReason err)) request in
        _ ← observe service request decision (Some err) started;
        mret (decision, Some err, false)
  | None =>
      raw ← AdmitStrict backend ctx request;
      result ← normalizeAdmit service ctx request raw.1 raw.2;
      _ ← observe service request result.1 result.2 started;
      mret (result.1, result.2, true)
  end.

(** [admit]: the third result tells whether the backend was called. *)
Definition admitRequest (service : option (StrictService W)) (ctx : iface (Context W))
    (request : Request) (validated : bool) : M W (Decision * option error * bool) :=
  let uninitialized :=
    (emptyDecision, Some (errorf ErrInvalidPolicy "strict service is nil or uninitialized"), false) in
  match service with
  | None => mret uninitialized
  | Some service =>
      match ss_backend service with
      | nil_iface => mret uninitialized
      | typed_nil backend | iface_of backend =>
          if bool_decide (ss_name service = EmptyString) then mret uninitialized else
          match ctx with
          | nil_iface | typed_nil _ =>
              mret (emptyDecision, invalidRequest "context is required", false)
          | iface_of ctx =>
              match (if validated then None else Validate request) with
              | Some err => mret (emptyDecision, Some err, false)
              | None =>
                  admitReady service backend ctx request validated
              end
          end
      end
  end.

Definition Admit (service : option (StrictService W)) (ctx : iface (Context W))
    (request : Request) : M W (Decision * option error) :=
  result ← admitRequest service ctx request false;
  mret (result.1.1, result.1.2).

(** ** Batches *)

(** The second [break] of the loop: an unknown item under a done context. *)
Definition stopsBatch (ctx : Context W) (err : option error) : M W bool :=
  match asOutcome err with
  | Some (strictOutcomeUnknown, _) =>
      late ← strictCallerContext ctx; mret (negb (isNil late))
  | _ => mret false
  end.

(** The loop of [Batch] from [index] on: decisions, attempted indexes and
    failed items of the remaining requests; [break] leaves the rest zero. *)
Fixpoint batchItems (service : StrictService W) (ctx : Context W) (index : nat)
    (requests : list Request) : M W (list Decision * list nat * list error) :=
  match requests with
  | [] => mret ([], [], [])
  | request :: rest =>
      let zeros := replicate (S (length rest)) emptyDecision in
      contextErr ← strictCallerContext ctx;
      match contextErr with
      | Some err => mret (zeros, [], [BatchItemError (Z.of_nat index) (Some err)])
      | None =>
          result ← admitRequest (Some service) (iface_of ctx) request true;
          let '(decision, err, dispatched) := result in
          if negb dispatched then mret (zeros, [], [BatchItemError (Z.of_nat index) err]) else
          let items := match err with
                       | Some _ => [BatchItemError (Z.of_nat index) err]
                       | None => []
                       end in
          stop ← stopsBatch ctx err;
          if (stop : bool) then mret (decision :: replicate (length rest) emptyDecision, [index], items) else
          tail ← batchItems service ctx (S index) rest;
          let '(decisions, attempted, failures) := tail in
          mret (decision :: decisions, index :: attempted, app items failures)
      end
  end.

Definition Batch (service : option (StrictService W)) (ctx : iface (Context W))
    (batch : BatchRequest) : M W (StrictBatchDecision * option error) :=
  let uninitialized :=
    (emptyStrictBatchDecision,
     Some (errorf ErrInvalidPolicy "strict service is nil or uninitialized")) in
  match service with
  | None => mret uninitialized
  | Some service =>
      if is_nil_iface (ss_backend service) || bool_decide (ss_name service = EmptyString)
      then mret uninitialized else
      match ctx with
      | nil_iface | typed_nil _ =>
          mret (emptyStrictBatchDecision, invalidRequest "context is required")
      | iface_of ctx =>
          match validateBatch batch with
          | Some err => mret (emptyStrictBatchDecision, Some err)
          | None =>
              result ← batchItems service ctx 0 (batch_Requests batch);
              let '(decisions, attempted, items) := result in
              mret (mkStrictBatchDecision decisions attempted AtomicityPerItem,
                    match items with [] => None | _ => Some (StrictBatchError items) end)
          end
      end
  end.

(** ** Leases *)

Definition withLeaseBackend (l : Lease) (name : string) : Lease :=
  mkLease (lease_ID l) (lease_Key l) (lease_PolicyID l) (lease_PolicyRevision l)
          (lease_Cost l) (ExpiresAt l) name.

Definition normalizeAcquire (service : StrictService W) (ctx : Context W)
    (request : LeaseRequest) (rawLease : Lease) (rawDecision : Decision) (rawErr : option error)
    : M W (Lease * Decision * option error) :=
  let '(declaration, category) := strictDeclaration rawErr in
  let safe := bool_decide (declaration = declarationSafe) in
  let stamped d := stampDecision service d (lr_Request request) in
  let noLease := bool_decide (rawLease = zeroLease) in
  if isNil rawErr && completeAllowed rawDecision (lr_Request request) &&
     completeLease rawLease rawDecision request
  then mret (withLeaseBackend rawLease (ss_name service), stamped rawDecision, None) else
  if safe && directError category ErrRejected && noLease &&
     completeRejected rawDecision (lr_Request request)
  then mret (zeroLease, stamped rawDecision, rawErr) else
  match (if bool_decide (declaration = declarationOutcome) && noLease && zeroDecision rawDecision
         then asOutcome rawErr else None) with
  | Some (kind, context) =>
      if bool_decide (kind = strictOutcomeUnknown)
      then mret (zeroLease, stamped (strictDenied (lr_Request request) ReasonOutcomeUnknown),
                 Some (reconstructUnknown context))
      else
        let decision := stamped (strictDenied (lr_Request request)
                                   (contextReason (strictOutcomeError kind context))) in
        mret (zeroLease, decision,
              Some (if bool_decide (kind = strictOutcomeCanceled)
                    then CanceledOutcome else DeadlineOutcome))
  | None =>
      if safe && negb (directError category ErrRejected) &&
         applicableCategory category strictMethodAcquire && noLease && zeroDecision rawDecision
      then mret (zeroLease, stamped (strictDenied (lr_Request request) ReasonBackendUnavailable),
                 rawErr)
      else
        unknown ← unknownDecision service ctx (lr_Request request);
        mret (zeroLease, unknown.1, unknown.2)
  end.

(** [Acquire] past its argument checks. *)
Definition acquireReady (service : StrictService W) (backend : StrictBackend W)
    (ctx : Context W) (request : LeaseRequest) : M W (Lease * Decision * option error) :=
  started ← lift clock;
  callerErr ← strictCallerContext ctx;
  match callerErr with
  | Some err =>
      let decision := stampDecision service
        (strictDenied (lr_Request request) (contextReason err)) (lr_Request request) in
      _ ← observe service (lr_Request request) decision (Some err) started;
      mret (zeroLease, decision, Some err)
  | None =>
      match sb_lease backend with
      | None => mret (zeroLease, emptyDecision,
          Some (errorf ErrUnsupported "backend does not guarantee strict leases"))
      | Some leases =>
          raw ← AcquireStrict leases ctx request;
          result ← normalizeAcquire service ctx request raw.1.1 raw.1.2 raw.2;
          _ ← observe service (lr_Request request) result.1.2 result.2 started;
          mret result
      end
  end.

Definition Acquire (service : option (StrictService W)) (ctx : iface (Context W))
    (request : LeaseRequest) : M W (Lease * Decision * option error) :=
  let uninitialized :=
    (zeroLease, emptyDecision,
     Some (errorf ErrInvalidPolicy "strict service is nil or uninitialized")) in
  match service with
  | None => mret uninitialized
  | Some service =>
      match ss_backend service with
      | nil_iface => mret uninitialized
      | typed_nil backend | iface_of backend =>
          if bool_decide (ss_name service = EmptyString) then mret uninitialized else
          match ctx with
          | nil_iface | typed_nil _ =>
              mret (zeroLease, emptyDecision, invalidRequest "context is required")
          | iface_of ctx =>
              match LeaseRequest_Validate request with
              | Some err => mret (zeroLease, emptyDecision, Some err)
              | None =>
                  acquireReady service backend ctx request
              end
          end
      end
  end.

Definition Release (service : option (StrictService W)) (ctx : iface (Context W)) (l : Lease)
    : M W (option error) :=
  let uninitialized := Some (errorf ErrInvalidPolicy "strict service is nil or uninitialized") in
  match service with
  | None => mret uninitialized
  | Some service =>
      match ss_backend service with
      | nil_iface => mret uninitialized
      | typed_nil backend | iface_of backend =>
          if bool_decide (ss_name service = EmptyString) then mret uninitialized else
          match ctx with
          | nil_iface | typed_nil _ => mret (invalidRequest "context is required")
          | iface_of ctx =>
              match validateStrictLease l with
              | Some err => mret (Some err)
              | None =>
                  if negb (bool_decide (lease_Backend l = EmptyString)) &&
                     negb (bool_decide (lease_Backend l = ss_name service))
                  then mret (Some (Sent ErrLeaseNotOwned)) else
                  callerErr ← strictCallerContext ctx;
                  match callerErr with
                  | Some err => mret (Some err)
                  | None =>
                      match sb_lease backend with
                      | None => mret
                          (Some (errorf ErrUnsupported "backend does not guarantee strict leases"))
                      | Some leases =>
                          rawErr ← ReleaseStrict leases ctx l;
                          if isNil rawErr then mret None else
                          let '(declaration, category) := strictDeclaration rawErr in
                          match asOutcome rawErr with
                          | Some (strictOutcomeCanceled, _) => mret (Some CanceledOutcome)
                          | Some (strictOutcomeDeadline, _) => mret (Some DeadlineOutcome)
                          | Some (strictOutcomeUnknown, context) =>
                              mret (Some (reconstructUnknown context))
                          | _ =>
                              if bool_decide (declaration = declarationSafe) &&
                                 applicableCategory category strictMethodRelease
                              then mret rawErr
                              else late ← lift (ctxErr ctx); mret (Some (UnknownOutcome late))
                          end
                      end
                  end
              end
          end
      end
  end.
End StrictService.
