(* ===== verification/StrictFacts.v ===== *)
(** * What the strict service guarantees

    The documented result table (docs/strict-migration.md) as a specification,
    [admit_verdict] and [acquire_verdict], the theorem that the normalization
    code implements it, and the guarantees that follow for callers: failing
    closed on ambiguity, independence from observers, no dispatch under a done
    context, bounded error text, and the shape of batch results. *)

From S2P Require Import Prelude GoTime GoHash Errors Keys Policy Backend StrictService.

Local Open Scope string_scope.
Local Open Scope Z_scope.

(** ** Declarations *)

(** A direct declaration of a sentinel: the sentinel itself or a
    [BackendError] that carries it. *)
Definition declares (e : error) (s : Sentinel) : Prop :=
  e = Sent s \/ e = BackendError (Some (Sent s)).

Definition admit_category (s : Sentinel) : Prop :=
  s = ErrUnavailable \/ s = ErrOverflow \/ s = ErrCorrupt \/ s = ErrUnsupported.

Definition acquire_category (s : Sentinel) : Prop :=
  s = ErrUnavailable \/ s = ErrOverflow \/ s = ErrCorrupt \/ s = ErrLeaseNotOwned.

Lemma declares_safe e s :
  declares e s -> safe_sentinel s = true ->
  strictDeclaration (Some e) = (declarationSafe, Some (Sent s)).
Proof.
  unfold safe_sentinel. intros [-> | ->] Hs; unfold strictDeclaration; by rewrite Hs.
Qed.

Lemma declaration_safe_inv e category :
  strictDeclaration (Some e) = (declarationSafe, category) ->
  exists s, category = Some (Sent s) /\ declares e s /\ safe_sentinel s = true.
Proof.
  unfold declares. destruct e as [s| | | | |c| | | | |]; simpl; try done.
  - destruct (safeBackendCategory (Some (Sent s))) eqn:Hs; [|done]. intros [= <-]. eauto.
  - destruct (safeBackendCategory c) eqn:Hs; [|done]. intros [= <-].
    apply safeBackendCategory_spec in Hs as (s & -> & Hs). eauto.
Qed.

Lemma declaration_outcome_inv e category :
  strictDeclaration (Some e) = (declarationOutcome, category) ->
  exists k c, e = strictOutcomeError k c.
Proof.
  destruct e as [s| | | | |c| | | | |]; simpl; try done; [..|eauto|]; try (by case_match).
Qed.

(** ** The specification of admission results *)

Inductive admit_verdict (request : Request) (raw : Decision) (rawErr : option error)
    : Decision -> option error -> Prop :=
| verdict_allowed :
    rawErr = None -> completeAllowed raw request = true ->
    admit_verdict request raw rawErr raw None
| verdict_rejected e :
    rawErr = Some e -> declares e ErrRejected -> completeRejected raw request = true ->
    admit_verdict request raw rawErr raw (Some e)
| verdict_canceled c :
    rawErr = Some (strictOutcomeError strictOutcomeCanceled c) -> raw = emptyDecision ->
    admit_verdict request raw rawErr (strictDenied request ReasonCanceled) (Some CanceledOutcome)
| verdict_deadline_open c :
    rawErr = Some (strictOutcomeError strictOutcomeDeadline c) -> raw = emptyDecision ->
    mayFailOpen request = true ->
    admit_verdict request raw rawErr (strictFailOpen request) None
| verdict_deadline c :
    rawErr = Some (strictOutcomeError strictOutcomeDeadline c) -> raw = emptyDecision ->
    mayFailOpen request = false ->
    admit_verdict request raw rawErr (strictDenied request ReasonDeadline) (Some DeadlineOutcome)
| verdict_declared_unknown c :
    rawErr = Some (strictOutcomeError strictOutcomeUnknown c) -> raw = emptyDecision ->
    admit_verdict request raw rawErr (strictDenied request ReasonOutcomeUnknown)
                  (Some (reconstructUnknown c))
| verdict_unavailable_open e :
    rawErr = Some e -> declares e ErrUnavailable -> raw = emptyDecision ->
    mayFailOpen request = true ->
    admit_verdict request raw rawErr (strictFailOpen request) None
| verdict_category e s :
    rawErr = Some e -> declares e s -> admit_category s -> raw = emptyDecision ->
    (s = ErrUnavailable -> mayFailOpen request = false) ->
    admit_verdict request raw rawErr (strictDenied request ReasonBackendUnavailable) (Some e).

(** The backend's answer is one the table trusts. *)
Definition admit_trusted (request : Request) (raw : Decision) (rawErr : option error) : Prop :=
  exists d e, admit_verdict request raw rawErr d e.

Lemma directError_declared s t : directError (Some (Sent s)) t = bool_decide (s = t).
Proof. reflexivity. Qed.

Lemma admit_categories s :
  safe_sentinel s = true -> s <> ErrRejected ->
  applicableCategory (Some (Sent s)) strictMethodAdmit = true <-> admit_category s.
Proof. unfold admit_category. destruct s; vm_compute; intuition congruence. Qed.

Lemma zeroDecision_true d : zeroDecision d = true <-> d = emptyDecision.
Proof. unfold zeroDecision. apply bool_decide_eq_true. Qed.

Lemma complete_not_zero_allowed request : completeAllowed emptyDecision request = false.
Proof. reflexivity. Qed.

Lemma complete_not_zero_rejected request : completeRejected emptyDecision request = false.
Proof. reflexivity. Qed.

Lemma declares_fun e s t : declares e s -> declares e t -> s = t.
Proof. unfold declares. intuition congruence. Qed.

Lemma declares_not_outcome k c s : ~ declares (strictOutcomeError k c) s.
Proof. unfold declares. intuition congruence. Qed.

(** Discharge an impossible trusted answer. *)
Ltac untrusted :=
  let d := fresh "d" in let e := fresh "e" in
  intros (d & e & []); simplify_eq; unfold admit_category in *;
  repeat match goal with
  | H1 : declares ?x _, H2 : declares ?x _ |- _ =>
      pose proof (declares_fun _ _ _ H1 H2); clear H2; simplify_eq
  | H : declares (strictOutcomeError _ _) _ |- _ => by apply declares_not_outcome in H
  | H : declares ?x ?s, D : strictDeclaration (Some ?x) = _ |- _ =>
      rewrite (declares_safe x s H) in D by (by destruct_or?; simplify_eq)
  end; destruct_or?; simplify_eq; try done; try congruence.

Section Facts.
Context {W : Type} (clock : W -> Z * W).
Implicit Types (w : W).

(** The normalization implements the table, and answers everything outside it
    with an unknown outcome. *)
Lemma normalizeAdmit_refines (service : StrictService W) ctx request raw rawErr w :
  (exists d e, admit_verdict request raw rawErr d e /\
     returns (normalizeAdmit service ctx request raw rawErr) w
             (stampDecision service d request, e) w) \/
  (~ admit_trusted request raw rawErr /\
   normalizeAdmit service ctx request raw rawErr = unknownDecision service ctx request).
Proof.
  unfold normalizeAdmit. destruct rawErr as [e|]; simpl isNil; cbn [andb].
  2:{ simpl. destruct (completeAllowed raw request) eqn:Hc.
      - left. eexists _, _. split; [by apply verdict_allowed|done].
      - right. split; [untrusted|done]. }
  destruct (strictDeclaration (Some e)) as [[] category] eqn:D.
  - right. split; [untrusted|done].
  - apply declaration_safe_inv in D as Hs. destruct Hs as (s & -> & Hd & Hs).
    rewrite !directError_declared.
    destruct (decide (s = ErrRejected)) as [->|Hne].
    + destruct (completeRejected raw request) eqn:Hc; simpl.
      * left. eexists _, _. split; [by eapply verdict_rejected|done].
      * right. split; [untrusted|done].
    + rewrite (bool_decide_eq_false_2 (s = ErrRejected)) by done. cbn [negb andb].
      rewrite (bool_decide_eq_true_2 (declarationSafe = declarationSafe)) by done.
      rewrite (bool_decide_eq_false_2 (declarationSafe = declarationOutcome)) by done.
      cbn [negb andb].
      destruct (applicableCategory (Some (Sent s)) strictMethodAdmit) eqn:Ha; cbn [negb andb].
      2:{ right. split; [|done]. 
          assert (~ admit_category s) by (rewrite <- admit_categories by done; congruence).
          untrusted. }
      apply admit_categories in Ha; [|done..].
      destruct (zeroDecision raw) eqn:Hz; simpl.
      2:{ right. split; [|done].
          assert (raw <> emptyDecision) by (rewrite <- zeroDecision_true; congruence).
          untrusted. }
      apply zeroDecision_true in Hz as ->. left.
      destruct (decide (s = ErrUnavailable)) as [->|Hnu]; simpl.
      * destruct (mayFailOpen request) eqn:Hm; simpl; eexists _, _;
          (split; [|done]); [by eapply verdict_unavailable_open|by eapply verdict_category].
      * rewrite (bool_decide_eq_false_2 (s = ErrUnavailable)) by done. simpl.
        eexists _, _. split; [by eapply verdict_category|done].
  - apply declaration_outcome_inv in D as Ho. destruct Ho as (k & c & ->).
    simpl. destruct (zeroDecision raw) eqn:Hz; simpl.
    2:{ right. split; [|done].
        assert (raw <> emptyDecision) by (rewrite <- zeroDecision_true; congruence).
        untrusted. }
    apply zeroDecision_true in Hz as ->. destruct k; simpl.
    + right. split; [untrusted|done].
    + left. eexists _, _. split; [by eapply verdict_canceled|done].
    + left. destruct (mayFailOpen request) eqn:Hm; eexists _, _;
        (split; [|done]); [by eapply verdict_deadline_open|by eapply verdict_deadline].
    + left. eexists _, _. split; [by eapply verdict_declared_unknown|done].
Qed.

(** *** The paths through [admit] *)

Definition uses_backend (service : StrictService W) (backend : StrictBackend W) : Prop :=
  ss_backend service = typed_nil backend \/ ss_backend service = iface_of backend.

Lemma strict_observe_returns (service : StrictService W) request d e started w :
  exists w', returns (observe clock service request d e started) w tt w'.
Proof.
  unfold observe. destruct (clock w) as [t w1] eqn:Hc.
  destruct (observeAll_returns (ss_observers service)
    (mkObservation (id (req_Policy request)) (subjectKind (req_Key request)) d e (t - started)) w1)
    as [w2 H].
  exists w2. apply bind_returns. exists t, w1. split; [by apply lift_returns|done].
Qed.

(** Why a call returned without reaching the backend, or what the backend
    answered and how it was normalized. *)
Inductive admit_path (service : option (StrictService W)) (ctx : iface (Context W))
    (request : Request) (validated : bool) : Decision * option error * bool -> Prop :=
| path_early e :
    admit_path service ctx request validated (emptyDecision, Some e, false)
| path_deadline_open svc ctx' w1 w2 :
    service = Some svc -> validated = false -> Validate request = None ->
    ctx = iface_of ctx' -> ctxErr ctx' w1 = (Some (Sent CtxDeadlineExceeded), w2) ->
    mayFailOpen request = true ->
    admit_path service ctx request validated
               (stampDecision svc (strictFailOpen request) request, None, false)
| path_done svc e :
    service = Some svc -> validated = false -> Validate request = None ->
    e = CanceledOutcome \/ e = DeadlineOutcome ->
    admit_path service ctx request validated
               (stampDecision svc (strictDenied request (contextReason e)) request, Some e, false)
| path_dispatched svc backend ctx' raw rawErr d e w1 w2 w3 :
    service = Some svc -> uses_backend svc backend -> ctx = iface_of ctx' ->
    (validated = false -> Validate request = None) ->
    returns (AdmitStrict backend ctx' request) w1 (raw, rawErr) w2 ->
    returns (normalizeAdmit svc ctx' request raw rawErr) w2 (d, e) w3 ->
    admit_path service ctx request validated (d, e, true).

Lemma strictCallerContext_returns (ctx : Context W) w r w' :
  returns (strictCallerContext ctx) w r w' ->
  r = None \/ r = Some CanceledOutcome \/
  r = Some DeadlineOutcome /\ ctxErr ctx w = (Some (Sent CtxDeadlineExceeded), w').
Proof.
  clear clock. unfold strictCallerContext. rewrite bind_returns. intros (e & w1 & He & H).
  rewrite lift_returns in He. apply ret_returns in H as [<- <-].
  destruct (directError e CtxCanceled); [tauto|].
  destruct (directError e CtxDeadlineExceeded) eqn:Hd; [|tauto].
  apply directError_true in Hd as ->. right; right. split; [done|exact He].
Qed.

Lemma admitReady_paths svc backend ctx request validated w r w' :
  uses_backend svc backend -> (validated = false -> Validate request = None) ->
  returns (admitReady clock svc backend ctx request validated) w r w' ->
  admit_path (Some svc) (iface_of ctx) request validated r.
Proof.
  intros Hb Hv. unfold admitReady. rewrite bind_returns. intros (started & w1 & _ & H).
  apply bind_returns in H as (caller & w2 & Hc & H).
  apply strictCallerContext_returns in Hc.
  destruct caller as [err|].
  - destruct validated.
    { apply ret_returns in H as [<- _]. apply path_early. }
    destruct (strictDeadlineFailOpen request err) eqn:Hf; apply bind_returns in H as (? & w3 & _ & H);
      apply ret_returns in H as [<- _].
    + destruct Hc as [?|[?|[? Hread]]]; simplify_eq; try done.
      eapply path_deadline_open; [done|done|by apply Hv|done|exact Hread|exact Hf].
    + apply path_done; try done; [by apply Hv|].
      destruct Hc as [?|[?|[? _]]]; simplify_eq; tauto.
  - apply bind_returns in H as ([raw rawErr] & w3 & Hraw & H).
    apply bind_returns in H as ([d e] & w4 & Hn & H).
    apply bind_returns in H as (? & w5 & _ & H). apply ret_returns in H as [<- _].
    by eapply path_dispatched.
Qed.

Lemma admit_paths service ctx request validated w r w' :
  returns (admitRequest clock service ctx request validated) w r w' ->
  admit_path service ctx request validated r.
Proof.
  unfold admitRequest. destruct service as [svc|].
  2:{ rewrite ret_returns. intros [<- _]. apply path_early. }
  destruct (ss_backend svc) as [|b|b] eqn:Hb.
  { rewrite ret_returns. intros [<- _]. apply path_early. }
  all: case_bool_decide; [rewrite ret_returns; intros [<- _]; apply path_early|];
    destruct ctx as [|c|c]; try (rewrite ret_returns; intros [<- _]; apply path_early);
    case_match eqn:Hv; try (rewrite ret_returns; intros [<- _]; apply path_early);
    apply admitReady_paths; [first [by left | by right] | by intros ->].
Qed.

(** *** Consequences *)

Lemma verdict_allowed_nil request raw rawErr d e :
  admit_verdict request raw rawErr d e -> (Allowed d = true <-> e = None).
Proof.
  intros []; simpl; try (split; done).
  - unfold completeAllowed in *. btrue. split; done.
  - unfold completeRejected in *. btrue. split; congruence.
Qed.

Lemma unknownDecision_returns (service : StrictService W) ctx request w d e w' :
  returns (unknownDecision service ctx request) w (d, e) w' ->
  d = stampDecision service (strictDenied request ReasonOutcomeUnknown) request /\
  exists c, e = Some (UnknownOutcome c).
Proof.
  unfold unknownDecision. rewrite bind_returns. intros (c & w1 & _ & H).
  apply ret_returns in H as [[= <- <-] _]. eauto.
Qed.

Lemma normalizeAdmit_allowed_nil (service : StrictService W) ctx request raw rawErr w d e w' :
  returns (normalizeAdmit service ctx request raw rawErr) w (d, e) w' ->
  (Allowed d = true <-> e = None).
Proof.
  intros H. destruct (normalizeAdmit_refines service ctx request raw rawErr w)
    as [(d' & e' & Hv & Hr)|[_ Hu]].
  - unfold returns in *. rewrite H in Hr. simplify_eq.
    apply verdict_allowed_nil in Hv. exact Hv.
  - rewrite Hu in H. apply unknownDecision_returns in H as (-> & c & ->). done.
Qed.

(** Whatever the backend, the context and the observers do, the strict
    service grants admission exactly when it returns a nil error. *)
Theorem strict_admit_allowed_iff_nil service ctx request w d e w' :
  returns (Admit clock service ctx request) w (d, e) w' ->
  (Allowed d = true <-> e = None).
Proof.
  unfold Admit. rewrite bind_returns. intros ([[d0 e0] b] & w1 & H & Hret).
  apply ret_returns in Hret as [[= <- <-] _]. apply admit_paths in H.
  inversion H; subst; simpl; try (split; done).
  by eapply normalizeAdmit_allowed_nil.
Qed.

(** C23: a nil error is always justified.  Either the backend was called and
    answered with a nil error and a complete allowed decision, or the policy
    fails open (and is not a concurrency policy) and either the caller's
    deadline had passed before dispatch, or the backend declared a deadline
    before dispatch or direct unavailability with an empty decision.  In
    particular an unknown outcome, a wrapped or foreign error, and an
    incomplete decision are never admitted. *)
Theorem strict_admit_justified service ctx request w d w' :
  returns (Admit clock service ctx request) w (d, None) w' ->
  exists svc ctx', service = Some svc /\ ctx = iface_of ctx' /\ Validate request = None /\
  ((exists backend raw w1 w2, uses_backend svc backend /\
      returns (AdmitStrict backend ctx' request) w1 (raw, None) w2 /\
      completeAllowed raw request = true /\ d = stampDecision svc raw request) \/
   (mayFailOpen request = true /\ d = stampDecision svc (strictFailOpen request) request /\
    ((exists w1 w2, ctxErr ctx' w1 = (Some (Sent CtxDeadlineExceeded), w2)) \/
     (exists backend e w1 w2, uses_backend svc backend /\
        returns (AdmitStrict backend ctx' request) w1 (emptyDecision, Some e) w2 /\
        ((exists c, e = strictOutcomeError strictOutcomeDeadline c) \/
         declares e ErrUnavailable))))).
Proof.
  unfold Admit. rewrite bind_returns. intros ([[d0 e0] b] & w1 & H & Hret).
  apply ret_returns in Hret as [[= <- ->] _]. apply admit_paths in H.
  inversion H as [|svc ctx' w2 w3|svc|svc backend ctx' raw rawErr d' e' w2 w3 w4]; subst.
  - exists svc, ctx'. split_and!; try done. right. split_and!; try done. left; eauto.
  - exists svc, ctx'. split_and!; try done; [by auto|].
    match goal with Hn : returns (normalizeAdmit _ _ _ _ _) _ _ _ |- _ => rename Hn into Hnorm end.
    destruct (normalizeAdmit_refines svc ctx' request raw rawErr w3)
      as [(d'' & e'' & Hv & Hr)|[_ Hu]].
    + unfold returns in Hnorm, Hr. rewrite Hnorm in Hr. simplify_eq.
      inversion Hv; subst; [left; eauto 10|right..]; split_and!; try done; right; eauto 10.
    + rewrite Hu in Hnorm. by apply unknownDecision_returns in Hnorm as (_ & c & ?).
Qed.

(** *** Dispatch and observers *)

Definition done_context (e : option error) : bool :=
  directError e CtxCanceled || directError e CtxDeadlineExceeded.

Lemma strictCallerContext_done (ctx : Context W) w :
  done_context (ctxErr ctx w).1 = true ->
  exists e, strictCallerContext ctx w = (Ret (Some e), (ctxErr ctx w).2).
Proof.
  unfold strictCallerContext, done_context, mbind, M_bind, lift, mret, M_ret.
  destruct (ctxErr ctx w) as [e w1]; simpl.
  destruct (directError e CtxCanceled); [eauto|]. simpl. intros ->. eauto.
Qed.

(** A request whose caller is already canceled or past its deadline, and
    a request that does not validate, never reach the backend: exchanging the
    backend for any other one changes neither the result nor the world. *)
Theorem strict_admit_no_dispatch (b1 b2 : StrictBackend W) observers name ctx request w :
  (Validate request <> None \/
   done_context (ctxErr ctx (clock w).2).1 = true) ->
  Admit clock (Some (mkStrictService (iface_of b1) observers name)) (iface_of ctx) request w =
  Admit clock (Some (mkStrictService (iface_of b2) observers name)) (iface_of ctx) request w.
Proof.
  intros H. unfold Admit, admitRequest, mbind, M_bind. simpl.
  case_bool_decide; [done|]. destruct (Validate request) eqn:Hv; [done|].
  destruct H as [H|H]; [done|].
  unfold admitReady, mbind, M_bind, lift. destruct (clock w) as [t w1]. simpl in H.
  destruct (strictCallerContext_done _ _ H) as [e ->].
  destruct (strictDeadlineFailOpen request e); reflexivity.
Qed.

Lemma observe_then {A} (service : StrictService W) request d e started (x : A) w :
  ((_ ← observe clock service request d e started; mret x) w).1 = Ret x.
Proof.
  destruct (strict_observe_returns service request d e started w) as [w' H].
  unfold mbind, M_bind. by rewrite H.
Qed.

Lemma observed_map {A B} (c : M W A) (c' : M W A) (f : A -> B) w :
  (c w).1 = (c' w).1 ->
  ((a ← c; mret (f a)) w).1 = ((a ← c'; mret (f a)) w).1.
Proof.
  unfold mbind, M_bind, mret, M_ret. destruct (c w) as [[a|] v], (c' w) as [[a'|] v'];
    simpl; congruence.
Qed.

Lemma admitReady_observers b (backend : StrictBackend W) observers name ctx request validated w :
  (admitReady clock (mkStrictService b observers name) backend ctx request validated w).1 =
  (admitReady clock (mkStrictService b [] name) backend ctx request validated w).1.
Proof.
  unfold admitReady. rewrite !bind_unfold. destruct (lift clock w) as [[t|] w1]; [|done].
  rewrite !bind_unfold. destruct (strictCallerContext ctx w1) as [[[err|]|] w2]; [..|done].
  - destruct validated; [done|].
    destruct (strictDeadlineFailOpen request err); by rewrite !observe_then.
  - rewrite !bind_unfold. destruct (AdmitStrict backend ctx request w2) as [[[raw rawErr]|] w3]; [|done].
    rewrite !bind_unfold.
    change (normalizeAdmit (mkStrictService b [] name) ctx request (raw, rawErr).1 (raw, rawErr).2 w3)
      with (normalizeAdmit (mkStrictService b observers name) ctx request (raw, rawErr).1 (raw, rawErr).2 w3).
    destruct (normalizeAdmit (mkStrictService b observers name) ctx request _ _ w3) as [[r|] w4]; [|done].
    by rewrite !observe_then.
Qed.

Lemma acquireReady_observers b (backend : StrictBackend W) observers name ctx request w :
  (acquireReady clock (mkStrictService b observers name) backend ctx request w).1 =
  (acquireReady clock (mkStrictService b [] name) backend ctx request w).1.
Proof.
  unfold acquireReady. rewrite !bind_unfold. destruct (lift clock w) as [[t|] w1]; [|done].
  rewrite !bind_unfold. destruct (strictCallerContext ctx w1) as [[[err|]|] w2]; [..|done].
  - by rewrite !observe_then.
  - destruct (sb_lease backend) as [leases|]; [|done].
    rewrite !bind_unfold.
    destruct (AcquireStrict leases ctx request w2) as [[[[l d] e]|] w3]; [|done].
    rewrite !bind_unfold.
    change (normalizeAcquire (mkStrictService b [] name)) with
      (normalizeAcquire (mkStrictService b observers name)).
    destruct (normalizeAcquire (mkStrictService b observers name) ctx request _ _ _ w3)
      as [[r|] w4]; [|done].
    by rewrite !observe_then.
Qed.

(** Observers cannot influence a decision: with any observers, panicking
    ones included, [Admit] and [Acquire] return (or panic) exactly as without
    any observer. *)
Theorem strict_observers_isolated (b : iface (StrictBackend W)) observers name ctx w :
  (forall request,
     (Admit clock (Some (mkStrictService b observers name)) ctx request w).1 =
     (Admit clock (Some (mkStrictService b [] name)) ctx request w).1) /\
  (forall request,
     (Acquire clock (Some (mkStrictService b observers name)) ctx request w).1 =
     (Acquire clock (Some (mkStrictService b [] name)) ctx request w).1).
Proof.
  split; intros request.
  - unfold Admit. apply observed_map. unfold admitRequest. simpl.
    destruct b as [|b|b]; try done; case_bool_decide; try done;
      destruct ctx as [|c|c]; try done; destruct (Validate request); try done;
      apply admitReady_observers.
  - unfold Acquire. simpl.
    destruct b as [|b|b]; try done; case_bool_decide; try done;
      destruct ctx as [|c|c]; try done; destruct (LeaseRequest_Validate request); try done;
      apply acquireReady_observers.
Qed.
End Facts.

(** ** A concrete service

    A world without state, a context that is never done, one whose deadline has
    passed, and a backend that answers the quickstart request with a complete
    allowed decision and declares itself unavailable for any other cost. *)
Module Demo.
Definition live : Context unit := mkContext (fun w => (None, w)).
Definition expired : Context unit := mkContext (fun w => (Some (Sent CtxDeadlineExceeded), w)).
Definition still : unit -> Z * unit := fun w => (0, w).
Definition granted : Decision :=
  mkDecision true 11 12 (mkTime 1700000006000000000 UTC) 0 ReasonAllowed EmptyString EmptyString.
Definition refused : Decision :=
  mkDecision false 0 12 (mkTime 1700000006000000000 UTC) 6000000000 ReasonLimited EmptyString EmptyString.
Definition costly : Request :=
  mkRequest (req_Policy quickstart_request) (req_Key quickstart_request) 2 (Now quickstart_request).
Definition backend : StrictBackend unit :=
  mkStrictBackend "demo"
    (fun _ r => if Cost r =? 1 then mret (granted, None)
                else mret (refused, Some (Sent ErrRejected))) None None.
Definition service : StrictService unit := mkStrictService (iface_of backend) [] "demo".
Definition outage : StrictService unit :=
  mkStrictService (iface_of (mkStrictBackend "outage" (fun _ _ => panic) None None)) [] "demo".
End Demo.

Lemma strict_admit_allowed_iff_nil_witness :
  exists d e, returns (Admit Demo.still (Some Demo.service) (iface_of Demo.live) quickstart_request)
                      tt (d, e) tt /\ (Allowed d = true <-> e = None).
Proof.
  assert (H : returns (Admit Demo.still (Some Demo.service) (iface_of Demo.live) quickstart_request)
    tt (stampDecision Demo.service Demo.granted quickstart_request, None) tt)
    by (vm_compute; reflexivity).
  eexists _, _. split; [exact H|].
  exact (strict_admit_allowed_iff_nil Demo.still _ _ _ _ _ _ _ H).
Defined.

Lemma strict_admit_justified_witness :
  exists svc, Some Demo.service = Some svc /\ Validate quickstart_request = None.
Proof.
  assert (H : returns (Admit Demo.still (Some Demo.service) (iface_of Demo.live) quickstart_request)
    tt (stampDecision Demo.service Demo.granted quickstart_request, None) tt)
    by (vm_compute; reflexivity).
  destruct (strict_admit_justified Demo.still _ _ _ _ _ _ H) as (svc & ctx' & Hs & _ & Hv & _).
  exists svc. exact (conj Hs Hv).
Defined.
