(* ===== verification/StrictBatch.v ===== *)
(** * Strict batches and the bound on strict error text

    Every error the strict service returns after dispatch belongs to a closed
    set whose texts have at most 32 bytes; a strict batch is the admissions of a
    prefix of its requests, in order, with one error item for each that failed,
    and its error text has at most 11,007 bytes. *)

From S2P Require Import Prelude GoTime GoHash Errors Keys Policy Backend StrictService StrictFacts.

Local Open Scope string_scope.
Local Open Scope Z_scope.

(** ** The closed set of normalized errors *)

Inductive normalized_error : error -> Prop :=
| normalized_outcome k c : normalized_error (strictOutcomeError k c)
| normalized_declared e s : declares e s -> safe_sentinel s = true -> normalized_error e.

Lemma normalized_text e : normalized_error e -> (String.length (errorText e) <= MaxBackendErrorBytes)%nat.
Proof.
  intros [k c|e' s [-> | ->] Hs]; unfold MaxBackendErrorBytes.
  - destruct k; simpl; lia.
  - destruct s; try done; simpl; lia.
  - destruct s; try done; simpl; lia.
Qed.

Lemma verdict_normalized request raw rawErr d e :
  admit_verdict request raw rawErr d (Some e) -> normalized_error e.
Proof.
  intros H. inversion H as [|? ? Hd ?| | | |c ? ?| |? s ? Hd Hs]; subst.
  - by eapply normalized_declared.
  - apply normalized_outcome.
  - apply normalized_outcome.
  - destruct c; apply normalized_outcome.
  - eapply normalized_declared; [done|]. destruct Hs as [-> | [-> | [-> | ->]]]; done.
Qed.

Section Batch.
Context {W : Type} (clock : W -> Z * W).
Implicit Types (w : W).

Lemma normalizeAdmit_normalized (service : StrictService W) ctx request raw rawErr w d e w' :
  returns (normalizeAdmit service ctx request raw rawErr) w (d, Some e) w' -> normalized_error e.
Proof.
  intros H. destruct (normalizeAdmit_refines service ctx request raw rawErr w)
    as [(d' & e' & Hv & Hr)|[_ Hu]].
  - unfold returns in *. rewrite H in Hr. simplify_eq. by eapply verdict_normalized.
  - rewrite Hu in H. apply unknownDecision_returns in H as (_ & c & [= ->]).
    apply normalized_outcome.
Qed.

(** A validated item either is not dispatched and carries a context outcome,
    or is dispatched and carries a normalized error. *)
Lemma admitReady_validated svc (backend : StrictBackend W) ctx request w d e dispatched w' :
  returns (admitReady clock svc backend ctx request true) w (d, e, dispatched) w' ->
  (forall e', e = Some e' -> normalized_error e') /\ (dispatched = false -> e <> None).
Proof.
  unfold admitReady. rewrite bind_returns. intros (t & w1 & _ & H).
  apply bind_returns in H as (caller & w2 & Hc & H).
  apply strictCallerContext_returns in Hc. destruct caller as [err|].
  - apply ret_returns in H as [[= <- <- <-] _]. split; [|done]. intros e' [= <-].
    destruct Hc as [?|[?|[? _]]]; simplify_eq; apply normalized_outcome.
  - apply bind_returns in H as ([raw rawErr] & w3 & _ & H).
    apply bind_returns in H as ([d' e'] & w4 & Hn & H).
    apply bind_returns in H as (? & w5 & _ & H). apply ret_returns in H as [[= <- <- <-] _].
    split; [|done]. intros e'' ->. by eapply normalizeAdmit_normalized.
Qed.

Lemma admitReady_undispatched svc (backend : StrictBackend W) ctx request w d e w' :
  returns (admitReady clock svc backend ctx request true) w (d, Some e, false) w' -> e = CanceledOutcome \/ e = DeadlineOutcome.
Proof.
  unfold admitReady. rewrite bind_returns. intros (t & w1 & _ & H). apply bind_returns in H as (caller & w2 & Hc & H).
  apply strictCallerContext_returns in Hc. destruct caller as [err|].
  - apply ret_returns in H as [[= <- <-] _]. destruct Hc as [?|[?|[? _]]]; simplify_eq; auto.
  - apply bind_returns in H as ([raw rawErr] & w3 & _ & H). apply bind_returns in H as ([d' e'] & w4 & _ & H).
    apply bind_returns in H as (? & w5 & _ & H). by apply ret_returns in H as [? _].
Qed.

Lemma admit_ready svc (backend : StrictBackend W) ctx request w :
  uses_backend svc backend -> ss_name svc <> EmptyString ->
  admitRequest clock (Some svc) (iface_of ctx) request true w =
  admitReady clock svc backend ctx request true w.
Proof.
  intros Hb Hn. unfold admitRequest. destruct Hb as [-> | ->]; by rewrite bool_decide_eq_false_2.
Qed.

(** ** The loop *)

(** The error items of the attempted requests: one for each that failed, with
    its index and its error. *)
Fixpoint failures (i : nat) (results : list (Decision * option error)) : list error :=
  match results with
  | [] => []
  | (_, None) :: rest => failures (S i) rest
  | (_, Some e) :: rest => BatchItemError (Z.of_nat i) (Some e) :: failures (S i) rest
  end.

Section Run.
Context (svc : StrictService W) (ctx : Context W).

(** Only the caller's context is read. *)
Definition reads : W -> W -> Prop := rtc (fun w w' => (ctxErr ctx w).2 = w').

(** The requests are dispatched to the service one after the other, each from
    the world the previous one left. *)
Inductive admissions : W -> list Request -> list (Decision * option error) -> W -> Prop :=
| admissions_nil w w' : reads w w' -> admissions w [] [] w'
| admissions_cons w w1 w2 w' r rs d e results :
    reads w w1 -> returns (admitRequest clock (Some svc) (iface_of ctx) r true) w1 (d, e, true) w2 ->
    admissions w2 rs results w' -> admissions w (r :: rs) ((d, e) :: results) w'.

(** A request that is not dispatched because the caller is done. *)
Definition not_dispatched (w : W) (r : Request) (e : error) (w' : W) : Prop :=
  (e = CanceledOutcome \/ e = DeadlineOutcome) /\
  (returns (strictCallerContext ctx) w (Some e) w' \/
   exists w1 d, reads w w1 /\ returns (admitRequest clock (Some svc) (iface_of ctx) r true) w1 (d, Some e, false) w').

(** What a batch is made of: the results of the dispatched prefix, and why it is
    not the whole batch. *)
Record batch_run (i : nat) (requests : list Request) (w : W) (decisions : list Decision) (attempted : list nat)
    (items : list error) (w' : W) (results : list (Decision * option error)) (ended : option error) : Prop := {
  run_prefix : (length results <= length requests)%nat;
  run_admissions : exists wk, admissions w (take (length results) requests) results wk /\
    match ended with
    | Some e => exists r, requests !! length results = Some r /\ not_dispatched wk r e w'
    | None => w' = wk
    end;
  run_decisions : decisions = app (map fst results) (replicate (length requests - length results) emptyDecision);
  run_attempted : attempted = seq i (length results);
  run_items : items = app (failures i results)
    match ended with Some e => [BatchItemError (Z.of_nat (i + length results)) (Some e)] | None => [] end;
  run_whole : ended = None -> (length results < length requests)%nat ->
    exists d e c, last results = Some (d, Some e) /\ asOutcome (Some e) = Some (strictOutcomeUnknown, c);
  run_normalized : Forall (fun x => forall e, x.2 = Some e -> normalized_error e) results
}.

Lemma caller_reads w c w' : returns (strictCallerContext ctx) w c w' -> reads w w'.
Proof.
  unfold strictCallerContext. rewrite bind_returns. intros (e & w1 & He & H). rewrite lift_returns in He.
  apply ret_returns in H as [_ <-]. apply rtc_once. by rewrite He.
Qed.

Lemma stops_reads e w stop w' : returns (stopsBatch ctx e) w stop w' -> reads w w'.
Proof.
  unfold stopsBatch. intros H.
  repeat case_match; try (apply ret_returns in H as [_ <-]; reflexivity).
  apply bind_returns in H as (c & w1 & Hc & H). apply ret_returns in H as [_ <-]. by eapply caller_reads.
Qed.

Lemma admissions_reads w w1 rs results w' : reads w w1 -> admissions w1 rs results w' -> admissions w rs results w'.
Proof.
  intros Hr H. destruct H as [w1 w' H|w1 w2 w3 w' r rs d e results H Ha Ht]; [constructor; by etrans|].
  econstructor; [by etrans|exact Ha|exact Ht].
Qed.

Lemma admissions_last w rs results w' w'' : admissions w rs results w' -> reads w' w'' -> admissions w rs results w''.
Proof. induction 1; intros Hr; econstructor; eauto. by etrans. Qed.

Lemma run_ended i w r rs e w' :
  not_dispatched w r e w' ->
  batch_run i (r :: rs) w (replicate (S (length rs)) emptyDecision) [] [BatchItemError (Z.of_nat i) (Some e)] w' [] (Some e).
Proof.
  intros He. split; simpl; rewrite ?Nat.add_0_r; try done; [lia|]. exists w. split; [constructor; reflexivity|]. by exists r.
Qed.

Lemma run_step i r rs w w1 w2 w3 w' d e ds att items results ended :
  reads w w1 -> returns (admitRequest clock (Some svc) (iface_of ctx) r true) w1 (d, e, true) w2 -> reads w2 w3 ->
  (forall e', e = Some e' -> normalized_error e') ->
  batch_run (S i) rs w3 ds att items w' results ended ->
  batch_run i (r :: rs) w (d :: ds) (i :: att)
    (app match e with Some _ => [BatchItemError (Z.of_nat i) e] | None => [] end items) w' ((d, e) :: results) ended.
Proof.
  intros H1 Ha H2 Hn [R1 (wk & R2 & R2') R3 R4 R5 R6 R7]. split; simpl.
  - lia.
  - exists wk. split; [|exact R2']. econstructor; [exact H1|exact Ha|]. by eapply admissions_reads.
  - by rewrite R3.
  - by rewrite R4.
  - rewrite R5. replace (i + S (length results))%nat with (S i + length results)%nat by lia. by destruct e.
  - intros He Hl. destruct (R6 He ltac:(lia)) as (d' & e' & c & Hlast & Hc). exists d', e', c. split; [|done].
    destruct results; [|done]. done.
  - constructor; [done|exact R7].
Qed.

(** The batch ends with an item that was dispatched. *)
Lemma run_stop i r rs w w1 w2 w' d e c :
  reads w w1 -> returns (admitRequest clock (Some svc) (iface_of ctx) r true) w1 (d, Some e, true) w2 -> reads w2 w' ->
  normalized_error e -> asOutcome (Some e) = Some (strictOutcomeUnknown, c) ->
  batch_run i (r :: rs) w (d :: replicate (length rs) emptyDecision) [i] [BatchItemError (Z.of_nat i) (Some e)] w' [(d, Some e)] None.
Proof.
  intros H1 Ha H2 He Hc. split; simpl; rewrite ?Nat.sub_0_r; try done; [lia|..].
  - exists w'. split; [|done]. econstructor; [exact H1|exact Ha|by constructor].
  - intros _ _. by exists d, e, c.
  - constructor; [|done]. by intros e' [= <-].
Qed.

Lemma batchItems_run (backend : StrictBackend W) requests i w ds att items w' :
  uses_backend svc backend -> ss_name svc <> EmptyString ->
  returns (batchItems clock svc ctx i requests) w (ds, att, items) w' ->
  exists results ended, batch_run i requests w ds att items w' results ended.
Proof.
  intros Hb Hname. revert i w ds att items.
  induction requests as [|r rs IH]; intros i w ds att items; cbn [batchItems].
  { rewrite ret_returns. intros [[= <- <- <-] <-]. exists [], None. split; simpl; try done; [|lia]. exists w. split; [constructor; reflexivity|done]. }
  rewrite bind_returns. intros (caller & w1 & Hc & H). pose proof (caller_reads _ _ _ Hc) as Hr.
  pose proof (strictCallerContext_returns _ _ _ _ Hc) as Hc'. destruct caller as [err|].
  { apply ret_returns in H as [[= <- <- <-] <-]. exists [], (Some err). apply run_ended. split; [|by left].
    destruct Hc' as [?|[?|[? _]]]; simplify_eq; auto. }
  apply bind_returns in H as ([[d e] dispatched] & w2 & Ha & H).
  pose proof Ha as Ha'. unfold returns in Ha'. rewrite (admit_ready svc backend) in Ha' by done.
  pose proof (admitReady_validated _ _ _ _ _ _ _ _ _ Ha') as [Hnorm Hdisp].
  destruct dispatched; cbn [negb] in H.
  2:{ apply ret_returns in H as [[= <- <- <-] <-]. destruct e as [e|]; [|by destruct Hdisp].
      exists [], (Some e). apply run_ended. split; [by eapply admitReady_undispatched|]. right. by exists w1, d. }
  apply bind_returns in H as (stop & w3 & Hs & H). pose proof (stops_reads _ _ _ _ Hs) as Hr3. destruct stop.
  - apply ret_returns in H as [[= <- <- <-] <-]. unfold stopsBatch in Hs. destruct (asOutcome e) as [[[] c]|] eqn:Eo;
      try (by apply ret_returns in Hs as [? _]).
    destruct e as [e|]; [|done]. exists [(d, Some e)], None. by eapply run_stop; eauto.
  - apply bind_returns in H as ([[ds' att'] items'] & w4 & Ht & H).
    apply ret_returns in H as [[= <- <- <-] <-]. destruct (IH _ _ _ _ _ Ht) as (results & ended & Hrun).
    exists ((d, e) :: results), ended. eapply run_step; eauto.
Qed.
End Run.
End Batch.

(** ** The text of a batch error *)

Lemma concat_length bound (parts : list string) :
  Forall (fun s => String.length s <= bound)%nat parts -> parts <> [] ->
  (S (String.length (String.concat newline parts)) <= length parts * S bound)%nat.
Proof.
  induction 1 as [|s parts Hs Hp IH]; [done|]. intros _.
  destruct parts as [|s' parts].
  - simpl. lia.
  - change (String.concat newline (s :: s' :: parts))
      with (s +:+ newline +:+ String.concat newline (s' :: parts)).
    rewrite !append_length. change (String.length newline) with 1%nat.
    pose proof (IH ltac:(done)) as IH'. cbn [length] in *. lia.
Qed.

Lemma index_text_bound i : (i < 256)%nat -> (String.length (pretty (Z.of_nat i)) <= 3)%nat.
Proof.
  intros Hi.
  assert (forallb (fun i => String.length (pretty (Z.of_nat i)) <=? 3)%nat (seq 0 256) = true) as H
    by (vm_compute; reflexivity).
  rewrite forallb_forall in H. apply Nat.leb_le, H, in_seq. lia.
Qed.

(** The items of a batch are few and short. *)
Definition short_items (n : nat) (items : list error) : Prop :=
  (length items <= n)%nat /\ Forall (fun e => String.length (errorText e) <= 42)%nat items.

Lemma item_text i e : (i < 256)%nat -> normalized_error e -> (String.length (errorText (BatchItemError (Z.of_nat i) (Some e))) <= 42)%nat.
Proof.
  intros Hi He. change (String.length ("item " +:+ pretty (Z.of_nat i) +:+ ": " +:+ errorText e) <= 42)%nat.
  rewrite !append_length. pose proof (index_text_bound i Hi). apply normalized_text in He. unfold MaxBackendErrorBytes in He.
  change (String.length "item ") with 5%nat. change (String.length ": ") with 2%nat. lia.
Qed.

Lemma failures_short results : forall i, (i + length results <= 256)%nat ->
  Forall (fun x => forall e, x.2 = Some e -> normalized_error e) results -> short_items (length results) (failures i results).
Proof.
  induction results as [|[d [e|]] results IH]; intros i Hi Hall; [by split|..]; apply Forall_cons in Hall as [He Hall];
    (destruct (IH (S i)) as [H1 H2]; [simpl in Hi; lia|done|]); simpl; split; simpl; try lia; try done.
  constructor; [|done]. apply item_text; [simpl in Hi; lia|by apply He].
Qed.

Lemma run_short {W} clock (svc : StrictService W) ctx requests w ds att items w' results ended :
  (length requests <= 256)%nat -> batch_run clock svc ctx 0 requests w ds att items w' results ended ->
  short_items (length requests) items.
Proof.
  intros Hn [R1 (wk & _ & R2) _ _ -> _ R7]. destruct (failures_short results 0 ltac:(lia) R7) as [H1 H2].
  destruct ended as [e|]; [|rewrite app_nil_r; split; [lia|done]]. destruct R2 as (r & Hr & He & _).
  apply lookup_lt_Some in Hr. split; [rewrite length_app; simpl; lia|]. apply Forall_app. split; [done|]. constructor; [|done].
  apply item_text; [simpl; lia|]. destruct He as [-> | ->]; apply normalized_outcome.
Qed.

Lemma batch_text_bound n items :
  (n <= 256)%nat -> short_items n items -> items <> [] ->
  (N.of_nat (String.length (errorText (StrictBatchError items))) <= MaxStrictBatchErrorBytes)%N.
Proof.
  intros Hn [Hl Hb] Hne.
  assert (errorText (StrictBatchError items) = String.concat newline (map errorText items)) as ->
    by (by destruct items).
  pose proof (concat_length 42 (map errorText items)) as Hc.
  rewrite length_map in Hc. unfold MaxStrictBatchErrorBytes.
  assert (S (String.length (String.concat newline (map errorText items))) <= length items * 43)%nat.
  { apply Hc; [|by destruct items]. rewrite Forall_map. exact Hb. }
  lia.
Qed.

Section BatchTheorem.
Context {W : Type} (clock : W -> Z * W).

(** C31: [StrictService.Batch] dispatches a prefix of its requests to the service,
    one after the other and in order, reading only the caller's context in
    between.  The decisions are those of the dispatched requests, followed by zero
    decisions; the attempted indexes are those of the prefix; the error items are
    exactly the errors of the dispatched requests that failed, each with its index,
    followed by one item for the request that was not dispatched, if there is one:
    then the caller was done.  Otherwise a prefix that is not the whole batch ends
    with an unknown outcome.  The call fails exactly when there is an item, and its
    text has at most 11,007 bytes. *)
Theorem strict_batch_shape service ctx batch w r err w' :
  validateBatch batch = None ->
  returns (Batch clock service (iface_of ctx) batch) w (r, err) w' ->
  (exists svc, service = Some svc /\ ss_backend svc <> nil_iface /\ ss_name svc <> EmptyString) ->
  exists svc items results ended, service = Some svc /\
    batch_run clock svc ctx 0 (batch_Requests batch) w (sbd_Decisions r) (Attempted r) items w' results ended /\
    sbd_Atomicity r = AtomicityPerItem /\
    (err = None /\ items = [] \/ err = Some (StrictBatchError items) /\ items <> []) /\
    (forall e, err = Some e ->
       N.of_nat (String.length (errorText e)) <= MaxStrictBatchErrorBytes)%N.
Proof.
  intros Hv H (svc & -> & Hb & Hn). revert H. unfold Batch. rewrite Hv.
  rewrite (bool_decide_eq_false_2 _ Hn).
  assert (is_nil_iface (ss_backend svc) = false) as -> by (by destruct (ss_backend svc)).
  simpl. rewrite bind_returns. intros ([[ds att] items] & w1 & Hi & H).
  apply ret_returns in H as [[= <- <-] <-].
  assert (exists backend, uses_backend svc backend) as [backend Hu]
    by (unfold uses_backend; destruct (ss_backend svc); [done|eauto..]).
  destruct (batchItems_run clock svc ctx backend _ _ _ _ _ _ _ Hu Hn Hi) as (results & ended & Hrun).
  exists svc, items, results, ended. split_and!; [done|done|done|destruct items; [by left | by right]|].
  intros e He. destruct items as [|it items]; [done|]. injection He as <-.
  assert (length (batch_Requests batch) <= 256)%nat as Hlen.
  { revert Hv. unfold validateBatch, MaxBatchSize. destruct (Nat.eqb_spec (length (batch_Requests batch)) 0); [done|].
    destruct (Nat.ltb_spec 256 (length (batch_Requests batch))); [done|]. lia. }
  apply (batch_text_bound (length (batch_Requests batch))); [done|by eapply run_short|done].
Qed.

(** *** Termination *)

Lemma total_observe svc request d e started : total (observe clock svc request d e started).
Proof.
  intros w. destruct (strict_observe_returns clock svc request d e started w) as [w' H]. eauto.
Qed.
Hint Resolve total_observe : golib.

Lemma total_caller (ctx : Context W) : total (strictCallerContext ctx).
Proof. unfold strictCallerContext. auto with golib. Qed.

Lemma total_unknown svc ctx request : total (unknownDecision (W := W) svc ctx request).
Proof. unfold unknownDecision. auto with golib. Qed.
Hint Resolve total_caller total_unknown : golib.

Lemma total_normalizeAdmit svc ctx request raw rawErr :
  total (normalizeAdmit (W := W) svc ctx request raw rawErr).
Proof.
  unfold normalizeAdmit. destruct (strictDeclaration rawErr) as [k c].
  repeat case_match; auto with golib.
Qed.
Hint Resolve total_normalizeAdmit : golib.

Lemma total_admit service ctx request validated :
  (forall svc backend ctx request, service = Some svc -> uses_backend svc backend ->
     total (AdmitStrict backend ctx request)) ->
  total (admitRequest clock service ctx request validated).
Proof.
  intros Hb. unfold admitRequest. destruct service as [svc|]; [|auto with golib].
  assert (forall backend ctx, uses_backend svc backend ->
            total (admitReady clock svc backend ctx request validated)) as Hready.
  { intros backend c Hu. unfold admitReady. apply total_bind; [auto with golib|intros started].
    apply total_bind; [auto with golib|intros [err|]].
    - destruct validated; [auto with golib|]. case_match; auto with golib.
    - apply total_bind; [by eapply Hb|auto with golib]. }
  destruct (ss_backend svc) eqn:Hs; [auto with golib|..]; case_match; auto with golib;
    destruct ctx; auto with golib; case_match; auto with golib;
    apply Hready; [by left | by right].
Qed.

Lemma total_batchItems svc ctx requests index :
  (forall backend ctx request, uses_backend svc backend -> total (AdmitStrict backend ctx request)) ->
  total (batchItems clock svc ctx index requests).
Proof.
  intros Hb. revert index. induction requests as [|r rs IH]; intros index; cbn [batchItems];
    [auto with golib|].
  apply total_bind; [auto with golib|intros [err|]]; [auto with golib|].
  apply total_bind; [apply total_admit; intros ? ? ? ? [= <-]; apply Hb|intros [[d e] b]].
  case_match; [auto with golib|].
  apply total_bind; [unfold stopsBatch; repeat case_match; auto with golib|].
  intros []; [auto with golib|]. apply total_bind; [apply IH|intros [[ds att] its]; auto with golib].
Qed.

(** If the backend's admission always returns, then so do
    [StrictService.Admit] and [StrictService.Batch], from every world, for
    every input and whatever the observers do. *)
Theorem strict_service_total service :
  (forall svc backend ctx request, service = Some svc -> uses_backend svc backend ->
     forall w, exists r w', returns (AdmitStrict backend ctx request) w r w') ->
  (forall ctx request w, exists r w', returns (Admit clock service ctx request) w r w') /\
  (forall ctx batch w, exists r w', returns (Batch clock service ctx batch) w r w').
Proof.
  intros Hb. split.
  - intros ctx request. apply total_bind; [by apply total_admit|auto with golib].
  - intros ctx batch. fold (total (Batch clock service ctx batch)). unfold Batch.
    destruct service as [svc|]; [|auto with golib]. case_match; [auto with golib|].
    destruct ctx; auto with golib. case_match; [auto with golib|].
    apply total_bind; [apply total_batchItems; intros backend c r Hu w; by eapply Hb|].
    intros [[ds att] its]. auto with golib.
Qed.
End BatchTheorem.

Definition demo_batch : BatchRequest :=
  mkBatchRequest [quickstart_request; Demo.costly; quickstart_request] AtomicityPerItem.

Lemma strict_batch_shape_witness :
  exists r err items results ended,
    returns (Batch Demo.still (Some Demo.service) (iface_of Demo.live) demo_batch) tt (r, err) tt /\
    batch_run Demo.still Demo.service Demo.live 0 (batch_Requests demo_batch) tt (sbd_Decisions r) (Attempted r) items tt results ended.
Proof.
  destruct (Batch Demo.still (Some Demo.service) (iface_of Demo.live) demo_batch tt)
    as [[[r err]|] []] eqn:H; [|exfalso; vm_compute in H; discriminate H].
  destruct (strict_batch_shape Demo.still (Some Demo.service) Demo.live demo_batch tt r err tt)
    as (svc & items & results & ended & E & Hs & _); [vm_compute; reflexivity | exact H | |].
  - exists Demo.service. split_and!; [reflexivity | discriminate | discriminate].
  - injection E as <-. exists r, err, items, results, ended. exact (conj H Hs).
Defined.

Lemma strict_service_total_witness :
  exists r w',
    returns (Admit Demo.still (Some Demo.service) (iface_of Demo.live) quickstart_request) tt r w'.
Proof.
  apply (strict_service_total Demo.still (Some Demo.service)).
  intros svc backend ctx request [= <-] Hu w.
  destruct Hu as [[=]|[= <-]]. unfold returns. simpl.
  destruct (Cost request =? 1); eexists _, _; reflexivity.
Defined.
