(* ===== verification/StrictLeases.v ===== *)
(** * Strict leases: what [StrictService.Acquire] and [Release] guarantee

    [acquire_verdict] is the documented table of acquisition results; the
    normalization implements it and answers everything else with an unknown
    outcome and no lease. *)

From S2P Require Import Prelude GoTime GoHash Errors Keys Policy Backend StrictService StrictFacts.

Local Open Scope string_scope.
Local Open Scope Z_scope.

Inductive acquire_verdict (name : string) (request : LeaseRequest) (rawLease : Lease)
    (raw : Decision) (rawErr : option error) : Lease -> Decision -> option error -> Prop :=
| acquired :
    rawErr = None -> completeAllowed raw (lr_Request request) = true ->
    completeLease rawLease raw request = true ->
    acquire_verdict name request rawLease raw rawErr (withLeaseBackend rawLease name) raw None
| acquire_rejected e :
    rawErr = Some e -> declares e ErrRejected -> rawLease = zeroLease ->
    completeRejected raw (lr_Request request) = true ->
    acquire_verdict name request rawLease raw rawErr zeroLease raw (Some e)
| acquire_unknown c :
    rawErr = Some (strictOutcomeError strictOutcomeUnknown c) ->
    rawLease = zeroLease -> raw = emptyDecision ->
    acquire_verdict name request rawLease raw rawErr zeroLease
      (strictDenied (lr_Request request) ReasonOutcomeUnknown) (Some (reconstructUnknown c))
| acquire_canceled c :
    rawErr = Some (strictOutcomeError strictOutcomeCanceled c) ->
    rawLease = zeroLease -> raw = emptyDecision ->
    acquire_verdict name request rawLease raw rawErr zeroLease
      (strictDenied (lr_Request request) ReasonCanceled) (Some CanceledOutcome)
| acquire_deadline k c :
    rawErr = Some (strictOutcomeError k c) ->
    k <> strictOutcomeUnknown -> k <> strictOutcomeCanceled ->
    rawLease = zeroLease -> raw = emptyDecision ->
    acquire_verdict name request rawLease raw rawErr zeroLease
      (strictDenied (lr_Request request) ReasonDeadline) (Some DeadlineOutcome)
| acquire_failed e s :
    rawErr = Some e -> declares e s -> acquire_category s ->
    rawLease = zeroLease -> raw = emptyDecision ->
    acquire_verdict name request rawLease raw rawErr zeroLease
      (strictDenied (lr_Request request) ReasonBackendUnavailable) (Some e).

Lemma acquire_categories s :
  safe_sentinel s = true -> s <> ErrRejected ->
  applicableCategory (Some (Sent s)) strictMethodAcquire = true <-> acquire_category s.
Proof. unfold acquire_category. destruct s; vm_compute; intuition congruence. Qed.

Section Leases.
Context {W : Type} (clock : W -> Z * W).
Implicit Types (w : W).

(** The normalization answers from the table or with an unknown outcome. *)
Lemma normalizeAcquire_refines (service : StrictService W) ctx request l raw rawErr w :
  (exists l' d e, acquire_verdict (ss_name service) request l raw rawErr l' d e /\
     returns (normalizeAcquire service ctx request l raw rawErr) w
             (l', stampDecision service d (lr_Request request), e) w) \/
  (exists c w', returns (normalizeAcquire service ctx request l raw rawErr) w
     (zeroLease,
      stampDecision service (strictDenied (lr_Request request) ReasonOutcomeUnknown)
                    (lr_Request request),
      Some (UnknownOutcome c)) w').
Proof.
  assert (exists c w', returns
    (unknown ← unknownDecision service ctx (lr_Request request);
     mret (zeroLease, unknown.1, unknown.2)) w
     (zeroLease,
      stampDecision service (strictDenied (lr_Request request) ReasonOutcomeUnknown)
                    (lr_Request request),
      Some (UnknownOutcome c)) w') as Hunknown.
  { unfold returns, mbind, M_bind, unknownDecision, mbind, M_bind, lift.
    destruct (ctxErr ctx w) as [c w1]. by exists c, w1. }
  unfold normalizeAcquire. destruct rawErr as [e|]; simpl isNil; cbn [andb].
  2:{ simpl. destruct (completeAllowed raw (lr_Request request)) eqn:Hc; simpl; [|by right].
      destruct (completeLease l raw request) eqn:Hl; [|by right].
      left. eexists _, _, _. split; [by apply acquired|done]. }
  destruct (strictDeclaration (Some e)) as [[] category] eqn:D.
  - by right.
  - apply declaration_safe_inv in D as (s & -> & Hd & Hs). rewrite !directError_declared.
    rewrite (bool_decide_eq_true_2 (declarationSafe = declarationSafe)) by done.
    rewrite (bool_decide_eq_false_2 (declarationSafe = declarationOutcome)) by done.
    cbn [andb negb].
    destruct (bool_decide_reflect (s = ErrRejected)) as [->|Hne];
      destruct (bool_decide_reflect (l = zeroLease)) as [->|Hl]; cbn [andb negb].
    + destruct (completeRejected raw (lr_Request request)) eqn:Hc; [|by right].
      left. eexists _, _, _. split; [by eapply acquire_rejected|done].
    + by right.
    + destruct (applicableCategory (Some (Sent s)) strictMethodAcquire) eqn:Ha; [|by right].
      destruct (zeroDecision raw) eqn:Hz; [|by right]. cbn [andb].
      apply zeroDecision_true in Hz as ->. apply acquire_categories in Ha; [|done..].
      left. eexists _, _, _. split; [by eapply acquire_failed|done].
    + by rewrite andb_false_r; right.
  - apply declaration_outcome_inv in D as (k & c & ->).
    rewrite (bool_decide_eq_false_2 (declarationOutcome = declarationSafe)) by done.
    rewrite (bool_decide_eq_true_2 (declarationOutcome = declarationOutcome)) by done.
    destruct (bool_decide_reflect (l = zeroLease)) as [->|Hl]; cbn [andb negb]; [|by right].
    destruct (zeroDecision raw) eqn:Hz; [|by right]. apply zeroDecision_true in Hz as ->.
    left. simpl. destruct (decide (k = strictOutcomeUnknown)) as [->|Hu].
    { eexists _, _, _. split; [by eapply acquire_unknown|done]. }
    rewrite (bool_decide_eq_false_2 _ Hu).
    destruct (decide (k = strictOutcomeCanceled)) as [->|Hk].
    { eexists _, _, _. split; [by eapply acquire_canceled|done]. }
    rewrite (bool_decide_eq_false_2 _ Hk).
    eexists _, _, _. split; [by eapply acquire_deadline|]. by destruct k.
Qed.

(** *** The paths through [Acquire] *)

Inductive acquire_path (service : option (StrictService W)) (ctx : iface (Context W))
    (request : LeaseRequest) : Lease * Decision * option error -> Prop :=
| acquire_early d e :
    Allowed d = false -> acquire_path service ctx request (zeroLease, d, Some e)
| acquire_dispatched svc backend leases ctx' l raw rawErr r w1 w2 w3 :
    service = Some svc -> uses_backend svc backend -> sb_lease backend = Some leases ->
    ctx = iface_of ctx' -> LeaseRequest_Validate request = None ->
    returns (AcquireStrict leases ctx' request) w1 (l, raw, rawErr) w2 ->
    returns (normalizeAcquire svc ctx' request l raw rawErr) w2 r w3 ->
    acquire_path service ctx request r.

Lemma acquireReady_paths svc backend ctx request w r w' :
  uses_backend svc backend -> LeaseRequest_Validate request = None ->
  returns (acquireReady clock svc backend ctx request) w r w' ->
  acquire_path (Some svc) (iface_of ctx) request r.
Proof.
  intros Hu Hv. unfold acquireReady. rewrite bind_returns. intros (t & w1 & _ & H).
  apply bind_returns in H as (caller & w2 & _ & H). destruct caller as [err|].
  - apply bind_returns in H as (? & w3 & _ & H). apply ret_returns in H as [<- _].
    by apply acquire_early.
  - destruct (sb_lease backend) as [leases|] eqn:Hl.
    2:{ apply ret_returns in H as [<- _]. by apply acquire_early. }
    apply bind_returns in H as ([[l raw] rawErr] & w3 & Ha & H).
    apply bind_returns in H as (r' & w4 & Hn & H).
    apply bind_returns in H as (? & w5 & _ & H). apply ret_returns in H as [<- _].
    by eapply acquire_dispatched.
Qed.

Lemma acquire_paths service ctx request w r w' :
  returns (Acquire clock service ctx request) w r w' -> acquire_path service ctx request r.
Proof.
  unfold Acquire. destruct service as [svc|].
  2:{ rewrite ret_returns. intros [<- _]. by apply acquire_early. }
  destruct (ss_backend svc) as [|b|b] eqn:Hb.
  { rewrite ret_returns. intros [<- _]. by apply acquire_early. }
  all: case_bool_decide; [rewrite ret_returns; intros [<- _]; by apply acquire_early|];
    destruct ctx as [|c|c]; try (rewrite ret_returns; intros [<- _]; by apply acquire_early);
    case_match eqn:Hv; try (rewrite ret_returns; intros [<- _]; by apply acquire_early);
    apply acquireReady_paths; [first [by left | by right] | done].
Qed.

(** C30: a strict acquisition hands out a lease exactly when it returns a nil
    error; the lease then repeats the request's identifier, key, policy and
    cost, expires at the decision's reset, is stamped with the backend's name,
    and the service's backend answered with exactly that complete lease.  On any error
    the lease is zero and the decision denies: concurrency never fails open. *)
Theorem strict_acquire_sound service ctx request w l d e w' :
  returns (Acquire clock service ctx request) w (l, d, e) w' ->
  (e <> None -> l = zeroLease /\ Allowed d = false) /\
  (e = None -> Allowed d = true /\ completeLease l d request = true /\
     exists svc backend ctx' leases raw rawD w1 w2, service = Some svc /\ ctx = iface_of ctx' /\
       uses_backend svc backend /\ sb_lease backend = Some leases /\
       returns (AcquireStrict leases ctx' request) w1 (raw, rawD, None) w2 /\
       completeAllowed rawD (lr_Request request) = true /\
       l = withLeaseBackend raw (ss_name svc) /\
       d = stampDecision svc rawD (lr_Request request)).
Proof.
  intros H. apply acquire_paths in H.
  inversion H as [|svc backend leases ctx' raw rawD rawErr r w1 w2 w3 ? Hu Hl ? Hv Ha Hn]; subst.
  { split; [done|]. done. }
  destruct (normalizeAcquire_refines svc ctx' request raw rawD rawErr w2)
    as [(l' & d' & e' & Hverdict & Hr)|(c & w4 & Hr)];
    unfold returns in Hn, Hr; rewrite Hn in Hr; simplify_eq; [|by split].
  inversion Hverdict as [? Hc Hcl|? ? ? ? Hc| | | |]; subst; simpl; split; try done.
  - intros _. split; [unfold completeAllowed in Hc; by btrue|]. split; [exact Hcl|].
    by eexists svc, backend, ctx', leases, _, _, w1, w2.
  - unfold completeRejected in Hc. btrue. done.
Qed.

(** [StrictService.Release] reports success only when the backend's
    release returned nil, and a lease of another backend, an incomplete lease
    or a done context never reaches the backend. *)
Theorem strict_release_sound service ctx l w w' :
  returns (Release service ctx l) w None w' ->
  exists svc backend leases ctx' w1, service = Some svc /\ uses_backend svc backend /\
    sb_lease backend = Some leases /\ ctx = iface_of ctx' /\
    returns (ReleaseStrict leases ctx' l) w1 None w' /\
    validateStrictLease l = None /\
    (lease_Backend l = EmptyString \/ lease_Backend l = ss_name svc).
Proof.
  unfold Release. destruct service as [svc|]; [|by rewrite ret_returns; intros []].
  destruct (ss_backend svc) as [|b|b] eqn:Hb; [by rewrite ret_returns; intros []|..].
  all: case_bool_decide; [by rewrite ret_returns; intros []|];
    destruct ctx as [|c|c]; try (by rewrite ret_returns; intros []);
    destruct (validateStrictLease l) eqn:Hv; try (by rewrite ret_returns; intros []);
    (case_match eqn:Ho; [by rewrite ret_returns; intros []|]);
    rewrite bind_returns; intros (caller & w1 & _ & H1);
    (destruct caller as [err|]; [by rewrite ret_returns in H1; destruct H1|]);
    (destruct (sb_lease b) as [leases|] eqn:Hl; [|by rewrite ret_returns in H1; destruct H1]);
    apply bind_returns in H1 as (rawErr & w2 & Hr & H1);
    destruct rawErr as [rawErr|];
    [exfalso; simpl in H1; destruct (strictDeclaration (Some rawErr));
     repeat case_match; try discriminate;
     try (apply bind_returns in H1 as (? & ? & _ & H1));
     apply ret_returns in H1 as [H1 _]; discriminate|].
  all: simpl in H1; apply ret_returns in H1 as [_ <-];
    exists svc, b, leases, c, w1; split_and!; try done; [unfold uses_backend; auto|];
    apply andb_false_iff in Ho as [Ho|Ho]; btrue; auto.
Qed.
End Leases.

(** ** A concrete lease backend *)
Module DemoLease.
Definition spec : PolicySpec :=
  mkPolicySpec "jobs" "v1" Concurrency 4 0 0 2 FailClosed EmptyString 30000000000.
Definition request : LeaseRequest :=
  mkLeaseRequest (mkRequest (policy_of spec) (mkKey "http:v1:principal:x" "principal") 2
                            (mkTime 1700000000000000000 UTC)) "job-1".
Definition expiry : Time := mkTime 1700000030000000000 UTC.
Definition lease : Lease :=
  mkLease "job-1" (req_Key (lr_Request request)) "jobs" "v1" 2 expiry "memory".
Definition granted : Decision :=
  mkDecision true 2 4 expiry 0 ReasonAllowed EmptyString EmptyString.
Definition backend : StrictBackend unit :=
  mkStrictBackend "demo" (fun _ _ => panic)
    (Some (mkStrictLeaseBackend (fun _ _ => mret (lease, granted, None)) (fun _ _ => mret None))) None.
Definition service : StrictService unit := mkStrictService (iface_of backend) [] "demo".
End DemoLease.

Lemma strict_acquire_sound_witness :
  exists l d, returns (Acquire Demo.still (Some DemoLease.service) (iface_of Demo.live)
                               DemoLease.request) tt (l, d, None) tt /\
              Allowed d = true /\ completeLease l d DemoLease.request = true.
Proof.
  assert (H : returns (Acquire Demo.still (Some DemoLease.service) (iface_of Demo.live)
                               DemoLease.request) tt
                (withLeaseBackend DemoLease.lease "demo",
                 stampDecision DemoLease.service DemoLease.granted (lr_Request DemoLease.request),
                 None) tt) by (vm_compute; reflexivity).
  eexists _, _. split; [exact H|].
  destruct (strict_acquire_sound Demo.still _ _ _ _ _ _ _ _ H) as [_ Hok].
  destruct (Hok eq_refl) as (Ha & Hc & _). exact (conj Ha Hc).
Defined.

Lemma strict_release_sound_witness :
  validateStrictLease (withLeaseBackend DemoLease.lease "demo") = None /\
  (lease_Backend (withLeaseBackend DemoLease.lease "demo") = EmptyString \/
   lease_Backend (withLeaseBackend DemoLease.lease "demo") = ss_name DemoLease.service).
Proof.
  assert (H : returns (Release (Some DemoLease.service) (iface_of Demo.live)
                               (withLeaseBackend DemoLease.lease "demo")) tt None tt)
    by (vm_compute; reflexivity).
  destruct (strict_release_sound _ _ _ _ _ H)
    as (svc & b & ls & c & w1 & [= <-] & _ & _ & _ & _ & Hv & Hn).
  exact (conj Hv Hn).
Defined.
