(* ===== verification/AtomicBatch.v ===== *)
(** * Atomic batches (atomic_batch.go)

    One all-or-nothing debit command over 1..16 distinct token buckets.  The
    service validates the command, dispatches it once to a native backend and
    checks the whole answer; anything it cannot certify, a panic included, is an
    unknown outcome that carries the command identifier and no decision. *)

From S2P Require Import Prelude GoTime GoHash Errors Keys Policy Backend StrictService StrictFacts.

Local Open Scope string_scope.
Local Open Scope Z_scope.

(** ** Validation *)

(** The bytes of an HTTP token: letters, digits and !#$%&'*+-.^_`|~ *)
Definition tokenByte (c : Z) : bool :=
  in_range 97 122 c || in_range 65 90 c || in_range 48 57 c ||
  (c =? 33) || (c =? 35) || (c =? 36) || (c =? 37) || (c =? 38) || (c =? 39) || (c =? 42) ||
  (c =? 43) || (c =? 45) || (c =? 46) || (c =? 94) || (c =? 95) || (c =? 96) || (c =? 124) ||
  (c =? 126).

Definition atomicCommandID (id : string) : bool :=
  if (strlen id <? 1) || (128 <? strlen id) then false else all_bytes tokenByte id.

(** The identity of a bucket: policy identifier, NUL, key. *)
Definition bucketKey (request : Request) : string :=
  id (req_Policy request) +:+ NUL +:+ key_value (req_Key request).

Fixpoint validateAtomicItems (now : Time) (seen : gset string) (requests : list Request)
    : option error :=
  match requests with
  | [] => None
  | request :: rest =>
      if negb (bool_decide (Validate request = None)) || negb (Equal (Now request) now)
      then Some (Sent ErrInvalidRequest) else
      if negb (bool_decide (algorithm (req_Policy request) = TokenBucket)) ||
         negb (bool_decide (consistency (req_Policy request) = ConsistencyStrong)) ||
         negb (failureMode (req_Policy request) =? FailClosed)
      then Some (Sent ErrUnsupported) else
      if bool_decide (bucketKey request ∈ seen) then Some (Sent ErrInvalidRequest) else
      validateAtomicItems now ({[bucketKey request]} ∪ seen) rest
  end.

Definition AtomicBatchRequest_Validate (r : AtomicBatchRequest) : option error :=
  if negb (atomicCommandID (CommandID r)) || (length (abr_Requests r) <? 1)%nat ||
     (MaxAtomicBatchSize <? length (abr_Requests r))%nat
  then Some (Sent ErrInvalidRequest) else
  match abr_Requests r with
  | [] => None
  | first :: _ => validateAtomicItems (Now first) ∅ (abr_Requests r)
  end.

(** ** Certification of a backend's answer *)

(** The decision of a sufficient bucket in a rejected command. *)
Definition completeAtomicRejected (decision : Decision) (request : Request) : bool :=
  negb (Allowed decision) && bool_decide (dec_Reason decision = ReasonAtomicRejected) &&
  (dec_Limit decision =? Limit (req_Policy request)) && (Cost request <=? Remaining decision) &&
  (Remaining decision <=? Limit (req_Policy request)) && negb (IsZero (Reset decision)) &&
  (RetryAfter decision =? 0).

(** The loop over the decisions, with its two accumulators. *)
Fixpoint certifyItems (allowed valid rejected : bool) (decisions : list Decision)
    (requests : list Request) : bool * bool :=
  match decisions, requests with
  | decision :: decisions, request :: requests =>
      if allowed
      then certifyItems allowed (valid && completeAllowed decision request) rejected decisions requests
      else if completeRejected decision request
      then certifyItems allowed valid true decisions requests
      else certifyItems allowed (valid && completeAtomicRejected decision request) rejected
                        decisions requests
  | _, _ => (valid, rejected)
  end.

Section Service.
Context {W : Type}.

Definition commandOnly (r : AtomicBatchRequest) : AtomicBatchDecision :=
  mkAtomicBatchDecision (CommandID r) false [].

Definition atomicUnknown (ctx : Context W) (r : AtomicBatchRequest)
    : M W (AtomicBatchDecision * option error) :=
  err ← lift (ctxErr ctx); mret (commandOnly r, Some (UnknownOutcome err)).

Fixpoint stampAll (service : StrictService W) (decisions : list Decision)
    (requests : list Request) : list Decision :=
  match decisions, requests with
  | decision :: decisions, request :: requests =>
      stampDecision service decision request :: stampAll service decisions requests
  | _, _ => []
  end.

(** What the service makes of the backend's answer. *)
Definition normalizeAtomic (service : StrictService W) (ctx : Context W) (r : AtomicBatchRequest)
    (raw : AtomicBatchDecision) (rawErr : option error)
    : M W (AtomicBatchDecision * option error) :=
  let '(decl, category) := strictDeclaration rawErr in
  let safe := bool_decide (decl = declarationSafe) in
  let '(valid, rejected) :=
    certifyItems (abd_Allowed raw) true false (abd_Decisions raw) (abr_Requests r) in
  if bool_decide (abd_CommandID raw = CommandID r) &&
     (length (abd_Decisions raw) =? length (abr_Requests r))%nat && valid &&
     (abd_Allowed raw && isNil rawErr ||
      negb (abd_Allowed raw) && rejected && safe && directError category ErrRejected)
  then mret (mkAtomicBatchDecision (abd_CommandID raw) (abd_Allowed raw)
               (stampAll service (abd_Decisions raw) (abr_Requests r)), rawErr) else
  if bool_decide (abd_CommandID raw = EmptyString) && negb (abd_Allowed raw) &&
     (length (abd_Decisions raw) =? 0)%nat &&
     (bool_decide (decl = declarationOutcome) ||
      safe && negb (directError category ErrRejected) &&
      applicableCategory category strictMethodAdmit)
  then mret (commandOnly r, rawErr)
  else atomicUnknown ctx r.

Definition AdmitAtomicBatch (service : option (StrictService W)) (ctx : iface (Context W))
    (r : AtomicBatchRequest) : M W (AtomicBatchDecision * option error) :=
  let out := emptyAtomicBatchDecision in
  match service with
  | None => mret (out, Some (Sent ErrInvalidPolicy))
  | Some service =>
      match ss_backend service with
      | nil_iface => mret (out, Some (Sent ErrInvalidPolicy))
      | typed_nil backend | iface_of backend =>
          if bool_decide (ss_name service = EmptyString)
          then mret (out, Some (Sent ErrInvalidPolicy)) else
          match ctx with
          | nil_iface | typed_nil _ => mret (out, Some (Sent ErrInvalidRequest))
          | iface_of ctx =>
              match AtomicBatchRequest_Validate r with
              | Some err => mret (out, Some err)
              | None =>
                  callerErr ← strictCallerContext ctx;
                  match callerErr with
                  | Some err => mret (out, Some err)
                  | None =>
                      match sb_atomic backend with
                      | None => mret (out, Some (Sent ErrUnsupported))
                      | Some admitAtomic =>
                          recover_with
                            (answer ← admitAtomic ctx r;
                             normalizeAtomic service ctx r answer.1 answer.2)
                            (atomicUnknown ctx r)
                      end
                  end
              end
          end
      end
  end.
End Service.

(** ** What validation accepts *)

Record atomic_item (now : Time) (request : Request) : Prop := {
  item_valid : Validate request = None;
  item_now : instant (Now request) = instant now;
  item_algorithm : algorithm (req_Policy request) = TokenBucket;
  item_strong : consistency (req_Policy request) = ConsistencyStrong;
  item_closed : failureMode (req_Policy request) = FailClosed
}.

(** One test of the loop: the item fails it, or the loop goes on. *)
Ltac test_item spec :=
  destruct spec; simpl; [|split; [done | by intros ([[]] & _)]].

Lemma validateAtomicItems_spec now requests : forall seen,
  validateAtomicItems now seen requests = None <->
  Forall (atomic_item now) requests /\ NoDup (map bucketKey requests) /\
  (forall k, k ∈ map bucketKey requests -> k ∉ seen).
Proof.
  induction requests as [|request rest IH]; intros seen; simpl.
  { split; [intros _|done]. split_and!; [constructor..|]. by intros k ?%elem_of_nil. }
  rewrite Forall_cons, NoDup_cons.
  unfold Equal.
  test_item (bool_decide_reflect (Validate request = None)).
  test_item (Z.eqb_spec (instant (Now request)) (instant now)).
  test_item (bool_decide_reflect (algorithm (req_Policy request) = TokenBucket)).
  test_item (bool_decide_reflect (consistency (req_Policy request) = ConsistencyStrong)).
  test_item (Z.eqb_spec (failureMode (req_Policy request)) FailClosed).
  case_bool_decide as Hs.
  { split; [done|]. intros (_ & _ & H). by destruct (H _ (list_elem_of_here _ _)). }
  rewrite IH. setoid_rewrite elem_of_cons. split.
  - intros (Hf & Hd & Hk). split_and!; try done.
    + intros Hin. apply Hk, not_elem_of_union in Hin as [Hin _].
      by rewrite elem_of_singleton in Hin.
    + intros k [->|Hin]; [done|]. by apply Hk, not_elem_of_union in Hin as [_ ?].
  - intros ([_ Hf] & [Hn Hd] & Hk). split_and!; try done.
    intros k Hin. apply not_elem_of_union. split; [|by apply Hk; right].
    rewrite elem_of_singleton. by intros ->.
Qed.

(** [AtomicBatchRequest.Validate] accepts exactly a 1..128-byte HTTP-token
    command over 1..16 requests that validate, share one clock reading, are
    strong fail-closed token buckets, and name pairwise distinct buckets. *)
Theorem atomic_validate_exact r :
  AtomicBatchRequest_Validate r = None <->
  1 <= strlen (CommandID r) <= 128 /\
  Forall (fun c => tokenByte c = true) (bytes_of (CommandID r)) /\
  exists first rest, abr_Requests r = first :: rest /\ (length (first :: rest) <= 16)%nat /\
    Forall (atomic_item (Now first)) (first :: rest) /\ NoDup (map bucketKey (first :: rest)).
Proof.
  unfold AtomicBatchRequest_Validate, atomicCommandID, MaxAtomicBatchSize.
  rewrite <- all_bytes_Forall. split.
  - destruct (Z.ltb_spec (strlen (CommandID r)) 1); [done|].
    destruct (Z.ltb_spec 128 (strlen (CommandID r))); [done|]. simpl.
    destruct (all_bytes tokenByte (CommandID r)); [|done]. simpl.
    destruct (abr_Requests r) as [|first rest]; [done|].
    destruct (Nat.ltb_spec 16 (length (first :: rest))); [done|]. intros Hv.
    apply validateAtomicItems_spec in Hv as (? & ? & _). split; [lia|]. eauto 10.
  - intros (Hl & -> & first & rest & -> & Hlen & Hf & Hd).
    rewrite (proj2 (Z.ltb_ge (strlen (CommandID r)) 1)), (proj2 (Z.ltb_ge 128 (strlen (CommandID r)))) by lia.
    rewrite (proj2 (Nat.ltb_ge 16 (length (first :: rest)))) by done. simpl orb. cbv iota.
    apply validateAtomicItems_spec. split_and!; [done..|]. set_solver.
Qed.

(** ** What the service certifies *)

Definition rejected_item (d : Decision) (request : Request) : Prop :=
  completeRejected d request = true \/ completeAtomicRejected d request = true.

Lemma certify_allowed ds : forall rs v r,
  length ds = length rs -> (certifyItems true v r ds rs).1 = true ->
  v = true /\ Forall2 (fun d q => completeAllowed d q = true) ds rs.
Proof.
  induction ds as [|d ds IH]; intros [|q rs] v r; try done; simpl.
  intros Hl H. injection Hl as Hl. destruct (IH _ _ _ Hl H) as [Hv ?]. btrue. split; [done|by constructor].
Qed.

Lemma certify_rejected ds : forall rs v r,
  length ds = length rs -> certifyItems false v r ds rs = (true, true) ->
  v = true /\ Forall2 rejected_item ds rs /\
  (r = true \/ exists i d q, ds !! i = Some d /\ rs !! i = Some q /\ completeRejected d q = true).
Proof.
  induction ds as [|d ds IH]; intros [|q rs] v r; try discriminate; simpl.
  { intros _ [= -> ->]. split; [done|]. split; [constructor|by left]. }
  intros Hl. injection Hl as Hl. destruct (completeRejected d q) eqn:Hc; intros H.
  - apply IH in H as (-> & Hf & _); [|done]. split; [done|].
    split; [constructor; [by left|done]|]. right. by exists 0%nat, d, q.
  - apply IH in H as (H & Hf & Hr); [|done]. btrue. split; [done|].
    split; [constructor; [by right|done]|]. destruct Hr as [|(i & d' & q' & ?)]; [by left|].
    right. by exists (S i), d', q'.
Qed.

Section AtomicTheorems.
Context {W : Type}.
Implicit Types (w : W) (service : StrictService W).

Lemma stampAll_Forall2 (P : Decision -> Request -> Prop) service ds rs :
  (forall d q, P d q -> P (stampDecision service d q) q) ->
  Forall2 P ds rs -> Forall2 P (stampAll service ds rs) rs.
Proof. intros HP. induction 1; simpl; constructor; auto. Qed.

Lemma stampAll_lookup service ds : forall rs i d q,
  ds !! i = Some d -> rs !! i = Some q ->
  stampAll service ds rs !! i = Some (stampDecision service d q).
Proof.
  induction ds as [|d' ds IH]; intros [|q' rs] [|i] d q; simpl; try done.
  - by intros [= ->] [= ->].
  - apply IH.
Qed.

(** The errors of an answer without decisions. *)
Inductive command_error : error -> Prop :=
| command_outcome k c : command_error (strictOutcomeError k c)
| command_category e s : declares e s -> admit_category s -> command_error e.

(** The three kinds of answer: a certified admission, a certified rejection,
    and a command that carries no decision at all. *)
Inductive atomic_answer (service : StrictService W) (r : AtomicBatchRequest)
    (raw : AtomicBatchDecision) (rawErr : option error)
    : AtomicBatchDecision -> option error -> Prop :=
| atomic_admitted :
    rawErr = None -> abd_CommandID raw = CommandID r -> abd_Allowed raw = true ->
    Forall2 (fun d q => completeAllowed d q = true) (abd_Decisions raw) (abr_Requests r) ->
    atomic_answer service r raw rawErr
      (mkAtomicBatchDecision (CommandID r) true
         (stampAll service (abd_Decisions raw) (abr_Requests r))) None
| atomic_rejected e :
    rawErr = Some e -> declares e ErrRejected -> abd_CommandID raw = CommandID r ->
    abd_Allowed raw = false -> Forall2 rejected_item (abd_Decisions raw) (abr_Requests r) ->
    (exists i d q, abd_Decisions raw !! i = Some d /\ abr_Requests r !! i = Some q /\
                   completeRejected d q = true) ->
    atomic_answer service r raw rawErr
      (mkAtomicBatchDecision (CommandID r) false
         (stampAll service (abd_Decisions raw) (abr_Requests r))) (Some e)
| atomic_uncertified e :
    command_error e ->
    atomic_answer service r raw rawErr (commandOnly r) (Some e).

Lemma normalizeAtomic_answer service ctx r raw rawErr w out err w' :
  returns (normalizeAtomic service ctx r raw rawErr) w (out, err) w' ->
  atomic_answer service r raw rawErr out err.
Proof.
  unfold normalizeAtomic. destruct (strictDeclaration rawErr) as [decl category] eqn:D.
  destruct (certifyItems _ _ _ _ _) as [valid rejected] eqn:Hc. case_match eqn:Hgood.
  { rewrite ret_returns. intros [[= <- <-] _]. apply andb_true_iff in Hgood as [Hgood Hres].
    btrue. subst valid. rename select (abd_CommandID raw = _) into Hid. rewrite Hid.
    rename select ((_ =? _)%nat = true) into Hlen. apply Nat.eqb_eq in Hlen.
    destruct (abd_Allowed raw) eqn:Ha; cbn [andb orb negb] in Hres.
    - rewrite orb_false_r in Hres. destruct rawErr as [e|]; [done|].
      apply atomic_admitted; try done.
      eapply certify_allowed; [done|]. by rewrite Hc.
    - apply andb_true_iff in Hres as [Hres Hdirect]. btrue. subst.
      destruct rawErr as [e|]; [|by simplify_eq/=].
      apply declaration_safe_inv in D as (s & -> & Hd & _). rewrite directError_declared in Hdirect.
      btrue. subst. apply certify_rejected in Hc as (_ & Hf & [|He]); try done.
      by apply atomic_rejected. }
  case_match eqn:Hcmd.
  { rewrite ret_returns. intros [[= <- <-] _]. apply andb_true_iff in Hcmd as [_ Hcmd].
    destruct rawErr as [e|]; [|by simplify_eq/=].
    apply atomic_uncertified. apply orb_true_iff in Hcmd as [Ho|Ho].
    - btrue. subst. apply declaration_outcome_inv in D as (k & c & ->). constructor.
    - apply andb_true_iff in Ho as [Ho Happ]. apply andb_true_iff in Ho as [Ho Hne]. btrue. subst.
      apply declaration_safe_inv in D as (s & -> & Hd & Hs). rewrite directError_declared in Hne.
      btrue. eapply command_category; [done|]. by apply admit_categories. }
  unfold atomicUnknown. rewrite bind_returns. intros (c & w1 & _ & H).
  apply ret_returns in H as [[= <- <-] _]. apply atomic_uncertified.
  unfold UnknownOutcome. repeat case_match; constructor.
Qed.

(** Early results carry no decision; a dispatched command carries what
    [normalizeAtomic] certified, or the command identifier and an outcome. *)
Lemma atomic_paths (service : option (StrictService W)) ctx r w out err w' :
  returns (AdmitAtomicBatch service ctx r) w (out, err) w' ->
  (exists e, err = Some e /\ out = emptyAtomicBatchDecision) \/
  (exists e, err = Some e /\ out = commandOnly r) \/
  (exists svc backend admitAtomic ctx' raw rawErr w1 w2,
     service = Some svc /\ uses_backend svc backend /\ ctx = iface_of ctx' /\
     AtomicBatchRequest_Validate r = None /\ sb_atomic backend = Some admitAtomic /\
     returns (admitAtomic ctx' r) w1 (raw, rawErr) w2 /\ atomic_answer svc r raw rawErr out err).
Proof.
  unfold AdmitAtomicBatch. destruct service as [svc|].
  2:{ rewrite ret_returns. intros [[= <- <-] _]. eauto. }
  destruct (ss_backend svc) as [|b|b] eqn:Hb.
  { rewrite ret_returns. intros [[= <- <-] _]. eauto. }
  all: case_bool_decide; [rewrite ret_returns; intros [[= <- <-] _]; eauto|];
    destruct ctx as [|c|c]; try (rewrite ret_returns; intros [[= <- <-] _]; eauto);
    destruct (AtomicBatchRequest_Validate r) eqn:Hv;
    [rewrite ret_returns; intros [[= <- <-] _]; eauto|];
    rewrite bind_returns; intros (caller & w1 & _ & H1);
    (destruct caller as [err'|]; [apply ret_returns in H1 as [[= <- <-] _]; eauto|]);
    (destruct (sb_atomic b) as [f|] eqn:Hf; [|apply ret_returns in H1 as [[= <- <-] _]; eauto]);
    right; unfold returns, recover_with in H1; rewrite bind_unfold in H1;
    destruct (f c r w1) as [[[raw rawErr]|] w2] eqn:Hcall; simpl in H1.
  1, 3: destruct (normalizeAtomic svc c r raw rawErr w2) as [[[o e]|] w3] eqn:Hn; simplify_eq;
    [right; apply normalizeAtomic_answer in Hn;
     exists svc, b, f, c, raw, rawErr, w1, w2; split_and!; try done; unfold uses_backend; auto|].
  all: left; apply (bind_returns (lift (ctxErr c))) in H1 as (cause & w4 & _ & H1);
    apply ret_returns in H1 as [[= <- <-] _]; eauto.
Qed.


Lemma atomicUnknown_returns ctx r w :
  exists c w', returns (atomicUnknown ctx r) w (commandOnly r, Some (UnknownOutcome c)) w'.
Proof.
  unfold atomicUnknown, returns, mbind, M_bind, lift. destruct (ctxErr ctx w) as [c w'].
  by exists c, w'.
Qed.

Lemma strictCallerContext_total (ctx : Context W) w :
  exists caller w', returns (strictCallerContext ctx) w caller w'.
Proof.
  unfold strictCallerContext, returns, mbind, M_bind, lift. destruct (ctxErr ctx w) as [c w'].
  by eexists _, w'.
Qed.

Lemma normalizeAtomic_returns service ctx r raw rawErr w :
  exists out err w', returns (normalizeAtomic service ctx r raw rawErr) w (out, err) w'.
Proof.
  unfold normalizeAtomic. repeat case_match; try (eexists _, _, _; by apply ret_returns).
  all: destruct (atomicUnknown_returns ctx r w) as (c & w' & H'); eauto.
Qed.

Lemma recovered_command svc (f : Context W -> AtomicBatchRequest -> M W (AtomicBatchDecision * option error))
    ctx r w :
  exists out err w',
    returns (recover_with (answer ← f ctx r; normalizeAtomic svc ctx r answer.1 answer.2)
                          (atomicUnknown ctx r)) w (out, err) w' /\
    ((f ctx r w).1 = Panic -> out = commandOnly r /\ exists c, err = Some (UnknownOutcome c)).
Proof.
  unfold recover_with, returns. rewrite bind_unfold.
  destruct (f ctx r w) as [[[raw rawErr]|] w2]; simpl.
  - destruct (normalizeAtomic_returns svc ctx r raw rawErr w2) as (o & e & w3 & ->).
    by exists o, e, w3.
  - destruct (atomicUnknown_returns ctx r w2) as (c & w3 & H). exists (commandOnly r).
    eexists _, w3. split; [exact H|]. eauto.
Qed.

(** An atomic batch never panics, whatever the backend does: the call
    returns from every world, and when a dispatched backend call panics the
    answer is an unknown outcome for the caller's command, without decisions. *)
Theorem atomic_panic_is_unknown (service : option (StrictService W)) ctx r w :
  exists out err w', returns (AdmitAtomicBatch service ctx r) w (out, err) w' /\
    forall svc backend f ctx' w1,
      service = Some svc -> ss_backend svc = iface_of backend -> ss_name svc <> EmptyString ->
      ctx = iface_of ctx' -> AtomicBatchRequest_Validate r = None -> sb_atomic backend = Some f ->
      returns (strictCallerContext ctx') w None w1 -> (f ctx' r w1).1 = Panic ->
      out = commandOnly r /\ exists c, err = Some (UnknownOutcome c).
Proof.
  unfold AdmitAtomicBatch. destruct service as [svc|]; [|eexists _, _, _; by split].
  destruct (ss_backend svc) as [|b|b] eqn:Hb.
  { eexists _, _, _. split; [done|]. intros; simplify_eq; congruence. }
  all: case_bool_decide; [eexists _, _, _; split; [done|]; intros; simplify_eq; congruence|].
  all: destruct ctx as [|c|c]; try (eexists _, _, _; by split).
  all: destruct (AtomicBatchRequest_Validate r) eqn:Hv; [eexists _, _, _; by split|].
  all: destruct (strictCallerContext_total c w) as (caller & w1 & Hc).
  all: unfold returns at 1; setoid_rewrite bind_unfold; unfold returns in Hc; rewrite Hc.
  all: destruct caller; [eexists _, _, _; split; [done|]; intros; simplify_eq; congruence|].
  all: destruct (sb_atomic b) as [f|] eqn:Hf;
    [|eexists _, _, _; split; [done|]; intros; simplify_eq; congruence].
  all: destruct (recovered_command svc f c r w1) as (o & e & w2 & Hr & Hp);
    exists o, e, w2; split; [exact Hr|]; intros; simplify_eq;
    unfold returns in *; simplify_eq; congruence || (apply Hp; congruence).
Qed.
End AtomicTheorems.

(** ** A concrete command over two buckets *)
Module DemoAtomic.
Definition spec (id : string) : PolicySpec :=
  mkPolicySpec id "v1" TokenBucket 10 60000000000 2 2 FailClosed ConsistencyStrong 0.
Definition request (id : string) : Request :=
  mkRequest (policy_of (spec id)) (mkKey "http:v1:principal:x" "principal") 1
            (mkTime 1700000000000000000 UTC).
Definition command : AtomicBatchRequest :=
  mkAtomicBatchRequest "cmd-1" [request "user"; request "tenant"].
Definition backend : StrictBackend unit :=
  mkStrictBackend "demo" (fun _ _ => panic) None
    (Some (fun _ r => mret (mkAtomicBatchDecision (CommandID r) true [Demo.granted; Demo.granted], None))).
Definition broken : StrictBackend unit :=
  mkStrictBackend "demo" (fun _ _ => panic) None (Some (fun _ _ => panic)).
Definition service (b : StrictBackend unit) : StrictService unit :=
  mkStrictService (iface_of b) [] "demo".
End DemoAtomic.

