(* ===== verification/MemoryState.v ===== *)
(** * The per-key state of the in-memory backend and its algorithms
    (memory/store.go)

    [state] is the Go struct; an operation that mutates a [*state] returns the
    new one.  A nil map of leases is [None].  Ranging over a Go map visits the
    entries in an unspecified order; the loops here are folds over [map_to_list]
    or over the finite map, and their results do not depend on the order. *)

From S2P Require Import Prelude GoTime GoHash Errors Keys Policy.

Local Open Scope string_scope.
Local Open Scope Z_scope.

Definition slidingSegments : Z := 16.

Record segment := mkSegment { seg_index : Z; seg_used : Z }.
Definition zeroSegment : segment := mkSegment 0 0.

Record leaseState := mkLeaseState { ls_cost : Z; ls_expiresAt : Time }.

Abbreviation leaseMap := (gmap string leaseState).

Record state := mkState {
  st_revision : string;
  st_algorithm : Algorithm;
  lastSeen : Time;
  tokens : Z;
  remainder : Z;
  lastRefill : Time;
  windowStart : Z;
  windowPeriod : Duration;
  used : Z;
  segments : list segment;
  leases : option leaseMap
}.

(** Assignments to the fields of a state. *)
Definition setRevision (s : state) (r : string) : state :=
  mkState r (st_algorithm s) (lastSeen s) (tokens s) (remainder s) (lastRefill s) (windowStart s)
          (windowPeriod s) (used s) (segments s) (leases s).
Definition setLastSeen (s : state) (t : Time) : state :=
  mkState (st_revision s) (st_algorithm s) t (tokens s) (remainder s) (lastRefill s)
          (windowStart s) (windowPeriod s) (used s) (segments s) (leases s).
Definition setBucket (s : state) (tok rem : Z) (refilled : Time) : state :=
  mkState (st_revision s) (st_algorithm s) (lastSeen s) tok rem refilled (windowStart s)
          (windowPeriod s) (used s) (segments s) (leases s).
Definition setWindow (s : state) (start use : Z) : state :=
  mkState (st_revision s) (st_algorithm s) (lastSeen s) (tokens s) (remainder s) (lastRefill s)
          start (windowPeriod s) use (segments s) (leases s).
Definition setSegments (s : state) (segs : list segment) : state :=
  mkState (st_revision s) (st_algorithm s) (lastSeen s) (tokens s) (remainder s) (lastRefill s)
          (windowStart s) (windowPeriod s) (used s) segs (leases s).
Definition setLeases (s : state) (ls : leaseMap) : state :=
  mkState (st_revision s) (st_algorithm s) (lastSeen s) (tokens s) (remainder s) (lastRefill s)
          (windowStart s) (windowPeriod s) (used s) (segments s) (Some ls).

(** Reading a nil map is reading an empty one. *)
Definition leasesOf (s : state) : leaseMap := default ∅ (leases s).

(** ** Arithmetic helpers *)

Definition floorBoundary (value size : Z) : Z :=
  let quotient := value ÷ size in
  if Z.rem value size =? 0 then quotient *i size else
  let quotient := if Z.shiftr value 63 =? -1 then quotient -i 1 else quotient in
  quotient *i size.

Definition positiveMod (value modulus : Z) : Z :=
  let result := Z.rem value modulus in
  if result <? 0 then result +i modulus else result.

Definition nonnegative (duration : Duration) : Duration := Z.max duration 0.

(** ** Token bucket *)

Definition refill (current : state) (request : Request) : state :=
  let policy := req_Policy request in
  if negb (After (Now request) (lastRefill current)) then current else
  if tokens current =? Limit policy then setBucket current (tokens current) 0 (Now request) else
  let elapsed := u64 (Microseconds (Sub (Now request) (lastRefill current))) in
  let '(high, low) := Mul64 elapsed (capacity policy) in
  let '(low, carry) := Add64 low (remainder current) 0 in
  let '(high, _) := Add64 high carry 0 in
  let period := u64 (Microseconds (period policy)) in
  if period <=? high then setBucket current (Limit policy) 0 (Now request) else
  let '(added, rest) := Div64 high low period in
  let tok := Z.min (tokens current +u added) (Limit policy) in
  setBucket current tok (if tok =? Limit policy then 0 else rest) (Now request).

Definition refillDuration (tok rem : Z) (policy : Policy) : Duration :=
  if tok =? 0 then 0 else
  let '(high, low) := Mul64 tok (u64 (Microseconds (period policy))) in
  let '(low, borrow) := Sub64 low rem 0 in
  let '(high, _) := Sub64 high 0 borrow in
  let capacity := capacity policy in
  if capacity <=? high then MaxInt64 else
  let '(quotient, rest) := Div64 high low capacity in
  let quotient := if negb (rest =? 0) then quotient +u 1 else quotient in
  if u64 (MaxInt64 ÷ Microsecond) <? quotient then MaxInt64 else
  i64 quotient *i Microsecond.

Definition decision (allowed : bool) (limit remaining : Z) (reset : Time) (retry : Duration)
    (reason : Reason) : Decision :=
  mkDecision allowed remaining limit reset retry reason EmptyString EmptyString.

Definition admitToken (current : state) (request : Request) : Decision * option error * state :=
  let policy := req_Policy request in
  let current := refill current request in
  let limit := Limit policy in
  if tokens current <? Cost request then
    let retry := refillDuration (Cost request -u tokens current) (remainder current) policy in
    let reset := refillDuration (limit -u tokens current) (remainder current) policy in
    (decision false limit (tokens current) (Add (Now request) reset) retry ReasonLimited,
     Some (Sent ErrRejected), current)
  else
    let current := setBucket current (tokens current -u Cost request) (remainder current)
                             (lastRefill current) in
    let reset := refillDuration (limit -u tokens current) (remainder current) policy in
    (decision true limit (tokens current) (Add (Now request) reset) 0 ReasonAllowed, None, current).

(** ** Windows *)

Definition consumeWindow (current : state) (request : Request) (reset : Time)
    : Decision * option error * state :=
  let limit := Limit (req_Policy request) in
  let remaining := limit -u Z.min (used current) limit in
  if remaining <? Cost request then
    (decision false limit remaining reset (nonnegative (Sub reset (Now request))) ReasonLimited,
     Some (Sent ErrRejected), current)
  else
    let current := setWindow current (windowStart current) (used current +u Cost request) in
    (decision true limit (limit -u used current) reset 0 ReasonAllowed, None, current).

Definition admitFixed (current : state) (request : Request) : Decision * option error * state :=
  let period := period (req_Policy request) in
  let start := floorBoundary (UnixNano (Now request)) period in
  let current := if negb (windowStart current =? start) then setWindow current start 0 else current in
  let reset := ofUnixNano (start +i period) in
  consumeWindow current request reset.

(** The loop over the ring: drop expired segments, sum the live ones and find
    the earliest live one. *)
Fixpoint scanSegments (oldest : Z) (segs : list segment) (use earliest : Z)
    : list segment * Z * Z :=
  match segs with
  | [] => ([], use, earliest)
  | s :: rest =>
      if seg_index s <=? oldest then
        let '(rest, use, earliest) := scanSegments oldest rest use earliest in
        (zeroSegment :: rest, use, earliest)
      else
        let '(rest, use, earliest) :=
          scanSegments oldest rest (use +u seg_used s)
            (if negb (seg_used s =? 0) then Z.min earliest (seg_index s) else earliest) in
        (s :: rest, use, earliest)
  end.

Definition segmentSize (policy : Policy) : Z :=
  ((period policy +i slidingSegments) -i 1) ÷ slidingSegments.

Definition admitSliding (current : state) (request : Request) : Decision * option error * state :=
  let policy := req_Policy request in
  let size := segmentSize policy in
  let index := floorBoundary (UnixNano (Now request)) size ÷ size in
  let oldest := floorBoundary (UnixNano (Add (Now request) (i64 (- period policy)))) size ÷ size in
  let '(segs, use, earliest) := scanSegments oldest (segments current) 0 MaxInt64 in
  let slot := Z.to_nat (positiveMod index slidingSegments) in
  let segs := match segs !! slot with
              | Some s => if negb (seg_index s =? index) then <[slot := mkSegment index 0]> segs
                          else segs
              | None => segs
              end in
  let current := setWindow (setSegments current segs) (windowStart current) use in
  let reset := if negb (earliest =? MaxInt64)
               then Add (ofUnixNano ((earliest +i 1) *i size)) (period policy)
               else Add (Now request) (period policy) in
  let '(d, err, current) := consumeWindow current request reset in
  match err, segments current !! slot with
  | None, Some s =>
      (d, err, setSegments current
                 (<[slot := mkSegment (seg_index s) (seg_used s +u Cost request)]> (segments current)))
  | _, _ => (d, err, current)
  end.

(** ** Leases *)

Definition makeLease (request : LeaseRequest) (expiresAt : Time) : Lease :=
  let r := lr_Request request in
  mkLease (LeaseID request) (req_Key r) (id (req_Policy r)) (revision (req_Policy r)) (Cost r)
          expiresAt "memory".

Definition earliestLease (ls : leaseMap) : Time :=
  map_fold (fun _ l earliest =>
    if IsZero earliest || Before (ls_expiresAt l) earliest then ls_expiresAt l else earliest)
    zeroTime ls.

Definition hasActiveLease (ls : leaseMap) (now : Time) : bool :=
  existsb (fun kl => After (ls_expiresAt kl.2) now) (map_to_list ls).

(** The leases a loop with [delete] keeps: those that expire after [now]. *)
Definition liveLeases (now : Time) (ls : leaseMap) : leaseMap :=
  filter (fun kl => After (ls_expiresAt kl.2) now = true) ls.

Definition usedBy (ls : leaseMap) : Z := map_fold (fun _ l use => use +u ls_cost l) 0 ls.

(** Time never runs backwards for a key. *)
Definition clampNow (current : state) (request : Request) : Request :=
  if Before (Now request) (lastSeen current) then withNow request (lastSeen current) else request.

(** [acquireLocked] once the state is found: clamp the time, prune, then retry,
    reject or grant. *)
Definition acquireState (current : state) (request : LeaseRequest)
    : Lease * Decision * option error * state :=
  let r := clampNow current (lr_Request request) in
  let request := mkLeaseRequest r (LeaseID request) in
  let current := setLastSeen current (Now r) in
  let live := liveLeases (Now r) (leasesOf current) in
  let current := setLeases current live in
  let limit := Limit (req_Policy r) in
  let remaining := limit -u Z.min (usedBy live) limit in
  match live !! LeaseID request with
  | Some existing =>
      if negb (ls_cost existing =? Cost r)
      then (zeroLease, emptyDecision, Some (Sent ErrLeaseNotOwned), current)
      else (makeLease request (ls_expiresAt existing),
            decision true limit remaining (ls_expiresAt existing) 0 ReasonAllowed, None, current)
  | None =>
      if remaining <? Cost r then
        let reset := earliestLease live in
        (zeroLease,
         decision false limit remaining reset (nonnegative (Sub reset (Now r))) ReasonLimited,
         Some (Sent ErrRejected), current)
      else
        let expiresAt := Add (Now r) (lease (req_Policy r)) in
        (makeLease request expiresAt,
         decision true limit (remaining -u Cost r) expiresAt 0 ReasonAllowed, None,
         setLeases current (<[LeaseID request := mkLeaseState (Cost r) expiresAt]> live))
  end.

Definition releaseState (current : state) (l : Lease) : option error * state :=
  match leases current with
  | None => (Some (Sent ErrLeaseNotFound), current)
  | Some ls =>
      match ls !! lease_ID l with
      | None => (Some (Sent ErrLeaseNotFound), current)
      | Some existing =>
          if negb (ls_cost existing =? lease_Cost l) ||
             negb (Equal (ls_expiresAt existing) (ExpiresAt l))
          then (Some (Sent ErrLeaseNotOwned), current)
          else (None, setLeases current (delete (lease_ID l) ls))
      end
  end.

(** ** Creation and policy revisions *)

Definition newState (request : Request) : state :=
  let policy := req_Policy request in
  {| st_revision := revision policy; st_algorithm := algorithm policy;
     lastSeen := Now request; tokens := Limit policy; remainder := 0;
     lastRefill := Now request; windowStart := 0; windowPeriod := period policy; used := 0;
     segments := replicate 16 zeroSegment; leases := None |}.

Definition carryRevision (current : state) (request : Request) : state :=
  let policy := req_Policy request in
  let tok := if bool_decide (st_algorithm current = TokenBucket)
             then Z.min (tokens current) (Limit policy) else tokens current in
  setBucket (setRevision current (revision policy)) tok 0
    (if After (Now request) (lastRefill current) then Now request else lastRefill current).

(** ** One admission on an existing state

    The part of [admitLocked] after [getOrCreate]: the time is clamped and the
    algorithm of the policy decides. *)

Definition admitState (current : state) (request : Request) : Decision * option error * state :=
  let request := clampNow current request in
  let current := setLastSeen current (Now request) in
  if bool_decide (algorithm (req_Policy request) = TokenBucket) then admitToken current request else
  if bool_decide (algorithm (req_Policy request) = FixedWindow) then admitFixed current request else
  admitSliding current request.

(** A sequence of admissions on one key, with the instant each one took effect
    and the cost it was granted (0 when rejected). *)
Definition grant (d : Decision) (request : Request) : Z := if Allowed d then Cost request else 0.

Fixpoint runState (current : state) (requests : list Request) : list (Z * Z) * state :=
  match requests with
  | [] => ([], current)
  | request :: rest =>
      let '(d, _, next) := admitState current request in
      let '(log, final) := runState next rest in
      ((instant (lastSeen next), grant d request) :: log, final)
  end.

Definition granted (log : list (Z * Z)) : Z := foldr (fun e total => e.2 + total) 0 log.

Lemma clampNow_facts s r :
  req_Policy (clampNow s r) = req_Policy r /\ Cost (clampNow s r) = Cost r /\
  req_Key (clampNow s r) = req_Key r /\
  instant (Now (clampNow s r)) = Z.max (instant (lastSeen s)) (instant (Now r)).
Proof.
  unfold clampNow, Before. destruct (Z.ltb_spec (instant (Now r)) (instant (lastSeen s))); simpl;
    split_and!; try done; lia.
Qed.

Lemma consumeWindow_seen s r t d e s' :
  consumeWindow s r t = (d, e, s') -> lastSeen s' = lastSeen s.
Proof. unfold consumeWindow. case_match; by intros [= <- <- <-]. Qed.
