(* ===== verification/TokenBucket.v ===== *)
(** * The token bucket of the in-memory backend

    The double-word arithmetic of [refill] and [refillDuration] is related to an
    ideal bucket: a level counted in token-microseconds that grows by [capacity]
    per microsecond up to [limit * period].  The theorems are the rate bound over
    every history, the exactness of the reported retry and reset times, and a
    wrap-around that loses tokens. *)

From S2P Require Import Prelude GoTime GoHash Errors Keys Policy MemoryState.

Local Open Scope Z_scope.

(** ** The ideal bucket *)

Definition micros (t : Time) : Z := instant t / 1000.
Definition aligned (t : Time) : Prop := instant t mod 1000 = 0.
Definition period_micros (p : Policy) : Z := period p / 1000.

(** The level of a bucket, in units of 1 / period_micros token. *)
Definition level (p : Policy) (s : state) : Z := tokens s * period_micros p + remainder s.
Definition full_level (p : Policy) : Z := Limit p * period_micros p.

(** The ideal level after [dt] microseconds. *)
Definition ideal_refill (p : Policy) (v dt : Z) : Z := Z.min (v + dt * capacity p) (full_level p).

(** The invariant of a bucket under its policy. *)
Record wf_bucket (p : Policy) (s : state) : Prop := {
  bucket_tokens : 0 <= tokens s <= Limit p;
  bucket_remainder : 0 <= remainder s < period_micros p;
  bucket_full : tokens s = Limit p -> remainder s = 0;
  bucket_aligned : aligned (lastRefill s) /\ aligned (lastSeen s);
  bucket_seen : instant (lastRefill s) <= instant (lastSeen s)
}.

(** No refill from this state to this time exceeds the [uint64] sum. *)
Definition refill_fits (p : Policy) (s : state) (t : Time) : Prop :=
  instant t - instant (lastRefill s) <= MaxInt64 /\
  (micros t - micros (lastRefill s)) * capacity p + remainder s
    < (two64 - Limit p) * period_micros p.

Section Bucket.
Context (p : Policy).
Hypothesis Hwf : wf_policy p.
Hypothesis Hal : algorithm p = TokenBucket.

Lemma token_policy :
  1 <= capacity p /\ Limit p = capacity p + burst p /\ 0 <= burst p /\
  Limit p <= maxExactInteger /\ 1 <= period_micros p /\ period p = period_micros p * 1000 /\
  full_level p <= maxExactInteger /\ is_i64 (period p) /\ 1 <= maxCost p <= Limit p.
Proof.
  pose proof (Limit_wf p Hwf) as HL. destruct Hwf as [_ ? ? ? ? _ _ ? _ Halg].
  unfold full_level, period_micros. rewrite HL.
  destruct Halg as [(_ & Hp & Hm & Hb)|(Hc & _)]; [|by rewrite Hal in Hc].
  split_and!; try lia; try done; zlia.
Qed.

Lemma period_u64 : u64 (Microseconds (period p)) = period_micros p.
Proof.
  destruct token_policy as (_ & _ & _ & _ & ? & ? & _ & ? & _). apply u64_Microseconds; [done|lia].
Qed.

(** Elapsed time as the code computes it: saturated, never too long. *)
Definition elapsed (s : state) (t : Time) : Z := u64 (Microseconds (Sub t (lastRefill s))).

Lemma elapsed_bounds s t :
  instant (lastRefill s) < instant t ->
  0 <= elapsed s t < two63 /\
  (aligned t -> aligned (lastRefill s) -> elapsed s t <= micros t - micros (lastRefill s)) /\
  (aligned t -> aligned (lastRefill s) -> instant t - instant (lastRefill s) <= MaxInt64 ->
   elapsed s t = micros t - micros (lastRefill s)).
Proof.
  intros H. unfold elapsed, Sub, aligned, micros.
  set (d := instant t - instant (lastRefill s)).
  assert (Z.max (- two63) (Z.min MaxInt64 d) = Z.min MaxInt64 d) as -> by lia.
  rewrite Microseconds_nonneg by lia.
  rewrite u64_id by (unfold is_u64; zlia). subst d. split_and!; intros; zlia.
Qed.

(** The numbers of one refill: what [Mul64], [Add64] and [Div64] deliver. *)
Lemma refill_numbers e rem :
  0 <= e < two63 -> 0 <= rem < period_micros p ->
  exists hi lo,
    (let '(high, low) := Mul64 e (capacity p) in
     let '(low, carry) := Add64 low rem 0 in
     let '(high, _) := Add64 high carry 0 in (high, low)) = (hi, lo) /\
    hi * two64 + lo = e * capacity p + rem /\ is_u64 hi /\ is_u64 lo.
Proof.
  intros He Hr. destruct token_policy as (? & HL & ? & ? & ? & ? & Hf & _).
  assert (period_micros p <= maxExactInteger) by (unfold full_level in Hf; nia).
  pose proof (wide_add e (capacity p) rem) as Hw. unfold is_u64 in Hw.
  destruct (Mul64 e (capacity p)) as [high low]. destruct (Add64 low rem 0) as [low' carry].
  destruct (Add64 high carry 0) as [high' c']. exists high', low'. split; [done|].
  apply Hw; nia.
Qed.

(** [refill] on its only non-trivial path, in terms of the quotient. *)
Definition refilled (s : state) (t : Time) : Z * Z :=
  let v := elapsed s t * capacity p + remainder s in
  if two64 * period_micros p <=? v then (Limit p, 0) else
  let tok := Z.min (tokens s +u v / period_micros p) (Limit p) in
  (tok, if tok =? Limit p then 0 else v mod period_micros p).

Lemma refill_eq s r :
  req_Policy r = p -> wf_bucket p s -> instant (lastRefill s) < instant (Now r) ->
  tokens s <> Limit p ->
  refill s r = setBucket s (refilled s (Now r)).1 (refilled s (Now r)).2 (Now r).
Proof.
  intros Hp [Ht Hr _ _ _] Hlt Hne. unfold refill, refilled, After. rewrite Hp, period_u64.
  rewrite (proj2 (Z.ltb_lt _ _) Hlt), (proj2 (Z.eqb_neq _ _) Hne). cbn [negb].
  destruct (elapsed_bounds s (Now r) Hlt) as [He _]. fold (elapsed s (Now r)).
  destruct (refill_numbers (elapsed s (Now r)) (remainder s) He Hr) as (hi & lo & E & Hv & Hhi & Hlo).
  unfold is_u64 in *. destruct token_policy as (_ & _ & _ & _ & Hpm & _).
  destruct (Mul64 (elapsed s (Now r)) (capacity p)) as [high low].
  destruct (Add64 low (remainder s) 0) as [low' carry].
  destruct (Add64 high carry 0) as [high' c']. injection E as -> ->. unfold Div64. rewrite Hv.
  destruct (Z.leb_spec (period_micros p) hi) as [H1|H1];
    destruct (Z.leb_spec (two64 * period_micros p) (elapsed s (Now r) * capacity p + remainder s));
    try done; nia.
Qed.

(** The refilled pair is a well-formed bucket, never above the ideal level,
    and exactly at it unless the [uint64] sum wraps. *)
Lemma refilled_spec s t :
  wf_bucket p s -> tokens s <> Limit p -> 0 <= elapsed s t ->
  let '(tok, rest) := refilled s t in
  (0 <= tok <= Limit p /\ 0 <= rest < period_micros p /\ (tok = Limit p -> rest = 0)) /\
  tok * period_micros p + rest <= ideal_refill p (level p s) (elapsed s t) /\
  (elapsed s t * capacity p + remainder s < (two64 - Limit p) * period_micros p ->
   tok * period_micros p + rest = ideal_refill p (level p s) (elapsed s t)).
Proof.
  intros [Ht Hr _ _ _] Hne He. destruct token_policy as (Hc & HL & Hb & Hlim & Hpm & _).
  unfold refilled, ideal_refill, full_level, level.
  set (v := elapsed s t * capacity p + remainder s).
  assert (tokens s * period_micros p + remainder s + elapsed s t * capacity p
          = tokens s * period_micros p + v) as -> by lia.
  assert (0 <= v) by (unfold v; nia).
  destruct (Z.leb_spec (two64 * period_micros p) v).
  { split_and!; try lia; nia. }
  pose proof (Z.div_mod v (period_micros p) ltac:(lia)) as Hdm.
  pose proof (Z.mod_pos_bound v (period_micros p) ltac:(lia)) as Hm.
  assert (0 <= v / period_micros p < two64)
    by (split; [apply Z.div_pos; lia | apply Z.div_lt_upper_bound; lia]).
  set (q := v / period_micros p) in *. set (m := v mod period_micros p) in *.
  assert (tokens s +u q = tokens s + q /\ tokens s + q < two64 \/
          0 <= tokens s +u q < two64 /\ two64 <= tokens s + q) as Hu.
  { destruct (Z.lt_ge_cases (tokens s + q) two64); [left|right].
    - split; [apply u64_id; unfold is_u64; lia|done].
    - split; [apply u64_range|done]. }
  generalize dependent (tokens s +u q). intros x Hu.
  set (K := period_micros p) in *.
  pose proof (scale_le (Limit p) (tokens s + q) K ltac:(lia)) as Hover.
  pose proof (scale_le (x + 1) (Limit p) K ltac:(lia)) as Hunder.
  pose proof (scale_le (two64 - Limit p) q K ltac:(lia)) as Hwrap.
  destruct (Z.eqb_spec (Z.min x (Limit p)) (Limit p)) as [Hx|Hx];
    (split; [split_and!; lia|]); split; intros; lia.
Qed.

Lemma wf_level s : wf_bucket p s -> 0 <= level p s <= full_level p.
Proof.
  intros [Ht Hr Hf _ _]. destruct token_policy as (_ & _ & _ & _ & Hpm & _).
  unfold level, full_level. destruct (Z.eq_dec (tokens s) (Limit p)); nia.
Qed.

Lemma ideal_refill_mono v dt dt' : dt <= dt' -> ideal_refill p v dt <= ideal_refill p v dt'.
Proof.
  intros H. destruct token_policy as (Hc & _). unfold ideal_refill.
  assert (dt * capacity p <= dt' * capacity p) by (apply Z.mul_le_mono_nonneg_r; lia). lia.
Qed.

(** [refill] moves a well-formed bucket to the present without ever exceeding
    the ideal level. *)
Lemma refill_spec s r :
  wf_bucket p s -> req_Policy r = p -> aligned (Now r) -> instant (lastSeen s) = instant (Now r) ->
  let dt := micros (Now r) - micros (lastRefill s) in
  wf_bucket p (refill s r) /\ instant (lastRefill (refill s r)) = instant (Now r) /\
  lastSeen (refill s r) = lastSeen s /\
  level p (refill s r) <= ideal_refill p (level p s) dt /\
  (refill_fits p s (Now r) -> level p (refill s r) = ideal_refill p (level p s) dt).
Proof.
  intros Hs Hp Ha Hseen dt. pose proof (wf_level s Hs) as Hlev.
  destruct token_policy as (Hc & HL & Hb & Hlim & Hpm & _).
  pose proof Hs as [Ht Hr Hf [Hal' Hal''] Hle]. rewrite Hseen in Hle.
  destruct (Z.eq_dec (instant (lastRefill s)) (instant (Now r))) as [E|E].
  { unfold refill, After. rewrite (proj2 (Z.ltb_ge _ _)) by lia. simpl.
    assert (dt = 0) as -> by (unfold dt, micros; rewrite E; lia).
    unfold ideal_refill. split_and!; try done; intros; lia. }
  assert (instant (lastRefill s) < instant (Now r)) as Hlt by lia.
  destruct (elapsed_bounds s (Now r) Hlt) as (He & Hdt & Hex).
  specialize (Hdt Ha Hal'). specialize (Hex Ha Hal').
  destruct (Z.eq_dec (tokens s) (Limit p)) as [El|El].
  { unfold refill, After. rewrite (proj2 (Z.ltb_lt _ _) Hlt), Hp, El, Z.eqb_refl. simpl.
    assert (0 <= dt) by (unfold dt; lia).
    assert (level p s = full_level p) as -> by (unfold level, full_level; rewrite El, Hf; [lia|done]).
    assert (level p (setBucket s (Limit p) 0 (Now r)) = full_level p) as ->
      by (unfold level, full_level; simpl; lia).
    assert (ideal_refill p (full_level p) dt = full_level p) as -> by (unfold ideal_refill; nia).
    split_and!; try done. split; simpl; try done; lia. }
  rewrite (refill_eq s r) by done.
  pose proof (refilled_spec s (Now r) Hs El ltac:(lia)) as Hsp.
  destruct (refilled s (Now r)) as [tok rest]. destruct Hsp as ((? & ? & ?) & Hub & Heq).
  unfold setBucket, level; simpl. split_and!; try done.
  - split; simpl; try done; lia.
  - etrans; [exact Hub|]. by apply ideal_refill_mono.
  - intros [Hsat Hfit]. specialize (Hex Hsat). fold dt in Hex.
    rewrite Hex in Heq. apply Heq. exact Hfit.
Qed.

(** *** One admission *)

(** The requests of a history: under the policy, with a bounded cost and a
    microsecond time, as [Admit] hands them to the shard. *)
Definition bucket_request (r : Request) : Prop :=
  req_Policy r = p /\ 1 <= Cost r <= maxCost p /\ aligned (Now r).

(** The state just before the bucket is read. *)
Definition refreshed (s : state) (r : Request) : state :=
  refill (setLastSeen s (Now (clampNow s r))) (clampNow s r).

Lemma refreshed_spec s r :
  wf_bucket p s -> bucket_request r ->
  let now := Now (clampNow s r) in
  wf_bucket p (refreshed s r) /\ instant (lastRefill (refreshed s r)) = instant now /\
  lastSeen (refreshed s r) = now /\
  level p (refreshed s r) <= ideal_refill p (level p s) (micros now - micros (lastRefill s)) /\
  (refill_fits p s now ->
   level p (refreshed s r) = ideal_refill p (level p s) (micros now - micros (lastRefill s))).
Proof.
  intros Hs (Hp & _ & Ha) now. destruct (clampNow_facts s r) as (Hp' & _ & _ & Hn). fold now in Hn.
  assert (aligned now) as Hnow
    by (unfold now, clampNow; case_match; simpl; [apply Hs|done]).
  assert (wf_bucket p (setLastSeen s now)) as Hs' by (destruct Hs as [? ? ? []]; split; simpl; try done; lia).
  apply (refill_spec (setLastSeen s now) (clampNow s r)); try done. congruence.
Qed.

Lemma admitState_token s r :
  wf_bucket p s -> bucket_request r ->
  let s1 := refreshed s r in
  let now := Now (clampNow s r) in
  let rejected := tokens s1 <? Cost r in
  let s2 := if rejected then s1
            else setBucket s1 (tokens s1 - Cost r) (remainder s1) (lastRefill s1) in
  admitState s r =
    (if rejected
     then (decision false (Limit p) (tokens s1)
             (Add now (refillDuration (Limit p - tokens s1) (remainder s1) p))
             (refillDuration (Cost r - tokens s1) (remainder s1) p) ReasonLimited,
           Some (Sent ErrRejected), s2)
     else (decision true (Limit p) (tokens s1 - Cost r)
             (Add now (refillDuration (Limit p - (tokens s1 - Cost r)) (remainder s1) p))
             0 ReasonAllowed, None, s2)) /\
  wf_bucket p s2 /\ lastSeen s2 = now /\ instant (lastRefill s2) = instant now /\
  level p s2 = level p s1 - (if rejected then 0 else Cost r * period_micros p).
Proof.
  intros Hs Hr s1 now rejected s2.
  destruct (refreshed_spec s r Hs Hr) as (Hs1 & Hrefill & Hseen & _).
  fold s1 in Hs1, Hrefill, Hseen. fold now in Hrefill, Hseen.
  destruct Hr as (Hp & Hc & Ha). destruct (clampNow_facts s r) as (Hp' & Hc' & _ & Hn).
  destruct token_policy as (Hcap & HL & Hb & Hlim & Hpm & _ & _ & _ & Hm).
  pose proof Hs1 as [Ht Hrem Hf [Hal1 Hal2] Hle]. split.
  - unfold admitState. rewrite Hp', Hp, bool_decide_eq_true_2 by done. unfold admitToken.
    fold (refreshed s r). fold s1. rewrite Hp', Hp, Hc'. fold now.
    unfold s2, rejected. destruct (Z.ltb_spec (tokens s1) (Cost r)).
    + rewrite (u64_id (Cost r - _)), (u64_id (Limit p - _)) by (unfold is_u64; lia). done.
    + rewrite (u64_id (tokens s1 - _)) by (unfold is_u64; lia). simpl.
      rewrite (u64_id (Limit p - _)) by (unfold is_u64; lia). done.
  - unfold s2, rejected. destruct (Z.ltb_spec (tokens s1) (Cost r)).
    + split_and!; try done. lia.
    + split_and!; try done.
      * split; simpl; try done; lia.
      * unfold level; simpl. lia.
Qed.

(** *** Waiting times *)

(** [refillDuration] is the exact number of microseconds, rounded up, in which
    the missing level accrues; its saturating branches are unreachable. *)
Lemma refillDuration_exact tok rem :
  0 <= tok <= Limit p -> 0 <= rem < period_micros p -> (tok = 0 -> rem = 0) ->
  exists us, refillDuration tok rem p = us * 1000 /\ 0 <= us <= maxExactInteger /\
    forall dt, us <= dt <-> tok * period_micros p - rem <= dt * capacity p.
Proof.
  intros Ht Hr Hz. destruct token_policy as (Hc & HL & Hb & Hlim & Hpm & _ & Hfull & _ & _).
  unfold refillDuration. destruct (Z.eqb_spec tok 0) as [->|Hne].
  { exists 0. rewrite Hz by done. split_and!; try lia; intros; nia. }
  rewrite period_u64. unfold full_level in Hfull.
  assert (tok * period_micros p <= maxExactInteger) as Hprod by nia.
  assert (period_micros p <= maxExactInteger) by nia.
  pose proof (wide_sub tok (period_micros p) rem) as Hw. unfold is_u64 in Hw.
  destruct (Mul64 tok (period_micros p)) as [high low]. destruct (Sub64 low rem 0) as [low' borrow].
  destruct (Sub64 high 0 borrow) as [high' b']. destruct Hw as (Hv & Hhi & Hlo); [lia..|nia|].
  assert (high' = 0) as -> by lia.
  assert (low' = tok * period_micros p - rem) as -> by lia.
  destruct (Z.leb_spec (capacity p) 0); [lia|]. unfold Div64. rewrite Z.mul_0_l, Z.add_0_l.
  set (v := tok * period_micros p - rem) in *. assert (1 <= v <= maxExactInteger) as Hvr by nia.
  pose proof (Z.div_mod v (capacity p) ltac:(lia)) as Hdm.
  pose proof (Z.mod_pos_bound v (capacity p) ltac:(lia)) as Hm.
  set (q := v / capacity p) in *. assert (0 <= q <= v) by nia.
  rewrite (quot_nonneg MaxInt64 1000) by lia. change (u64 (MaxInt64 / 1000)) with 9223372036854775.
  destruct (Z.eqb_spec (v mod capacity p) 0) as [E|E]; cbn [negb].
  - destruct (Z.ltb_spec 9223372036854775 q); [lia|].
    rewrite (i64_id q), i64_id by (unfold is_i64; lia). exists q. split_and!; try lia; intros; nia.
  - assert (q + 1 <= v) by nia. rewrite (u64_id (q + 1)) by (unfold is_u64; lia).
    destruct (Z.ltb_spec 9223372036854775 (q + 1)); [lia|].
    rewrite (i64_id (q + 1)), i64_id by (unfold is_i64; lia).
    exists (q + 1). split_and!; try lia; intros; nia.
Qed.

(** A bucket grants a cost exactly when the ideal level covers it. *)
Lemma tokens_cover s c :
  wf_bucket p s -> (tokens s <? c) = negb (c * period_micros p <=? level p s).
Proof.
  intros [Ht Hr _ _ _]. unfold level.
  destruct (Z.ltb_spec (tokens s) c);
    destruct (Z.leb_spec (c * period_micros p) (tokens s * period_micros p + remainder s));
    try done; nia.
Qed.
End Bucket.

(** ** Histories *)

(** The ideal bucket: a level and the microsecond it was last brought up to. *)
Record ideal := mkIdeal { ideal_level : Z; ideal_at : Z }.

Definition ideal_of (p : Policy) (s : state) : ideal := mkIdeal (level p s) (micros (lastRefill s)).

(** One request of the ideal bucket: whether it is granted, and the new bucket. *)
Definition ideal_admit (p : Policy) (b : ideal) (now cost : Z) : bool * ideal :=
  let v := ideal_refill p (ideal_level b) (now - ideal_at b) in
  if cost * period_micros p <=? v then (true, mkIdeal (v - cost * period_micros p) now)
  else (false, mkIdeal v now).

Section Histories.
Context (p : Policy).
Hypothesis Hwf : wf_policy p.
Hypothesis Hal : algorithm p = TokenBucket.

Lemma micros_mono t u : instant t <= instant u -> micros t <= micros u.
Proof. unfold micros. intros. apply Z.div_le_mono; lia. Qed.

Lemma micros_eq t u : instant t = instant u -> micros t = micros u.
Proof. unfold micros. by intros ->. Qed.

Lemma token_step_bound s r d e s' :
  wf_bucket p s -> bucket_request p r -> admitState s r = (d, e, s') ->
  wf_bucket p s' /\ micros (lastRefill s') = micros (lastSeen s') /\
  instant (lastSeen s) <= instant (lastSeen s') /\
  grant d r * period_micros p + level p s'
    <= level p s + (micros (lastSeen s') - micros (lastRefill s)) * capacity p.
Proof.
  intros Hs Hr. destruct (admitState_token p Hwf Hal s r Hs Hr) as (-> & Hs2 & Hseen & Href & Hlev).
  destruct (refreshed_spec p Hwf Hal s r Hs Hr) as (_ & _ & _ & Hub & _).
  destruct (clampNow_facts s r) as (_ & _ & _ & Hn).
  set (s1 := refreshed s r) in *.
  unfold ideal_refill in Hub.
  destruct (tokens s1 <? Cost r); intros [= <- <- <-]; rewrite Hseen; split_and!;
    try done; try (by apply micros_eq); try lia; unfold grant; simpl; lia.
Qed.

Lemma token_run_bound rs : forall s,
  wf_bucket p s -> Forall (bucket_request p) rs ->
  wf_bucket p (runState s rs).2 /\
  granted (runState s rs).1 * period_micros p + level p (runState s rs).2
    <= level p s + (micros (lastSeen (runState s rs).2) - micros (lastRefill s)) * capacity p.
Proof.
  destruct (token_policy p Hwf Hal) as (Hc & _).
  induction rs as [|r rs IH]; intros s Hs Hrs; simpl.
  { split; [done|]. pose proof (micros_mono _ _ (bucket_seen _ _ Hs)). nia. }
  apply Forall_cons in Hrs as [Hr Hrs]. destruct (admitState s r) as [[d e] s'] eqn:E.
  destruct (token_step_bound s r d e s' Hs Hr E) as (Hs' & Href & Hmono & Hstep).
  specialize (IH s' Hs' Hrs). destruct (runState s' rs) as [log final]. simpl in *.
  destruct IH as [Hfin Hrun]. split; [done|]. rewrite Href in Hrun. nia.
Qed.

(** C1: the rate bound.  Over any history of requests on one bucket, in
    whatever order and with whatever clock readings they arrive, the granted
    tokens never exceed what the bucket held at the start plus
    capacity/period times the elapsed time; a bucket never holds more than the
    limit.  Wrapping arithmetic cannot break this bound. *)
Theorem token_bucket_rate_bound s rs :
  wf_bucket p s -> Forall (bucket_request p) rs ->
  let '(log, final) := runState s rs in
  granted log * period_micros p
    <= level p s + (micros (lastSeen final) - micros (lastRefill s)) * capacity p /\
  level p s <= Limit p * period_micros p /\ wf_bucket p final.
Proof.
  intros Hs Hrs. pose proof (token_run_bound rs s Hs Hrs) as [Hfin H].
  pose proof (wf_level p Hwf Hal _ Hs) as [_ Hfull].
  pose proof (wf_level p Hwf Hal _ Hfin) as [Hpos _].
  destruct (runState s rs) as [log final]. simpl in *. unfold full_level in Hfull.
  split_and!; [lia..|done].
Qed.

(** C2: refinement of the ideal bucket.  Whenever the refill does not wrap,
    one admission on the stored (tokens, remainder, lastRefill) triple makes
    the decision of the exact rational bucket, reports its whole tokens as
    [Remaining], and leaves a state that again represents the ideal bucket. *)
Theorem token_bucket_refines_ideal s r :
  wf_bucket p s -> bucket_request p r -> refill_fits p s (Now (clampNow s r)) ->
  let '(d, e, s') := admitState s r in
  let '(ok, b) := ideal_admit p (ideal_of p s) (micros (Now (clampNow s r))) (Cost r) in
  Allowed d = ok /\ (e = None <-> ok = true) /\ ideal_of p s' = b /\
  Remaining d = ideal_level b / period_micros p /\ wf_bucket p s'.
Proof.
  intros Hs Hr Hfit. destruct (admitState_token p Hwf Hal s r Hs Hr) as (-> & Hs2 & Hseen & Href & Hlev).
  destruct (refreshed_spec p Hwf Hal s r Hs Hr) as (Hs1 & _ & _ & _ & Hex). specialize (Hex Hfit).
  set (s1 := refreshed s r) in *. set (now := Now (clampNow s r)) in *.
  unfold ideal_admit, ideal_of. simpl. rewrite <- Hex.
  rewrite (tokens_cover p s1) in * by done.
  assert (forall s, wf_bucket p s -> tokens s = level p s / period_micros p) as Htok.
  { intros s0 [_ Hrem _ _ _]. unfold level.
    rewrite Z.div_add_l, (Z.div_small (remainder s0)) by lia. lia. }
  destruct (Cost r * period_micros p <=? level p s1) eqn:Hcov; simpl in *;
    (split_and!; [done | done | f_equal; first [lia | by apply micros_eq] | | done]).
  - rewrite <- Hlev. by rewrite <- (Htok _ Hs2).
  - by apply Htok.
Qed.

(** The refilled bucket when the [uint64] sum wraps. *)
Lemma refreshed_wrapped s r :
  wf_bucket p s -> bucket_request p r -> tokens s <> Limit p ->
  let now := Now (clampNow s r) in
  let added := ((micros now - micros (lastRefill s)) * capacity p + remainder s) / period_micros p in
  instant now - instant (lastRefill s) <= MaxInt64 -> added < two64 -> two64 <= tokens s + added < two64 + Cost r ->
  tokens (refreshed s r) = tokens s + added - two64.
Proof.
  intros Hs (Hp & Hcost & Ha) Hne now added Hsat Hadd Hwrap. pose proof Hs as [Ht Hrem Hf [Hal' Hal''] Hseen].
  destruct (token_policy p Hwf Hal) as (Hc & HL & Hb & Hlim & Hpm & _ & _ & _ & Hmax).
  destruct (clampNow_facts s r) as (Hp' & _ & _ & Hn). fold now in Hn.
  assert (aligned now) as Hnow by (unfold now, clampNow; case_match; simpl; done).
  assert (instant (lastRefill s) < instant now) as Hlt.
  { destruct (Z.lt_ge_cases (instant (lastRefill s)) (instant now)) as [|Hge]; [done|].
    assert (micros now <= micros (lastRefill s)) by (by apply micros_mono).
    assert (added < 1) by (unfold added; apply Z.div_lt_upper_bound; nia). lia. }
  unfold refreshed. fold now. rewrite (refill_eq p Hwf Hal); simpl; try done; [|congruence|split; simpl; try done; lia].
  destruct (elapsed_bounds (setLastSeen s now) now Hlt) as (_ & _ & He). fold now. unfold refilled.
  rewrite (He Hnow Hal' Hsat). cbn [lastRefill setLastSeen remainder tokens]. fold added.
  rewrite (proj2 (Z.leb_gt _ _)); [simpl|].
  - replace (tokens s +u added) with (tokens s + added - two64); [lia|].
    unfold u64. apply (Z.mod_unique _ _ 1); lia.
  - pose proof (Z.div_mod ((micros now - micros (lastRefill s)) * capacity p + remainder s) (period_micros p) ltac:(lia)) as Hdm.
    fold added in Hdm. pose proof (Z.mod_pos_bound ((micros now - micros (lastRefill s)) * capacity p + remainder s) (period_micros p) ltac:(lia)). nia.
Qed.

(** C34: the refill can wrap.  [refill] adds the accrued tokens to the stored
    ones in [uint64] before it clamps to the limit.  Whenever that sum reaches 2^64
    by less than the cost of the request, a bucket that is full by now refuses the
    request, and reports what is left of the sum modulo 2^64, although the ideal
    bucket grants it. *)
Theorem token_refill_wraps s r :
  wf_bucket p s -> bucket_request p r -> tokens s <> Limit p ->
  let now := Now (clampNow s r) in
  let added := ((micros now - micros (lastRefill s)) * capacity p + remainder s) / period_micros p in
  instant now - instant (lastRefill s) <= MaxInt64 -> added < two64 ->
  two64 <= tokens s + added < two64 + Cost r ->
  let '(d, e, _) := admitState s r in
  e = Some (Sent ErrRejected) /\ Allowed d = false /\ Remaining d = tokens s + added - two64 /\
  (ideal_admit p (ideal_of p s) (micros now) (Cost r)).1 = true.
Proof.
  intros Hs Hr Hne now added Hsat Hadd Hwrap. destruct (admitState_token p Hwf Hal s r Hs Hr) as (-> & _).
  pose proof Hr as (Hp & Hcost & Ha). pose proof Hs as [Ht Hrem _ [Hal' _] Hseen].
  destruct (token_policy p Hwf Hal) as (Hc & HL & Hb & Hlim & Hpm & _ & _ & _ & Hmax).
  assert (tokens (refreshed s r) = tokens s + added - two64) as Htok by (by apply refreshed_wrapped).
  rewrite Htok, (proj2 (Z.ltb_lt _ _)) by lia. split_and!; [done..|].
  unfold ideal_admit, ideal_of, ideal_refill. cbn [ideal_level ideal_at].
  assert (full_level p <= level p s + (micros now - micros (lastRefill s)) * capacity p) as Hfull.
  { unfold full_level, level. pose proof (Z.mul_div_le ((micros now - micros (lastRefill s)) * capacity p + remainder s) (period_micros p) ltac:(lia)) as Hd.
    fold added in Hd. nia. }
  rewrite Z.min_r by done. unfold full_level. rewrite (proj2 (Z.leb_le _ _)) by nia. done.
Qed.

(** Over a wait no longer than a full refill the sum cannot wrap. *)
Lemma short_wait_fits s t us tok :
  wf_bucket p s -> 0 <= tok <= Limit p -> us <= maxExactInteger ->
  (us <= 0 \/ (us - 1) * capacity p < tok * period_micros p - remainder s) ->
  aligned t -> instant (lastRefill s) <= instant t <= instant (lastRefill s) + us * 1000 ->
  refill_fits p s t.
Proof.
  intros [Ht Hr _ [Ha _] _] Htok Hus Hwait Hat Hi.
  destruct (token_policy p Hwf Hal) as (Hc & HL & Hb & Hlim & Hpm & _ & Hfull & _ & _).
  unfold refill_fits, full_level, aligned, micros in *.
  assert (instant t / 1000 - instant (lastRefill s) / 1000 <= us) as Hdt by zlia.
  assert (0 <= instant t / 1000 - instant (lastRefill s) / 1000) as Hdt0 by zlia.
  split; [lia|]. set (dt := instant t / 1000 - instant (lastRefill s) / 1000) in *.
  assert (dt * capacity p <= us * capacity p) by (apply Z.mul_le_mono_nonneg_r; lia).
  assert (tok * period_micros p <= Limit p * period_micros p) by (apply Z.mul_le_mono_nonneg_r; lia).
  assert ((two64 - maxExactInteger) * 1 <= (two64 - Limit p) * period_micros p)
    by (apply Z.mul_le_mono_nonneg; lia).
  assert (period_micros p <= Limit p * period_micros p) by nia.
  destruct Hwait; [assert (us * capacity p <= 0) by nia|]; lia.
Qed.

(** When a bucket brought up to the present reaches a target level. *)
Lemma wait_exact s tok us t :
  wf_bucket p s -> 0 <= tok <= Limit p -> (tokens s < tok \/ tok = Limit p) ->
  (forall dt, us <= dt <-> tok * period_micros p - level p s <= dt * capacity p) ->
  0 <= us <= maxExactInteger -> aligned t ->
  instant (lastRefill s) <= instant t <= instant (lastRefill s) + us * 1000 ->
  refill_fits p s t /\
  (tok * period_micros p <= ideal_refill p (level p s) (micros t - micros (lastRefill s)) <->
   instant t = instant (lastRefill s) + us * 1000).
Proof.
  intros Hs Htok Hlow Hus Hr Ha Hi. pose proof (wf_level p Hwf Hal s Hs) as Hlev.
  destruct (token_policy p Hwf Hal) as (Hc & HL & Hb & Hlim & Hpm & _ & Hfull & _ & _).
  pose proof Hs as [Ht Hrem _ [Ha' _] _]. split.
  - eapply (short_wait_fits s t us (tok - tokens s)); try done; [lia..|].
    destruct (Z.eq_dec us 0); [by left; lia|right].
    destruct (Z.lt_ge_cases ((us - 1) * capacity p) ((tok - tokens s) * period_micros p - remainder s)) as [|H];
      [done|]. exfalso. assert (us <= us - 1) by (apply Hus; unfold level; nia). lia.
  - unfold ideal_refill, full_level.
    assert (tok * period_micros p <= Limit p * period_micros p) by (apply Z.mul_le_mono_nonneg_r; lia).
    specialize (Hus (micros t - micros (lastRefill s))). unfold aligned, micros in *.
    split; intros H0.
    + assert (us <= instant t / 1000 - instant (lastRefill s) / 1000) by (apply Hus; lia). zlia.
    + assert (us <= instant t / 1000 - instant (lastRefill s) / 1000) as Hle by zlia.
      apply Hus in Hle. lia.
Qed.

Lemma clampNow_later s r : instant (lastSeen s) <= instant (Now r) -> clampNow s r = r.
Proof. intros H. unfold clampNow, Before. by rewrite (proj2 (Z.ltb_ge _ _) H). Qed.

Lemma refillDuration_wait s tok :
  wf_bucket p s -> tokens s <= tok <= Limit p -> (tok = Limit p \/ tokens s < tok) ->
  exists us, refillDuration (tok - tokens s) (remainder s) p = us * 1000 /\
    0 <= us <= maxExactInteger /\
    forall dt, us <= dt <-> tok * period_micros p - level p s <= dt * capacity p.
Proof.
  intros [Ht Hr Hf _ _] Htok Hcase.
  destruct (refillDuration_exact p Hwf Hal (tok - tokens s) (remainder s)) as (us & -> & Hus & Hdt).
  - lia.
  - done.
  - intros. apply Hf. lia.
  - exists us. split_and!; try lia. intros dt. rewrite Hdt. unfold level. lia.
Qed.

(** C27: the advertised wait is exact.  After a rejection, repeating the
    request at any microsecond up to [RetryAfter] later is granted at the end
    of that wait and at no earlier one. *)
Theorem token_retry_after_exact s r d s' r' :
  wf_bucket p s -> bucket_request p r -> admitState s r = (d, Some (Sent ErrRejected), s') ->
  bucket_request p r' -> Cost r' = Cost r ->
  instant (lastSeen s') <= instant (Now r') <= instant (lastSeen s') + RetryAfter d ->
  (Allowed (admitState s' r').1.1 = true <->
   instant (Now r') = instant (lastSeen s') + RetryAfter d).
Proof.
  intros Hs Hr E Hr' Hcost Hi.
  destruct (admitState_token p Hwf Hal s r Hs Hr) as (E' & Hs2 & Hseen & Href & _).
  rewrite E in E'. destruct (tokens (refreshed s r) <? Cost r) eqn:Hlt; [|discriminate].
  injection E' as -> ->. apply Z.ltb_lt in Hlt. set (s1 := refreshed s r) in *. simpl in Hi.
  destruct (token_policy p Hwf Hal) as (_ & _ & _ & _ & _ & _ & _ & _ & Hm).
  destruct Hr as (_ & Hc & _).
  destruct (refillDuration_wait s1 (Cost r) Hs2) as (us & Hd & Hus & Hdt); [lia|by right|].
  simpl. rewrite Hd in *. rewrite Hseen, <- Href in Hi.
  destruct (wait_exact s1 (Cost r) us (Now r') Hs2) as [Hfit Hiff]; try done; [lia|by left|apply Hr'|].
  destruct (admitState_token p Hwf Hal s1 r' Hs2 Hr') as (-> & _).
  destruct (refreshed_spec p Hwf Hal s1 r' Hs2 Hr') as (Hs3 & _ & _ & _ & Hex).
  rewrite clampNow_later in Hex by (rewrite Hseen; lia). specialize (Hex Hfit).
  rewrite Hseen, <- Href, <- Hiff, <- Hex, (tokens_cover p _ _ Hs3), Hcost.
  destruct (Z.leb_spec (Cost r * period_micros p) (level p (refreshed s1 r'))); simpl; split; try done; lia.
Qed.

(** The advertised [Reset] is exact, for granted and rejected requests
    alike: a bucket that is left alone is full again at [Reset] and at no
    earlier microsecond. *)
Theorem token_reset_exact s r d e s' r' :
  wf_bucket p s -> bucket_request p r -> admitState s r = (d, e, s') ->
  bucket_request p r' -> instant (lastSeen s') <= instant (Now r') <= instant (Reset d) ->
  (tokens (refreshed s' r') = Limit p <-> instant (Now r') = instant (Reset d)).
Proof.
  intros Hs Hr E Hr' Hi.
  destruct (admitState_token p Hwf Hal s r Hs Hr) as (E' & Hs2 & Hseen & Href & _).
  rewrite E in E'. set (s1 := refreshed s r) in *. set (now := Now (clampNow s r)) in *.
  assert (s' = (if tokens s1 <? Cost r then s1 else
            setBucket s1 (tokens s1 - Cost r) (remainder s1) (lastRefill s1)) /\
          Reset d = Add now (refillDuration (Limit p - tokens s') (remainder s') p)) as [Hs' Hreset]
    by (destruct (tokens s1 <? Cost r); injection E' as -> -> ->; done).
  rewrite <- Hs' in Hs2, Hseen, Href. rewrite Hreset in *. clear E' E Hreset Hs' s1.
  destruct (refillDuration_wait s' (Limit p) Hs2) as (us & Hd & Hus & Hdt);
    [destruct Hs2; lia|by left|]. unfold Add in *. simpl in *. rewrite Hd, <- Href in *.
  assert (0 <= Limit p <= Limit p) as HL by (destruct Hs2; lia).
  destruct (wait_exact s' (Limit p) us (Now r') Hs2) as [Hfit Hiff]; try done;
    [by right|apply Hr'|by rewrite Hseen in Hi; lia|].
  destruct (refreshed_spec p Hwf Hal s' r' Hs2 Hr') as (Hs3 & _ & _ & _ & Hex).
  rewrite clampNow_later in Hex by lia. specialize (Hex Hfit). rewrite <- Hiff, <- Hex.
  pose proof (wf_level p Hwf Hal _ Hs3) as Hlev. unfold full_level, level in *.
  destruct Hs3 as [Ht3 Hr3 Hf3 _ _]. split; [intros ->; lia|]. intros.
  destruct (Z.eq_dec (tokens (refreshed s' r')) (Limit p)); [done|nia].
Qed.
End Histories.

(** ** Concrete buckets *)

Module DemoBucket.
Definition p : Policy := policy_of quickstart.
Definition at_ (us cost : Z) : Request :=
  mkRequest p (mkKey "http:v1:principal:x" "principal") cost (mkTime (1700000000000000000 + us * 1000) UTC).
(** A fresh bucket of 12 tokens, emptied at once. *)
Definition fresh : state := newState (at_ 0 1).
Definition drained : state := (runState fresh (replicate 6 (at_ 0 2))).2.

(** 2^32 tokens per microsecond with a burst of 2^33. *)
Definition fast_spec : PolicySpec :=
  mkPolicySpec "fast" "v1" TokenBucket 4294967296 1000 8589934592 0 FailClosed EmptyString 0.
Definition fast (us cost : Z) : Request :=
  mkRequest (policy_of fast_spec) (mkKey "http:v1:principal:x" "principal") cost
            (mkTime (1700000000000000000 + us * 1000) UTC).
End DemoBucket.

Lemma fresh_wf r :
  wf_policy (req_Policy r) -> algorithm (req_Policy r) = TokenBucket -> aligned (Now r) ->
  wf_bucket (req_Policy r) (newState r).
Proof.
  intros Hwf Hal Ha. destruct (token_policy _ Hwf Hal) as (? & ? & ? & ? & ? & _).
  split; simpl; try done; lia.
Qed.

Lemma demo_fresh_wf : wf_bucket DemoBucket.p DemoBucket.fresh.
Proof. by apply (fresh_wf (DemoBucket.at_ 0 1)); [apply quickstart_wf | | vm_compute]. Qed.

Lemma demo_drained_wf : wf_bucket DemoBucket.p DemoBucket.drained.
Proof.
  apply (token_run_bound DemoBucket.p quickstart_wf eq_refl); [apply demo_fresh_wf|].
  apply Forall_replicate. by split_and!.
Qed.

(** A valid policy of 2^32 tokens per microsecond with a burst of 2^33: a bucket
    that still holds 2^32 + 5 tokens refuses a request of 6 tokens 72 minutes
    later. *)
Lemma token_refill_wraps_witness :
  let first := DemoBucket.fast 0 8589934587 in
  let second := DemoBucket.fast 4294967295 6 in
  let '(d, e, _) := admitState (admitState (newState first) first).2 second in
  e = Some (Sent ErrRejected) /\ Allowed d = false /\ Remaining d = 5 /\
  (ideal_admit (policy_of DemoBucket.fast_spec) (ideal_of (policy_of DemoBucket.fast_spec) (admitState (newState first) first).2)
     (micros (Now second)) 6).1 = true.
Proof.
  refine (token_refill_wraps (policy_of DemoBucket.fast_spec) _ eq_refl (admitState (newState (DemoBucket.fast 0 8589934587)) (DemoBucket.fast 0 8589934587)).2
    (DemoBucket.fast 4294967295 6) _ _ _ _ _ _).
  - apply (NewPolicy_wf_lemma DemoBucket.fast_spec); [split; vm_compute; split; discriminate || reflexivity|vm_compute; reflexivity].
  - split; vm_compute; repeat split; discriminate.
  - split_and!; [reflexivity|vm_compute; discriminate..|reflexivity].
  - vm_compute. discriminate.
  - vm_compute. discriminate.
  - vm_compute. reflexivity.
  - vm_compute. split; [discriminate|reflexivity].
Defined.

Lemma token_bucket_rate_bound_witness :
  let '(log, final) := runState DemoBucket.fresh (replicate 7 (DemoBucket.at_ 0 2)) in
  granted log * period_micros DemoBucket.p
    <= level DemoBucket.p DemoBucket.fresh
       + (micros (lastSeen final) - micros (lastRefill DemoBucket.fresh)) * capacity DemoBucket.p /\
  level DemoBucket.p DemoBucket.fresh <= Limit DemoBucket.p * period_micros DemoBucket.p /\
  wf_bucket DemoBucket.p final.
Proof.
  apply (token_bucket_rate_bound DemoBucket.p quickstart_wf eq_refl); [apply demo_fresh_wf|].
  apply Forall_replicate. by split_and!.
Defined.

Lemma token_bucket_refines_ideal_witness :
  let '(d, e, s') := admitState DemoBucket.drained (DemoBucket.at_ 6000000 1) in
  let '(ok, b) := ideal_admit DemoBucket.p (ideal_of DemoBucket.p DemoBucket.drained)
                    (micros (Now (clampNow DemoBucket.drained (DemoBucket.at_ 6000000 1)))) 1 in
  Allowed d = ok /\ (e = None <-> ok = true) /\ ideal_of DemoBucket.p s' = b /\
  Remaining d = ideal_level b / period_micros DemoBucket.p /\ wf_bucket DemoBucket.p s'.
Proof.
  apply (token_bucket_refines_ideal DemoBucket.p quickstart_wf eq_refl DemoBucket.drained
           (DemoBucket.at_ 6000000 1)); [apply demo_drained_wf | by split_and! |].
  split; vm_compute; [discriminate | reflexivity].
Defined.

(** A rejection of the drained bucket: 6 seconds to the next token. *)
Lemma demo_rejection :
  exists d s', admitState DemoBucket.drained (DemoBucket.at_ 0 1) = (d, Some (Sent ErrRejected), s') /\
    RetryAfter d = 6000000000 /\ instant (Reset d) = 1700000072000000000 /\
    instant (lastSeen s') = 1700000000000000000.
Proof. eexists _, _. split; [vm_compute; reflexivity|]. by vm_compute. Qed.

Lemma token_retry_after_exact_witness :
  exists s', Allowed (admitState s' (DemoBucket.at_ 6000000 1)).1.1 = true.
Proof.
  destruct demo_rejection as (d & s' & E & Hretry & _ & Hseen). exists s'.
  apply (token_retry_after_exact DemoBucket.p quickstart_wf eq_refl DemoBucket.drained
           (DemoBucket.at_ 0 1) d s' (DemoBucket.at_ 6000000 1));
    [apply demo_drained_wf | by split_and! | exact E | by split_and! | done | |];
    rewrite Hretry, Hseen; simpl; lia.
Defined.

Lemma token_reset_exact_witness :
  exists s', tokens (refreshed s' (DemoBucket.at_ 72000000 1)) = Limit DemoBucket.p.
Proof.
  destruct demo_rejection as (d & s' & E & _ & Hreset & Hseen). exists s'.
  apply (token_reset_exact DemoBucket.p quickstart_wf eq_refl DemoBucket.drained
           (DemoBucket.at_ 0 1) d (Some (Sent ErrRejected)) s' (DemoBucket.at_ 72000000 1));
    [apply demo_drained_wf | by split_and! | exact E | by split_and! | |];
    rewrite Hreset, ?Hseen; simpl; lia.
Defined.
