(* ===== verification/Windows.v ===== *)
(** * Fixed and sliding windows of the in-memory backend

    Both algorithms are related to the full history of grants.  A fixed window
    decides exactly by the grants of its window; the sliding window's ring of 16
    segments represents the grants of every segment that still counts, without
    ever overwriting one, and decides exactly by their sum. *)

From S2P Require Import Prelude GoTime GoHash Errors Keys Policy MemoryState.

Local Open Scope Z_scope.

(** ** Histories *)

(** The total granted in the entries that satisfy a test. *)
Definition granted_where (f : Z -> bool) (log : list (Z * Z)) : Z :=
  foldr (fun e total => (if f e.1 then e.2 else 0) + total) 0 log.

(** Grants in the slice [k] of width [size], and in the slices after [k]. *)
Definition granted_in (size k : Z) : list (Z * Z) -> Z := granted_where (fun i => i / size =? k).
Definition granted_after (size k : Z) : list (Z * Z) -> Z := granted_where (fun i => k <? i / size).

Lemma granted_where_snoc f log e :
  granted_where f (log ++ [e]) = granted_where f log + (if f e.1 then e.2 else 0).
Proof. unfold granted_where. induction log as [|x log IH]; simpl; lia. Qed.

Lemma granted_where_le f g log :
  Forall (fun e => 0 <= e.2) log ->
  Forall (fun e => f e.1 = true -> g e.1 = true) log ->
  granted_where f log <= granted_where g log.
Proof.
  unfold granted_where. induction 1 as [|e log He _ IH]; simpl; [lia|].
  intros [Hfg Hl]%Forall_cons. specialize (IH Hl).
  destruct (f e.1); [rewrite Hfg by done; lia|]. destruct (g e.1); lia.
Qed.

Lemma granted_where_none f log :
  Forall (fun e => f e.1 = false) log -> granted_where f log = 0.
Proof. unfold granted_where. induction 1 as [|e log He _ IH]; simpl; [lia|]. rewrite He, IH. lia. Qed.

(** ** Boundaries *)

(** [floorBoundary] is the mathematical floor, before the epoch as well. *)
Lemma floorBoundary_floor value size :
  is_i64 value -> 0 < size < two63 -> - two63 <= value - size ->
  floorBoundary value size = value / size * size.
Proof.
  unfold is_i64. intros Hv Hs Hlow. unfold floorBoundary.
  assert (Z.shiftr value 63 = if value <? 0 then -1 else 0) as ->.
  { rewrite Z.shiftr_div_pow2 by lia. change (2 ^ 63) with two63.
    destruct (Z.ltb_spec value 0); zlia. }
  pose proof (Z.div_mod value size ltac:(lia)) as Hdm.
  pose proof (Z.mod_pos_bound value size ltac:(lia)) as Hm.
  pose proof (Z.quot_rem' value size) as Hqr.
  assert (is_i64 (value / size * size)) as Hfit by (unfold is_i64; nia).
  destruct (Z.ltb_spec value 0) as [Hneg|Hpos].
  - assert (- size < Z.rem value size <= 0) as Hrem.
    { pose proof (Z.rem_bound_abs value size ltac:(lia)). pose proof (Z.rem_nonpos value size). lia. }
    destruct (Z.eqb_spec (Z.rem value size) 0) as [E|E].
    + assert (value ÷ size = value / size) as -> by nia. by apply i64_id.
    + assert (value ÷ size - 1 = value / size) as Hq by nia.
      simpl. rewrite Hq. rewrite (i64_id (value / size)) by (unfold is_i64; nia). by apply i64_id.
  - rewrite quot_nonneg by lia. destruct (Z.rem value size =? 0); by apply i64_id.
Qed.

Lemma positiveMod_mod value : positiveMod value 16 = value mod 16.
Proof.
  unfold positiveMod. destruct (Z.ltb_spec (Z.rem value 16) 0).
  - rewrite i64_id by (unfold is_i64; qlia). qlia.
  - qlia.
Qed.

(** The range of times in which a window algorithm computes without wrapping:
    from one period above the [int64] minimum to one below its maximum. *)
Definition window_time (p : Policy) (t : Time) : Prop :=
  - two63 + 2 * period p <= instant t /\ instant t + 2 * period p <= MaxInt64.

(** ** Consuming from a window *)

Lemma consumeWindow_spec s r reset :
  wf_policy (req_Policy r) -> 0 <= used s <= Limit (req_Policy r) ->
  1 <= Cost r <= maxCost (req_Policy r) ->
  let limit := Limit (req_Policy r) in
  consumeWindow s r reset =
    if limit <? used s + Cost r
    then (decision false limit (limit - used s) reset (nonnegative (Sub reset (Now r))) ReasonLimited,
          Some (Sent ErrRejected), s)
    else (decision true limit (limit - (used s + Cost r)) reset 0 ReasonAllowed, None,
          setWindow s (windowStart s) (used s + Cost r)).
Proof.
  intros Hwf Hu Hc limit. pose proof (Limit_wf _ Hwf) as HL.
  pose proof (wf_limit _ Hwf) as Hm. rewrite <- HL in Hm. fold limit in Hu, HL, Hm.
  unfold consumeWindow. fold limit. rewrite Z.min_l, (u64_id (limit - used s)) by (unfold is_u64; lia).
  destruct (Z.ltb_spec (limit - used s) (Cost r)); destruct (Z.ltb_spec limit (used s + Cost r)); try lia; [done|].
  rewrite (u64_id (used s + Cost r)) by (unfold is_u64; lia). simpl.
  rewrite (u64_id (limit - (used s + Cost r))) by (unfold is_u64; lia). done.
Qed.

(** A request of a window history. *)
Definition window_request (p : Policy) (r : Request) : Prop :=
  req_Policy r = p /\ 1 <= Cost r <= maxCost p /\ window_time p (Now r).

Lemma clamped_window p s r :
  window_request p r -> window_time p (lastSeen s) ->
  window_request p (clampNow s r) /\ instant (lastSeen s) <= instant (Now (clampNow s r)).
Proof.
  intros (Hp & Hc & Ht) Hs. destruct (clampNow_facts s r) as (Hp' & Hc' & _ & Hn).
  unfold window_request. rewrite Hp', Hc'. split; [|lia]. split_and!; try done.
  all: unfold window_time in *; lia.
Qed.

Section FixedWindow.
Context (p : Policy).
Hypothesis Hwf : wf_policy p.
Hypothesis Hal : algorithm p = FixedWindow.

(** The window an instant falls into. *)
Definition window_of (t : Time) : Z := instant t / period p.

(** What the state remembers of a window. *)
Definition window_use (s : state) (k : Z) : Z := if windowStart s =? k * period p then used s else 0.

(** The state represents the history: it is exact for the present and for
    every later window, and no window exceeded the limit. *)
Record fixed_rep (s : state) (log : list (Z * Z)) : Prop := {
  fixed_time : window_time p (lastSeen s);
  fixed_used : 0 <= used s <= Limit p;
  fixed_past : Forall (fun e => e.1 <= instant (lastSeen s)) log;
  fixed_exact : forall k, window_of (lastSeen s) <= k -> window_use s k = granted_in (period p) k log;
  fixed_bound : forall k, granted_in (period p) k log <= Limit p
}.

Lemma window_policy : 1000 <= period p < two63 /\ 0 <= Limit p /\ maxCost p <= Limit p.
Proof.
  pose proof (Limit_wf p Hwf) as HL. destruct Hwf as [_ ? ? ? ? _ _ [_ ?] _ Halg].
  destruct Halg as [(_ & Hp & _)|(Hc & _)]; [lia|]. by rewrite Hal in Hc.
Qed.

(** Recording a grant of the present window keeps the representation. *)
Lemma fixed_next s log s' now c :
  fixed_rep s log -> lastSeen s' = now -> window_time p now -> instant (lastSeen s) <= instant now ->
  let k := window_of now in
  let use := granted_in (period p) k log in
  windowStart s' = k * period p -> used s' = use + c -> 0 <= c -> 0 <= use -> use + c <= Limit p ->
  fixed_rep s' (log ++ [(instant now, c)]).
Proof.
  intros [Ht Hu Hpast Hex Hb] <- Ht' Hmono k use E2 E3 Hc Huse Hle.
  destruct window_policy as (Hper & _).
  assert (Forall (fun e => e.1 <= instant (lastSeen s')) log) as Hpast'
    by (eapply Forall_impl; [exact Hpast|]; simpl; lia).
  split; try done; try lia.
  - apply Forall_app. split; [done|]. by apply Forall_singleton.
  - intros k' Hk'. fold k in Hk'. unfold granted_in. rewrite granted_where_snoc. simpl.
    fold (window_of (lastSeen s')). fold k. unfold window_use. rewrite E2, E3.
    destruct (Z.eqb_spec k k') as [<-|Hne]; [by rewrite Z.eqb_refl|].
    rewrite (proj2 (Z.eqb_neq (k * period p) (k' * period p))) by nia.
    rewrite granted_where_none; [done|]. eapply Forall_impl; [exact Hpast'|]. intros e He.
    simpl in He. apply Z.eqb_neq.
    assert (e.1 / period p <= k) by (apply Z.div_le_mono; lia). lia.
  - intros k'. unfold granted_in. rewrite granted_where_snoc. simpl.
    fold (window_of (lastSeen s')). fold k. specialize (Hb k'). unfold granted_in in Hb.
    destruct (Z.eqb_spec k k') as [<-|]; [|lia]. unfold use, granted_in in Hle. lia.
Qed.

Lemma fixed_step s log r :
  fixed_rep s log -> window_request p r ->
  let now := Now (clampNow s r) in
  let k := window_of now in
  let use := granted_in (period p) k log in
  let '(d, e, s') := admitState s r in
  (Allowed d = true <-> use + Cost r <= Limit p) /\ (e = None <-> Allowed d = true) /\
  (Allowed d = false -> e = Some (Sent ErrRejected)) /\
  Remaining d = Limit p - (use + grant d r) /\ instant (Reset d) = (k + 1) * period p /\
  (Allowed d = false -> RetryAfter d = (k + 1) * period p - instant now) /\
  lastSeen s' = now /\ fixed_rep s' (log ++ [(instant now, grant d r)]).
Proof.
  intros Hrep Hr now k use. pose proof Hrep as [Ht Hu Hpast Hex Hb].
  destruct window_policy as (Hper & HL0 & Hmax).
  destruct (clamped_window p s r Hr Ht) as [(Hp' & Hc' & Ht') Hmono].
  destruct (clampNow_facts s r) as (_ & Hcost & _ & _).
  assert (window_of (lastSeen s) <= k) as Hk
    by (unfold k, window_of; apply Z.div_le_mono; [lia|exact Hmono]).
  fold now in Ht', Hmono. unfold window_time in Ht'.
  unfold admitState. fold now. rewrite Hp', Hal. cbn -[admitFixed].
  unfold admitFixed. rewrite Hp'.
  unfold UnixNano. fold now. rewrite (i64_id (instant now)) by (unfold is_i64; lia).
  rewrite floorBoundary_floor by (unfold is_i64; lia). fold (window_of now). fold k.
  set (s0 := if negb _ then _ else _).
  assert (used s0 = use /\ windowStart s0 = k * period p /\ lastSeen s0 = now) as (Hs0 & Hws & Hls).
  { unfold use. rewrite <- Hex by done. unfold s0, window_use, setLastSeen; simpl.
    destruct (Z.eqb_spec (windowStart s) (k * period p)); simpl; done. }
  assert (is_i64 (k * period p + period p)) as Hend by (unfold k, window_of, is_i64; zlia).
  rewrite (i64_id _ Hend).
  assert (0 <= use <= Limit p) as Huse.
  { split; [|apply Hb]. unfold use. rewrite <- Hex by done. unfold window_use. case_match; lia. }
  rewrite consumeWindow_spec; rewrite ?Hp', ?Hs0, ?Hcost; try done; [|by rewrite <- Hcost].
  assert (instant now < (k + 1) * period p <= instant now + period p) as Hreset
    by (unfold k, window_of; zlia).
  destruct Hr as (_ & Hc & _).
  destruct (Z.ltb_spec (Limit p) (use + Cost r)); unfold grant; simpl.
  - unfold nonnegative, Sub; simpl. fold now. split_and!; try done; try (intros; lia).
    apply (fixed_next s); try done; fold k; fold use; lia.
  - split_and!; try done; try (intros; lia).
    apply (fixed_next s); try done; fold k; fold use; simpl; lia.
Qed.

Lemma fixed_run rs : forall s log,
  fixed_rep s log -> Forall (window_request p) rs ->
  fixed_rep (runState s rs).2 (log ++ (runState s rs).1).
Proof.
  induction rs as [|r rs IH]; intros s log Hs Hrs; simpl; [by rewrite app_nil_r|].
  apply Forall_cons in Hrs as [Hr Hrs]. pose proof (fixed_step s log r Hs Hr) as H.
  destruct (admitState s r) as [[d e] s']. destruct H as (_ & _ & _ & _ & _ & _ & E & Hs').
  specialize (IH _ _ Hs' Hrs). destruct (runState s' rs) as [log' final]. simpl in *.
  by rewrite E, <- app_assoc in *.
Qed.

Lemma fixed_fresh r : req_Policy r = p -> window_time p (Now r) -> fixed_rep (newState r) [].
Proof.
  intros Hp Ht. destruct window_policy as (_ & HL & _). split; simpl; try done; try lia.
  intros k _. unfold window_use; simpl. by case_match.
Qed.

(** C3: a fixed window decides exactly by its own history.  Whatever requests
    came before, in whatever clock order, a request is granted if and only if
    the cost already granted in the window of its (clamped) time plus its own
    cost fits the limit; [Remaining], [Reset] and [RetryAfter] are exact; and
    no window, past or present, was ever granted more than the limit. *)
Theorem fixed_window_exact r0 rs r :
  window_request p r0 -> Forall (window_request p) rs -> window_request p r ->
  let '(log, s) := runState (newState r0) rs in
  let now := Now (clampNow s r) in
  let k := window_of now in
  let use := granted_in (period p) k log in
  let '(d, e, _) := admitState s r in
  (Allowed d = true <-> use + Cost r <= Limit p) /\
  (Allowed d = true <-> e = None) /\ (Allowed d = false <-> e = Some (Sent ErrRejected)) /\
  Remaining d = Limit p - (use + grant d r) /\
  instant (Reset d) = (k + 1) * period p /\
  (Allowed d = false -> RetryAfter d = (k + 1) * period p - instant now) /\
  forall k', granted_in (period p) k' log <= Limit p.
Proof.
  intros (Hp0 & _ & Ht0) Hrs Hr. pose proof (fixed_run rs _ _ (fixed_fresh r0 Hp0 Ht0) Hrs) as Hrep.
  destruct (runState (newState r0) rs) as [log s]. simpl in Hrep.
  pose proof (fixed_step s log r Hrep Hr) as H. destruct (admitState s r) as [[d e] s'].
  destruct H as (H1 & H2 & H3 & H4 & H5 & H6 & _). split_and!; try done.
  - destruct (Allowed d); split; intros Hd; try done; [|by auto].
    subst e. by specialize (proj2 H2 eq_refl).
  - apply (fixed_bound _ _ Hrep).
Qed.
End FixedWindow.
