(* ===== verification/SlidingWindow.v ===== *)
(** * The sliding window of the in-memory backend

    The ring of 16 segments against the full history of grants: the ring never
    overwrites a segment that still counts, its sum is the grants of the counted
    segments, and the decision is exact for them.  The counted segments span at
    least the period less one segment, and not the whole period. *)

From S2P Require Import Prelude GoTime GoHash Errors Keys Policy MemoryState Windows.

Local Open Scope Z_scope.

(** ** The ring *)

Definition contribution (o : Z) (g : segment) : Z := if o <? seg_index g then seg_used g else 0.
Definition ring_sum (o : Z) (segs : list segment) : Z :=
  foldr (fun g total => contribution o g + total) 0 segs.
Definition expire (o : Z) (g : segment) : segment := if seg_index g <=? o then zeroSegment else g.

Lemma ring_sum_nonneg o segs : Forall (fun g => 0 <= seg_used g) segs -> 0 <= ring_sum o segs.
Proof.
  induction 1 as [|g segs Hg _ IH]; simpl; [lia|]. unfold contribution. case_match; lia.
Qed.

Lemma ring_sum_insert o segs j g g' :
  segs !! j = Some g ->
  ring_sum o (<[j := g']> segs) = ring_sum o segs - contribution o g + contribution o g'.
Proof.
  revert j. induction segs as [|x segs IH]; intros [|j]; simpl; try done.
  - intros [= ->]. lia.
  - intros H. rewrite (IH j H). lia.
Qed.

Lemma ring_sum_expire o o' segs : o <= o' -> ring_sum o' (map (expire o) segs) = ring_sum o' segs.
Proof.
  intros H. induction segs as [|g segs IH]; simpl; [done|]. rewrite IH. f_equal.
  unfold expire, contribution. destruct (Z.leb_spec (seg_index g) o); [|done]. simpl.
  rewrite (proj2 (Z.ltb_ge o' (seg_index g))) by lia. by case_match.
Qed.

(** A segment that counts and holds a grant. *)
Definition counted (o : Z) (g : segment) : Prop := o < seg_index g /\ seg_used g <> 0.

(** [e'] is the earliest counted segment of [segs], starting from [e]. *)
Definition earliest_of (o : Z) (segs : list segment) (e e' : Z) : Prop :=
  e' <= e /\ (forall g, g ∈ segs -> counted o g -> e' <= seg_index g) /\
  (e' = e \/ exists g, g ∈ segs /\ counted o g /\ seg_index g = e').

Lemma earliest_skip o g segs e e' :
  ~ counted o g -> earliest_of o segs e e' -> earliest_of o (g :: segs) e e'.
Proof.
  intros Hg (Hle & Hall & Hex). split_and!; [done| |].
  - intros g' [->|Hin]%elem_of_cons Hc; [done|by apply Hall].
  - destruct Hex as [|(g' & Hin & ?)]; [by left|right]. exists g'. split; [by right|done].
Qed.

Lemma earliest_take o g segs e e' :
  counted o g -> earliest_of o segs (Z.min e (seg_index g)) e' -> earliest_of o (g :: segs) e e'.
Proof.
  intros Hg (Hle & Hall & Hex). split_and!; [lia| |].
  - intros g' [->|Hin]%elem_of_cons Hc; [lia|by apply Hall].
  - destruct Hex as [->|(g' & Hin & ?)].
    + destruct (Z.min_spec e (seg_index g)) as [[? ->]|[? ->]]; [by left|right].
      exists g. split; [by left|done].
    + right. exists g'. split; [by right|done].
Qed.

(** The loop of [admitSliding] expires, sums without wrapping, and finds the
    earliest counted segment. *)
Lemma scanSegments_spec o segs : forall use e,
  Forall (fun g => 0 <= seg_used g) segs -> 0 <= use -> use + ring_sum o segs < two64 ->
  exists e', scanSegments o segs use e = (map (expire o) segs, use + ring_sum o segs, e') /\
             earliest_of o segs e e'.
Proof.
  induction segs as [|g segs IH]; intros use e Hf Hu Hb; simpl in *.
  { exists e. rewrite Z.add_0_r. split; [done|]. split_and!; [lia| |by left].
    by intros g ?%elem_of_nil. }
  apply Forall_cons in Hf as [Hg Hf]. pose proof (ring_sum_nonneg o segs Hf).
  unfold expire, contribution in *. destruct (Z.leb_spec (seg_index g) o).
  - rewrite (proj2 (Z.ltb_ge o (seg_index g))) in * by lia.
    destruct (IH use e Hf) as (e' & -> & He); [lia..|]. exists e'. split; [done|].
    apply earliest_skip; [|done]. intros []; lia.
  - rewrite (proj2 (Z.ltb_lt o (seg_index g))) in * by lia.
    rewrite (u64_id (use + seg_used g)) by (unfold is_u64; lia).
    destruct (IH (use + seg_used g) (if negb (seg_used g =? 0) then Z.min e (seg_index g) else e) Hf)
      as (e' & -> & He); [lia..|]. exists e'. rewrite Z.add_assoc. split; [done|].
    destruct (Z.eqb_spec (seg_used g) 0); simpl in He.
    + apply earliest_skip; [by intros []|done].
    + by apply earliest_take.
Qed.

(** Comparing the sums of two thresholds. *)
Lemma ring_sum_le o o' segs :
  Forall (fun g => contribution o g <= contribution o' g) segs -> ring_sum o segs <= ring_sum o' segs.
Proof. induction 1; simpl; lia. Qed.

Lemma ring_sum_lt o o' segs g :
  Forall (fun g => contribution o g <= contribution o' g) segs ->
  g ∈ segs -> contribution o g < contribution o' g -> ring_sum o segs < ring_sum o' segs.
Proof.
  intros Hf Hin Hlt. induction Hf as [|x segs Hx Hf IH]; [by apply elem_of_nil in Hin|].
  apply elem_of_cons in Hin as [->|Hin]; simpl.
  - pose proof (ring_sum_le _ _ _ Hf). lia.
  - specialize (IH Hin). lia.
Qed.

Lemma ring_sum_positive o segs : 0 < ring_sum o segs -> exists g, g ∈ segs /\ counted o g.
Proof.
  induction segs as [|g segs IH]; simpl; [lia|]. unfold contribution.
  destruct (Z.ltb_spec o (seg_index g)); destruct (Z.eq_dec (seg_used g) 0);
    try (intros Hp; destruct IH as (g' & Hin & ?); [lia|]; exists g'; split; [by right|done]).
  intros _. exists g. split; [by left|done].
Qed.

(** If anything counts, the earliest segment found is the first with a grant. *)
Lemma earliest_counts o segs e :
  Forall (fun g => 0 <= seg_used g /\ (seg_used g = 0 \/ seg_index g < MaxInt64)) segs ->
  earliest_of o segs MaxInt64 e -> 0 < ring_sum o segs ->
  (exists g, g ∈ segs /\ counted o g /\ seg_index g = e) /\
  ring_sum o segs = ring_sum (e - 1) segs /\ ring_sum e segs < ring_sum (e - 1) segs.
Proof.
  intros Hf (Hle & Hall & Hex) Hpos.
  destruct Hex as [->|(g & Hin & [Ho Hu] & Hg)].
  { exfalso. destruct (ring_sum_positive _ _ Hpos) as (g & Hin & Hc). specialize (Hall g Hin Hc).
    rewrite Forall_forall in Hf. destruct (Hf g Hin) as [_ [|]]; [by destruct Hc|lia]. }
  rewrite Forall_forall in Hf. split; [by exists g|]. split.
  - apply Z.le_antisymm; apply ring_sum_le, Forall_forall; intros x Hx; destruct (Hf x Hx) as [? _];
      unfold contribution; destruct (Z.ltb_spec o (seg_index x));
      destruct (Z.ltb_spec (e - 1) (seg_index x)); try lia.
    destruct (Z.eq_dec (seg_used x) 0); [lia|]. specialize (Hall x Hx). unfold counted in Hall. lia.
  - apply (ring_sum_lt _ _ _ g); [|done|].
    + apply Forall_forall. intros x Hx. destruct (Hf x Hx) as [? _]. unfold contribution.
      destruct (Z.ltb_spec e (seg_index x)); destruct (Z.ltb_spec (e - 1) (seg_index x)); lia.
    + destruct (Hf g Hin) as [? _]. unfold contribution. subst e.
      rewrite (proj2 (Z.ltb_ge (seg_index g) (seg_index g))), (proj2 (Z.ltb_lt _ (seg_index g))) by lia. lia.
Qed.

Section Sliding.
Context (p : Policy).
Hypothesis Hwf : wf_policy p.
Hypothesis Hal : algorithm p = SlidingWindow.

Abbreviation size := (segmentSize p).
(** The segment of an instant, and the last segment that no longer counts. *)
Definition segment_of (i : Z) : Z := i / size.
Definition oldest_at (i : Z) : Z := (i - period p) / size.

Lemma sliding_policy :
  1000 <= period p <= maxExactInteger * 1000 + 999 /\ 0 <= Limit p < two64 /\ maxCost p <= Limit p /\
  1 <= size <= period p /\ period p <= 16 * size /\ 16 * size <= period p + 15.
Proof.
  pose proof (Limit_wf p Hwf) as HL. destruct Hwf as [_ ? ? ? ? _ _ ? _ Halg].
  destruct Halg as [(_ & Hp & _ & Hb)|(Hc & _)]; [|by rewrite Hal in Hc].
  assert (0 <= period p / 1000) by (apply Z.div_pos; lia).
  assert (period p / 1000 <= maxExactInteger) by nia.
  assert (period p <= maxExactInteger * 1000 + 999) by zlia.
  assert (size = (period p + 15) / 16) as ->.
  { unfold segmentSize, slidingSegments. rewrite (i64_id (period p + 16)), i64_id by (unfold is_i64; lia).
    rewrite quot_nonneg by lia. f_equal. lia. }
  split_and!; try lia; zlia.
Qed.

(** At most 16 segments count at any time. *)
Lemma live_span i : oldest_at i < segment_of i <= oldest_at i + 16.
Proof.
  destruct sliding_policy as (Hp & _ & _ & Hs & H16 & _). unfold oldest_at, segment_of. split.
  - apply Z.le_succ_l. rewrite <- Z.add_1_r.
    replace ((i - period p) / size + 1) with ((i - period p + 1 * size) / size)
      by (rewrite Z.div_add; lia). apply Z.div_le_mono; lia.
  - replace ((i - period p) / size + 16) with ((i - period p + 16 * size) / size)
      by (rewrite Z.div_add; lia). apply Z.div_le_mono; lia.
Qed.

Lemma oldest_mono i j : i <= j -> oldest_at i <= oldest_at j.
Proof.
  intros. destruct sliding_policy as (_ & _ & _ & Hs & _). unfold oldest_at. apply Z.div_le_mono; lia.
Qed.
Lemma segment_mono i j : i <= j -> segment_of i <= segment_of j.
Proof.
  intros. destruct sliding_policy as (_ & _ & _ & Hs & _). unfold segment_of. apply Z.div_le_mono; lia.
Qed.

(** A slot is empty or holds the segment of its residue, not later than [top]. *)
Definition slot_ok (top : Z) (j : nat) (g : segment) : Prop :=
  0 <= seg_used g /\ (seg_used g = 0 \/ seg_index g mod 16 = Z.of_nat j /\ seg_index g <= top).

(** The ring represents the history for every threshold that still matters. *)
Record ring_rep (now : Z) (segs : list segment) (log : list (Z * Z)) : Prop := {
  ring_length : length segs = 16%nat;
  ring_slots : forall j g, segs !! j = Some g -> slot_ok (segment_of now) j g;
  ring_exact : forall o, oldest_at now <= o -> ring_sum o segs = granted_after size o log
}.

Lemma ring_used now segs log : ring_rep now segs log -> Forall (fun g => 0 <= seg_used g) segs.
Proof. intros [_ Hs _]. apply Forall_lookup. intros j g H. by apply (Hs j g). Qed.

(** Expiring the segments that no longer count keeps the representation. *)
Lemma ring_expire now now' segs log :
  now <= now' -> ring_rep now segs log -> ring_rep now' (map (expire (oldest_at now')) segs) log.
Proof.
  intros H [Hl Hs He]. split.
  - by rewrite length_map.
  - intros j g Hj. rewrite list_lookup_fmap in Hj.
    destruct (segs !! j) as [g0|] eqn:Hg; simplify_eq/=. destruct (Hs j g0 Hg) as [Hu Hi].
    pose proof (segment_mono _ _ H). unfold slot_ok, expire. case_match; simpl; [lia|].
    split; [done|]. destruct Hi as [|[? ?]]; [by left|right; split; [done|lia]].
  - intros o Ho. rewrite ring_sum_expire by done. apply He. pose proof (oldest_mono _ _ H). lia.
Qed.

(** The slot of the present segment after expiry: it holds that segment, or
    nothing that counts.  This is where 16 slots are enough. *)
Lemma present_slot now segs log :
  ring_rep now segs log -> (forall g, g ∈ segs -> seg_used g <> 0 -> oldest_at now < seg_index g) ->
  exists g, segs !! Z.to_nat (segment_of now mod 16) = Some g /\
            (seg_index g = segment_of now \/ seg_used g = 0).
Proof.
  intros [Hl Hs _] Hlive. pose proof (Z.mod_pos_bound (segment_of now) 16 ltac:(lia)).
  destruct (lookup_lt_is_Some_2 segs (Z.to_nat (segment_of now mod 16))) as [g Hg]; [lia|].
  exists g. split; [done|]. destruct (Hs _ _ Hg) as [_ [H0|[Hm Htop]]]; [by right|].
  destruct (Z.eq_dec (seg_used g) 0) as [|Hne]; [by right|left].
  specialize (Hlive g (list_elem_of_lookup_2 _ _ _ Hg) Hne).
  pose proof (live_span now) as Hspan. rewrite Z2Nat.id in Hm by lia. zlia.
Qed.

Abbreviation slot now := (Z.to_nat (segment_of now mod 16)).

Lemma slot_residue now : segment_of now mod 16 = Z.of_nat (slot now).
Proof. rewrite Z2Nat.id; [done|]. apply Z.mod_pos_bound. lia. Qed.

(** Writing the present slot, with its segment and a sum that is right for
    the extended history. *)
Lemma ring_write now segs log g use c log' :
  ring_rep now segs log -> segs !! slot now = Some g ->
  (seg_index g = segment_of now \/ seg_used g = 0) -> use = seg_used g -> 0 <= c ->
  (forall o, granted_after size o log' =
             granted_after size o log + (if o <? segment_of now then c else 0)) ->
  ring_rep now (<[slot now := mkSegment (segment_of now) (use + c)]> segs) log'.
Proof.
  intros [Hl Hs He] Hg Hcase -> Hc Hlog. pose proof (Hs _ _ Hg) as [Hu _]. split.
  - by rewrite length_insert.
  - intros j g' Hj. destruct (decide (j = slot now)) as [->|Hne].
    + rewrite list_lookup_insert_eq in Hj by (by eapply lookup_lt_Some). injection Hj as <-.
      split; simpl; [lia|]. right. split; [apply slot_residue|lia].
    + rewrite list_lookup_insert_ne in Hj by done. by apply Hs.
  - intros o Ho. rewrite (ring_sum_insert o segs _ g) by done. rewrite He, Hlog by done.
    unfold contribution; simpl. destruct Hcase as [-> | ->]; repeat case_match; lia.
Qed.

(** *** The state *)

Record sliding_rep (s : state) (log : list (Z * Z)) : Prop := {
  sliding_time : window_time p (lastSeen s);
  sliding_ring : ring_rep (instant (lastSeen s)) (segments s) log;
  sliding_log : Forall (fun e => e.1 <= instant (lastSeen s) /\ 0 <= e.2) log;
  sliding_bound : granted_after size (oldest_at (instant (lastSeen s))) log <= Limit p
}.

Lemma granted_after_mono log o o' :
  Forall (fun e => 0 <= e.2) log -> o <= o' -> granted_after size o' log <= granted_after size o log.
Proof.
  intros Hf Ho. apply granted_where_le; [done|]. apply Forall_true. intros e.
  rewrite !Z.ltb_lt. lia.
Qed.

(** The numbers [admitSliding] computes, for a time in range. *)
Lemma sliding_index t :
  window_time p t -> floorBoundary (UnixNano t) size ÷ size = segment_of (instant t).
Proof.
  intros [Hlo Hhi]. destruct sliding_policy as (Hp & _ & _ & Hs & _).
  unfold UnixNano. rewrite i64_id by (unfold is_i64; lia).
  rewrite floorBoundary_floor by (unfold is_i64; lia). apply Z.quot_mul. lia.
Qed.

Lemma sliding_oldest t :
  window_time p t ->
  floorBoundary (UnixNano (Add t (i64 (- period p)))) size ÷ size = oldest_at (instant t).
Proof.
  intros [Hlo Hhi]. destruct sliding_policy as (Hp & _ & _ & Hs & _).
  rewrite (i64_id (- period p)) by (unfold is_i64; lia). unfold UnixNano, Add; simpl.
  rewrite i64_id by (unfold is_i64; lia).
  rewrite floorBoundary_floor by (unfold is_i64; lia). rewrite Z.quot_mul by lia.
  done.
Qed.

(** The ring after expiry and after the present slot is claimed. *)
Definition claimed (now : Z) (segs : list segment) : list segment :=
  match segs !! slot now with
  | Some g => if negb (seg_index g =? segment_of now)
              then <[slot now := mkSegment (segment_of now) 0]> segs else segs
  | None => segs
  end.

Lemma ring_claim now now' segs log :
  now <= now' -> ring_rep now segs log ->
  let segs' := claimed now' (map (expire (oldest_at now')) segs) in
  ring_rep now' segs' log /\
  exists g, segs' !! slot now' = Some g /\ seg_index g = segment_of now'.
Proof.
  intros H Hrep segs'. pose proof (ring_expire _ _ _ _ H Hrep) as Hexp.
  destruct (present_slot now' _ log Hexp) as (g & Hg & Hcase).
  { intros g Hin Hu. apply list_elem_of_fmap in Hin as (g0 & -> & _). revert Hu.
    unfold expire. destruct (Z.leb_spec (seg_index g0) (oldest_at now')); simpl; [done|lia]. }
  unfold segs', claimed. rewrite Hg. destruct (Z.eqb_spec (seg_index g) (segment_of now')) as [E|E]; simpl.
  { split; [done|]. eauto. }
  destruct Hcase as [|H0]; [done|]. split.
  - rewrite <- (Z.add_0_r 0). eapply ring_write; try done; [by right|].
    intros o. case_match; lia.
  - exists (mkSegment (segment_of now') 0). split; [|done].
    apply list_lookup_insert_eq. by eapply lookup_lt_Some.
Qed.

Lemma granted_after_snoc o log i c :
  granted_after size o (log ++ [(i, c)]) =
  granted_after size o log + (if o <? segment_of i then c else 0).
Proof. apply granted_where_snoc. Qed.

Lemma ring_rep_log now segs log log' :
  ring_rep now segs log ->
  (forall o, granted_after size o log' = granted_after size o log) -> ring_rep now segs log'.
Proof. intros [? ? He] H. split; try done. intros o Ho. rewrite H. by apply He. Qed.

Lemma ring_sum_member o segs j g :
  Forall (fun g => 0 <= seg_used g) segs -> segs !! j = Some g -> contribution o g <= ring_sum o segs.
Proof.
  intros Hf. revert j. induction Hf as [|x segs Hx Hf IH]; intros [|j]; simpl; try done.
  - intros [= ->]. pose proof (ring_sum_nonneg o segs Hf). lia.
  - intros H. specialize (IH j H). assert (0 <= contribution o x) by (unfold contribution; case_match; lia).
    lia.
Qed.

(** What the present slot holds is part of what counts. *)
Lemma ring_slot_bound now segs log j g :
  ring_rep now segs log -> segs !! j = Some g -> seg_index g = segment_of now ->
  seg_used g <= granted_after size (oldest_at now) log.
Proof.
  intros Hrep Hg Hi. rewrite <- (ring_exact _ _ _ Hrep) by lia.
  etrans; [|eapply ring_sum_member; [by eapply ring_used|exact Hg]].
  unfold contribution. rewrite Hi, (proj2 (Z.ltb_lt _ _)) by apply live_span. lia.
Qed.

Lemma sliding_next s log s' now c :
  sliding_rep s log -> lastSeen s' = now -> window_time p now -> instant (lastSeen s) <= instant now ->
  ring_rep (instant now) (segments s') (log ++ [(instant now, c)]) -> 0 <= c ->
  granted_after size (oldest_at (instant now)) log + c <= Limit p ->
  sliding_rep s' (log ++ [(instant now, c)]).
Proof.
  intros [Ht Hring Hlog Hb] <- Ht' Hmono Hring' Hc Hle. split; try done.
  - apply Forall_app. split; [|by apply Forall_singleton].
    eapply Forall_impl; [exact Hlog|]. simpl. lia.
  - rewrite granted_after_snoc. case_match; lia.
Qed.

(** The earliest counted segment of the ring is that of the history, and the
    reset computed from it does not wrap. *)
Lemma ring_earliest now now' segs log e :
  now <= now' -> ring_rep now segs log -> - two63 + 2 * period p <= now' ->
  now' + 2 * period p <= MaxInt64 ->
  earliest_of (oldest_at now') segs MaxInt64 e -> 0 < granted_after size (oldest_at now') log ->
  e <> MaxInt64 /\ is_i64 (e + 1) /\ is_i64 ((e + 1) * size) /\ e <= segment_of now' /\
  oldest_at now' < e /\
  granted_after size (oldest_at now') log = granted_after size (e - 1) log /\
  granted_after size e log < granted_after size (e - 1) log.
Proof.
  intros Hmono Hrep Hlo Hhi He Hpos. pose proof (oldest_mono _ _ Hmono) as Hom.
  destruct sliding_policy as (Hp & _ & _ & Hs & _). pose proof Hrep as [_ Hslots Hex].
  pose proof (segment_mono _ _ Hmono) as Hsm.
  assert (segment_of now' * size <= now' < segment_of now' * size + size) as Hseg
    by (unfold segment_of; zlia).
  assert (now' - period p < oldest_at now' * size + size) as Hold by (unfold oldest_at; zlia).
  assert (segment_of now' < MaxInt64) as Htop by nia.
  destruct (earliest_counts (oldest_at now') segs e) as ((g & Hin & [Ho Hu] & Hg) & H1 & H2); try done.
  { apply Forall_lookup. intros j g Hj. destruct (Hslots j g Hj) as [? [|[_ ?]]]; split; try lia. }
  { by rewrite Hex. }
  apply list_elem_of_lookup in Hin as [j Hj]. destruct (Hslots j g Hj) as [_ [|[_ Hle]]]; [done|].
  rewrite !Hex in H1, H2 by lia.
  pose proof (scale_le (oldest_at now' + 1) e size ltac:(lia) ltac:(lia)).
  assert (e * size <= segment_of now' * size) by (apply scale_le; lia).
  unfold is_i64. split_and!; try lia; try done; nia.
Qed.

(** What a rejection advertises: one period after the end of the first segment
    that counts. *)
Definition advertised (log : list (Z * Z)) (now : Z) (d : Decision) : Prop :=
  exists k, oldest_at now < k <= segment_of now /\
    granted_after size (oldest_at now) log = granted_after size (k - 1) log /\
    granted_after size k log < granted_after size (k - 1) log /\
    instant (Reset d) = (k + 1) * size + period p /\ RetryAfter d = instant (Reset d) - now.

Lemma advertised_reset log r k limit remaining reset :
  let now := instant (Now r) in
  - two63 + 2 * period p <= now -> now + 2 * period p <= MaxInt64 -> is_i64 (k + 1) -> is_i64 ((k + 1) * size) ->
  k <= segment_of now -> oldest_at now < k ->
  granted_after size (oldest_at now) log = granted_after size (k - 1) log ->
  granted_after size k log < granted_after size (k - 1) log ->
  reset = Add (ofUnixNano ((k +i 1) *i size)) (period p) ->
  advertised log now
    (decision false limit remaining reset (nonnegative (Sub reset (Now r))) ReasonLimited).
Proof.
  intros now Hlo Hhi H1 H2 Htop Hlow Hsame Hless ->. exists k. rewrite (i64_id _ H1), (i64_id _ H2).
  destruct sliding_policy as (Hp & _ & _ & Hs & _).
  assert (segment_of now * size <= now) by (unfold segment_of; zlia).
  assert (now - period p < oldest_at now * size + size) by (unfold oldest_at; zlia).
  unfold nonnegative, Sub, decision; simpl. fold now. split_and!; try done.
  assert (oldest_at now * size + size <= k * size <= segment_of now * size) by nia. lia.
Qed.

Lemma sliding_step s log r :
  sliding_rep s log -> window_request p r ->
  let now := instant (Now (clampNow s r)) in
  let use := granted_after size (oldest_at now) log in
  let '(d, e, s') := admitState s r in
  (Allowed d = true <-> use + Cost r <= Limit p) /\ (Allowed d = true <-> e = None) /\
  Remaining d = Limit p - (use + grant d r) /\ (Allowed d = false -> advertised log now d) /\
  lastSeen s' = Now (clampNow s r) /\ sliding_rep s' (log ++ [(now, grant d r)]).
Proof.
  intros Hrep Hr now use. pose proof Hrep as [Ht Hring Hlog Hb]. destruct sliding_policy as (Hp & HL & Hmax & _).
  destruct (clamped_window p s r Hr Ht) as [(Hp' & Hc' & Ht') Hmono].
  destruct (clampNow_facts s r) as (_ & Hcost & _ & _).
  unfold admitState. rewrite Hp', Hal. cbn -[admitSliding]. unfold admitSliding.
  rewrite Hp', (sliding_index _ Ht'), (sliding_oldest _ Ht'). simpl segments. fold now.
  assert (Forall (fun e => 0 <= e.2) log) as Hnonneg by (eapply Forall_impl; [exact Hlog|]; simpl; lia).
  assert (0 <= use <= Limit p) as Huse.
  { split; [|etrans; [|exact Hb]; apply granted_after_mono; [done|by apply oldest_mono]].
    unfold use. rewrite <- (ring_exact _ _ _ Hring) by (by apply oldest_mono).
    apply ring_sum_nonneg. by eapply ring_used. }
  assert (ring_sum (oldest_at now) (segments s) = use) as Hsum
    by (apply (ring_exact _ _ _ Hring); by apply oldest_mono).
  destruct (scanSegments_spec (oldest_at now) (segments s) 0 MaxInt64) as (earliest & -> & Hearliest);
    [by eapply ring_used|lia|lia|]. rewrite Hsum, Z.add_0_l.
  unfold slidingSegments. rewrite positiveMod_mod.
  fold (claimed now (map (expire (oldest_at now)) (segments s))).
  destruct (ring_claim _ now (segments s) log Hmono Hring) as (Hclaim & g & Hg & Hidx).
  set (segs := claimed now (map (expire (oldest_at now)) (segments s))) in *.
  rewrite consumeWindow_spec; simpl; rewrite ?Hp', ?Hcost; try done; try lia.
  assert (1 <= Cost r) as Hc by (destruct Hr as (_ & ? & _); lia).
  destruct (Z.ltb_spec (Limit p) (use + Cost r)) as [Hover|Hfit]; simpl; rewrite ?Hg; simpl;
    (split; [split; intros; (done || lia)|]); split_and!; try done; try (unfold grant; simpl; lia);
    unfold grant; simpl.
  - intros _. destruct Ht' as [Hlo Hhi].
    destruct (ring_earliest (instant (lastSeen s)) now (segments s) log earliest)
      as (Hne & Hi1 & Hi2 & Htop & Hlow & Hsame & Hless); try done; [lia|].
    eapply advertised_reset; try done. by rewrite (proj2 (Z.eqb_neq _ _) Hne).
  - apply (sliding_next s); try done; simpl; fold now; fold use; try lia.
    eapply ring_rep_log; [exact Hclaim|]. intros o. rewrite granted_after_snoc. by case_match; lia.
  - apply (sliding_next s); try done; simpl; fold now; fold use; try lia.
    rewrite Hidx, u64_id.
    + eapply ring_write; try done; [by left|lia|]. intros o. apply granted_after_snoc.
    + pose proof (ring_slot_bound _ _ _ _ _ Hclaim Hg Hidx). fold use in H. 
      pose proof (ring_slots _ _ _ Hclaim _ _ Hg) as [? _]. unfold is_u64. lia.
Qed.

(** *** Spans *)

(** No span of the period less one segment was granted more than the limit. *)
Definition spans_ok (log : list (Z * Z)) : Prop :=
  forall t, granted_where (fun i => (t - (period p - size) <? i) && (i <=? t)) log <= Limit p.

Lemma spans_snoc s log c :
  spans_ok log -> sliding_rep s (log ++ [(instant (lastSeen s), c)]) ->
  spans_ok (log ++ [(instant (lastSeen s), c)]).
Proof.
  intros Hok [_ _ Hlog Hb] t. destruct (Z.lt_ge_cases t (instant (lastSeen s))) as [Hlt|Hge].
  - rewrite granted_where_snoc. simpl. rewrite (proj2 (Z.leb_gt _ t)) by lia.
    rewrite andb_false_r, Z.add_0_r. apply Hok.
  - etrans; [|exact Hb]. destruct sliding_policy as (_ & _ & _ & Hs & _). apply granted_where_le.
    + eapply Forall_impl; [exact Hlog|]. simpl. lia.
    + apply Forall_true. intros e [He _]%andb_true_iff. apply Z.ltb_lt in He. apply Z.ltb_lt.
      unfold oldest_at. apply Z.lt_le_trans with ((instant (lastSeen s) - period p + 1 * size) / size).
      * rewrite Z.div_add by lia. lia.
      * apply Z.div_le_mono; lia.
Qed.

Lemma sliding_run rs : forall s log,
  sliding_rep s log -> spans_ok log -> Forall (window_request p) rs ->
  sliding_rep (runState s rs).2 (log ++ (runState s rs).1) /\ spans_ok (log ++ (runState s rs).1).
Proof.
  induction rs as [|r rs IH]; intros s log Hs Hok Hrs; simpl; [by rewrite app_nil_r|].
  apply Forall_cons in Hrs as [Hr Hrs]. pose proof (sliding_step s log r Hs Hr) as H.
  destruct (admitState s r) as [[d e] s']. destruct H as (_ & _ & _ & _ & E & Hs'). rewrite <- E in Hs'.
  specialize (IH _ _ Hs' (spans_snoc _ _ _ Hok Hs') Hrs).
  destruct (runState s' rs) as [log' final]. simpl in *. by rewrite <- app_assoc in IH.
Qed.

Lemma sliding_fresh r : req_Policy r = p -> window_time p (Now r) -> sliding_rep (newState r) [].
Proof.
  intros Hp Ht. destruct sliding_policy as (_ & HL & _). split; simpl; try done; [|lia].
  split; try done.
  - intros j g Hj. change (replicate 16 zeroSegment !! j = Some g) in Hj.
    apply lookup_replicate in Hj as [-> _]. split; simpl; [lia|by left].
  - intros o _. unfold ring_sum, contribution; simpl. by destruct (o <? 0).
Qed.

(** C4: the ring of 16 segments decides exactly by the history.  Whatever
    requests came before, a request is granted if and only if the cost granted
    in the segments that still count plus its own cost fits the limit, and
    [Remaining] is exact: no counted segment is ever overwritten.  A rejection
    advertises one period after the end of the first segment with a counted
    grant.  Over the whole history no span of the period less one segment was granted more than
    the limit. *)
Theorem sliding_window_exact r0 rs r :
  window_request p r0 -> Forall (window_request p) rs -> window_request p r ->
  let '(log, s) := runState (newState r0) rs in
  let now := instant (Now (clampNow s r)) in
  let use := granted_after size (oldest_at now) log in
  let '(d, e, _) := admitState s r in
  (Allowed d = true <-> use + Cost r <= Limit p) /\ (Allowed d = true <-> e = None) /\
  Remaining d = Limit p - (use + grant d r) /\ (Allowed d = false -> advertised log now d) /\
  forall t, granted_where (fun i => (t - (period p - size) <? i) && (i <=? t)) log <= Limit p.
Proof.
  intros (Hp0 & _ & Ht0) Hrs Hr. destruct sliding_policy as (_ & HL & _).
  destruct (sliding_run rs _ _ (sliding_fresh r0 Hp0 Ht0)) as [Hrep Hspans];
    [by intros t; apply HL | done |].
  destruct (runState (newState r0) rs) as [log s]. simpl in Hrep, Hspans.
  pose proof (sliding_step s log r Hrep Hr) as H. destruct (admitState s r) as [[d e] s'].
  destruct H as (H1 & H2 & H3 & H4 & _). split_and!; try done; apply H2.
Qed.
End Sliding.

(** ** Concrete windows *)

Module DemoWindow.
Definition spec (algorithm : Algorithm) : PolicySpec :=
  mkPolicySpec "window" "v1" algorithm 5 160000 0 0 FailClosed EmptyString 0.
Definition p (algorithm : Algorithm) : Policy := policy_of (spec algorithm).
Definition at_ (algorithm : Algorithm) (us cost : Z) : Request :=
  mkRequest (p algorithm) (mkKey "http:v1:principal:x" "principal") cost
            (mkTime (1700000000000000000 + us * 1000) UTC).
End DemoWindow.

(** The window that slides is shorter than the period.  With a period of
    160 microseconds (16 segments of 10), the whole limit is granted at 9 and
    again at 160 microseconds, 151 microseconds apart, although a rejection in
    between advertises 170 as the earliest retry: a segment stops counting as
    soon as the window's start enters it. *)
Theorem sliding_window_admits_twice_in_a_period :
  NewPolicy (DemoWindow.spec SlidingWindow) = Ok (DemoWindow.p SlidingWindow) /\
  let at_ := DemoWindow.at_ SlidingWindow in
  (runState (newState (at_ 9 5)) [at_ 9 5; at_ 100 1; at_ 160 5]).1 =
    [(instant (Now (at_ 9 5)), 5); (instant (Now (at_ 100 1)), 0); (instant (Now (at_ 160 5)), 5)] /\
  instant (Now (at_ 160 5)) - instant (Now (at_ 9 5)) < period (DemoWindow.p SlidingWindow) /\
  instant (Reset (admitState (runState (newState (at_ 9 5)) [at_ 9 5]).2 (at_ 100 1)).1.1) =
    instant (Now (at_ 170 1)).
Proof. vm_compute. repeat split. Qed.

Lemma demo_window_wf a :
  a = FixedWindow \/ a = SlidingWindow -> wf_policy (DemoWindow.p a).
Proof.
  intros Ha. apply (NewPolicy_wf_lemma (DemoWindow.spec a));
    [split; vm_compute; split; discriminate || reflexivity|].
  by destruct Ha as [-> | ->]; vm_compute.
Qed.

Lemma demo_window_request a us c :
  0 <= us <= 1000 -> 1 <= c <= 5 -> window_request (DemoWindow.p a) (DemoWindow.at_ a us c).
Proof. intros Hu Hc. split_and!; try done; unfold window_time; simpl; lia. Qed.

Lemma fixed_window_exact_witness :
  let at_ := DemoWindow.at_ FixedWindow in
  let '(log, s) := runState (newState (at_ 0 5)) [at_ 0 5; at_ 100 1] in
  let '(d, e, _) := admitState s (at_ 160 5) in
  (Allowed d = true <-> e = None) /\ forall k, granted_in 160000 k log <= 5.
Proof.
  pose proof (fixed_window_exact (DemoWindow.p FixedWindow)
    (demo_window_wf _ (or_introl eq_refl)) eq_refl (DemoWindow.at_ FixedWindow 0 5)
    [DemoWindow.at_ FixedWindow 0 5; DemoWindow.at_ FixedWindow 100 1]
    (DemoWindow.at_ FixedWindow 160 5)) as H.
  cbv zeta. destruct (runState _ _) as [log s].
  destruct (admitState s _) as [[d e] s'] in H |- *.
  destruct H as (_ & He & _ & _ & _ & _ & Hb).
  - by apply demo_window_request.
  - repeat (apply Forall_cons; split; [by apply demo_window_request|]). by apply Forall_nil.
  - by apply demo_window_request.
  - exact (conj He Hb).
Defined.

Lemma sliding_window_exact_witness :
  let at_ := DemoWindow.at_ SlidingWindow in
  let '(log, s) := runState (newState (at_ 0 5)) [at_ 0 5; at_ 100 1] in
  let '(d, e, _) := admitState s (at_ 160 5) in Allowed d = true <-> e = None.
Proof.
  pose proof (sliding_window_exact (DemoWindow.p SlidingWindow)
    (demo_window_wf _ (or_intror eq_refl)) eq_refl (DemoWindow.at_ SlidingWindow 0 5)
    [DemoWindow.at_ SlidingWindow 0 5; DemoWindow.at_ SlidingWindow 100 1]
    (DemoWindow.at_ SlidingWindow 160 5)) as H.
  cbv zeta. destruct (runState _ _) as [log s].
  destruct (admitState s _) as [[d e] s'] in H |- *.
  destruct H as (_ & He & _).
  - by apply demo_window_request.
  - repeat (apply Forall_cons; split; [by apply demo_window_request|]). by apply Forall_nil.
  - by apply demo_window_request.
  - exact He.
Defined.
