(* ===== verification/MemoryLeases.v ===== *)
(** * Concurrency leases of the in-memory backend

    [acquireState] and [releaseState] against the weights of the leases they
    keep: the capacity invariant over every sequence of operations, the exact
    acquisition condition, idempotent retries, and the acquire/release round
    trip. *)

From S2P Require Import Prelude GoTime GoHash Errors Keys Policy MemoryState.

Local Open Scope Z_scope.

(** ** Weights *)

Definition weight (ls : leaseMap) : Z := map_fold (fun _ l total => ls_cost l + total) 0 ls.

Definition costs_ok (ls : leaseMap) : Prop := map_Forall (fun _ l => 1 <= ls_cost l) ls.

Lemma weight_insert ls i l : ls !! i = None -> weight (<[i := l]> ls) = ls_cost l + weight ls.
Proof.
  intros H. unfold weight. rewrite map_fold_insert_L; [done| |done]. intros. lia.
Qed.

Lemma weight_delete ls i l : ls !! i = Some l -> weight ls = ls_cost l + weight (delete i ls).
Proof.
  intros H. rewrite <- (insert_delete_id ls i l H) at 1. apply weight_insert, lookup_delete_eq.
Qed.

Lemma weight_nonneg ls : costs_ok ls -> 0 <= weight ls.
Proof.
  unfold costs_ok. induction ls as [|i l ls Hi IH] using map_ind; [done|].
  intros [Hl Hf]%map_Forall_insert; [|done]. specialize (IH Hf). rewrite weight_insert by done. lia.
Qed.

Lemma weight_member ls i l : costs_ok ls -> ls !! i = Some l -> ls_cost l <= weight ls.
Proof.
  intros Hc Hi. rewrite (weight_delete ls i l Hi).
  assert (0 <= weight (delete i ls)) by (by apply weight_nonneg, map_Forall_delete). lia.
Qed.

Lemma usedBy_weight ls : usedBy ls = u64 (weight ls).
Proof.
  unfold usedBy, weight. rewrite !map_fold_foldr.
  induction (map_to_list ls) as [|[i l] xs IH]; simpl; [done|]. rewrite IH. unfold u64.
  rewrite Zplus_mod_idemp_l. f_equal. lia.
Qed.

(** Pruning keeps a sub-map, so it never adds weight. *)
Lemma liveLeases_lookup now ls i l :
  liveLeases now ls !! i = Some l <-> ls !! i = Some l /\ instant now < instant (ls_expiresAt l).
Proof. unfold liveLeases. rewrite map_lookup_filter_Some. unfold After. simpl. by rewrite Z.ltb_lt. Qed.

Lemma liveLeases_costs now ls : costs_ok ls -> costs_ok (liveLeases now ls).
Proof. intros H i l Hl. apply liveLeases_lookup in Hl as [Hl _]. by apply (H i l). Qed.

Lemma liveLeases_weight now ls : costs_ok ls -> weight (liveLeases now ls) <= weight ls.
Proof.
  unfold costs_ok, liveLeases. induction ls as [|i l ls Hi IH] using map_ind; [done|].
  intros [Hl Hf]%map_Forall_insert; [|done]. specialize (IH Hf). rewrite weight_insert by done.
  destruct (After (ls_expiresAt l) now) eqn:Ha.
  - rewrite map_filter_insert_True by done. rewrite weight_insert; [lia|].
    apply map_lookup_filter_None. by left.
  - rewrite map_filter_insert_False by (simpl; congruence). rewrite delete_id by done. lia.
Qed.

Lemma weight_size ls : costs_ok ls -> Z.of_nat (size ls) <= weight ls.
Proof.
  unfold costs_ok. induction ls as [|i l ls Hi IH] using map_ind; [done|].
  intros [Hl Hf]%map_Forall_insert; [|done]. specialize (IH Hf).
  rewrite weight_insert, map_size_insert_None by done. lia.
Qed.

(** [earliestLease] does not depend on the iteration order: it is the least
    expiry of a nonempty map whose expiries are not the zero time. *)
Lemma earliest_fold (xs : list (string * leaseState)) :
  Forall (fun kl => instant (ls_expiresAt kl.2) <> zero_instant) xs ->
  let t := foldr (uncurry (fun (_ : string) l earliest =>
                    if IsZero earliest || Before (ls_expiresAt l) earliest
                    then ls_expiresAt l else earliest)) zeroTime xs in
  match xs with
  | [] => t = zeroTime
  | _ => Forall (fun kl => instant t <= instant (ls_expiresAt kl.2)) xs /\
         Exists (fun kl => t = ls_expiresAt kl.2) xs
  end.
Proof.
  induction 1 as [|[i l] xs Hx Hf IH]; simpl; [done|]. simpl in IH, Hx.
  set (t := foldr _ _ xs) in *. unfold IsZero, Before.
  destruct xs as [|y xs]; [rewrite IH; simpl; split; [by apply Forall_singleton|by left]|].
  destruct IH as [Hall Hex].
  assert (instant t <> zero_instant) as Hz.
  { apply Exists_exists in Hex as (z & Hz & ->). rewrite Forall_forall in Hf. by apply Hf. }
  rewrite (proj2 (Z.eqb_neq _ _) Hz). simpl.
  destruct (Z.ltb_spec (instant (ls_expiresAt l)) (instant t)).
  - split; [|by left]. constructor; [simpl; lia|]. eapply Forall_impl; [exact Hall|]. simpl. lia.
  - split; [constructor; [simpl; lia|done]|by right].
Qed.

Definition expiries_ok (ls : leaseMap) : Prop :=
  map_Forall (fun _ l => instant (ls_expiresAt l) <> zero_instant) ls.

Lemma earliestLease_least ls :
  expiries_ok ls -> ls <> ∅ ->
  (exists i l, ls !! i = Some l /\ earliestLease ls = ls_expiresAt l) /\
  (forall i l, ls !! i = Some l -> instant (earliestLease ls) <= instant (ls_expiresAt l)).
Proof.
  intros Hok Hne. unfold earliestLease. rewrite map_fold_foldr.
  pose proof (earliest_fold (map_to_list ls)) as H.
  assert (Forall (fun kl => instant (ls_expiresAt kl.2) <> zero_instant) (map_to_list ls)) as Hf.
  { apply Forall_forall. intros [i l] Hin%elem_of_map_to_list. by apply (Hok i l). }
  specialize (H Hf). clear Hf.
  destruct (map_to_list ls) as [|x xs] eqn:E; [by destruct Hne; apply map_to_list_empty_iff|].
  rewrite <- E in *. destruct H as [Hall Hex]. split.
  - apply Exists_exists in Hex as ([i l] & Hin%elem_of_map_to_list & Heq). by exists i, l.
  - intros i l Hl. rewrite Forall_forall in Hall.
    by apply (Hall (i, l)), elem_of_map_to_list.
Qed.

(** ** The state *)

Section Leases.
Context (p : Policy).
Hypothesis Hwf : wf_policy p.
Hypothesis Hal : algorithm p = Concurrency.

(** Every live or lapsed lease has a cost, and together they fit the limit. *)
Record wf_leases (s : state) : Prop := {
  leases_costs : costs_ok (leasesOf s);
  leases_weight : weight (leasesOf s) <= Limit p;
  leases_expiries : expiries_ok (leasesOf s)
}.

Definition lease_request (r : LeaseRequest) : Prop :=
  req_Policy (lr_Request r) = p /\ 1 <= Cost (lr_Request r) <= maxCost p /\
  - maxExactInteger <= instant (Now (lr_Request r)) / 1000.

Lemma lease_policy : 1 <= Limit p <= 1024 /\ maxCost p <= Limit p /\ Microsecond <= lease p.
Proof.
  pose proof (Limit_wf p Hwf) as HL. destruct Hwf as [_ ? ? ? ? _ _ _ _ Halg].
  destruct Halg as [(Hw & _)|(_ & ? & _ & ? & _)]; [by apply windowed_not_concurrency in Hw|].
  lia.
Qed.

(** The leases that are still live when a request takes effect. *)
Definition live_at (s : state) (r : LeaseRequest) : leaseMap :=
  liveLeases (Now (clampNow s (lr_Request r))) (leasesOf s).

Lemma acquire_cases s r :
  wf_leases s -> lease_request r ->
  let now := Now (clampNow s (lr_Request r)) in
  let live := live_at s r in
  let cost := Cost (lr_Request r) in
  let free := Limit p - weight live in
  let expiry := Add now (lease p) in
  acquireState s r =
    match live !! LeaseID r with
    | Some l =>
        if ls_cost l =? cost
        then (makeLease r (ls_expiresAt l),
              decision true (Limit p) free (ls_expiresAt l) 0 ReasonAllowed, None,
              setLeases (setLastSeen s now) live)
        else (zeroLease, emptyDecision, Some (Sent ErrLeaseNotOwned),
              setLeases (setLastSeen s now) live)
    | None =>
        if free <? cost
        then (zeroLease, decision false (Limit p) free (earliestLease live)
                           (nonnegative (Sub (earliestLease live) now)) ReasonLimited,
              Some (Sent ErrRejected), setLeases (setLastSeen s now) live)
        else (makeLease r expiry, decision true (Limit p) (free - cost) expiry 0 ReasonAllowed, None,
              setLeases (setLastSeen s now) (<[LeaseID r := mkLeaseState cost expiry]> live))
    end /\ 0 <= weight live <= Limit p.
Proof.
  intros [Hc Hw _] (Hp & Hcost & _) now live cost free expiry. destruct lease_policy as (HL & Hm & _).
  destruct (clampNow_facts s (lr_Request r)) as (Hp' & Hc' & Hk' & _).
  pose proof (liveLeases_weight now _ Hc) as Hlive. pose proof (weight_nonneg _ (liveLeases_costs now _ Hc)).
  change (liveLeases now (leasesOf s)) with live in *.
  split; [|lia]. unfold acquireState.
  change (liveLeases _ (leasesOf (setLastSeen s (Now (clampNow s (lr_Request r)))))) with live.
  rewrite Hp', Hp, usedBy_weight, (u64_id (weight live)) by (unfold is_u64; lia).
  rewrite Z.min_l, (u64_id (Limit p - weight live)) by (unfold is_u64; lia). fold free.
  simpl LeaseID. rewrite Hc'. fold cost. unfold makeLease. simpl.
  rewrite Hp', Hk', Hc', Hp. fold now.
  destruct (live !! LeaseID r) as [l|].
  - by destruct (ls_cost l =? cost).
  - destruct (Z.ltb_spec free cost); [done|]. rewrite (u64_id (free - cost)) by (unfold is_u64; lia). done.
Qed.

(** *** The invariant *)

Lemma live_wf s r t :
  wf_leases s -> wf_leases (setLeases (setLastSeen s t) (live_at s r)).
Proof.
  intros [Hc Hw He]. split; simpl; unfold live_at, leasesOf at 1; simpl.
  - by apply liveLeases_costs.
  - etrans; [by apply liveLeases_weight|done].
  - intros i l Hl. apply liveLeases_lookup in Hl as [Hl _]. by apply (He i l).
Qed.

Lemma acquire_wf s r l d e s' :
  wf_leases s -> lease_request r -> acquireState s r = (l, d, e, s') -> wf_leases s'.
Proof.
  intros Hs Hr E. destruct (acquire_cases s r Hs Hr) as [E' Hlive]. rewrite E in E'.
  set (now := Now (clampNow s (lr_Request r))) in *. pose proof (live_wf s r now Hs) as Hl.
  destruct Hr as (_ & Hcost & Hnow).
  destruct (live_at s r !! LeaseID r) as [l0|] eqn:Hid.
  { by destruct (ls_cost l0 =? _); injection E' as _ _ _ ->. }
  destruct (Z.ltb_spec (Limit p - weight (live_at s r)) (Cost (lr_Request r)));
    injection E' as _ _ _ ->; [done|]. destruct Hl as [Hc Hw He]. split; simpl in *.
  - apply map_Forall_insert_2; [simpl; lia|done].
  - unfold leasesOf; simpl. rewrite weight_insert by done. simpl. lia.
  - apply map_Forall_insert_2; [|done]. simpl. destruct lease_policy as (_ & _ & ?).
    destruct (clampNow_facts s (lr_Request r)) as (_ & _ & _ & Hn). fold now in Hn. zlia.
Qed.

Lemma release_wf s l e s' : wf_leases s -> releaseState s l = (e, s') -> wf_leases s'.
Proof.
  unfold releaseState. intros Hs. destruct (leases s) as [ls|] eqn:El; [|by intros [= _ <-]].
  destruct (ls !! lease_ID l) as [l0|] eqn:Hid; [|by intros [= _ <-]].
  case_match; intros [= _ <-]; [done|]. destruct Hs as [Hc Hw He]. unfold leasesOf in *.
  rewrite El in *. simpl in *. assert (1 <= ls_cost l0) by (by apply (Hc (lease_ID l))).
  rewrite (weight_delete ls _ l0 Hid) in Hw.
  split; unfold leasesOf; simpl; [by apply map_Forall_delete|lia|by apply map_Forall_delete].
Qed.

(** One operation on the leases of a key. *)
Inductive lease_step (s s' : state) : Prop :=
| step_acquire r l d e : lease_request r -> acquireState s r = (l, d, e, s') -> lease_step s s'
| step_release l e : releaseState s l = (e, s') -> lease_step s s'.

(** C5: the concurrency limit holds in every reachable state.  After any
    sequence of acquisitions (new, repeated, with any clock) and releases
    (honest or forged) that starts from a fresh key, the weights of the
    recorded leases sum to at most the limit, so there are at most that many
    lease records. *)
Theorem lease_capacity_invariant r0 s :
  rtc lease_step (newState r0) s ->
  weight (leasesOf s) <= Limit p /\ Z.of_nat (size (leasesOf s)) <= Limit p.
Proof.
  intros H. assert (wf_leases s) as [Hc Hw _].
  { revert H. apply (rtc_ind_r (fun s => wf_leases s)).
    - destruct lease_policy as (HL & _). split; [done| |done]. unfold leasesOf, weight; simpl.
      rewrite map_fold_empty. lia.
    - intros s1 s2 _ [r l d e Hr E|l e E] Hs; [by eapply acquire_wf|by eapply release_wf]. }
  split; [done|]. pose proof (weight_size _ Hc). lia.
Qed.

(** C28: what an acquisition does, for every well-formed key.  A repeated
    identifier with the same cost gets the original expiry back and changes
    nothing; with another cost it is not the owner.  A new identifier is
    granted exactly when the live weights and its cost fit the limit, until
    now plus the lease duration; otherwise it is rejected, nothing is recorded,
    and [Reset] is the earliest expiry among the live leases. *)
Theorem acquire_exact s r :
  wf_leases s -> lease_request r ->
  let now := Now (clampNow s (lr_Request r)) in
  let live := live_at s r in
  let cost := Cost (lr_Request r) in
  let '(l, d, e, s') := acquireState s r in
  match live !! LeaseID r with
  | Some l0 =>
      leasesOf s' = live /\
      (ls_cost l0 = cost -> e = None /\ l = makeLease r (ls_expiresAt l0) /\
                            Reset d = ls_expiresAt l0 /\ Remaining d = Limit p - weight live) /\
      (ls_cost l0 <> cost -> e = Some (Sent ErrLeaseNotOwned) /\ l = zeroLease)
  | None =>
      (e = None <-> weight live + cost <= Limit p) /\ (e = None <-> Allowed d = true) /\
      (e = None -> l = makeLease r (Add now (lease p)) /\ Reset d = ExpiresAt l /\
                   Remaining d = Limit p - (weight live + cost) /\
                   leasesOf s' = <[LeaseID r := mkLeaseState cost (ExpiresAt l)]> live) /\
      (e <> None -> e = Some (Sent ErrRejected) /\ l = zeroLease /\ leasesOf s' = live /\
                    Remaining d = Limit p - weight live /\
                    (exists i l0, live !! i = Some l0 /\ Reset d = ls_expiresAt l0) /\
                    (forall i l0, live !! i = Some l0 ->
                                  instant (Reset d) <= instant (ls_expiresAt l0)))
  end.
Proof.
  intros Hs Hr now live cost. destruct (acquire_cases s r Hs Hr) as [-> Hlive].
  fold now live cost in Hlive |- *. destruct (live !! LeaseID r) as [l0|] eqn:Hid.
  { destruct (Z.eqb_spec (ls_cost l0) cost); split_and!; done. }
  destruct Hr as (_ & Hcost & _). destruct lease_policy as (_ & Hm & _).
  destruct (Z.ltb_spec (Limit p - weight live) cost) as [Hover|Hfit].
  - assert (live <> ∅) as Hne.
    { intros E. rewrite E in Hover. unfold weight in Hover. rewrite map_fold_empty in Hover. lia. }
    pose proof (live_wf s r now Hs) as [_ _ He]. unfold leasesOf in He; simpl in He.
    destruct (earliestLease_least live He Hne) as [Hex Hall].
    split; [split; [done|lia]|]. split; [done|]. split; [done|]. intros _. by split_and!.
  - split; [split; [lia|done]|]. split; [done|]. split; [|done]. intros _. split_and!; try done.
    simpl. lia.
Qed.

(** C29: acquire and release are inverse.  Releasing a freshly granted lease
    succeeds and leaves exactly the leases that were live before; releasing it
    again finds nothing; and a lease with another cost or expiry is refused
    without changing the state. *)
Theorem acquire_release_roundtrip s r l d s' :
  wf_leases s -> lease_request r -> live_at s r !! LeaseID r = None ->
  acquireState s r = (l, d, None, s') ->
  exists s'', releaseState s' l = (None, s'') /\ leasesOf s'' = live_at s r /\
    releaseState s'' l = (Some (Sent ErrLeaseNotFound), s'') /\
    forall forged, lease_ID forged = lease_ID l ->
      (lease_Cost forged <> lease_Cost l \/ instant (ExpiresAt forged) <> instant (ExpiresAt l)) ->
      releaseState s' forged = (Some (Sent ErrLeaseNotOwned), s').
Proof.
  intros Hs Hr Hid E. destruct (acquire_cases s r Hs Hr) as [E' _]. rewrite E, Hid in E'.
  case_match; [done|]. injection E' as -> _ ->. unfold releaseState; simpl.
  rewrite lookup_insert_eq; simpl. unfold Equal. rewrite !Z.eqb_refl. simpl.
  eexists. split; [done|]. unfold leasesOf; simpl. rewrite lookup_delete_eq.
  rewrite delete_insert_id by done. split_and!; try done.
  intros forged -> Hf. rewrite lookup_insert_eq; simpl.
  destruct Hf as [Hf|Hf];
    [rewrite (proj2 (Z.eqb_neq _ (lease_Cost forged))) by done
    |rewrite (proj2 (Z.eqb_neq _ (instant (ExpiresAt forged)))) by done]; simpl; [done|].
  by rewrite orb_true_r.
Qed.
End Leases.

(** ** A concrete key: four units, leases of 30 seconds *)
Module DemoJobs.
Definition spec : PolicySpec :=
  mkPolicySpec "jobs" "v1" Concurrency 4 0 0 2 FailClosed EmptyString 30000000000.
Definition p : Policy := policy_of spec.
Definition job (id : string) : LeaseRequest :=
  mkLeaseRequest (mkRequest p (mkKey "http:v1:principal:x" "principal") 2
                            (mkTime 1700000000000000000 UTC)) id.
Definition fresh : state := newState (lr_Request (job "a")).
Definition busy : state := (acquireState (acquireState fresh (job "a")).2 (job "b")).2.
End DemoJobs.

Lemma demo_jobs_wf : wf_policy DemoJobs.p.
Proof.
  apply (NewPolicy_wf_lemma DemoJobs.spec); [|vm_compute; reflexivity].
  split; vm_compute; split; discriminate || reflexivity.
Qed.

Lemma demo_jobs_request id : lease_request DemoJobs.p (DemoJobs.job id).
Proof. by split_and!. Qed.

Lemma demo_fresh_leases : wf_leases DemoJobs.p DemoJobs.fresh.
Proof. by split. Qed.

Lemma lease_capacity_invariant_witness : weight (leasesOf DemoJobs.busy) <= Limit DemoJobs.p.
Proof.
  apply (lease_capacity_invariant DemoJobs.p demo_jobs_wf eq_refl (lr_Request (DemoJobs.job "a"))).
  destruct (acquireState DemoJobs.fresh (DemoJobs.job "a")) as [[[l1 d1] e1] s1] eqn:E1.
  destruct (acquireState s1 (DemoJobs.job "b")) as [[[l2 d2] e2] s2] eqn:E2.
  unfold DemoJobs.busy. rewrite E1. simpl. rewrite E2. simpl.
  eapply rtc_l; [eapply step_acquire; [apply (demo_jobs_request "a")|exact E1]|].
  eapply rtc_l; [eapply step_acquire; [apply (demo_jobs_request "b")|exact E2]|]. apply rtc_refl.
Defined.

Lemma acquire_exact_witness :
  let '(l, d, e, s') := acquireState DemoJobs.fresh (DemoJobs.job "a") in
  e = None <-> weight (live_at DemoJobs.fresh (DemoJobs.job "a")) + 2 <= Limit DemoJobs.p.
Proof.
  pose proof (acquire_exact DemoJobs.p demo_jobs_wf eq_refl DemoJobs.fresh (DemoJobs.job "a")
                demo_fresh_leases (demo_jobs_request "a")) as H.
  cbv zeta in H. destruct (acquireState DemoJobs.fresh (DemoJobs.job "a")) as [[[l d] e] s'].
  assert (live_at DemoJobs.fresh (DemoJobs.job "a") !! LeaseID (DemoJobs.job "a") = None) as Hid
    by (vm_compute; reflexivity).
  rewrite Hid in H. exact (proj1 H).
Defined.

Lemma acquire_release_roundtrip_witness :
  exists l d s' s'', acquireState DemoJobs.fresh (DemoJobs.job "a") = (l, d, None, s') /\
    releaseState s' l = (None, s'').
Proof.
  destruct (acquireState DemoJobs.fresh (DemoJobs.job "a")) as [[[l d] [e|]] s'] eqn:E;
    [exfalso; vm_compute in E; discriminate E|].
  destruct (acquire_release_roundtrip DemoJobs.p demo_jobs_wf eq_refl DemoJobs.fresh
              (DemoJobs.job "a") l d s' demo_fresh_leases (demo_jobs_request "a"))
    as (s'' & Hr & _); [vm_compute; reflexivity | exact E |].
  exists l, d, s', s''. exact (conj eq_refl Hr).
Defined.
