(* ===== verification/MemoryStore.v ===== *)
(** * Shards and the store of the in-memory backend (memory/store.go)

    A shard is a bounded map from keys to states; the store is an array of
    shards and a closed flag.  The operations below a shard's lock are functions
    from the shard to the shard; the operations of the store run in the effect
    monad over a world that holds the store, because a goroutine that waits for
    a lock or reads a context lets others run. *)

From S2P Require Import Prelude GoTime GoHash Errors Keys Policy Backend MemoryState.

Local Open Scope string_scope.
Local Open Scope Z_scope.

Definition MaxConfiguredKeys : Z := 1000000.
Definition MaxConfiguredShards : Z := 1024.

Record Options := mkOptions { MaxKeys : Z; Shards : Z; RejectOnCapacity : bool }.

Record shard := mkShard {
  maxKeys : Z;
  rejectOnCapacity : bool;
  states : gmap string state
}.

Record Store := mkStore { shards : list shard; closed : bool }.

Definition setStates (target : shard) (m : gmap string state) : shard :=
  mkShard (maxKeys target) (rejectOnCapacity target) m.

Definition New (options : Options) : result error Store :=
  let invalid := Err (errorf ErrInvalidPolicy "positive cardinality and shard bounds are required") in
  if MaxKeys options <? 1 then invalid else
  if MaxConfiguredKeys <? MaxKeys options then invalid else
  if Shards options <=? 0 then invalid else
  if MaxConfiguredShards <? Shards options then invalid else
  if MaxKeys options <? Shards options then invalid else
  let base := MaxKeys options ÷ Shards options in
  let extra := Z.rem (MaxKeys options) (Shards options) in
  Ok (mkStore (map (fun index => mkShard (if Z.of_nat index <? extra then base + 1 else base)
                                         (RejectOnCapacity options) ∅)
                   (seq 0 (Z.to_nat (Shards options)))) false).

(** ** Below the lock *)

Definition stateKey (request : Request) : string :=
  id (req_Policy request) +:+ NUL +:+ key_value (req_Key request).

Definition leaseKey (l : Lease) : string :=
  lease_PolicyID l +:+ NUL +:+ key_value (lease_Key l).

(** The order of [sort.Slice] in [evictOldest]: least recently seen first, ties
    by key.  The keys are those of the map, so the lookups succeed. *)
Definition seenAt (m : gmap string state) (key : string) : Time :=
  match m !! key with Some current => lastSeen current | None => zeroTime end.

Definition keyLess (m : gmap string state) (left right : string) : bool :=
  if Equal (seenAt m left) (seenAt m right)
  then bool_decide (String.compare left right = Lt)
  else Before (seenAt m left) (seenAt m right).

Definition evictable (m : gmap string state) (now : Time) : list string :=
  map fst (List.filter (fun kv => negb (hasActiveLease (leasesOf kv.2) now)) (map_to_list m)).

Definition keyOrder (m : gmap string state) (left right : string) : Prop :=
  keyLess m right left = false.

#[global] Instance keyOrder_dec m left right : base.Decision (keyOrder m left right).
Proof. unfold keyOrder. apply _. Defined.

Definition evictOldest (target : shard) (now : Time) : bool * shard :=
  match merge_sort (keyOrder (states target)) (evictable (states target) now) with
  | [] => (false, target)
  | key :: _ => (true, setStates target (delete key (states target)))
  end.

Definition getOrCreate (target : shard) (key : string) (request : Request)
    : result error state * shard :=
  match states target !! key with
  | Some current =>
      let current := if negb (bool_decide (st_revision current = revision (req_Policy request)))
                     then carryRevision current request else current in
      (Ok current, setStates target (<[key := current]> (states target)))
  | None =>
      let '(room, target) :=
        if Z.of_nat (size (states target)) =? maxKeys target
        then if rejectOnCapacity target then (false, target) else evictOldest target (Now request)
        else (true, target) in
      if room
      then (Ok (newState request), setStates target (<[key := newState request]> (states target)))
      else (Err (Sent ErrUnavailable), target)
  end.

(** The state has the algorithm of another policy. *)
Definition wrongAlgorithm (target : shard) (key : string) (request : Request) : bool :=
  match states target !! key with
  | Some existing => negb (bool_decide (st_algorithm existing = algorithm (req_Policy request)))
  | None => false
  end.

Definition admitLocked (target : shard) (key : string) (request : Request)
    : Decision * option error * shard :=
  if wrongAlgorithm target key request then (emptyDecision, Some (Sent ErrCorrupt), target) else
  match getOrCreate target key request with
  | (Err err, target) => (emptyDecision, Some err, target)
  | (Ok current, target) =>
      let '(d, err, current) := admitState current request in
      (d, err, setStates target (<[key := current]> (states target)))
  end.

Definition acquireLocked (target : shard) (key : string) (request : LeaseRequest)
    : Lease * Decision * option error * shard :=
  if wrongAlgorithm target key (lr_Request request)
  then (zeroLease, emptyDecision, Some (Sent ErrCorrupt), target) else
  match getOrCreate target key (lr_Request request) with
  | (Err err, target) => (zeroLease, emptyDecision, Some err, target)
  | (Ok current, target) =>
      let '(l, d, err, current) := acquireState current request in
      (l, d, err, setStates target (<[key := current]> (states target)))
  end.

Definition releaseLocked (target : shard) (l : Lease) : option error * shard :=
  match states target !! leaseKey l with
  | None => (Some (Sent ErrLeaseNotFound), target)
  | Some current =>
      let '(err, current) := releaseState current l in
      (err, setStates target (<[leaseKey l := current]> (states target)))
  end.

(** The loop of [Sweep] over one shard: prune the leases of every key, and drop
    the keys that are idle and hold no live lease. *)
Definition sweepState (now : Time) (current : state) : state :=
  match leases current with
  | Some ls => setLeases current (liveLeases now ls)
  | None => current
  end.

Definition swept (now : Time) (idleFor : Duration) (current : state) : bool :=
  negb (hasActiveLease (leasesOf current) now) && negb (After (Add (lastSeen current) idleFor) now).

Definition sweepShard (now : Time) (idleFor : Duration) (target : shard) : Z * shard :=
  let kept := filter (fun kv => swept now idleFor kv.2 = false) (states target) in
  (Z.of_nat (size (states target)) - Z.of_nat (size kept),
   setStates target (sweepState now <$> kept)).

(** [shardFor]: the index; Go panics when there is no shard. *)
Definition shardIndex (store : Store) (key : string) : option nat :=
  match shards store with
  | [] => None
  | targets => Some (Z.to_nat (fnv64a key mod Z.of_nat (length targets)))
  end.

(** ** The operations of the store *)

(** A world that holds the store. *)
Class HasStore (W : Type) := {
  theStore : W -> Store;
  withStore : Store -> W -> W;
  theStore_with s w : theStore (withStore s w) = s
}.

Section StoreOps.
Context {W : Type} `{HasStore W}.

(** What other goroutines do while this one waits for the mutex of a shard.
    Waiting ends: who holds a mutex is not part of the world, and the sections
    below lock one mutex, call nothing foreign and unlock it. *)
Context (waitLock : nat -> W -> W).

Definition isClosed : M W bool := fun w => (Ret (closed (theStore w)), w).

(** Run a critical section on a shard: wait for its mutex, run, and unlock. *)
Definition criticalAt {A} (i : nat) (body : shard -> A * shard) : M W A := fun w =>
  let w := waitLock i w in
  match shards (theStore w) !! i with
  | None => (Panic, w)
  | Some target =>
      let '(a, target) := body target in
      (Ret a, withStore (mkStore (<[i := target]> (shards (theStore w))) (closed (theStore w))) w)
  end.

(** The critical section on the shard of a key. *)
Definition critical {A} (key : string) (body : shard -> A * shard) : M W A := fun w =>
  match shardIndex (theStore w) key with
  | None => (Panic, w)
  | Some i => criticalAt i body w
  end.

Definition microNow (request : Request) : Request :=
  withNow request (toUTC (ofUnixMicro (UnixMicro (Now request)))).

Definition Admit (ctx : Context W) (request : Request) : M W (Decision * option error) :=
  shut ← isClosed;
  if (shut : bool) then mret (emptyDecision, Some (Sent ErrUnavailable)) else
  done ← lift (ctxErr ctx);
  match done with
  | Some err => mret (emptyDecision, Some err)
  | None =>
      match Validate request with
      | Some err => mret (emptyDecision, Some err)
      | None =>
          if bool_decide (algorithm (req_Policy request) = Concurrency)
          then mret (emptyDecision, Some (Sent ErrUnsupported)) else
          let request := microNow request in
          let key := stateKey request in
          critical key (fun target => admitLocked target key request)
      end
  end.

Definition Acquire (ctx : Context W) (request : LeaseRequest)
    : M W (Lease * Decision * option error) :=
  shut ← isClosed;
  if (shut : bool) then mret (zeroLease, emptyDecision, Some (Sent ErrUnavailable)) else
  done ← lift (ctxErr ctx);
  match done with
  | Some err => mret (zeroLease, emptyDecision, Some err)
  | None =>
      match LeaseRequest_Validate request with
      | Some err => mret (zeroLease, emptyDecision, Some err)
      | None =>
          let request := mkLeaseRequest (microNow (lr_Request request)) (LeaseID request) in
          let key := stateKey (lr_Request request) in
          critical key (fun target => acquireLocked target key request)
      end
  end.

Definition Release (ctx : Context W) (l : Lease) : M W (option error) :=
  shut ← isClosed;
  if (shut : bool) then mret (Some (Sent ErrUnavailable)) else
  done ← lift (ctxErr ctx);
  match done with
  | Some err => mret (Some err)
  | None => critical (leaseKey l) (fun target => releaseLocked target l)
  end.

Definition Close : M W (option error) := fun w =>
  (Ret None, withStore (mkStore (shards (theStore w)) true) w).

(** The number of shards never changes. *)
Definition shardIndices : M W (list nat) := fun w => (Ret (seq 0 (length (shards (theStore w)))), w).

Fixpoint lenLoop (indices : list nat) (total : Z) : M W Z :=
  match indices with
  | [] => mret total
  | i :: rest =>
      n ← criticalAt i (fun target => (Z.of_nat (size (states target)), target));
      lenLoop rest (total + n)
  end.

Definition Len : M W Z := indices ← shardIndices; lenLoop indices 0.

Fixpoint sweepLoop (now : Time) (idleFor : Duration) (indices : list nat) (removed : Z) : M W Z :=
  match indices with
  | [] => mret removed
  | i :: rest =>
      n ← criticalAt i (sweepShard now idleFor);
      sweepLoop now idleFor rest (removed + n)
  end.

Definition Sweep (now : Time) (idleFor : Duration) : M W (Z * option error) :=
  shut ← isClosed;
  if (shut : bool) then mret (0, Some (Sent ErrUnavailable)) else
  if IsZero now then mret (0, Some (Sent ErrInvalidRequest)) else
  if idleFor <=? 0 then mret (0, Some (Sent ErrInvalidRequest)) else
  indices ← shardIndices;
  removed ← sweepLoop now idleFor indices 0;
  mret (removed, None).

Definition Name : string := "memory".

(** [*memory.Store] as a [Backend] and a [LeaseBackend]. *)
Definition memoryBackend : Backend W :=
  mkBackend Name Admit (Some (mkLeaseBackend Acquire Release)).
End StoreOps.
