(* ===== verification/StoreFacts.v ===== *)
(** * What the in-memory store guarantees

    Construction and partitioning of the key quota, the cardinality bound over
    every sequence of operations, eviction, the frame of one operation, and
    policy revisions. *)

From S2P Require Import Prelude GoTime GoHash Errors Keys Policy Backend MemoryState MemoryStore.

Local Open Scope string_scope.
Local Open Scope Z_scope.

(** ** Construction *)

(** The number of keys in the shards. *)
Definition keys_in (targets : list shard) : Z :=
  foldr (fun target total => Z.of_nat (size (states target)) + total) 0 targets.

Definition quota (targets : list shard) : Z := foldr (fun target total => maxKeys target + total) 0 targets.

Lemma quota_app l1 l2 : quota (l1 ++ l2)%list = quota l1 + quota l2.
Proof. unfold quota. induction l1; simpl; lia. Qed.

Lemma quota_seq base extra reject n :
  0 <= extra ->
  quota (map (fun index => mkShard (if Z.of_nat index <? extra then base + 1 else base) reject ∅) (seq 0 n))
  = base * Z.of_nat n + Z.min extra (Z.of_nat n).
Proof.
  intros He. induction n as [|n IH]; [simpl; lia|].
  rewrite seq_S, map_app, quota_app, IH. simpl.
  destruct (Z.ltb_spec (Z.of_nat n) extra); simpl; nia.
Qed.

Lemma New_shape options store :
  New options = Ok store ->
  Z.of_nat (length (shards store)) = Shards options /\ quota (shards store) = MaxKeys options /\
  Forall (fun target => states target = ∅ /\ 1 <= maxKeys target) (shards store).
Proof.
  unfold New. destruct (Z.ltb_spec (MaxKeys options) 1); [done|]. case_match; [done|].
  destruct (Z.leb_spec (Shards options) 0); [done|]. case_match; [done|].
  destruct (Z.ltb_spec (MaxKeys options) (Shards options)); [done|]. intros [= <-]. simpl.
  rewrite quot_nonneg, Z.rem_mod_nonneg, length_map, length_seq by lia.
  pose proof (Z.mod_pos_bound (MaxKeys options) (Shards options) ltac:(lia)).
  pose proof (Z.div_mod (MaxKeys options) (Shards options) ltac:(lia)).
  split_and!; [lia| |].
  - rewrite quota_seq by lia. rewrite Z2Nat.id, Z.min_l by lia. lia.
  - apply Forall_map, Forall_true. intros index; simpl. split; [done|]. case_match; nia.
Qed.

(** A rejected option: no store, and the error is [ErrInvalidPolicy]. *)
Ltac refused := split; [split; [by intros [] | lia] | split; [done | by intros e [= <-]]].

(** [New] accepts exactly 1..1,000,000 keys over 1..1,024 shards that are
    no more than the keys, and then partitions the quota: the shards' bounds are
    positive, differ by at most one, and sum to [MaxKeys]; the store is open and
    empty.  Any other option is an [ErrInvalidPolicy]. *)
Theorem New_partitions_quota options :
  ((exists store, New options = Ok store) <->
   1 <= Shards options <= MaxKeys options /\ MaxKeys options <= 1000000 /\ Shards options <= 1024) /\
  (forall store, New options = Ok store ->
     Z.of_nat (length (shards store)) = Shards options /\ quota (shards store) = MaxKeys options /\
     closed store = false /\ keys_in (shards store) = 0 /\
     Forall (fun target => states target = ∅ /\ rejectOnCapacity target = RejectOnCapacity options /\
               MaxKeys options / Shards options <= maxKeys target <= MaxKeys options / Shards options + 1 /\
               1 <= maxKeys target) (shards store)) /\
  (forall e, New options = Err e -> errorsIsAt e ErrInvalidPolicy = true).
Proof.
  unfold New, MaxConfiguredKeys, MaxConfiguredShards.
  destruct (Z.ltb_spec (MaxKeys options) 1); [refused|].
  destruct (Z.ltb_spec 1000000 (MaxKeys options)); [refused|].
  destruct (Z.leb_spec (Shards options) 0); [refused|].
  destruct (Z.ltb_spec 1024 (Shards options)); [refused|].
  destruct (Z.ltb_spec (MaxKeys options) (Shards options)); [refused|].
  split; [split; [lia|eauto]|]. split; [|done]. intros store [= <-]. simpl.
  rewrite quot_nonneg, Z.rem_mod_nonneg, length_map, length_seq by lia.
  pose proof (Z.mod_pos_bound (MaxKeys options) (Shards options) ltac:(lia)).
  pose proof (Z.div_mod (MaxKeys options) (Shards options) ltac:(lia)).
  split_and!; [lia| |done| |].
  - rewrite quota_seq by lia. rewrite Z2Nat.id, Z.min_l by lia. lia.
  - unfold keys_in; simpl. induction (seq 0 _); simpl; [done|]. rewrite map_size_empty. lia.
  - apply Forall_map, Forall_true. intros index; simpl. split_and!; try done; case_match; try lia; nia.
Qed.

(** ** Below the lock *)

(** A shard within its quota. *)
Definition shard_ok (target : shard) : Prop :=
  1 <= maxKeys target /\ Z.of_nat (size (states target)) <= maxKeys target.

(** The geometry of a shard never changes. *)
Definition same_shape (t t' : shard) : Prop :=
  maxKeys t' = maxKeys t /\ rejectOnCapacity t' = rejectOnCapacity t.

Lemma hasActiveLease_spec ls now :
  hasActiveLease ls now = true <->
  exists i l, ls !! i = Some l /\ instant now < instant (ls_expiresAt l).
Proof.
  unfold hasActiveLease. rewrite existsb_exists. unfold After. split.
  - intros ([i l] & Hin & H). exists i, l. rewrite Z.ltb_lt in H. split; [|done].
    by apply elem_of_map_to_list, list_elem_of_In.
  - intros (i & l & Hl & H). exists (i, l). rewrite Z.ltb_lt. split; [|done].
    by apply list_elem_of_In, elem_of_map_to_list.
Qed.

Lemma evictable_spec m now key :
  key ∈ evictable m now <-> exists s, m !! key = Some s /\ hasActiveLease (leasesOf s) now = false.
Proof.
  unfold evictable. rewrite list_elem_of_fmap. setoid_rewrite list_elem_of_In.
  setoid_rewrite filter_In. setoid_rewrite <- list_elem_of_In. split.
  - intros ([k s] & -> & Hin & H). exists s. apply elem_of_map_to_list in Hin. btrue. done.
  - intros (s & Hm & H). exists (key, s). rewrite elem_of_map_to_list. simpl. by rewrite H.
Qed.

(** The eviction order is a total order on keys. *)
Lemma compare_le k k' : bool_decide (String.compare k k' = Lt) = negb (String.leb k' k).
Proof.
  unfold String.leb. rewrite (String.compare_antisym k' k).
  by destruct (String.compare k k').
Qed.

Lemma keyOrder_spec m k k' :
  keyOrder m k k' <->
  instant (seenAt m k) < instant (seenAt m k') \/
  instant (seenAt m k) = instant (seenAt m k') /\ (k ≤ k')%string.
Proof.
  unfold keyOrder, keyLess, Equal, Before, String.le. rewrite compare_le.
  destruct (Z.eqb_spec (instant (seenAt m k')) (instant (seenAt m k))) as [->|].
  - rewrite negb_false_iff, Is_true_true. split; [by right|]. intros [|[_ ?]]; [lia|done].
  - rewrite Z.ltb_ge. split; [lia|]. intros [|[]]; lia.
Qed.

#[global] Instance keyOrder_total m : Total (keyOrder m).
Proof.
  intros k k'. rewrite !keyOrder_spec.
  destruct (Z.lt_trichotomy (instant (seenAt m k)) (instant (seenAt m k'))) as [|[|]]; [by auto| |by auto].
  destruct (base.total (≤)%string k k'); auto.
Qed.

#[global] Instance keyOrder_trans m : Transitive (keyOrder m).
Proof.
  intros k1 k2 k3. rewrite !keyOrder_spec. intros [|[? H1]] [|[? H2]];
    try (left; lia). right. split; [lia|]. by etrans.
Qed.

(** What an eviction removes: nothing when every key holds an active lease,
    otherwise the least recently seen of the other keys. *)
Lemma evictOldest_spec target now :
  match evictOldest target now with
  | (false, target') =>
      target' = target /\
      forall k s, states target !! k = Some s -> hasActiveLease (leasesOf s) now = true
  | (true, target') =>
      exists key, target' = setStates target (delete key (states target)) /\
        key ∈ evictable (states target) now /\
        forall k, k ∈ evictable (states target) now -> keyOrder (states target) key k
  end.
Proof.
  unfold evictOldest. pose proof (merge_sort_Permutation (keyOrder (states target)) (evictable (states target) now)) as Hp.
  pose proof (StronglySorted_merge_sort (keyOrder (states target)) (evictable (states target) now)) as Hs.
  destruct (merge_sort _ _) as [|key rest].
  - split; [done|]. apply Permutation_nil_l in Hp. intros k s Hk.
    destruct (hasActiveLease (leasesOf s) now) eqn:Ha; [done|].
    assert (k ∈ evictable (states target) now) as Hin by (apply evictable_spec; eauto).
    by rewrite <- Hp in Hin; apply elem_of_nil in Hin.
  - exists key. split; [done|]. split; [rewrite <- Hp; by left|]. intros k. rewrite <- Hp.
    intros [->|Hin]%elem_of_cons; [by destruct (base.total (keyOrder (states target)) key key)|].
    apply StronglySorted_inv in Hs as [_ Hs]. rewrite Forall_forall in Hs. by apply Hs.
Qed.

(** The key an operation may evict: the operation creates a key in a full shard
    that allows eviction, and the evicted key holds no active lease and is the
    least recently seen of those. *)
Definition victim (target : shard) (key : string) (now : Time) (k : string) : Prop :=
  states target !! key = None /\ rejectOnCapacity target = false /\
  Z.of_nat (size (states target)) = maxKeys target /\
  k ∈ evictable (states target) now /\
  forall k', k' ∈ evictable (states target) now -> keyOrder (states target) k k'.

(** An operation on one key leaves every other key alone, or evicts it. *)
Definition framed (target : shard) (key : string) (now : Time) (target' : shard) : Prop :=
  same_shape target target' /\
  forall k, k <> key -> states target' !! k = states target !! k \/
                        states target' !! k = None /\ victim target key now k.

Lemma framed_write target key now target' current :
  framed target key now target' ->
  framed target key now (setStates target' (<[key := current]> (states target'))).
Proof.
  intros [Hshape Hk]. split; [done|]. intros k Hne. simpl. rewrite lookup_insert_ne by done. by apply Hk.
Qed.

Lemma ok_write target key current now :
  shard_ok target -> (is_Some (states target !! key) \/ Z.of_nat (size (states target)) < maxKeys target) ->
  let target' := setStates target (<[key := current]> (states target)) in
  shard_ok target' /\ framed target key now target'.
Proof.
  intros [Hm Hsz] Hroom target'. split; [split; simpl; [done|]|].
  - destruct Hroom as [Hs|Hlt].
    + by rewrite map_size_insert_Some.
    + rewrite map_size_insert. case_match; simpl; unfold Datatypes.id; lia.
  - apply framed_write. split; [by split|]. by left.
Qed.

Lemma getOrCreate_spec target key request :
  shard_ok target ->
  match getOrCreate target key request with
  | (Ok current, target') =>
      shard_ok target' /\ framed target key (Now request) target' /\ states target' !! key = Some current
  | (Err e, target') =>
      target' = target /\ e = Sent ErrUnavailable /\ states target !! key = None /\
      Z.of_nat (size (states target)) = maxKeys target /\
      (rejectOnCapacity target = true \/
       forall k s, states target !! k = Some s -> hasActiveLease (leasesOf s) (Now request) = true)
  end.
Proof.
  intros Hok. unfold getOrCreate. destruct (states target !! key) as [s|] eqn:Hkey.
  { destruct (ok_write target key (if negb (bool_decide (st_revision s = revision (req_Policy request)))
      then carryRevision s request else s) (Now request) Hok) as [? ?]; [by left|].
    split_and!; try done. simpl. by rewrite lookup_insert_eq. }
  destruct (Z.eqb_spec (Z.of_nat (size (states target))) (maxKeys target)) as [Hfull|Hroom].
  2:{ destruct (ok_write target key (newState request) (Now request) Hok) as [? ?];
        [destruct Hok; right; lia|]. split_and!; try done. simpl. by rewrite lookup_insert_eq. }
  destruct (rejectOnCapacity target) eqn:Hr; [split_and!; try done; by left|].
  pose proof (evictOldest_spec target (Now request)) as He.
  destruct (evictOldest target (Now request)) as [[] target'].
  2:{ destruct He as [-> Hall]. split_and!; try done. by right. }
  destruct He as (victim_key & -> & Hin & Hmin). pose proof Hin as Hin'.
  apply evictable_spec in Hin' as (s & Hs & _).
  assert (size (delete victim_key (states target)) = pred (size (states target))) as Hsize
    by (apply map_size_delete_Some; eauto).
  assert (size (states target) <> 0%nat) as Hpos.
  { intros E. apply map_size_empty_inv in E. rewrite E in Hs. by rewrite lookup_empty in Hs. }
  destruct Hok as [Hm Hsz]. split_and!; [split; simpl; [done|]| |simpl; by rewrite lookup_insert_eq].
  - rewrite map_size_insert. case_match; simpl; unfold Datatypes.id; lia.
  - apply framed_write. split; [by split|]. simpl. intros k Hne.
    destruct (decide (k = victim_key)) as [->|Hk].
    + right. rewrite lookup_delete_eq. split; [done|]. by split_and!.
    + left. by rewrite lookup_delete_ne.
Qed.

Lemma framed_refl target key now : framed target key now target.
Proof. split; [by split|]. by left. Qed.

(** The three operations keep a shard within its quota and touch one key. *)
Lemma admitLocked_frame target key request d e target' :
  shard_ok target -> admitLocked target key request = (d, e, target') ->
  shard_ok target' /\ framed target key (Now request) target'.
Proof.
  intros Hok. unfold admitLocked. case_match; [intros [= _ _ <-]; split; [done|apply framed_refl]|].
  pose proof (getOrCreate_spec target key request Hok) as Hg.
  destruct (getOrCreate target key request) as [[current|err] t1].
  - destruct Hg as (Hok1 & Hf & Hl). destruct (admitState current request) as [[d' e'] s'].
    intros [= _ _ <-]. split; [|by apply framed_write].
    apply (ok_write t1 key s' (Now request) Hok1). left. eauto.
  - destruct Hg as [-> _]. intros [= _ _ <-]. split; [done|apply framed_refl].
Qed.

Lemma acquireLocked_frame target key request l d e target' :
  shard_ok target -> acquireLocked target key request = (l, d, e, target') ->
  shard_ok target' /\ framed target key (Now (lr_Request request)) target'.
Proof.
  intros Hok. unfold acquireLocked. case_match; [intros [= _ _ _ <-]; split; [done|apply framed_refl]|].
  pose proof (getOrCreate_spec target key (lr_Request request) Hok) as Hg.
  destruct (getOrCreate target key (lr_Request request)) as [[current|err] t1].
  - destruct Hg as (Hok1 & Hf & Hl). destruct (acquireState current request) as [[[l' d'] e'] s'].
    intros [= _ _ _ <-]. split; [|by apply framed_write].
    apply (ok_write t1 key s' (Now (lr_Request request)) Hok1). left. eauto.
  - destruct Hg as [-> _]. intros [= _ _ _ <-]. split; [done|apply framed_refl].
Qed.

Lemma releaseLocked_frame target l e target' now :
  shard_ok target -> releaseLocked target l = (e, target') ->
  shard_ok target' /\ framed target (leaseKey l) now target' /\
  dom (states target') = dom (states target).
Proof.
  intros Hok. unfold releaseLocked. destruct (states target !! leaseKey l) as [s|] eqn:Hs.
  - destruct (releaseState s l) as [e' s']. intros [= _ <-].
    destruct (ok_write target (leaseKey l) s' now Hok) as [? ?]; [by left|]. split_and!; try done.
    simpl. rewrite dom_insert_lookup_L; eauto.
  - intros [= _ <-]. split_and!; [done|apply framed_refl|done].
Qed.

(** An operation on one key keeps the shard within its quota and leaves
    every other key's state untouched, except that creating a key in a full
    shard that allows eviction may remove one: never a key with an active lease,
    and always the least recently seen of the others (ties by key order).
    Releases evict nothing. *)
Theorem shard_operation_frame target :
  shard_ok target ->
  (forall key request, let '(_, _, target') := admitLocked target key request in
     shard_ok target' /\ framed target key (Now request) target') /\
  (forall key request, let '(_, _, _, target') := acquireLocked target key request in
     shard_ok target' /\ framed target key (Now (lr_Request request)) target') /\
  (forall l, let '(_, target') := releaseLocked target l in
     shard_ok target' /\ dom (states target') = dom (states target) /\
     forall k, k <> leaseKey l -> states target' !! k = states target !! k).
Proof.
  intros Hok. split_and!.
  - intros key request. destruct (admitLocked target key request) as [[d e] t'] eqn:E.
    by eapply admitLocked_frame.
  - intros key request. destruct (acquireLocked target key request) as [[[l d] e] t'] eqn:E.
    by eapply acquireLocked_frame.
  - intros l. destruct (releaseLocked target l) as [e t'] eqn:E.
    destruct (releaseLocked_frame target l e t' zeroTime Hok E) as (Hok' & [_ Hk] & Hdom).
    split_and!; try done. intros k Hne. destruct (Hk k Hne) as [|[Hnone _]]; [done|].
    assert (k ∉ dom (states target)) as Hd by (rewrite <- Hdom; by apply not_elem_of_dom).
    apply not_elem_of_dom in Hd. congruence.
Qed.

(** ** The store *)

(** One critical section on a key of the shard. *)
Inductive shard_step (key : string) (t t' : shard) : Prop :=
| shard_admit request d e : admitLocked t key request = (d, e, t') -> shard_step key t t'
| shard_acquire request l d e : acquireLocked t key request = (l, d, e, t') -> shard_step key t t'
| shard_release l e : leaseKey l = key -> releaseLocked t l = (e, t') -> shard_step key t t'
| shard_idle : t' = t -> shard_step key t t'.

(** One step of a goroutine on the store, under the lock of one shard. *)
Inductive store_step (s s' : Store) : Prop :=
| step_key i key t t' :
    shards s !! i = Some t -> shardIndex s key = Some i -> shard_step key t t' ->
    s' = mkStore (<[i := t']> (shards s)) (closed s) -> store_step s s'
| step_sweep i t now idleFor n t' :
    shards s !! i = Some t -> sweepShard now idleFor t = (n, t') ->
    s' = mkStore (<[i := t']> (shards s)) (closed s) -> store_step s s'
| step_close : s' = mkStore (shards s) true -> store_step s s'.

Lemma shard_step_keys key t t' :
  shard_ok t -> shard_step key t t' ->
  shard_ok t' /\ same_shape t t' /\
  forall k, k <> key -> states t' !! k = states t !! k \/ states t' !! k = None.
Proof.
  intros Hok H. assert (exists now, shard_ok t' /\ framed t key now t') as (now & Hok' & Hs & Hk).
  { destruct H as [request d e E|request l d e E|l e <- E| ->].
    - exists (Now request). by eapply admitLocked_frame.
    - exists (Now (lr_Request request)). by eapply acquireLocked_frame.
    - destruct (releaseLocked_frame t l e t' zeroTime Hok E) as (? & ? & _). by exists zeroTime.
    - exists zeroTime. split; [done|apply framed_refl]. }
  split_and!; try done; try apply Hs. intros k Hne. destruct (Hk k Hne) as [|[? _]]; auto.
Qed.

Lemma sweepShard_keys now idleFor t n t' :
  sweepShard now idleFor t = (n, t') ->
  same_shape t t' /\ (size (states t') <= size (states t))%nat /\
  n = Z.of_nat (size (states t)) - Z.of_nat (size (states t')) /\
  (forall k s, states t' !! k = Some s <->
     exists s0, states t !! k = Some s0 /\ swept now idleFor s0 = false /\ s = sweepState now s0).
Proof.
  intros [= <- <-]. split; [by split|]. simpl. rewrite map_size_fmap. split_and!; [|done|].
  - apply map_size_filter.
  - intros k s. rewrite lookup_fmap, fmap_Some. setoid_rewrite map_lookup_filter_Some. simpl. split.
    + intros (s0 & [Hs0 Hf] & ->). by exists s0.
    + intros (s0 & Hs0 & Hf & ->). by exists s0.
Qed.

Lemma shardIndex_insert s i t b key :
  shardIndex (mkStore (<[i := t]> (shards s)) b) key = shardIndex s key.
Proof.
  unfold shardIndex; simpl. destruct (shards s) as [|x xs] eqn:E; simpl; [by destruct i|].
  destruct i; simpl; rewrite ?length_insert; done.
Qed.

Lemma quota_insert targets i t t' :
  targets !! i = Some t -> maxKeys t' = maxKeys t -> quota (<[i := t']> targets) = quota targets.
Proof.
  revert i. induction targets as [|x xs IH]; intros [|i]; simpl; try done.
  - by intros [= ->] ->.
  - intros Hi Hm. by rewrite (IH i Hi Hm).
Qed.

Lemma keys_within_quota targets : Forall shard_ok targets -> keys_in targets <= quota targets.
Proof. induction 1 as [|t ts [_ Ht] _ IH]; simpl; lia. Qed.

(** The invariant of a store: its geometry, its quota, and that every key lives
    in the shard of its hash. *)
Record store_ok (n : nat) (q : Z) (s : Store) : Prop := {
  store_length : length (shards s) = n;
  store_quota : quota (shards s) = q;
  store_shards : Forall shard_ok (shards s);
  store_placed : forall i t k st,
    shards s !! i = Some t -> states t !! k = Some st -> shardIndex s k = Some i
}.

Lemma store_write n q s i t t' b :
  store_ok n q s -> shards s !! i = Some t -> shard_ok t' -> maxKeys t' = maxKeys t ->
  (forall k st, states t' !! k = Some st -> shardIndex s k = Some i) ->
  store_ok n q (mkStore (<[i := t']> (shards s)) b).
Proof.
  intros [Hl Hq Hs Hp] Hi Hok Hm Hk. split; simpl.
  - by rewrite length_insert.
  - by rewrite (quota_insert _ _ t).
  - by apply Forall_insert.
  - intros j t0 k st Hj Hst. rewrite shardIndex_insert.
    destruct (decide (i = j)) as [<-|Hne].
    + rewrite list_lookup_insert_eq in Hj by (by eapply lookup_lt_Some). simplify_eq. by eapply Hk.
    + rewrite list_lookup_insert_ne in Hj by done. by eapply Hp.
Qed.

Lemma store_step_ok n q s s' : store_ok n q s -> store_step s s' -> store_ok n q s'.
Proof.
  intros Hs Hstep. pose proof Hs as [Hl Hq Hf Hp].
  destruct Hstep as [i key t t' Hi Hkey Hstep ->|i t now idleFor m t' Hi E ->| ->].
  - assert (shard_ok t) as Hok by (by eapply Forall_lookup_1).
    destruct (shard_step_keys key t t' Hok Hstep) as (Hok' & [Hm _] & Hk).
    eapply store_write; try done. intros k st Hst. destruct (decide (k = key)) as [->|Hne]; [done|].
    destruct (Hk k Hne) as [E|E]; rewrite E in Hst; [by eapply Hp|done].
  - assert (shard_ok t) as [Hm0 Hok] by (by eapply Forall_lookup_1).
    destruct (sweepShard_keys _ _ _ _ _ E) as ([Hm Hr] & Hsz & _ & Hk).
    eapply store_write; try done; [split; [by rewrite Hm|rewrite Hm; lia]|].
    intros k st Hst. apply Hk in Hst as (s0 & Hs0 & _). by eapply Hp.
  - by split.
Qed.

Lemma New_ok options store :
  New options = Ok store -> store_ok (Z.to_nat (Shards options)) (MaxKeys options) store.
Proof.
  intros H. pose proof (New_shape options store H) as (Hl & Hq & Hf). split; try done; [lia|..].
  - eapply Forall_impl; [exact Hf|]. intros t [E Hm]. split; [done|]. rewrite E, map_size_empty. simpl. lia.
  - intros i t k st Hi Hst. rewrite Forall_lookup in Hf. destruct (Hf i t Hi) as [E _].
    by rewrite E, lookup_empty in Hst.
Qed.

(** ** Interleaved operations *)

Lemma store_step_length s s' : store_step s s' -> length (shards s') = length (shards s).
Proof.
  by intros [i key t t' _ _ _ ->|i t now idleFor n t' _ _ ->| ->]; simpl; rewrite ?length_insert.
Qed.

Lemma steps_length s s' : rtc store_step s s' -> length (shards s') = length (shards s).
Proof. induction 1 as [|s1 s2 s3 H _ IH]; [done|]. by rewrite IH, (store_step_length _ _ H). Qed.

Lemma shardIndex_length s s' key :
  length (shards s') = length (shards s) -> shardIndex s' key = shardIndex s key.
Proof.
  unfold shardIndex. destruct (shards s), (shards s'); simpl; try done. by intros [= ->].
Qed.

Lemma shardIndex_bound s key i : shardIndex s key = Some i -> (i < length (shards s))%nat.
Proof.
  unfold shardIndex. destruct (shards s) as [|t ts]; [done|]. intros [= <-].
  pose proof (Z.mod_pos_bound (fnv64a key) (Z.of_nat (length (t :: ts)))). simpl length in *. lia.
Qed.

Lemma shardIndex_defined s key : shards s <> [] -> exists i, shardIndex s key = Some i.
Proof. unfold shardIndex. destruct (shards s); [done|eauto]. Qed.

Section Interleaving.
Context {W : Type} `{HasStore W} (waitLock : nat -> W -> W).
Implicit Types (w : W) (ctx : Context W).

(** The steps between two worlds, and a call that returns after some. *)
Definition steps w w' : Prop := rtc store_step (theStore w) (theStore w').
Definition completes {A} (c : M W A) w : Prop := exists a w', returns c w a w' /\ steps w w'.

#[local] Instance steps_trans : Transitive steps.
Proof. intros w1 w2 w3 H1 H2. unfold steps in *. by etrans. Qed.

(** Other goroutines only run operations of the store. *)
Hypothesis Hwait : forall i w, steps w (waitLock i w).
Definition cooperative ctx : Prop := forall w, steps w (ctxErr ctx w).2.

Lemma completes_bind {A B} (c : M W A) (k : A -> M W B) w :
  completes c w -> (forall a w', steps w w' -> completes (k a) w') -> completes (c ≫= k) w.
Proof.
  intros (a & w1 & Hc & H1) Hk. destruct (Hk a w1 H1) as (b & w2 & Hb & H2).
  exists b, w2. split; [|by etrans]. apply bind_returns. eauto.
Qed.

Lemma completes_ret {A} (a : A) w : completes (mret a) w.
Proof. exists a, w. split; [by apply ret_returns|apply rtc_refl]. Qed.

Lemma completes_lift ctx w : cooperative ctx -> completes (lift (ctxErr ctx)) w.
Proof.
  intros Hc. exists (ctxErr ctx w).1, (ctxErr ctx w).2. split; [|apply Hc].
  apply lift_returns. by destruct (ctxErr ctx w).
Qed.

Lemma completes_closed w : completes isClosed w.
Proof. exists (closed (theStore w)), w. split; [done|apply rtc_refl]. Qed.

Lemma completes_criticalAt {A} i (body : shard -> A * shard) w :
  (i < length (shards (theStore w)))%nat ->
  (forall s t, steps w (withStore s w) -> shards s !! i = Some t ->
     store_step s (mkStore (<[i := (body t).2]> (shards s)) (closed s))) ->
  completes (criticalAt waitLock i body) w.
Proof.
  intros Hi Hbody. unfold completes, returns, criticalAt. pose proof (Hwait i w) as Hw.
  set (w1 := waitLock i w) in *.
  destruct (lookup_lt_is_Some_2 (shards (theStore w1)) i) as [t Ht];
    [by rewrite (steps_length _ _ Hw)|].
  rewrite Ht. specialize (Hbody (theStore w1) t).
  destruct (body t) as [a t']. eexists _, _. split; [done|].
  unfold steps in *. rewrite theStore_with. eapply rtc_r; [exact Hw|].
  apply Hbody; [by rewrite theStore_with|done].
Qed.

Lemma completes_critical {A} key (body : shard -> A * shard) w :
  shards (theStore w) <> [] -> (forall t, shard_step key t (body t).2) ->
  completes (critical waitLock key body) w.
Proof.
  intros Hne Hbody. unfold completes, returns, critical.
  destruct (shardIndex_defined (theStore w) key Hne) as [i Hi]. rewrite Hi.
  apply completes_criticalAt; [by eapply shardIndex_bound|].
  intros s t Hs Ht. eapply step_key; try done.
  unfold steps in Hs. rewrite theStore_with in Hs.
  by rewrite (shardIndex_length _ _ _ (steps_length _ _ Hs)).
Qed.

Lemma completes_indices {A} (k : list nat -> M W A) w :
  completes (k (seq 0 (length (shards (theStore w))))) w -> completes (shardIndices ≫= k) w.
Proof. done. Qed.

Lemma completes_sweep now idleFor indices : forall removed w,
  Forall (fun i => (i < length (shards (theStore w)))%nat) indices ->
  completes (sweepLoop waitLock now idleFor indices removed) w.
Proof.
  induction indices as [|i rest IH]; intros removed w Hf; simpl; [apply completes_ret|].
  apply Forall_cons in Hf as [Hi Hf]. apply completes_bind.
  - apply completes_criticalAt; [done|]. intros s t _ Ht.
    destruct (sweepShard now idleFor t) as [n t'] eqn:E. by eapply step_sweep.
  - intros n w' Hw. apply IH. by rewrite (steps_length _ _ Hw).
Qed.

Lemma admit_shard_step key request t :
  shard_step key t (admitLocked t key request).2.
Proof. destruct (admitLocked t key request) as [[d e] t'] eqn:E. by eapply shard_admit. Qed.

Lemma acquire_shard_step key request t :
  shard_step key t (acquireLocked t key request).2.
Proof. destruct (acquireLocked t key request) as [[[l d] e] t'] eqn:E. by eapply shard_acquire. Qed.

Lemma release_shard_step l t : shard_step (leaseKey l) t (releaseLocked t l).2.
Proof. destruct (releaseLocked t l) as [e t'] eqn:E. by eapply shard_release. Qed.

Lemma steps_nonempty w w' : steps w w' -> shards (theStore w) <> [] -> shards (theStore w') <> [].
Proof.
  intros Hs Hne E. apply steps_length in Hs. rewrite E in Hs. by destruct (shards (theStore w)).
Qed.

(** The checks every operation makes before it indexes a shard. *)
Lemma completes_preflight {A} ctx w (shut : A) (fail : error -> A) (k : M W A) :
  shards (theStore w) <> [] -> cooperative ctx ->
  (forall w', shards (theStore w') <> [] -> completes k w') ->
  completes (b ← isClosed; if (b : bool) then mret shut else
             done ← lift (ctxErr ctx);
             match done with Some err => mret (fail err) | None => k end) w.
Proof.
  intros Hne Hctx Hk. apply completes_bind; [apply completes_closed|].
  intros [] w1 H1; [apply completes_ret|]. apply completes_bind; [by apply completes_lift|].
  intros [err|] w2 H2; [apply completes_ret|]. apply Hk. eapply steps_nonempty; [|done]. by etrans.
Qed.

(** On a store with at least one shard, every operation returns (none
    panics) and amounts to a sequence of single-shard critical sections, its
    own and those of the goroutines that run while it waits for a lock or
    reads its context. *)
Theorem memory_operations_complete ctx w :
  shards (theStore w) <> [] -> cooperative ctx ->
  (forall request, completes (Admit waitLock ctx request) w) /\
  (forall request, completes (Acquire waitLock ctx request) w) /\
  (forall l, completes (Release waitLock ctx l) w) /\
  (forall now idleFor, completes (Sweep waitLock now idleFor) w) /\
  completes Close w.
Proof.
  intros Hne Hctx. split_and!.
  - intros request. apply completes_preflight; try done. intros w' Hw.
    repeat case_match; try apply completes_ret. by apply completes_critical, admit_shard_step.
  - intros request. apply completes_preflight; try done. intros w' Hw.
    repeat case_match; try apply completes_ret. by apply completes_critical, acquire_shard_step.
  - intros l. apply completes_preflight; try done. intros w' Hw.
    by apply completes_critical, release_shard_step.
  - intros now idleFor. unfold Sweep. apply completes_bind; [apply completes_closed|].
    intros [] w1 H1; [apply completes_ret|]. repeat case_match; try apply completes_ret.
    apply completes_indices. apply completes_bind; [|intros; apply completes_ret].
    apply completes_sweep, Forall_forall. intros i Hi%elem_of_seq. lia.
  - unfold Close, completes, returns. eexists _, _. split; [done|]. unfold steps. rewrite theStore_with.
    apply rtc_once. by apply step_close.
Qed.
End Interleaving.

(** C25: the cardinality bound, under every interleaving.  From a store built by
    [New], any sequence of admissions, acquisitions, releases, sweeps and closes
    on any keys leaves at most [MaxKeys] keys in the store, at most each shard's
    share in that shard, and every key in the shard of its hash. *)
Theorem memory_cardinality_bound options s0 s :
  New options = Ok s0 -> rtc store_step s0 s ->
  keys_in (shards s) <= MaxKeys options /\
  Forall (fun t => Z.of_nat (size (states t)) <= maxKeys t) (shards s) /\
  (forall i t k st, shards s !! i = Some t -> states t !! k = Some st -> shardIndex s k = Some i).
Proof.
  intros HNew Hsteps. pose proof (New_ok _ _ HNew) as H0.
  assert (store_ok (Z.to_nat (Shards options)) (MaxKeys options) s) as [_ Hq Hs Hp].
  { clear HNew. induction Hsteps as [|s1 s2 s3 Hstep _ IH]; [done|]. apply IH. by eapply store_step_ok. }
  split_and!; [|by eapply Forall_impl; [exact Hs|]; intros t []|done].
  rewrite <- Hq. by apply keys_within_quota.
Qed.

(** ** Sharing and revisions *)

Lemma identifier_free s : validPolicyIdentifier s 64 = true -> free_of (Ascii.ascii_of_nat 0) s.
Proof.
  rewrite validPolicyIdentifier_spec. unfold identifier. rewrite <- all_bytes_Forall. intros [_ H].
  revert H. apply all_bytes_mono. intros c Hc. apply negb_true_iff, Z.eqb_neq. intros ->. by vm_compute in Hc.
Qed.

Lemma stateKey_inv r r' :
  validPolicyIdentifier (id (req_Policy r)) 64 = true ->
  validPolicyIdentifier (id (req_Policy r')) 64 = true -> stateKey r = stateKey r' ->
  id (req_Policy r) = id (req_Policy r') /\ key_value (req_Key r) = key_value (req_Key r').
Proof.
  intros Hr Hr'. unfold stateKey, NUL. simpl. intros E.
  by apply separator_inj in E; [|by apply identifier_free..].
Qed.

(** The budget of a request is that of its policy identifier and key alone:
    for constructed policies two requests have the same state key exactly when
    both agree. *)
Theorem stateKey_injective r r' :
  validPolicyIdentifier (id (req_Policy r)) 64 = true ->
  validPolicyIdentifier (id (req_Policy r')) 64 = true ->
  (stateKey r = stateKey r' <->
   id (req_Policy r) = id (req_Policy r') /\ key_value (req_Key r) = key_value (req_Key r')).
Proof.
  intros Hr Hr'. split; [|unfold stateKey; by intros [-> ->]]. by apply stateKey_inv.
Qed.

(** A policy rollout never refills.  When a request carries a new revision
    for an existing key, the tokens do not grow (and are clamped to the new
    limit), the fractional token is dropped, refilling restarts no earlier than
    before, and window usage, segments and leases are all retained. *)
Theorem revision_never_refills target key request current target' s :
  states target !! key = Some current ->
  getOrCreate target key request = (Ok s, target') ->
  target' = setStates target (<[key := s]> (states target)) /\
  used s = used current /\ segments s = segments current /\ leases s = leases current /\
  lastSeen s = lastSeen current /\ windowStart s = windowStart current /\
  instant (lastRefill current) <= instant (lastRefill s) /\ tokens s <= tokens current /\
  (st_revision current <> revision (req_Policy request) ->
   st_revision s = revision (req_Policy request) /\ remainder s = 0 /\
   (st_algorithm current = TokenBucket -> tokens s <= Limit (req_Policy request))).
Proof.
  intros Hk. unfold getOrCreate. rewrite Hk. case_bool_decide as Hrev; simpl.
  - intros [= <- <-]. split_and!; try done; lia.
  - intros [= <- <-]. split_and!; try done; simpl.
    + unfold After. destruct (Z.ltb_spec (instant (lastRefill current)) (instant (Now request))); simpl; lia.
    + case_bool_decide; lia.
    + intros _. split_and!; try done. intros Hal. rewrite bool_decide_eq_true_2 by done. lia.
Qed.

(** ** Concrete stores *)
Module DemoStore.
Definition options : Options := mkOptions 3 2 false.
Definition store : Store :=
  mkStore [mkShard 2 false ∅; mkShard 1 false ∅] false.
Definition request (key : string) (us : Z) : Request :=
  mkRequest (policy_of quickstart) (mkKey key "principal") 1 (mkTime (1700000000000000000 + us * 1000) UTC).
(** A shard of two keys, full. *)
Definition full : shard :=
  (admitLocked (admitLocked (mkShard 2 false ∅) "a" (request "a" 0)).2 "b" (request "b" 1)).2.
#[global] Instance store_world : HasStore Store := {| theStore s := s; withStore s _ := s; theStore_with _ _ := eq_refl |}.
End DemoStore.

Lemma shard_operation_frame_witness :
  let '(_, _, target') := admitLocked DemoStore.full "c" (DemoStore.request "c" 2) in
  shard_ok target' /\ framed DemoStore.full "c" (Now (DemoStore.request "c" 2)) target'.
Proof.
  apply (shard_operation_frame DemoStore.full). split; vm_compute; discriminate.
Defined.

(** The eviction of that witness takes place: the oldest key is gone. *)
Example eviction_happens :
  states (admitLocked DemoStore.full "c" (DemoStore.request "c" 2)).2 !! "a" = None /\
  is_Some (states (admitLocked DemoStore.full "c" (DemoStore.request "c" 2)).2 !! "b").
Proof. split; [vm_compute; reflexivity|]. eexists. vm_compute. reflexivity. Qed.

(** An admission as a step of the store. *)
Definition admitted (key : string) (s : Store) : Store :=
  match shardIndex s key with
  | Some i => match shards s !! i with
              | Some t => mkStore (<[i := (admitLocked t key (DemoStore.request key 0)).2]> (shards s)) (closed s)
              | None => s
              end
  | None => s
  end.

Lemma admitted_steps key s s' : rtc store_step (admitted key s) s' -> rtc store_step s s'.
Proof.
  intros H. unfold admitted in H. destruct (shardIndex s key) as [i|] eqn:Hi; [|done].
  destruct (shards s !! i) as [t|] eqn:Ht; [|done].
  eapply rtc_l; [|exact H]. eapply step_key; try done. apply admit_shard_step.
Qed.

(** Five keys on a store of three: it ends with three of them. *)
Lemma memory_cardinality_bound_witness :
  let s := fold_right admitted DemoStore.store ["e"; "d"; "c"; "b"; "a"] in
  rtc store_step DemoStore.store s /\ keys_in (shards s) = 3 /\ keys_in (shards s) <= MaxKeys DemoStore.options.
Proof.
  intros s. assert (New DemoStore.options = Ok DemoStore.store) as HNew by reflexivity.
  assert (rtc store_step DemoStore.store s) as Hs.
  { do 5 eapply admitted_steps. apply rtc_refl. }
  split; [exact Hs|]. split; [vm_compute; reflexivity|].
  exact (proj1 (memory_cardinality_bound DemoStore.options DemoStore.store s HNew Hs)).
Defined.

Lemma stateKey_injective_witness :
  stateKey (DemoStore.request "a" 0) = stateKey (DemoStore.request "a" 9) <->
  "login" = "login" /\ "a" = "a".
Proof.
  exact (stateKey_injective (DemoStore.request "a" 0) (DemoStore.request "a" 9) eq_refl eq_refl).
Defined.
