(* ===== verification/MemoryStrict.v ===== *)
(** * The strict operations of the in-memory backend (memory/strict.go)

    [AdmitStrict], [AcquireStrict] and [ReleaseStrict] wait for a shard's mutex
    with the caller's context, re-check the context under the lock, validate the
    effective time range, and check the times of the result.  A nil [*Store] is
    not represented: a world always holds a store, possibly without shards. *)

From S2P Require Import Prelude GoTime GoHash Errors Keys Policy Backend MemoryState MemoryStore.

Local Open Scope string_scope.
Local Open Scope Z_scope.

(** [time.Time.Truncate] and [UTC] of the request's time. *)
Definition truncateNow (request : Request) : Request :=
  withNow request (toUTC (TruncateMicro (Now request))).

Definition validateStrictDecisionTime (d : Decision) (effective : Time) : option error :=
  if negb (IsZero (Reset d)) && Before (Reset d) effective then Some (Sent ErrCorrupt) else None.

Definition validateStrictEffectiveRange (effective : Time) (duration : Duration) : option error :=
  let micros := UnixMicro effective in
  let durationMicros := Microseconds duration in
  if (micros <? - maxExactInteger) || (durationMicros <=? 0) ||
     (maxExactInteger -i durationMicros <? micros)
  then Some (Sent ErrOverflow) else None.

Definition validateStrictLeaseTime (l : Lease) (d : Decision) (effective : Time) : option error :=
  match validateStrictDecisionTime d effective with
  | Some err => Some err
  | None =>
      if negb (IsZero (ExpiresAt l)) &&
         (negb (After (ExpiresAt l) effective) || negb (Equal (ExpiresAt l) (Reset d)))
      then Some (Sent ErrCorrupt) else None
  end.

Definition strictDecisionResult (d : Decision) (err : option error) (effective : Time)
    : Decision * option error :=
  match validateStrictDecisionTime d effective with
  | Some timeErr => (emptyDecision, Some timeErr)
  | None => (d, err)
  end.

Definition strictLeaseResult (l : Lease) (d : Decision) (err : option error) (effective : Time)
    : Lease * Decision * option error :=
  match validateStrictLeaseTime l d effective with
  | Some timeErr => (zeroLease, emptyDecision, Some timeErr)
  | None => (l, d, err)
  end.

(** The strict window policies refuse a period change of a live key. *)
Definition periodChanged (current : state) (request : Request) : bool :=
  (bool_decide (algorithm (req_Policy request) = FixedWindow) ||
   bool_decide (algorithm (req_Policy request) = SlidingWindow)) &&
  negb (windowPeriod current =? 0) && negb (windowPeriod current =? period (req_Policy request)).

Definition later (t u : Time) : Time := if After u t then u else t.

(** The body of [AdmitStrict] under the lock. *)
Definition admitStrictLocked (key : string) (request : Request) (target : shard)
    : Decision * option error * shard :=
  let existing := states target !! key in
  if match existing with Some current => periodChanged current request | None => false end
  then (emptyDecision, Some (Sent ErrCorrupt), target) else
  let effective := match existing with
                   | Some current => later (Now request) (lastSeen current)
                   | None => Now request
                   end in
  match validateStrictEffectiveRange effective (period (req_Policy request)) with
  | Some err => (emptyDecision, Some err, target)
  | None =>
      let '(d, err, target) := admitLocked target key request in
      let effective := match states target !! key with
                       | Some current => lastSeen current
                       | None => effective
                       end in
      (strictDecisionResult d err effective, target)
  end.

(** The body of [AcquireStrict] under the lock. *)
Definition acquireStrictLocked (key : string) (request : LeaseRequest) (target : shard)
    : Lease * Decision * option error * shard :=
  let effective := match states target !! key with
                   | Some current => later (Now (lr_Request request)) (lastSeen current)
                   | None => Now (lr_Request request)
                   end in
  match validateStrictEffectiveRange effective (lease (req_Policy (lr_Request request))) with
  | Some err => (zeroLease, emptyDecision, Some err, target)
  | None =>
      let '(l, d, err, target) := acquireLocked target key request in
      let effective := match states target !! key with
                       | Some current => lastSeen current
                       | None => effective
                       end in
      (strictLeaseResult l d err effective, target)
  end.

Section StrictOps.
Context {W : Type} `{HasStore W}.

(** [LockContext] on a shard's mutex: whether it was acquired before the
    context was done, and what other goroutines did meanwhile. *)
Context (lockContext : nat -> Context W -> W -> bool * W).

Definition strictContext (ctx : Context W) : M W (option error) :=
  first ← lift (ctxErr ctx);
  if directError first CtxCanceled then mret (Some CanceledOutcome) else
  second ← lift (ctxErr ctx);
  if directError second CtxDeadlineExceeded then mret (Some DeadlineOutcome) else
  mret None.

(** [errors.Is(err, target) || ctx.Err() == target] *)
Definition isOrContext (ctx : Context W) (err : error) (target : Sentinel) : M W bool :=
  if errorsIsAt err target then mret true else
  late ← lift (ctxErr ctx); mret (directError late target).

Definition strictError (ctx : Context W) (err : error) : M W error :=
  canceled ← isOrContext ctx err CtxCanceled;
  if (canceled : bool) then mret CanceledOutcome else
  expired ← isOrContext ctx err CtxDeadlineExceeded;
  if (expired : bool) then mret DeadlineOutcome else mret err.

Definition LockContext (i : nat) (ctx : Context W) : M W (option error) :=
  acquired ← lift (lockContext i ctx);
  if (acquired : bool) then mret None else lift (ctxErr ctx).

(** Run a critical section on the shard of a key under the caller's context:
    lock, re-check the context, run and unlock. *)
Definition strictCritical {A} (ctx : Context W) (key : string) (fail : error -> A)
    (body : shard -> A * shard) : M W A :=
  index ← (fun w => (Ret (shardIndex (theStore w) key), w));
  match index with
  | None => panic
  | Some i =>
      locked ← LockContext i ctx;
      match locked with
      | Some err => normalized ← strictError ctx err; mret (fail normalized)
      | None =>
          done ← lift (ctxErr ctx);
          match done with
          | Some err => normalized ← strictError ctx err; mret (fail normalized)
          | None => criticalAt (fun _ w => w) i body
          end
      end
  end.

Definition noShards : M W bool := fun w =>
  (Ret (match shards (theStore w) with [] => true | _ => false end), w).

Definition AdmitStrict (ctx : iface (Context W)) (request : Request) : M W (Decision * option error) :=
  empty ← noShards;
  if (empty : bool)
  then mret (emptyDecision, Some (errorf ErrInvalidPolicy "backend is nil or uninitialized")) else
  match ctx with
  | nil_iface | typed_nil _ => mret (emptyDecision, invalidRequest "context is required")
  | iface_of ctx =>
      match Validate request with
      | Some err => mret (emptyDecision, Some err)
      | None =>
          early ← strictContext ctx;
          match early with
          | Some err => mret (emptyDecision, Some err)
          | None =>
              shut ← isClosed;
              if (shut : bool) then mret (emptyDecision, Some (Sent ErrUnavailable)) else
              if bool_decide (algorithm (req_Policy request) = Concurrency)
              then mret (emptyDecision, Some (Sent ErrUnsupported)) else
              let request := truncateNow request in
              let key := stateKey request in
              strictCritical ctx key (fun err => (emptyDecision, Some err))
                             (admitStrictLocked key request)
          end
      end
  end.

Definition AcquireStrict (ctx : iface (Context W)) (request : LeaseRequest)
    : M W (Lease * Decision * option error) :=
  empty ← noShards;
  if (empty : bool)
  then mret (zeroLease, emptyDecision,
             Some (errorf ErrInvalidPolicy "backend is nil or uninitialized")) else
  match ctx with
  | nil_iface | typed_nil _ => mret (zeroLease, emptyDecision, invalidRequest "context is required")
  | iface_of ctx =>
      match LeaseRequest_Validate request with
      | Some err => mret (zeroLease, emptyDecision, Some err)
      | None =>
          early ← strictContext ctx;
          match early with
          | Some err => mret (zeroLease, emptyDecision, Some err)
          | None =>
              shut ← isClosed;
              if (shut : bool) then mret (zeroLease, emptyDecision, Some (Sent ErrUnavailable)) else
              let request := mkLeaseRequest (truncateNow (lr_Request request)) (LeaseID request) in
              let key := stateKey (lr_Request request) in
              strictCritical ctx key (fun err => (zeroLease, emptyDecision, Some err))
                             (acquireStrictLocked key request)
          end
      end
  end.

Definition ReleaseStrict (ctx : iface (Context W)) (l : Lease) : M W (option error) :=
  empty ← noShards;
  if (empty : bool) then mret (Some (errorf ErrInvalidPolicy "backend is nil or uninitialized")) else
  match ctx with
  | nil_iface | typed_nil _ => mret (invalidRequest "context is required")
  | iface_of ctx =>
      if bool_decide (lease_ID l = EmptyString) || bool_decide (lease_PolicyID l = EmptyString) ||
         bool_decide (key_value (lease_Key l) = EmptyString) || (lease_Cost l =? 0) ||
         IsZero (ExpiresAt l)
      then mret (Some (Sent ErrInvalidRequest)) else
      early ← strictContext ctx;
      match early with
      | Some err => mret (Some err)
      | None =>
          shut ← isClosed;
          if (shut : bool) then mret (Some (Sent ErrUnavailable)) else
          strictCritical ctx (leaseKey l) Some (fun target => releaseLocked target l)
      end
  end.

(** [*memory.Store] as a [StrictBackend] and a [StrictLeaseBackend]. *)
Definition memoryStrictBackend : StrictBackend W :=
  mkStrictBackend Name (fun ctx => AdmitStrict (iface_of ctx))
    (Some (mkStrictLeaseBackend (fun ctx => AcquireStrict (iface_of ctx))
                                (fun ctx => ReleaseStrict (iface_of ctx)))) None.
End StrictOps.
