(* ===== verification/MemoryContract.v ===== *)
(** * The in-memory store keeps the strict backend contract

    [TrustedBackend] is what the strict service needs of a backend: every
    admission of a valid request returns, and returns an answer of the documented
    table.  A strict service over such a backend never reports an unknown
    outcome.  The in-memory store is an instance, for registered policies, times
    in range and contexts that behave as the standard library documents, whatever
    other goroutines do to the store in between. *)

From S2P Require Import Prelude GoTime GoHash Errors Keys Policy Backend StrictService StrictFacts.
From S2P Require Import MemoryState TokenBucket Windows SlidingWindow MemoryStore StoreFacts MemoryStrict.

Local Open Scope string_scope.
Local Open Scope Z_scope.

(** ** The interface *)

Section Interface.
Context {W : Type}.

(** An answer of the table other than a declared unknown outcome. *)
Definition certain (request : Request) (raw : Decision) (rawErr : option error) : Prop :=
  admit_trusted request raw rawErr /\
  forall c, rawErr <> Some (strictOutcomeError strictOutcomeUnknown c).

Class TrustedBackend (inv : W -> Prop) (ctx_ok : Context W -> Prop) (req_ok : Request -> Prop)
    (backend : StrictBackend W) : Prop := trusted_admit :
  forall ctx request w, inv w -> ctx_ok ctx -> req_ok request -> Validate request = None ->
    exists raw rawErr w', returns (Backend.AdmitStrict backend ctx request) w (raw, rawErr) w' /\
                          certain request raw rawErr /\ inv w'.
End Interface.

(** ** Decisions of the algorithms are complete *)

(** A decision the service certifies, and that is not before the present. *)
Definition complete (request : Request) (now : Time) (d : Decision) (e : option error) : Prop :=
  instant now <= instant (Reset d) /\
  (e = None /\ completeAllowed d request = true \/
   e = Some (Sent ErrRejected) /\ completeRejected d request = true).

Lemma limit_u64 p c : wf_policy p -> 1 <= c <= maxCost p -> Limit p -u c = Limit p - c /\ maxCost p <= Limit p.
Proof.
  intros Hwf Hc. pose proof (Limit_wf p Hwf) as HL. destruct Hwf as [_ ? ? ? ? _ _ _ _ _].
  split; [apply u64_id; unfold is_u64; lia|lia].
Qed.

Lemma complete_allowed request now limit remaining reset :
  wf_policy (req_Policy request) -> 1 <= Cost request <= maxCost (req_Policy request) ->
  limit = Limit (req_Policy request) -> remaining <= limit - Cost request ->
  zero_instant < instant now <= instant reset ->
  complete request now (decision true limit remaining reset 0 ReasonAllowed) None.
Proof.
  intros Hwf Hc -> Hr Hz. split; [simpl; lia|]. left. split; [done|].
  destruct (limit_u64 _ _ Hwf Hc) as [E _]. unfold completeAllowed, IsZero; simpl.
  rewrite E, Z.eqb_refl, (proj2 (Z.leb_le _ _) Hr), (proj2 (Z.eqb_neq _ _)) by lia. done.
Qed.

Lemma complete_rejected request now limit remaining reset retry :
  limit = Limit (req_Policy request) -> remaining < Cost request -> 0 <= retry ->
  zero_instant < instant now <= instant reset ->
  complete request now (decision false limit remaining reset retry ReasonLimited) (Some (Sent ErrRejected)).
Proof.
  intros -> Hr Hretry Hz. split; [simpl; lia|]. right. split; [done|].
  unfold completeRejected, IsZero; simpl.
  rewrite Z.eqb_refl, (proj2 (Z.ltb_lt _ _) Hr), (proj2 (Z.leb_le _ _) Hretry), (proj2 (Z.eqb_neq _ _)) by lia.
  done.
Qed.

(** [refillDuration] is never negative, whatever the state holds. *)
Lemma refillDuration_nonneg tok rem p : 1 <= capacity p -> 0 <= refillDuration tok rem p.
Proof.
  intros Hc. unfold refillDuration. destruct (tok =? 0); [lia|].
  unfold Mul64, Sub64, Div64. set (hi := (_ - 0 - _) mod two64). set (lo := (_ - rem - 0) mod two64).
  assert (0 <= hi) by (apply Z.mod_pos_bound; lia). assert (0 <= lo) by (apply Z.mod_pos_bound; lia).
  destruct (capacity p <=? hi); [lia|].
  assert (0 <= (hi * two64 + lo) / capacity p) by (apply Z.div_pos; lia).
  set (q := if negb _ then _ else _).
  assert (0 <= q) by (unfold q; case_match; [apply u64_range|done]).
  change (u64 (MaxInt64 ÷ 1000)) with 9223372036854775.
  destruct (Z.ltb_spec 9223372036854775 q); [lia|]. rewrite (i64_id q), i64_id by (unfold is_i64; lia). lia.
Qed.

(** The fields an admission leaves alone, whatever the algorithm, and those a
    token admission leaves alone. *)
Definition same_identity (s s' : state) : Prop :=
  lastSeen s' = lastSeen s /\ st_algorithm s' = st_algorithm s /\ st_revision s' = st_revision s /\
  windowPeriod s' = windowPeriod s.
Definition same_window (s s' : state) : Prop :=
  same_identity s s' /\ used s' = used s /\ segments s' = segments s.

(** [refill] leaves a token count between zero and the limit. *)
Lemma refill_tokens s r :
  wf_policy (req_Policy r) -> algorithm (req_Policy r) = TokenBucket ->
  0 <= tokens s <= Limit (req_Policy r) -> 0 <= remainder s < two64 ->
  0 <= tokens (refill s r) <= Limit (req_Policy r) /\ 0 <= remainder (refill s r) < two64 /\
  same_window s (refill s r).
Proof.
  intros Hwf Hal Ht Hr. destruct (token_policy _ Hwf Hal) as (Hcap & HL & Hb & Hlim & Hpm & _ & Hf & _).
  assert (period_micros (req_Policy r) <= maxExactInteger) by (unfold full_level in Hf; nia).
  unfold refill. rewrite period_u64 by done. case_match; [done|].
  destruct (Z.eqb_spec (tokens s) (Limit (req_Policy r))).
  { simpl. split; [lia|]. split; [lia|]. done. }
  unfold Mul64, Add64, Div64. case_match.
  { simpl. split; [lia|]. split; [lia|]. done. }
  simpl. match goal with |- context [Z.min ?x _] => set (sum := x) end.
  assert (0 <= sum) by (unfold sum; apply u64_range).
  split; [lia|]. split; [|done]. destruct (_ =? _); [lia|].
  match goal with |- context [?v mod period_micros _] => pose proof (Z.mod_pos_bound v (period_micros (req_Policy r))) end.
  lia.
Qed.

Lemma admitToken_complete s r :
  wf_policy (req_Policy r) -> algorithm (req_Policy r) = TokenBucket ->
  1 <= Cost r <= maxCost (req_Policy r) -> zero_instant < instant (Now r) ->
  0 <= tokens s <= Limit (req_Policy r) -> 0 <= remainder s < two64 ->
  let '(d, e, s') := admitToken s r in
  complete r (Now r) d e /\ 0 <= tokens s' <= Limit (req_Policy r) /\ 0 <= remainder s' < two64 /\
  same_window s s'.
Proof.
  intros Hwf Hal Hc Hz Ht Hr. destruct (refill_tokens s r Hwf Hal Ht Hr) as (Ht' & Hr' & Hsame).
  destruct (token_policy _ Hwf Hal) as (Hcap & _ & _ & Hlim & _).
  unfold admitToken. set (s1 := refill s r) in *.
  destruct (Z.ltb_spec (tokens s1) (Cost r)).
  - split_and!; try done; try apply Hsame; try lia.
    apply complete_rejected; try done; [by apply refillDuration_nonneg|]. unfold Add; simpl.
    pose proof (refillDuration_nonneg (Limit (req_Policy r) -u tokens s1) (remainder s1) _ Hcap). lia.
  - rewrite (u64_id (tokens s1 - Cost r)) by (unfold is_u64; lia). simpl.
    split_and!; try done; try apply Hsame; try lia.
    apply complete_allowed; try done; [lia|]. unfold Add; simpl.
    pose proof (refillDuration_nonneg (Limit (req_Policy r) -u (tokens s1 - Cost r)) (remainder s1) _ Hcap). lia.
Qed.

(** Consuming from a window, whatever usage the state recorded. *)
Lemma consumeWindow_complete s r reset :
  wf_policy (req_Policy r) -> 1 <= Cost r <= maxCost (req_Policy r) -> 0 <= used s ->
  zero_instant < instant (Now r) <= instant reset ->
  let '(d, e, s') := consumeWindow s r reset in
  complete r (Now r) d e /\ 0 <= used s' /\ s' = setWindow s (windowStart s) (used s').
Proof.
  intros Hwf Hc Hu Hz. pose proof (Limit_wf _ Hwf) as HL. pose proof (wf_limit _ Hwf) as Hlim.
  destruct (limit_u64 _ _ Hwf Hc) as [_ Hmax].
  unfold consumeWindow. set (limit := Limit (req_Policy r)) in *.
  rewrite (u64_id (limit - _)) by (unfold is_u64; lia).
  destruct (Z.ltb_spec (limit - Z.min (used s) limit) (Cost r)).
  - split_and!; try done; [|by destruct s]. apply complete_rejected; try done. unfold nonnegative. lia.
  - rewrite (u64_id (used s + Cost r)) by (unfold is_u64; lia). simpl.
    rewrite (u64_id (limit - _)) by (unfold is_u64; lia).
    split_and!; try done; [|lia]. apply complete_allowed; try done. fold limit. lia.
Qed.

(** The window algorithms compute in range when the request's time is. *)
Lemma admitFixed_complete s r :
  wf_policy (req_Policy r) -> algorithm (req_Policy r) = FixedWindow ->
  1 <= Cost r <= maxCost (req_Policy r) -> window_time (req_Policy r) (Now r) -> 0 <= used s ->
  let '(d, e, s') := admitFixed s r in
  complete r (Now r) d e /\ 0 <= used s' /\ same_identity s s'.
Proof.
  intros Hwf Hal Hc [Hlo Hhi] Hu. destruct (window_policy _ Hwf Hal) as (Hper & _).
  unfold admitFixed, UnixNano. rewrite (i64_id (instant (Now r))) by (unfold is_i64; lia).
  rewrite floorBoundary_floor by (unfold is_i64; lia).
  set (k := instant (Now r) / period (req_Policy r)).
  assert (instant (Now r) < k * period (req_Policy r) + period (req_Policy r) <= instant (Now r) + period (req_Policy r))
    as Hk by (unfold k; zlia).
  rewrite (i64_id (k * _ + _)) by (unfold is_i64; lia).
  set (s0 := if negb _ then _ else _).
  assert (0 <= used s0 /\ same_identity s s0) as [Hu0 Hid] by (unfold s0; case_match; by split).
  pose proof (consumeWindow_complete s0 r (ofUnixNano (k * period (req_Policy r) + period (req_Policy r)))) as H.
  destruct (consumeWindow s0 r _) as [[d e] s'].
  destruct (H Hwf Hc Hu0 ltac:(simpl; lia)) as (Hd & Hu' & ->). by split_and!; try apply Hid.
Qed.

(** The segments a sliding state may hold: grants, none of them in the future. *)
Definition ring_past (size top : Z) (segs : list segment) : Prop :=
  Forall (fun g => 0 <= seg_used g /\ (seg_used g = 0 \/ seg_index g <= top / size)) segs.

Lemma scanSegments_shape o segs : forall use e,
  0 <= use -> exists use' e', scanSegments o segs use e = (map (expire o) segs, use', e') /\ 0 <= use' /\
                              earliest_of o segs e e'.
Proof.
  induction segs as [|g segs IH]; intros use e Hu; simpl.
  { exists use, e. split; [done|]. split; [done|]. split_and!; [lia| |by left]. by intros g ?%elem_of_nil. }
  unfold expire at 1. destruct (Z.leb_spec (seg_index g) o).
  - destruct (IH use e Hu) as (use' & e' & -> & Hu' & He). exists use', e'. split_and!; try done.
    apply earliest_skip; [|done]. intros []; lia.
  - destruct (IH (use +u seg_used g) (if negb (seg_used g =? 0) then Z.min e (seg_index g) else e))
      as (use' & e' & -> & Hu' & He); [apply u64_range|]. exists use', e'. split_and!; try done.
    destruct (Z.eqb_spec (seg_used g) 0); simpl in He.
    + apply earliest_skip; [by intros []|done].
    + by apply earliest_take.
Qed.

Lemma ring_past_insert size top segs j g :
  ring_past size top segs -> 0 <= seg_used g -> seg_index g <= top / size ->
  ring_past size top (<[j := g]> segs).
Proof. intros Hf Hu Hi. apply Forall_insert; [done|]. split; [done|by right]. Qed.

Lemma ring_past_expire size top top' o segs :
  0 < size -> top <= top' -> ring_past size top segs -> ring_past size top' (map (expire o) segs).
Proof.
  intros Hs Ht Hf. apply Forall_map. eapply Forall_impl; [exact Hf|]. intros g [Hu Hi]. unfold compose, expire.
  assert (top / size <= top' / size) by (apply Z.div_le_mono; lia).
  case_match; simpl; [split; [lia|by left]|]. split; [done|]. destruct Hi; [by left|right; lia].
Qed.

(** The reset of a sliding decision is not in the past. *)
Lemma sliding_reset_future p (now last : Z) segs e :
  wf_policy p -> algorithm p = SlidingWindow -> last <= now ->
  - two63 + 2 * period p <= now -> now + 2 * period p <= MaxInt64 ->
  ring_past (segmentSize p) last segs -> earliest_of (oldest_at p now) segs MaxInt64 e ->
  now <= (if negb (e =? MaxInt64) then (e +i 1) *i segmentSize p + period p else now + period p).
Proof.
  intros Hwf Hal Hle Hlo Hhi Hpast (_ & _ & Hex). destruct (sliding_policy p Hwf Hal) as (Hp & _ & _ & Hs & _).
  destruct (Z.eqb_spec e MaxInt64) as [|Hne]; simpl; [lia|].
  destruct Hex as [|(g & Hin & [Ho Hu] & <-)]; [done|]. unfold ring_past in Hpast. rewrite Forall_forall in Hpast.
  destruct (Hpast g Hin) as [_ [|Hi]]; [done|].
  assert (last / segmentSize p <= now / segmentSize p) by (apply Z.div_le_mono; lia).
  assert (now / segmentSize p * segmentSize p <= now) by zlia.
  assert (now - period p < oldest_at p now * segmentSize p + segmentSize p) by (unfold oldest_at; zlia).
  assert (oldest_at p now * segmentSize p + segmentSize p <= seg_index g * segmentSize p)
    by (pose proof (scale_le (oldest_at p now + 1) (seg_index g) (segmentSize p)); lia).
  assert (seg_index g * segmentSize p <= now / segmentSize p * segmentSize p) by (apply scale_le; lia).
  rewrite (i64_id (seg_index g + 1)) by (unfold is_i64; nia). rewrite i64_id by (unfold is_i64; lia). lia.
Qed.

(** After the present slot is claimed it holds the present segment. *)
Lemma claimed_index (segs : list segment) slot k g :
  match segs !! slot with
  | Some s => if negb (seg_index s =? k) then <[slot := mkSegment k 0]> segs else segs
  | None => segs
  end !! slot = Some g -> seg_index g = k.
Proof.
  destruct (segs !! slot) as [g0|] eqn:Hg; [|congruence].
  destruct (Z.eqb_spec (seg_index g0) k); simpl; [congruence|].
  rewrite list_lookup_insert_eq by (by eapply lookup_lt_Some). by intros [= <-].
Qed.

Lemma admitSliding_complete s r last :
  wf_policy (req_Policy r) -> algorithm (req_Policy r) = SlidingWindow ->
  1 <= Cost r <= maxCost (req_Policy r) -> window_time (req_Policy r) (Now r) ->
  last <= instant (Now r) -> ring_past (segmentSize (req_Policy r)) last (segments s) ->
  let '(d, e, s') := admitSliding s r in
  complete r (Now r) d e /\ 0 <= used s' /\
  ring_past (segmentSize (req_Policy r)) (instant (Now r)) (segments s') /\ same_identity s s'.
Proof.
  intros Hwf Hal Hc Ht Hle Hpast. pose proof Ht as [Hlo Hhi].
  destruct (sliding_policy _ Hwf Hal) as (Hp & _ & _ & Hs & _).
  unfold admitSliding. rewrite (sliding_index _ Hwf Hal _ Ht), (sliding_oldest _ Hwf Hal _ Ht).
  set (p := req_Policy r) in *. set (now := instant (Now r)) in *.
  destruct (scanSegments_shape (oldest_at p now) (segments s) 0 MaxInt64) as (use & e & -> & Hu & He); [lia|].
  set (slot := Z.to_nat _). set (segs := match _ !! slot with Some _ => _ | None => _ end).
  assert (ring_past (segmentSize p) now segs) as Hsegs.
  { unfold segs. assert (ring_past (segmentSize p) now (map (expire (oldest_at p now)) (segments s))) as Hexp
      by (eapply ring_past_expire; [lia|exact Hle|done]).
    repeat case_match; try done. apply ring_past_insert; simpl; [done|lia|]. by unfold segment_of. }
  pose proof (sliding_reset_future p now last (segments s) e Hwf Hal Hle Hlo Hhi Hpast He) as Hfuture.
  set (reset := if negb (e =? MaxInt64) then _ else _).
  assert (instant (Now r) <= instant reset) as Hreset.
  { unfold reset. revert Hfuture. by case_match. }
  pose proof (consumeWindow_complete (setWindow (setSegments s segs) (windowStart s) use) r reset Hwf Hc Hu) as H.
  destruct (consumeWindow _ r reset) as [[d err] s1]. destruct (H ltac:(fold now; lia)) as (Hd & Hu1 & E).
  assert (segments s1 = segs /\ same_identity s s1) as [Es Hid] by (rewrite E; by split).
  destruct err as [err|]; [by rewrite Es|]. rewrite Es. destruct (segs !! slot) as [g|] eqn:Hg; [|by rewrite Es].
  split_and!; simpl; try done; try apply Hid.
  apply ring_past_insert; simpl; [done|apply u64_range|].
  assert (seg_index g = segment_of p now) as -> by (by eapply claimed_index). by unfold segment_of.
Qed.

Lemma complete_request r r' now d e :
  req_Policy r' = req_Policy r -> Cost r' = Cost r -> complete r' now d e -> complete r now d e.
Proof. unfold complete, completeAllowed, completeRejected. by intros -> ->. Qed.

Lemma certain_sentinel request s : admit_category s -> certain request emptyDecision (Some (Sent s)).
Proof.
  intros Hs. split; [|by intros c].
  destruct (decide (s = ErrUnavailable /\ mayFailOpen request = true)) as [[-> Ho]|Hn].
  - eexists _, _. eapply verdict_unavailable_open; try done. by left.
  - eexists _, _. eapply verdict_category; try done; [by left|]. intros ->.
    destruct (mayFailOpen request); [|done]. by destruct Hn.
Qed.

(** ** The invariant of the stored states *)

(** The segment size for a period; [segmentSize p] is that of [p]'s period. *)
Definition sizeFor (w : Duration) : Z := ((w +i slidingSegments) -i 1) ÷ slidingSegments.

Section Contract.
(** The policies in use, and the range of times requests may carry. *)
Context (registered : Policy -> Prop) (lo hi : Z).
Hypothesis reg_wf : forall p, registered p -> wf_policy p /\ validPolicyIdentifier (id p) 64 = true.
Hypothesis reg_unique : forall p p', registered p -> registered p' ->
  id p = id p' -> revision p = revision p' -> p = p'.
Hypothesis reg_range : forall p, registered p -> windowed (algorithm p) ->
  - two63 + 2 * period p <= lo /\ hi + 2 * period p <= MaxInt64.

Record state_ok (key : string) (s : state) : Prop := {
  ok_seen : lo <= instant (lastSeen s) <= hi;
  ok_used : 0 <= used s;
  ok_tokens : st_algorithm s = TokenBucket ->
    0 <= tokens s /\ 0 <= remainder s < two64 /\
    forall r, registered (req_Policy r) -> stateKey r = key ->
              st_revision s = revision (req_Policy r) -> tokens s <= Limit (req_Policy r);
  ok_ring : st_algorithm s = SlidingWindow ->
    windowPeriod s <> 0 /\
    ring_past (sizeFor (windowPeriod s)) (instant (lastSeen s)) (segments s)
}.

Definition request_ok (r : Request) : Prop :=
  registered (req_Policy r) /\ 0 <= Cost r /\
  lo <= instant (Now r) / 1000 * 1000 /\ instant (Now r) <= hi.

(** A request under the lock: truncated, with a valid cost, not for leases. *)
Record locked_request (r : Request) : Prop := {
  lr_registered : registered (req_Policy r);
  lr_windowed : windowed (algorithm (req_Policy r));
  lr_cost : 1 <= Cost r <= maxCost (req_Policy r);
  lr_now : lo <= instant (Now r) <= hi
}.

(** The state an admission starts from, under the policy of the request. *)
Record ready (r : Request) (s : state) : Prop := {
  ready_ok : state_ok (stateKey r) s;
  ready_algorithm : st_algorithm s = algorithm (req_Policy r);
  ready_revision : st_revision s = revision (req_Policy r);
  ready_period : algorithm (req_Policy r) = SlidingWindow -> windowPeriod s = period (req_Policy r)
}.

Lemma same_policy r r' :
  registered (req_Policy r) -> registered (req_Policy r') -> stateKey r = stateKey r' ->
  revision (req_Policy r) = revision (req_Policy r') -> req_Policy r = req_Policy r'.
Proof.
  intros H H' Hk Hrev. destruct (stateKey_inv r r') as [Hid _]; try done; [by apply reg_wf..|].
  by apply reg_unique.
Qed.

(** The effects of an admission on the invariant, by algorithm. *)
Lemma state_ok_next r s s' now :
  ready r s -> registered (req_Policy r) -> lo <= instant now <= hi ->
  same_identity (setLastSeen s now) s' -> 0 <= used s' ->
  (algorithm (req_Policy r) = TokenBucket ->
   0 <= tokens s' <= Limit (req_Policy r) /\ 0 <= remainder s' < two64) ->
  (algorithm (req_Policy r) = SlidingWindow ->
   ring_past (segmentSize (req_Policy r)) (instant now) (segments s')) ->
  state_ok (stateKey r) s'.
Proof.
  intros [Hok Halg Hrev Hper] Hreg Hnow (Hls & Ha & Hr & Hw) Hu Htok Hring. simpl in Hls, Ha, Hr, Hw.
  split; try done.
  - by rewrite Hls.
  - intros E. rewrite Ha, Halg in E. destruct (Htok E) as [? ?]. split_and!; try lia.
    intros r' Hreg' Hk Hrev'. rewrite Hr, Hrev in Hrev'.
    rewrite <- (same_policy r r'); try done. lia.
  - intros E. assert (algorithm (req_Policy r) = SlidingWindow) as Ea by congruence.
    destruct (ok_ring _ _ Hok ltac:(congruence)) as [Hne _].
    rewrite Hw, Hls. split; [done|]. rewrite (Hper Ea). by apply Hring.
Qed.

Lemma lo_not_zero r : locked_request r -> zero_instant < lo.
Proof. intros [Hreg Hw _ _]. destruct (reg_wf _ Hreg) as [Hwf _]. destruct (reg_range _ Hreg Hw).
  destruct Hwf as [_ _ _ _ _ _ _ _ _ [(_ & ? & _)|(Hc & _)]]; [lia|].
  by apply windowed_not_concurrency in Hw. Qed.

(** One admission: complete, and the invariant is kept. *)
Lemma admitState_contract r s :
  locked_request r -> ready r s ->
  let '(d, e, s') := admitState s r in
  complete r (lastSeen s') d e /\ state_ok (stateKey r) s'.
Proof.
  intros Hr Hs. pose proof (lo_not_zero r Hr) as Hz. pose proof Hr as [Hreg Hw Hc Hnow].
  pose proof Hs as [Hok Halg Hrev Hper]. pose proof Hok as [Hseen Hu Htok Hring].
  destruct (reg_wf _ Hreg) as [Hwf _]. destruct (reg_range _ Hreg Hw) as [Hlo Hhi].
  destruct (clampNow_facts s r) as (Ep & Ec & _ & En). unfold admitState. rewrite Ep.
  set (r' := clampNow s r) in *. set (s1 := setLastSeen s (Now r')).
  assert (lo <= instant (Now r') <= hi) as Hnow' by lia. rewrite <- Ep in Hwf, Hc, Hw. rewrite <- Ec in Hc.
  assert (window_time (req_Policy r') (Now r')) as Hwt by (rewrite Ep; unfold window_time; lia).
  destruct Hw as [Ha|[Ha|Ha]]; rewrite Ep in Ha; rewrite Ha; simpl.
  - destruct (Htok ltac:(congruence)) as (Ht & Hrem & Hlim).
    pose proof (admitToken_complete s1 r' Hwf ltac:(congruence) Hc ltac:(lia)
      ltac:(split; [exact Ht|rewrite Ep; by apply Hlim]) Hrem) as H.
    destruct (admitToken s1 r') as [[d e] s']. destruct H as (Hd & Ht' & Hrem' & Hid & Hu' & _).
    rewrite (proj1 Hid). split; [by eapply complete_request|]. rewrite Ep in Ht'.
    eapply state_ok_next; try done; [by rewrite Hu'|]. by rewrite Ha.
  - pose proof (admitFixed_complete s1 r' Hwf ltac:(congruence) Hc Hwt Hu) as H.
    destruct (admitFixed s1 r') as [[d e] s']. destruct H as (Hd & Hu' & Hid).
    rewrite (proj1 Hid). split; [by eapply complete_request|].
    eapply state_ok_next; try done; by rewrite Ha.
  - destruct (Hring ltac:(congruence)) as [_ Hpast]. rewrite (Hper Ha) in Hpast.
    pose proof (admitSliding_complete s1 r' (instant (lastSeen s)) Hwf ltac:(congruence) Hc Hwt
      ltac:(lia) ltac:(rewrite Ep; exact Hpast)) as H.
    destruct (admitSliding s1 r') as [[d e] s']. destruct H as (Hd & Hu' & Hpast' & Hid).
    rewrite (proj1 Hid). split; [by eapply complete_request|]. rewrite Ep in Hpast'.
    eapply state_ok_next; try done. by rewrite Ha.
Qed.

(** *** Under the lock *)

Definition shard_inv (t : shard) : Prop :=
  shard_ok t /\ forall key s, states t !! key = Some s -> state_ok key s.

Lemma newState_ready r : locked_request r -> ready r (newState r).
Proof.
  intros [Hreg Hw Hc Hnow]. destruct (reg_wf _ Hreg) as [Hwf _].
  assert (0 <= Limit (req_Policy r)) by (rewrite Limit_wf by done; destruct Hwf; lia).
  split; try done. split; simpl; try done; try lia.
  - intros _. split_and!; try done. intros r' Hreg' Hk Hrev.
    rewrite (same_policy r r'); try done.
  - intros Ha. destruct (sliding_policy _ Hwf Ha) as (? & _). split; [lia|].
    apply (Forall_replicate _ 16 zeroSegment). simpl. split; [lia|by left].
Qed.

Lemma carried_ready r s :
  locked_request r -> state_ok (stateKey r) s -> st_algorithm s = algorithm (req_Policy r) ->
  (algorithm (req_Policy r) = SlidingWindow -> windowPeriod s = period (req_Policy r)) ->
  ready r (if negb (bool_decide (st_revision s = revision (req_Policy r)))
           then carryRevision s r else s).
Proof.
  intros [Hreg Hw Hc Hnow] Hok Ha Hper. case_bool_decide as Hrev; simpl; [by split|].
  destruct (reg_wf _ Hreg) as [Hwf _]. pose proof Hok as [Hseen Hu Htok Hring].
  assert (0 <= Limit (req_Policy r)) by (rewrite Limit_wf by done; destruct Hwf; lia).
  split; try done. split; simpl; try done.
  intros E. destruct (Htok E) as (Ht & _ & _). rewrite bool_decide_eq_true_2 by done.
  split_and!; try lia. intros r' Hreg' Hk Hrev'. rewrite <- (same_policy r r'); try done. lia.
Qed.

(** Writing a good state over a framed shard. *)
Lemma shard_inv_write t key now t' s :
  shard_inv t -> framed t key now t' -> shard_ok t' -> state_ok key s ->
  shard_inv (setStates t' (<[key := s]> (states t'))) \/ states t' !! key = None.
Proof.
  intros [_ Hs] [_ Hf] Hok Hst. destruct (states t' !! key) as [s0|] eqn:Hk; [left|by right].
  split; [by apply (ok_write t' key s now Hok); left|]. intros k s1. simpl.
  destruct (decide (k = key)) as [->|Hne]; [rewrite lookup_insert_eq; by intros [= <-]|].
  rewrite lookup_insert_ne by done. destruct (Hf k Hne) as [->|[-> _]]; [apply Hs|done].
Qed.

Lemma admitLocked_contract t r :
  shard_inv t -> locked_request r ->
  match states t !! stateKey r with Some s => periodChanged s r = false | None => True end ->
  let '(d, e, t') := admitLocked t (stateKey r) r in
  shard_inv t' /\
  (d = emptyDecision /\ (e = Some (Sent ErrCorrupt) \/ e = Some (Sent ErrUnavailable)) \/
   exists s, states t' !! stateKey r = Some s /\ complete r (lastSeen s) d e).
Proof.
  intros Hinv Hr Hper. unfold admitLocked. pose proof Hinv as [Hok Hst].
  destruct (wrongAlgorithm t (stateKey r) r) eqn:Hw; [split; [done|]; left; auto|].
  pose proof (getOrCreate_spec t (stateKey r) r Hok) as Hg.
  assert (forall s t', getOrCreate t (stateKey r) r = (Ok s, t') -> ready r s) as Hready.
  { intros s t'. unfold getOrCreate. unfold wrongAlgorithm in Hw.
    destruct (states t !! stateKey r) as [s0|] eqn:Hk.
    - intros [= <- _]. btrue. apply carried_ready; try done; [by apply Hst|].
      intros Ha. unfold periodChanged in Hper. rewrite Ha in Hper. simpl in Hper.
      destruct (ok_ring _ _ (Hst _ _ Hk) ltac:(congruence)) as [Hne _].
      rewrite (proj2 (Z.eqb_neq _ _) Hne) in Hper. simpl in Hper. btrue. by apply Z.eqb_eq.
    - repeat case_match; intros; simplify_eq; by apply newState_ready. }
  destruct (getOrCreate t (stateKey r) r) as [[s|err] t1].
  - destruct Hg as (Hok1 & Hf & Hl). specialize (Hready s t1 eq_refl).
    pose proof (admitState_contract r s Hr Hready) as H.
    destruct (admitState s r) as [[d e] s']. destruct H as [Hd Hs'].
    destruct (shard_inv_write t (stateKey r) (Now r) t1 s' Hinv Hf Hok1 Hs') as [Hnew|]; [|congruence].
    split; [done|]. right. exists s'. split; [simpl; by rewrite lookup_insert_eq|done].
  - destruct Hg as (-> & -> & _). split; [done|]. left. auto.
Qed.

(** The whole critical section answers with certainty. *)
Lemma admitStrictLocked_contract t r :
  shard_inv t -> locked_request r ->
  let '(d, e, t') := admitStrictLocked (stateKey r) r t in
  shard_inv t' /\ certain r d e.
Proof.
  intros Hinv Hr. unfold admitStrictLocked.
  destruct (match states t !! stateKey r with Some s => periodChanged s r | None => false end) eqn:Hper;
    [split; [done|]; apply certain_sentinel; unfold admit_category; auto|].
  destruct (validateStrictEffectiveRange _ _) eqn:Hrange.
  { split; [done|]. unfold validateStrictEffectiveRange in Hrange. case_match; simplify_eq.
    apply certain_sentinel. unfold admit_category. auto. }
  assert (match states t !! stateKey r with Some s => periodChanged s r = false | None => True end)
    as Hkeep by (by destruct (states t !! stateKey r)).
  pose proof (admitLocked_contract t r Hinv Hr Hkeep) as H.
  destruct (admitLocked t (stateKey r) r) as [[d e] t']. destruct H as [Hinv' Hd].
  unfold strictDecisionResult, validateStrictDecisionTime.
  destruct Hd as [[-> He]|(s & Hs & Hle & Hc)].
  { simpl. split; [done|]. destruct He as [-> | ->]; apply certain_sentinel; unfold admit_category; auto. }
  rewrite Hs. unfold Before. rewrite (proj2 (Z.ltb_ge _ _) Hle), andb_false_r. split; [done|].
  destruct Hc as [[-> Hc]|[-> Hc]].
  - split; [eexists _, _; by apply verdict_allowed|done].
  - split; [|by intros c]. eexists _, _. eapply verdict_rejected; try done. by left.
Qed.
End Contract.

(** ** The instance *)

Lemma certain_withNow request t raw rawErr :
  certain (withNow request t) raw rawErr -> certain request raw rawErr.
Proof.
  intros [(d & e & H) Hn]. split; [|done].
  destruct H; eexists _, _;
    first [by apply verdict_allowed | by eapply verdict_rejected | by eapply verdict_canceled
          | by eapply verdict_deadline_open | by eapply verdict_deadline
          | by eapply verdict_declared_unknown | by eapply verdict_unavailable_open
          | by eapply verdict_category].
Qed.

Lemma certain_outcome request k c :
  k = strictOutcomeCanceled \/ k = strictOutcomeDeadline ->
  certain request emptyDecision (Some (strictOutcomeError k c)).
Proof.
  intros [-> | ->]; (split; [|done]).
  - eexists _, _. by eapply verdict_canceled.
  - destruct (mayFailOpen request) eqn:Hm; eexists _, _;
      [by eapply verdict_deadline_open|by eapply verdict_deadline].
Qed.

Section Instance.
Context {W : Type} `{HasStore W} (lockContext : nat -> Context W -> W -> bool * W).
Context (registered : Policy -> Prop) (lo hi : Z).
Hypothesis reg_wf : forall p, registered p -> wf_policy p /\ validPolicyIdentifier (id p) 64 = true.
Hypothesis reg_unique : forall p p', registered p -> registered p' ->
  id p = id p' -> revision p = revision p' -> p = p'.
Hypothesis reg_range : forall p, registered p -> windowed (algorithm p) ->
  - two63 + 2 * period p <= lo /\ hi + 2 * period p <= MaxInt64.

Definition memory_inv (w : W) : Prop :=
  shards (theStore w) <> [] /\ Forall (shard_inv registered lo hi) (shards (theStore w)).

(** What other goroutines may do: anything that keeps the invariant. *)
Definition benign (w w' : W) : Prop :=
  (memory_inv w -> memory_inv w') /\ length (shards (theStore w')) = length (shards (theStore w)).

Hypothesis lock_benign : forall i ctx w, benign w (lockContext i ctx w).2.

(** A context as the standard library documents it: [Err] is nil, [Canceled]
    or [DeadlineExceeded]. *)
Record context_ok (ctx : Context W) : Prop := {
  ctx_benign : forall w, benign w (ctxErr ctx w).2;
  ctx_standard : forall w, (ctxErr ctx w).1 = None \/ (ctxErr ctx w).1 = Some (Sent CtxCanceled) \/
                           (ctxErr ctx w).1 = Some (Sent CtxDeadlineExceeded)
}.

(** A call that returns a value with a property and keeps the invariant. *)
Definition delivers {A} (n : nat) (P : A -> Prop) (c : M W A) (w : W) : Prop :=
  exists a w', returns c w a w' /\ P a /\ memory_inv w' /\ length (shards (theStore w')) = n.

Definition good (n : nat) (w : W) : Prop := memory_inv w /\ length (shards (theStore w)) = n.

Lemma delivers_ret {A} n (P : A -> Prop) a w : good n w -> P a -> delivers n P (mret a) w.
Proof. intros [? ?] ?. exists a, w. by split_and!. Qed.

Lemma delivers_bind {A B} n (Q : A -> Prop) (P : B -> Prop) (c : M W A) (k : A -> M W B) w :
  delivers n Q c w -> (forall a w', Q a -> good n w' -> delivers n P (k a) w') ->
  delivers n P (c ≫= k) w.
Proof.
  intros (a & w1 & Hc & Hq & Hi & Hl) Hk. destruct (Hk a w1 Hq) as (b & w2 & Hb & Hp & Hi2); [by split|].
  exists b, w2. split; [|by split]. apply bind_returns. eauto.
Qed.

Definition standard_err (e : option error) : Prop :=
  e = None \/ e = Some (Sent CtxCanceled) \/ e = Some (Sent CtxDeadlineExceeded).

Lemma delivers_ctx n ctx w : context_ok ctx -> good n w -> delivers n standard_err (lift (ctxErr ctx)) w.
Proof.
  intros Hc [Hi Hl]. pose proof (ctx_standard _ Hc w) as Hs. pose proof (ctx_benign _ Hc w) as [Hb He].
  unfold delivers, returns, lift. destruct (ctxErr ctx w) as [e w']. simpl in *.
  exists e, w'. split_and!; try done; [by apply Hb|congruence].
Qed.

(** The errors of the strict operations before and under the lock. *)
Definition outcome_error (e : error) : Prop := e = CanceledOutcome \/ e = DeadlineOutcome.

Lemma delivers_strictContext n ctx w :
  context_ok ctx -> good n w ->
  delivers n (fun e => e = None \/ exists e', e = Some e' /\ outcome_error e') (strictContext ctx) w.
Proof.
  intros Hc Hg. unfold strictContext, outcome_error.
  eapply delivers_bind; [by apply delivers_ctx|]. intros e1 w1 _ Hg1.
  case_match; [by apply delivers_ret; eauto|].
  eapply delivers_bind; [by apply delivers_ctx|]. intros e2 w2 _ Hg2.
  case_match; apply delivers_ret; eauto.
Qed.

Lemma delivers_strictError n ctx e w :
  context_ok ctx -> good n w -> standard_err (Some e) -> delivers n outcome_error (strictError ctx e) w.
Proof.
  intros Hc Hg He. unfold strictError, isOrContext.
  eapply (delivers_bind n (fun b => e = Sent CtxCanceled -> b = true)).
  { case_match eqn:E; [by apply delivers_ret|].
    eapply delivers_bind; [by apply delivers_ctx|]. intros late w1 _ Hg1. apply delivers_ret; [done|].
    intros ->. done. }
  intros b w1 Hb Hg1. destruct b; [apply delivers_ret; [done|by left]|].
  eapply (delivers_bind n (fun b => b = true)).
  { destruct He as [|[He|He]]; simplify_eq; [by specialize (Hb eq_refl)|]. simpl. by apply delivers_ret. }
  intros b w2 -> Hg2. apply delivers_ret; [done|by right].
Qed.

Lemma delivers_lock n i ctx w :
  context_ok ctx -> good n w -> delivers n standard_err (LockContext lockContext i ctx) w.
Proof.
  intros Hc [Hi Hl]. unfold LockContext. pose proof (lock_benign i ctx w) as [Hb He].
  eapply (delivers_bind n (fun _ => True)).
  - unfold delivers, returns, lift. destruct (lockContext i ctx w) as [b w']. simpl in *.
    exists b, w'. split_and!; try done; [by apply Hb|congruence].
  - intros [] w' _ Hg; [by apply delivers_ret; [|left]|by apply delivers_ctx].
Qed.

(** The critical section, and everything that can keep it from running. *)
Lemma delivers_strictCritical {A} n ctx key (fail : error -> A) body (P : A -> Prop) w :
  context_ok ctx -> good n w -> (forall e, outcome_error e -> P (fail e)) ->
  (forall t, shard_inv registered lo hi t ->
     P (body t).1 /\ shard_inv registered lo hi (body t).2) ->
  delivers n P (strictCritical lockContext ctx key fail body) w.
Proof.
  intros Hc Hg Hfail Hbody. unfold strictCritical.
  destruct (shardIndex_defined (theStore w) key (proj1 (proj1 Hg))) as [i Hi].
  eapply (delivers_bind n (fun x => x = Some i)).
  { exists (Some i), w. destruct Hg as [? ?]. split_and!; try done. unfold returns. by rewrite Hi. }
  intros x w1 -> Hg1. eapply delivers_bind; [by apply delivers_lock|]. intros [e|] w2 He Hg2.
  { eapply delivers_bind; [by apply delivers_strictError|]. intros e' w3 He' Hg3. by apply delivers_ret; auto. }
  eapply delivers_bind; [by apply delivers_ctx|]. intros [e|] w3 He' Hg3.
  { eapply delivers_bind; [by apply delivers_strictError|]. intros e' w4 He'' Hg4. by apply delivers_ret; auto. }
  destruct Hg3 as [[Hne Hinv] Hl]. apply shardIndex_bound in Hi. destruct Hg as [_ Hl0].
  destruct (lookup_lt_is_Some_2 (shards (theStore w3)) i) as [t Ht]; [lia|].
  unfold delivers, returns, criticalAt. rewrite Ht. 
  destruct (Hbody t) as [Hp Hi']; [by eapply Forall_lookup_1|]. destruct (body t) as [a t'].
  eexists _, _. split; [done|]. split; [done|]. unfold memory_inv. rewrite !theStore_with. simpl.
  rewrite length_insert. split; [|done]. split; [|by apply Forall_insert].
  intros E. apply (f_equal length) in E. rewrite length_insert in E. by destruct (shards (theStore w3)).
Qed.

Lemma Validate_cost r : Validate r = None -> 0 <= Cost r -> 1 <= Cost r <= maxCost (req_Policy r).
Proof.
  unfold Validate. do 3 (case_match; [done|]).
  destruct (Z.eqb_spec (Cost r) 0); [done|].
  destruct (Z.ltb_spec (maxCost (req_Policy r)) (Cost r)); [done|]. intros _ Hc. lia.
Qed.

(** The in-memory store keeps the contract. *)
#[global] Instance memory_trusted :
  TrustedBackend memory_inv context_ok (request_ok registered lo hi) (memoryStrictBackend lockContext).
Proof.
  intros ctx request w Hinv Hctx (Hreg & Hcost & Hlo & Hhi) Hv.
  cut (delivers (length (shards (theStore w))) (fun a => certain request a.1 a.2)
         (AdmitStrict lockContext (iface_of ctx) request) w).
  { intros ([raw e] & w' & Hr & Hp & Hi & _). eauto 10. }
  unfold AdmitStrict. assert (good (length (shards (theStore w))) w) as Hg by done.
  eapply (delivers_bind _ (fun b => b = false)).
  { exists false, w. destruct Hinv as [Hne ?]. split_and!; try done. unfold returns, noShards.
    by destruct (shards (theStore w)). }
  intros b w1 -> Hg1. rewrite Hv. eapply delivers_bind; [by apply delivers_strictContext|].
  intros early w2 [->|(e & -> & [-> | ->])] Hg2.
  2, 3: apply delivers_ret; [done|]; apply certain_outcome; auto.
  eapply (delivers_bind _ (fun _ => True)).
  { exists (closed (theStore w2)), w2. destruct Hg2. by split_and!. }
  intros [] w3 _ Hg3; [apply delivers_ret; [done|]; apply certain_sentinel; by left|].
  case_bool_decide as Ha; [apply delivers_ret; [done|]; apply certain_sentinel; unfold admit_category; auto|].
  apply delivers_strictCritical; try done.
  - intros e [-> | ->]; apply certain_outcome; auto.
  - intros t Ht. assert (locked_request registered lo hi (truncateNow request)) as Hlr.
    { split; simpl; try done.
      - destruct (reg_wf _ Hreg) as [Hwf _]. destruct Hwf as [_ _ _ _ _ _ _ _ _ [[? _]|[? _]]]; done.
      - by apply Validate_cost.
      - split; [done|]. zlia. }
    pose proof (admitStrictLocked_contract registered lo hi reg_wf reg_unique reg_range t
                  (truncateNow request) Ht Hlr) as H0.
    destruct (admitStrictLocked _ _ t) as [[d e] t']. destruct H0 as [? ?]. split; [|done].
    by eapply certain_withNow.
Qed.
End Instance.

(** ** The client *)

Section Client.
Context {W : Type} (clock : W -> Z * W).
Context (inv : W -> Prop) (ctx_ok : Context W -> Prop) (req_ok : Request -> Prop).
Context (backend : StrictBackend W) `{!TrustedBackend inv ctx_ok req_ok backend}.

(** A decision the caller can act on: not an unknown outcome. *)
Definition decided (d : Decision) (e : option error) : Prop :=
  dec_Reason d <> ReasonOutcomeUnknown /\
  forall c, e <> Some (strictOutcomeError strictOutcomeUnknown c).

Lemma certain_decided service request raw rawErr d e :
  certain request raw rawErr -> admit_verdict request raw rawErr d e ->
  decided (stampDecision (W := W) service d request) e.
Proof.
  intros [_ Hn] Hv. unfold decided.
  inversion Hv as [? Hc|? ? Hd Hc| | | | c Hu| |? ? ? Hd]; subst; simpl;
    try (split; [done|]; intros ?; done).
  - unfold completeAllowed in Hc. btrue. rename select (dec_Reason d = _) into E.
    split; [by rewrite E|done].
  - unfold completeRejected in Hc. btrue. rename select (dec_Reason d = _) into E.
    split; [by rewrite E|by destruct Hd as [-> | ->]].
  - by destruct (Hn c).
Qed.

(** A call that returns, with a property of the result and the world. *)
Definition ends {A} (P : A -> W -> Prop) (c : M W A) (w : W) : Prop :=
  exists a w', returns c w a w' /\ P a w'.

Lemma ends_ret {A} (P : A -> W -> Prop) a w : P a w -> ends P (mret a) w.
Proof. intros H. exists a, w. split; [by apply ret_returns|done]. Qed.

Lemma ends_bind {A B} (Q : A -> W -> Prop) (P : B -> W -> Prop) (c : M W A) (k : A -> M W B) w :
  ends Q c w -> (forall a w', Q a w' -> ends P (k a) w') -> ends P (c ≫= k) w.
Proof.
  intros (a & w1 & Hc & Hq) Hk. destruct (Hk a w1 Hq) as (b & w2 & Hb & Hp).
  exists b, w2. split; [|done]. apply bind_returns. eauto.
Qed.

Lemma ends_lift {A} (f : W -> A * W) (P : A -> W -> Prop) w : P (f w).1 (f w).2 -> ends P (lift f) w.
Proof. intros H. exists (f w).1, (f w).2. split; [|done]. apply lift_returns. by destruct (f w). Qed.

Lemma ends_caller (ctx : Context W) w :
  (forall w, inv w -> inv (ctxErr ctx w).2) -> inv w ->
  ends (fun r w' => inv w' /\ (r = None \/ r = Some CanceledOutcome \/ r = Some DeadlineOutcome))
       (strictCallerContext ctx) w.
Proof.
  intros Hctx Hi. unfold strictCallerContext. eapply ends_bind.
  - apply (ends_lift (ctxErr ctx) (fun _ w' => inv w')). by apply Hctx.
  - intros e w' H'. apply ends_ret. split; [done|]. repeat case_match; auto.
Qed.

Lemma ends_observed service request d e started b w :
  decided d e ->
  ends (fun r _ => decided r.1.1 r.1.2)
       (_ ← observe clock service request d e started; mret (d, e, b : bool)) w.
Proof.
  intros Hd. destruct (strict_observe_returns clock service request d e started w) as [w' Hw].
  apply (ends_bind (fun _ _ => True)); [by exists tt, w'|]. intros _ w1 _. by apply ends_ret.
Qed.

(** A strict service over a backend that keeps the contract always returns and
    never reports an unknown outcome. *)
Lemma trusted_backend_never_unknown observers name ctx request w :
  (forall w, inv w -> inv (clock w).2) -> (forall w, inv w -> inv (ctxErr ctx w).2) ->
  name <> EmptyString -> inv w -> ctx_ok ctx -> req_ok request -> Validate request = None ->
  exists d e w',
    returns (StrictService.Admit clock (Some (mkStrictService (iface_of backend) observers name))
               (iface_of ctx) request) w (d, e) w' /\ decided d e.
Proof.
  intros Hclock Hctx Hname Hinv Hc Hr Hv. set (svc := mkStrictService (iface_of backend) observers name).
  cut (ends (fun r _ => decided r.1 r.2)
         (StrictService.Admit clock (Some svc) (iface_of ctx) request) w).
  { intros ([d e] & w' & H). eauto. }
  unfold StrictService.Admit, admitRequest. simpl ss_backend. cbv iota.
  rewrite (bool_decide_eq_false_2 _ Hname), Hv.
  apply (ends_bind (fun r _ => decided r.1.1 r.1.2)); [|by intros r w' Hd; apply ends_ret].
  unfold admitReady. eapply ends_bind.
  { apply (ends_lift clock (fun _ w' => inv w')). by apply Hclock. }
  intros t w1 H1. eapply ends_bind; [by apply (ends_caller ctx)|].
  intros caller w2 [H2 Hcaller]. destruct Hcaller as [->|[-> | ->]].
  - destruct (trusted_admit ctx request w2 H2 Hc Hr Hv) as (raw & rawErr & w3 & Hadmit & Hcert & _).
    apply (ends_bind (fun r _ => r = (raw, rawErr))); [by exists (raw, rawErr), w3|].
    intros r w4 ->. simpl. apply (ends_bind (fun r _ => decided r.1 r.2)).
    + destruct (normalizeAdmit_refines svc ctx request raw rawErr w4)
        as [(d & e & Hverdict & Hret)|[Hnot _]]; [|by destruct Hcert].
      eexists _, _. split; [exact Hret|]. simpl. by eapply certain_decided.
    + intros r w5 Hd. by apply ends_observed.
  - case_match; by apply ends_observed.
  - case_match; by apply ends_observed.
Qed.
End Client.

Section EndToEnd.
Context {W : Type} `{HasStore W} (lockContext : nat -> Context W -> W -> bool * W).
Context (registered : Policy -> Prop) (lo hi : Z).
Hypothesis reg_wf : forall p, registered p -> wf_policy p /\ validPolicyIdentifier (id p) 64 = true.
Hypothesis reg_unique : forall p p', registered p -> registered p' ->
  id p = id p' -> revision p = revision p' -> p = p'.
Hypothesis reg_range : forall p, registered p -> windowed (algorithm p) ->
  - two63 + 2 * period p <= lo /\ hi + 2 * period p <= MaxInt64.
Hypothesis lock_benign : forall i ctx w, benign registered lo hi w (lockContext i ctx w).2.

(** C26: [Store.AdmitStrict] keeps the strict backend contract.  For registered
    policies (identifier and revision determine the policy), times in range
    and standard contexts, every call on a valid request returns, answers with
    a complete grant, a complete rejection, a declared failure with an empty
    decision, or a cancellation or deadline outcome, and keeps the invariant
    of the stored states; whatever other goroutines do in between that keeps
    the invariant too. *)
Theorem memory_keeps_strict_contract ctx request w :
  memory_inv registered lo hi w -> context_ok registered lo hi ctx ->
  request_ok registered lo hi request -> Validate request = None ->
  exists raw rawErr w', returns (AdmitStrict lockContext (iface_of ctx) request) w (raw, rawErr) w' /\
                        certain request raw rawErr /\ memory_inv registered lo hi w'.
Proof. by apply (memory_trusted lockContext registered lo hi reg_wf reg_unique reg_range lock_benign). Qed.

(** C22: end to end, a strict service over the in-memory store always returns
    and never reports an unknown outcome: an admission of a valid request ends
    in a certified grant or rejection, a fail-open grant, or a declared
    failure. *)
Theorem memory_service_never_unknown clock observers name ctx request w :
  (forall w, memory_inv registered lo hi w -> memory_inv registered lo hi (clock w).2) ->
  name <> EmptyString -> memory_inv registered lo hi w -> context_ok registered lo hi ctx ->
  request_ok registered lo hi request -> Validate request = None ->
  exists d e w',
    returns (StrictService.Admit clock
               (Some (mkStrictService (iface_of (memoryStrictBackend lockContext)) observers name))
               (iface_of ctx) request) w (d, e) w' /\ decided d e.
Proof.
  intros Hclock Hname Hinv Hctx Hreq Hv.
  apply (trusted_backend_never_unknown clock (memory_inv registered lo hi) (context_ok registered lo hi)
           (request_ok registered lo hi)); try done.
  - by apply memory_trusted.
  - intros w' Hw. by apply (ctx_benign _ _ _ _ Hctx w').
Qed.
End EndToEnd.

(** ** The quickstart policy on a concrete store *)
Module DemoContract.
Definition registered (p : Policy) : Prop := p = policy_of quickstart.
Definition lock (i : nat) (ctx : Context Store) (s : Store) : bool * Store := (true, s).
Definition live : Context Store := mkContext (fun s => (None, s)).
Definition lo : Z := 0.
Definition hi : Z := 4000000000000000000.
End DemoContract.

Lemma demo_registered p :
  DemoContract.registered p -> wf_policy p /\ validPolicyIdentifier (id p) 64 = true.
Proof. intros ->. split; [apply quickstart_wf|vm_compute; reflexivity]. Qed.

Lemma demo_unique p p' :
  DemoContract.registered p -> DemoContract.registered p' -> id p = id p' -> revision p = revision p' -> p = p'.
Proof. by intros -> ->. Qed.

Lemma demo_range p :
  DemoContract.registered p -> windowed (algorithm p) ->
  - two63 + 2 * period p <= DemoContract.lo /\ DemoContract.hi + 2 * period p <= MaxInt64.
Proof. intros -> _. vm_compute. split; discriminate. Qed.

Lemma demo_benign (s : Store) : benign DemoContract.registered DemoContract.lo DemoContract.hi s s.
Proof. by split. Qed.

Lemma demo_inv : memory_inv DemoContract.registered DemoContract.lo DemoContract.hi DemoStore.store.
Proof.
  split; [done|]. repeat (apply Forall_cons; split; [split; [split; vm_compute; discriminate|]|]);
    [by intros key s; simpl; rewrite lookup_empty..|by apply Forall_nil].
Qed.

Lemma demo_context : context_ok DemoContract.registered DemoContract.lo DemoContract.hi DemoContract.live.
Proof. split; intros w; [apply demo_benign|by left]. Qed.

Lemma demo_request :
  request_ok DemoContract.registered DemoContract.lo DemoContract.hi quickstart_request.
Proof. split_and!; [done|vm_compute; discriminate..]. Qed.

Lemma memory_keeps_strict_contract_witness :
  exists raw rawErr (w' : Store),
    returns (AdmitStrict DemoContract.lock (iface_of DemoContract.live) quickstart_request)
            DemoStore.store (raw, rawErr) w' /\ certain quickstart_request raw rawErr.
Proof.
  destruct (memory_keeps_strict_contract DemoContract.lock DemoContract.registered DemoContract.lo
              DemoContract.hi demo_registered demo_unique demo_range (fun _ _ s => demo_benign s)
              DemoContract.live quickstart_request DemoStore.store demo_inv demo_context demo_request)
    as (raw & e & w' & Hr & Hc & _); [vm_compute; reflexivity|].
  exists raw, e, w'. exact (conj Hr Hc).
Defined.

Lemma memory_service_never_unknown_witness :
  exists d e (w' : Store),
    returns (StrictService.Admit (fun s => (0, s))
               (Some (mkStrictService (iface_of (memoryStrictBackend DemoContract.lock)) [] "memory"))
               (iface_of DemoContract.live) quickstart_request) DemoStore.store (d, e) w' /\ decided d e.
Proof.
  apply (memory_service_never_unknown DemoContract.lock DemoContract.registered DemoContract.lo
           DemoContract.hi demo_registered demo_unique demo_range (fun _ _ s => demo_benign s));
    [done | done | apply demo_inv | apply demo_context | apply demo_request | vm_compute; reflexivity].
Defined.
