(* ===== verification/PgState.v ===== *)
(** * The persisted state of the PostgreSQL backend and its algorithms
    (postgres/state.go)

    One row holds a [persistedState].  The mutators take the decoded row (or
    none) and a request and return the row to store, the decision and the error;
    the Go code mutates the decoded struct in place and every caller discards it
    when it gets nil back.  [strict] selects the integrity checks of the strict
    methods.  Times are whole microseconds ([LastMicros] and the like). *)

From S2P Require Import Prelude GoTime GoHash Errors Keys Policy.
From S2P Require Import MemoryState.

Local Open Scope string_scope.
Local Open Scope Z_scope.

Definition stateSchema : Z := 1.
Definition stateSegments : Z := 16.
Abbreviation maxExactMicros := 9007199254740991.

Record persistedSegment := mkPersistedSegment { ps_Index : Z; ps_SegUsed : Z }.
Definition emptySegment : persistedSegment := mkPersistedSegment 0 0.

Record persistedLease := mkPersistedLease { pl_Cost : Z; pl_ExpiresMicros : Z }.

#[global] Instance persistedSegment_eq_dec : EqDecision persistedSegment.
Proof. solve_decision. Defined.
#[global] Instance persistedLease_eq_dec : EqDecision persistedLease.
Proof. solve_decision. Defined.

Abbreviation persistedLeases := (gmap string persistedLease).

Record persistedState := mkPersistedState {
  ps_Schema : Z;
  ps_PolicyID : string;
  ps_Revision : string;
  ps_Algorithm : Algorithm;
  ps_Tokens : Z;
  ps_Remainder : Z;
  ps_LastMicros : Z;
  ps_ObservedMicros : Z;
  ps_Window : Z;
  ps_Used : Z;
  ps_PeriodMicros : Z;
  ps_Carried : bool;
  ps_Segments : list persistedSegment;
  ps_Leases : option persistedLeases
}.

#[global] Instance persistedState_eq_dec : EqDecision persistedState.
Proof. solve_decision. Defined.

(** ** Assignments *)

Definition setSeen (s : persistedState) (rev : string) (observed : Z) : persistedState :=
  mkPersistedState (ps_Schema s) (ps_PolicyID s) rev (ps_Algorithm s) (ps_Tokens s)
    (ps_Remainder s) (ps_LastMicros s) observed (ps_Window s) (ps_Used s) (ps_PeriodMicros s)
    (ps_Carried s) (ps_Segments s) (ps_Leases s).
Definition setTokens (s : persistedState) (tok rem last : Z) : persistedState :=
  mkPersistedState (ps_Schema s) (ps_PolicyID s) (ps_Revision s) (ps_Algorithm s) tok rem last
    (ps_ObservedMicros s) (ps_Window s) (ps_Used s) (ps_PeriodMicros s) (ps_Carried s)
    (ps_Segments s) (ps_Leases s).
Definition setUsage (s : persistedState) (window use : Z) (carried : bool) : persistedState :=
  mkPersistedState (ps_Schema s) (ps_PolicyID s) (ps_Revision s) (ps_Algorithm s) (ps_Tokens s)
    (ps_Remainder s) (ps_LastMicros s) (ps_ObservedMicros s) window use (ps_PeriodMicros s)
    carried (ps_Segments s) (ps_Leases s).
Definition setPeriod (s : persistedState) (micros : Z) : persistedState :=
  mkPersistedState (ps_Schema s) (ps_PolicyID s) (ps_Revision s) (ps_Algorithm s) (ps_Tokens s)
    (ps_Remainder s) (ps_LastMicros s) (ps_ObservedMicros s) (ps_Window s) (ps_Used s) micros
    (ps_Carried s) (ps_Segments s) (ps_Leases s).
Definition setPersistedSegments (s : persistedState) (segs : list persistedSegment)
    : persistedState :=
  mkPersistedState (ps_Schema s) (ps_PolicyID s) (ps_Revision s) (ps_Algorithm s) (ps_Tokens s)
    (ps_Remainder s) (ps_LastMicros s) (ps_ObservedMicros s) (ps_Window s) (ps_Used s)
    (ps_PeriodMicros s) (ps_Carried s) segs (ps_Leases s).
Definition setPersistedLeases (s : persistedState) (ls : persistedLeases) : persistedState :=
  mkPersistedState (ps_Schema s) (ps_PolicyID s) (ps_Revision s) (ps_Algorithm s) (ps_Tokens s)
    (ps_Remainder s) (ps_LastMicros s) (ps_ObservedMicros s) (ps_Window s) (ps_Used s)
    (ps_PeriodMicros s) (ps_Carried s) (ps_Segments s) (Some ls).

(** ** Helpers *)

Definition floor (value size : Z) : Z :=
  let quotient := value ÷ size in
  if Z.rem value size =? 0 then quotient *i size else
  let quotient := if Z.shiftr value 63 =? -1 then quotient -i 1 else quotient in
  quotient *i size.

Definition positiveRemainder (value modulus : Z) : Z :=
  let result := Z.rem value modulus in
  if Z.shiftr result 63 =? -1 then result +i modulus else result.

Definition validPersistedMicros (value : Z) : bool :=
  (- maxExactMicros <=? value) && (value <=? maxExactMicros).

Definition usageExceedsLimit (use limit : Z) : bool := limit <? use.

Definition usesWindowMetadata (algorithm : Algorithm) : bool :=
  bool_decide (algorithm = FixedWindow) || bool_decide (algorithm = SlidingWindow).

Definition recordWindowPeriod (s : persistedState) (policy : Policy) : persistedState :=
  if usesWindowMetadata (algorithm policy)
  then setPeriod s (Microseconds (period policy)) else s.

(** [validateServerClockRange] of postgres/strict.go. *)
Definition validateServerClockRange (now : Time) (duration : Duration) : option error :=
  let micros := UnixMicro now in
  let durationMicros := Microseconds duration in
  if (micros <? - maxExactMicros) || (durationMicros <=? 0) ||
     (maxExactMicros -i durationMicros <? micros)
  then Some (Sent ErrOverflow) else None.

Definition lowerHexByte (c : Z) : bool := in_range 48 57 c || in_range 97 102 c.

Definition validLeaseDigest (digest : string) : bool :=
  (strlen digest =? 64) && all_bytes lowerHexByte digest.

(** ** Token bucket *)

Definition tokenDuration (tok rem : Z) (policy : Policy) : Duration :=
  if tok =? 0 then 0 else
  let period := u64 (Microseconds (period policy)) in
  let '(high, low) := Mul64 tok period in
  let '(low, borrow) := Sub64 low rem 0 in
  let '(high, _) := Sub64 high 0 borrow in
  if capacity policy <=? high then MaxInt64 else
  let '(micros, rest) := Div64 high low (capacity policy) in
  let micros := if negb (rest =? 0) then micros +u 1 else micros in
  if u64 (MaxInt64 ÷ Microsecond) <? micros then MaxInt64 else
  i64 (micros *u Microsecond).

(** The refill at the head of [mutateToken]. *)
Definition refillToken (current : persistedState) (request : Request) : persistedState :=
  let policy := req_Policy request in
  let now := UnixMicro (Now request) in
  let period := u64 (Microseconds (period policy)) in
  let elapsedDuration := Sub (ofUnixMicro now) (ofUnixMicro (ps_LastMicros current)) in
  if elapsedDuration <? Microsecond then current else
  if negb (ps_Tokens current <? Limit policy)
  then setTokens current (ps_Tokens current) (ps_Remainder current) now else
  let elapsed := u64 (Microseconds elapsedDuration) in
  let '(high, low) := Mul64 elapsed (capacity policy) in
  let '(low, carry) := Add64 low (ps_Remainder current) 0 in
  let '(high, _) := Add64 high carry 0 in
  if period <=? high then setTokens current (Limit policy) 0 now else
  let '(added, rest) := Div64 high low period in
  let gap := Limit policy -u ps_Tokens current in
  if gap <=? added then setTokens current (Limit policy) 0 now
  else setTokens current (ps_Tokens current +u added) rest now.

Definition mutateToken (current : persistedState) (request : Request)
    : persistedState * Decision * option error :=
  let policy := req_Policy request in
  let current := refillToken current request in
  let limit := Limit policy in
  if ps_Tokens current <? Cost request then
    let retry := tokenDuration (Cost request -u ps_Tokens current) (ps_Remainder current) policy in
    let reset := tokenDuration (limit -u ps_Tokens current) (ps_Remainder current) policy in
    (current,
     decision false limit (ps_Tokens current) (Add (Now request) reset) retry ReasonLimited,
     Some (Sent ErrRejected))
  else
    let current := setTokens current (ps_Tokens current -u Cost request) (ps_Remainder current)
                             (ps_LastMicros current) in
    let reset := tokenDuration (limit -u ps_Tokens current) (ps_Remainder current) policy in
    (current,
     decision true limit (ps_Tokens current) (Add (Now request) reset) 0 ReasonAllowed, None).

(** ** Windows *)

Definition consume (current : persistedState) (request : Request) (reset : Time)
    : persistedState * Decision * option error :=
  let limit := Limit (req_Policy request) in
  let use := Z.min (ps_Used current) limit in
  let remaining := limit -u use in
  if remaining <? Cost request then
    (current,
     decision false limit remaining reset (Z.max (Sub reset (Now request)) 0) ReasonLimited,
     Some (Sent ErrRejected))
  else
    let current := setUsage current (ps_Window current) (ps_Used current +u Cost request)
                            (ps_Carried current) in
    (current, decision true limit (limit -u ps_Used current) reset 0 ReasonAllowed, None).

Definition mutateFixed (current : persistedState) (request : Request)
    : persistedState * Decision * option error :=
  let period := Microseconds (period (req_Policy request)) in
  let window := floor (UnixMicro (Now request)) period in
  let current := if negb (ps_Window current =? window)
                 then setUsage current window 0 (ps_Carried current) else current in
  let '(current, d, err) := consume current request (ofUnixMicro (window +i period)) in
  (setUsage current (ps_Window current) (ps_Used current)
     (usageExceedsLimit (ps_Used current) (Limit (req_Policy request))), d, err).

(** The segment width of a policy in microseconds and the segment of a time. *)
Definition segmentWidth (policy : Policy) : Z :=
  ((Microseconds (period policy) +i stateSegments) -i 1) ÷ stateSegments.
Definition segmentAt (policy : Policy) (t : Time) : Z :=
  floor (UnixMicro t) (segmentWidth policy) ÷ segmentWidth policy.
Definition oldestSegment (request : Request) : Z :=
  segmentAt (req_Policy request)
    (Add (Now request) (i64 (- period (req_Policy request)))).

(** The first loop of [mutateSliding]: the live usage and the earliest live
    segment. *)
Fixpoint liveUsage (oldest : Z) (segs : list persistedSegment) (use earliest : Z) : Z * Z :=
  match segs with
  | [] => (use, earliest)
  | s :: rest =>
      if oldest <? ps_Index s then
        liveUsage oldest rest (use +u ps_SegUsed s)
          (if negb (ps_SegUsed s =? 0) then Z.min earliest (ps_Index s) else earliest)
      else liveUsage oldest rest use earliest
  end.

(** The second loop: clear what has expired. *)
Definition clearExpired (oldest : Z) : list persistedSegment -> list persistedSegment :=
  map (fun s => if ps_Index s <=? oldest then emptySegment else s).

(** [if Segments[slot].Index != index { Segments[slot] = {Index: index} }]. *)
Definition claimSlot (slot : nat) (index : Z) (segs : list persistedSegment)
    : list persistedSegment :=
  match segs !! slot with
  | Some s => if negb (ps_Index s =? index) then <[slot := mkPersistedSegment index 0]> segs
              else segs
  | None => segs
  end.

(** [Segments[slot].Used += cost]. *)
Definition addToSlot (slot : nat) (cost : Z) (segs : list persistedSegment)
    : list persistedSegment :=
  match segs !! slot with
  | Some s => <[slot := mkPersistedSegment (ps_Index s) (ps_SegUsed s +u cost)]> segs
  | None => segs
  end.

Definition slidingReset (request : Request) (earliest : Z) : Time :=
  let policy := req_Policy request in
  if negb (earliest =? MaxInt64)
  then Add (ofUnixMicro ((earliest +i 1) *i segmentWidth policy)) (period policy)
  else Add (Now request) (period policy).

Definition mutateSliding (current : persistedState) (request : Request)
    : persistedState * Decision * option error :=
  let policy := req_Policy request in
  let index := segmentAt policy (Now request) in
  let oldest := oldestSegment request in
  let '(use, earliest) := liveUsage oldest (ps_Segments current) 0 MaxInt64 in
  let segs := clearExpired oldest (ps_Segments current) in
  let current := setUsage current (ps_Window current) use
                          (usageExceedsLimit use (Limit policy)) in
  let slot := Z.to_nat (positiveRemainder index stateSegments) in
  let current := setPersistedSegments current (claimSlot slot index segs) in
  let '(current, d, err) := consume current request (slidingReset request earliest) in
  match err with
  | None => (setPersistedSegments current (addToSlot slot (Cost request) (ps_Segments current)), d, err)
  | Some _ => (current, d, err)
  end.

(** The released variant clears and sums in one loop and leaves [Carried]. *)
Fixpoint scanLegacy (oldest : Z) (segs : list persistedSegment) (use earliest : Z)
    : list persistedSegment * Z * Z :=
  match segs with
  | [] => ([], use, earliest)
  | s :: rest =>
      if ps_Index s <=? oldest then
        let '(rest, use, earliest) := scanLegacy oldest rest use earliest in
        (emptySegment :: rest, use, earliest)
      else
        let '(rest, use, earliest) :=
          scanLegacy oldest rest (use +u ps_SegUsed s)
            (if negb (ps_SegUsed s =? 0) then Z.min earliest (ps_Index s) else earliest) in
        (s :: rest, use, earliest)
  end.

Definition mutateSlidingLegacy (current : persistedState) (request : Request)
    : persistedState * Decision * option error :=
  let policy := req_Policy request in
  let index := segmentAt policy (Now request) in
  let oldest := oldestSegment request in
  let '(segs, use, earliest) := scanLegacy oldest (ps_Segments current) 0 MaxInt64 in
  let current := setUsage current (ps_Window current) use (ps_Carried current) in
  let slot := Z.to_nat (positiveRemainder index stateSegments) in
  let current := setPersistedSegments current (claimSlot slot index segs) in
  let '(current, d, err) := consume current request (slidingReset request earliest) in
  match err with
  | None => (setPersistedSegments current (addToSlot slot (Cost request) (ps_Segments current)), d, err)
  | Some _ => (current, d, err)
  end.

(** ** Strict integrity checks of a sliding row *)

Fixpoint sumStrict (oldest : Z) (segs : list persistedSegment) (use : Z) : Z * bool :=
  match segs with
  | [] => (use, false)
  | s :: rest =>
      if ps_Index s <=? oldest then sumStrict oldest rest use else
      if maxExactMicros -u use <? ps_SegUsed s then (0, true) else
      sumStrict oldest rest (use +u ps_SegUsed s)
  end.

Definition strictSlidingUsage (current : persistedState) (request : Request) : Z * bool :=
  sumStrict (oldestSegment request) (ps_Segments current) 0.

(** A live segment lies in the slot of its index and not in the future. *)
Definition slotMisplaced (oldest top : Z) (slot : nat) (s : persistedSegment) : bool :=
  negb ((ps_SegUsed s =? 0) || (ps_Index s <=? oldest)) &&
  ((top <? ps_Index s) || negb (positiveRemainder (ps_Index s) stateSegments =? Z.of_nat slot)).

Fixpoint misplacedFrom (oldest top : Z) (slot : nat) (segs : list persistedSegment) : bool :=
  match segs with
  | [] => false
  | s :: rest => slotMisplaced oldest top slot s || misplacedFrom oldest top (S slot) rest
  end.

Definition validateSlidingPositions (current : persistedState) (request : Request)
    : option error :=
  if misplacedFrom (oldestSegment request) (segmentAt (req_Policy request) (Now request)) 0
                   (ps_Segments current)
  then Some (Sent ErrCorrupt) else None.

(** ** Admission *)

Definition mutation : Type := option persistedState * Decision * option error.

Definition refused (s : Sentinel) : mutation := (None, emptyDecision, Some (Sent s)).

(** The integrity checks of a strict admission on the decoded row. *)
Definition corruptRow (current : persistedState) (policy : Policy) : bool :=
  let sameRevision := bool_decide (ps_Revision current = revision policy) in
  if negb (validPersistedMicros (ps_ObservedMicros current)) then true else
  if bool_decide (ps_Algorithm current = TokenBucket) then
    negb (validPersistedMicros (ps_LastMicros current)) ||
    (maxExactMicros <? ps_Remainder current) ||
    (sameRevision && (u64 (Microseconds (period policy)) <=? ps_Remainder current)) ||
    (sameRevision && (Limit policy <? ps_Tokens current))
  else if bool_decide (ps_Algorithm current = FixedWindow) then
    negb (validPersistedMicros (ps_Window current)) || (maxExactMicros <? ps_Used current) ||
    (sameRevision && (Limit policy <? ps_Used current) && negb (ps_Carried current))
  else if bool_decide (ps_Algorithm current = SlidingWindow) then
    existsb (fun s => negb (validPersistedMicros (ps_Index s)) || (maxExactMicros <? ps_SegUsed s))
            (ps_Segments current)
  else false.

Definition freshRow (request : Request) : persistedState :=
  let policy := req_Policy request in
  {| ps_Schema := stateSchema; ps_PolicyID := id policy; ps_Revision := revision policy;
     ps_Algorithm := algorithm policy; ps_Tokens := Limit policy; ps_Remainder := 0;
     ps_LastMicros := UnixMicro (Now request); ps_ObservedMicros := UnixMicro (Now request);
     ps_Window := 0; ps_Used := 0; ps_PeriodMicros := 0; ps_Carried := false;
     ps_Segments := replicate 16 emptySegment; ps_Leases := None |}.

(** The row to work on: a fresh one, or the stored one once it is checked. *)
Definition loadedRow (current : option persistedState) (request : Request) (strict : bool)
    : result Sentinel persistedState :=
  let policy := req_Policy request in
  match current with
  | None =>
      let row := freshRow request in
      Ok (if strict then recordWindowPeriod row policy else row)
  | Some row =>
      if negb (ps_Schema row =? stateSchema) then Err ErrCorrupt else
      if negb (bool_decide (ps_PolicyID row = id policy)) then Err ErrCorrupt else
      if negb (bool_decide (ps_Algorithm row = algorithm policy)) then Err ErrCorrupt else
      if strict && corruptRow row policy then Err ErrCorrupt else Ok row
  end.

(** The strict checks that need the effective time, and the adjustment of a
    token row to a new revision. *)
Definition strictChecks (current : persistedState) (request : Request)
    : result error persistedState :=
  let policy := req_Policy request in
  match validateServerClockRange (Now request) (period policy) with
  | Some err => Err err
  | None =>
      if usesWindowMetadata (algorithm policy) && negb (ps_PeriodMicros current =? 0) &&
         negb (ps_PeriodMicros current =? Microseconds (period policy))
      then Err (Sent ErrCorrupt) else
      let sliding := bool_decide (algorithm policy = SlidingWindow) in
      match (if sliding then validateSlidingPositions current request else None) with
      | Some err => Err err
      | None =>
          let '(use, overflow) := strictSlidingUsage current request in
          if sliding &&
             (overflow ||
              bool_decide (ps_Revision current = revision policy) &&
              usageExceedsLimit use (Limit policy) && negb (ps_Carried current))
          then Err (Sent ErrCorrupt) else
          let current :=
            if bool_decide (algorithm policy = TokenBucket) &&
               negb (bool_decide (ps_Revision current = revision policy))
            then setTokens current (Z.min (ps_Tokens current) (Limit policy)) 0
                   (Z.max (ps_LastMicros current) (UnixMicro (Now request)))
            else current in
          Ok (recordWindowPeriod current policy)
      end
  end.

Definition mutateStateMode (current : option persistedState) (request : Request) (strict : bool)
    : mutation :=
  let policy := req_Policy request in
  if strict && bool_decide (algorithm policy = FixedWindow) &&
     negb (validPersistedMicros
             (floor (UnixMicro (Now request)) (Microseconds (period policy))))
  then refused ErrOverflow else
  match loadedRow current request strict with
  | Err s => refused s
  | Ok current =>
      let requestedMicros := UnixMicro (Now request) in
      let observedMicros := Z.max requestedMicros (ps_ObservedMicros current) in
      let request := if negb (observedMicros =? requestedMicros)
                     then withNow request (toUTC (ofUnixMicro observedMicros)) else request in
      match (if strict then strictChecks current request else Ok current) with
      | Err err => (None, emptyDecision, Some err)
      | Ok current =>
          let current := setSeen current (revision policy) (UnixMicro (Now request)) in
          let '(current, d, err) :=
            if bool_decide (algorithm policy = TokenBucket) then mutateToken current request else
            if bool_decide (algorithm policy = FixedWindow) then mutateFixed current request else
            if negb strict then mutateSlidingLegacy current request
            else mutateSliding current request in
          (Some current, d, err)
      end
  end.

Definition mutateState (current : option persistedState) (request : Request) : mutation :=
  mutateStateMode current request true.
Definition mutateStateLegacy (current : option persistedState) (request : Request) : mutation :=
  mutateStateMode current request false.

(** ** Leases *)

Definition postgresLease (request : LeaseRequest) (expiresAt : Time) : Lease :=
  let r := lr_Request request in
  mkLease (LeaseID request) (req_Key r) (id (req_Policy r)) (revision (req_Policy r)) (Cost r)
          expiresAt "postgres".

(** The loop of [validateConcurrencyState] over the leases, in some order. *)
Fixpoint validLeaseEntries (ls : list (string * persistedLease)) (total : Z) : bool :=
  match ls with
  | [] => true
  | (digest, l) :: rest =>
      if negb (validLeaseDigest digest) then false else
      if pl_Cost l =? 0 then false else
      if MaxConcurrencyLeases <? pl_Cost l then false else
      if MaxConcurrencyLeases -u total <? pl_Cost l then false else
      if negb (validPersistedMicros (pl_ExpiresMicros l)) then false else
      validLeaseEntries rest (total +u pl_Cost l)
  end.

Definition persistedLeasesOf (s : persistedState) : persistedLeases := default ∅ (ps_Leases s).

Definition validateConcurrencyState (current : persistedState) (policyID : string)
    : option error :=
  if negb (ps_Schema current =? stateSchema) then Some (Sent ErrCorrupt) else
  if negb (bool_decide (ps_PolicyID current = policyID)) then Some (Sent ErrCorrupt) else
  if negb (bool_decide (ps_Algorithm current = Concurrency)) then Some (Sent ErrCorrupt) else
  if negb (validPersistedMicros (ps_ObservedMicros current)) then Some (Sent ErrCorrupt) else
  if validLeaseEntries (map_to_list (persistedLeasesOf current)) 0 then None
  else Some (Sent ErrCorrupt).

(** The pruning loop: the weight and the earliest expiry of the live leases, or
    nothing when a live lease is corrupt.  [delete] inside the loop keeps the
    live entries. *)
Fixpoint pruneLoop (now : Z) (ls : list (string * persistedLease)) (use earliest : Z)
    : option (Z * Z) :=
  match ls with
  | [] => Some (use, earliest)
  | (_, l) :: rest =>
      if pl_ExpiresMicros l <=? now then pruneLoop now rest use earliest else
      if pl_Cost l =? 0 then None else
      if MaxConcurrencyLeases <? pl_Cost l then None else
      if MaxConcurrencyLeases -u pl_Cost l <? use then None else
      pruneLoop now rest (use +u pl_Cost l) (Z.min earliest (pl_ExpiresMicros l))
  end.

Definition livePersisted (now : Z) (ls : persistedLeases) : persistedLeases :=
  filter (fun kl => now < pl_ExpiresMicros kl.2) ls.

Definition leaseMutation : Type := option persistedState * Lease * Decision * option error.

Definition refusedLease (err : error) : leaseMutation :=
  (None, zeroLease, emptyDecision, Some err).

Definition freshLeaseRow (request : LeaseRequest) : persistedState :=
  let policy := req_Policy (lr_Request request) in
  {| ps_Schema := stateSchema; ps_PolicyID := id policy; ps_Revision := revision policy;
     ps_Algorithm := Concurrency; ps_Tokens := 0; ps_Remainder := 0; ps_LastMicros := 0;
     ps_ObservedMicros := 0; ps_Window := 0; ps_Used := 0; ps_PeriodMicros := 0;
     ps_Carried := false; ps_Segments := replicate 16 emptySegment; ps_Leases := Some ∅ |}.

Definition loadedLeaseRow (current : option persistedState) (request : LeaseRequest)
    (strict : bool) : result error persistedState :=
  let policy := req_Policy (lr_Request request) in
  match current with
  | None => Ok (freshLeaseRow request)
  | Some row =>
      if negb (ps_Schema row =? stateSchema) then Err (Sent ErrCorrupt) else
      if negb (bool_decide (ps_PolicyID row = id policy)) then Err (Sent ErrCorrupt) else
      if negb (bool_decide (ps_Algorithm row = Concurrency)) then Err (Sent ErrCorrupt) else
      match (if strict then validateConcurrencyState row (id policy) else None) with
      | Some err => Err err
      | None => Ok row
      end
  end.

(** What follows the pruning loop: a retry, a rejection or a new lease. *)
Definition decideLease (current : persistedState) (request : LeaseRequest) (digest : string)
    (live : persistedLeases) (use earliest : Z) : leaseMutation :=
  let r := lr_Request request in
  let limit := Limit (req_Policy r) in
  let remaining := limit -u Z.min use limit in
  match live !! digest with
  | Some existing =>
      if negb (pl_Cost existing =? Cost r)
      then (Some current, zeroLease, emptyDecision, Some (Sent ErrLeaseNotOwned))
      else
        let l := postgresLease request (ofUnixMicro (pl_ExpiresMicros existing)) in
        (Some current, l, decision true limit remaining (ExpiresAt l) 0 ReasonAllowed, None)
  | None =>
      if remaining <? Cost r then
        let reset := ofUnixMicro earliest in
        (Some current, zeroLease,
         decision false limit remaining reset (Z.max (Sub reset (Now r)) 0) ReasonLimited,
         Some (Sent ErrRejected))
      else
        let expiresAt := Add (Now r) (lease (req_Policy r)) in
        (Some (setPersistedLeases current
                 (<[digest := mkPersistedLease (Cost r) (UnixMicro expiresAt)]> live)),
         postgresLease request expiresAt,
         decision true limit (remaining -u Cost r) expiresAt 0 ReasonAllowed, None)
  end.

Definition mutateLeaseMode (current : option persistedState) (request : LeaseRequest)
    (digest : string) (strict : bool) : leaseMutation :=
  match loadedLeaseRow current request strict with
  | Err err => refusedLease err
  | Ok current =>
      let r := lr_Request request in
      let requestedNow := UnixMicro (Now r) in
      let now := Z.max requestedNow (ps_ObservedMicros current) in
      let r := if negb (now =? requestedNow) then withNow r (toUTC (ofUnixMicro now)) else r in
      let request := mkLeaseRequest r (LeaseID request) in
      match (if strict then validateServerClockRange (Now r) (lease (req_Policy r)) else None) with
      | Some err => refusedLease err
      | None =>
          let current := setSeen current (revision (req_Policy r)) now in
          let stored := persistedLeasesOf current in
          match pruneLoop now (map_to_list stored) 0 MaxInt64 with
          | None => refusedLease (Sent ErrCorrupt)
          | Some (use, earliest) =>
              let live := livePersisted now stored in
              decideLease (setPersistedLeases current live) request digest live use earliest
          end
      end
  end.

Definition mutateLease (current : option persistedState) (request : LeaseRequest)
    (digest : string) : leaseMutation := mutateLeaseMode current request digest true.
Definition mutateLeaseLegacy (current : option persistedState) (request : LeaseRequest)
    (digest : string) : leaseMutation := mutateLeaseMode current request digest false.
