(* ===== verification/PgTokens.v ===== *)
(** * The token bucket of the PostgreSQL backend

    [mutateToken] against the ideal bucket of [TokenBucket].  The guard
    [added >= gap] makes its [uint64] arithmetic exact for every policy and every
    row, where the in-memory [refill] needs a bound. *)

From S2P Require Import Prelude GoTime GoHash Errors Keys Policy.
From S2P Require Import MemoryState TokenBucket PgState.

Local Open Scope Z_scope.

(** A request moved to a whole microsecond, as [Store.Admit] normalizes it. *)
Definition at_micros (r : Request) (m : Z) : Request := withNow r (toUTC (ofUnixMicro m)).

Definition exact_micros (m : Z) : Prop := - maxExactMicros <= m <= maxExactMicros.

Lemma UnixMicro_at m loc : is_i64 m -> UnixMicro (mkTime (m * 1000) loc) = m.
Proof. intros H. unfold UnixMicro; simpl. rewrite Z.div_mul by lia. by apply i64_id. Qed.

Lemma UnixMicro_utc m : is_i64 m -> UnixMicro (toUTC (ofUnixMicro m)) = m.
Proof. apply (UnixMicro_at m UTC). Qed.

Lemma exact_i64 m : exact_micros m -> is_i64 m.
Proof. unfold exact_micros, is_i64. lia. Qed.

Lemma valid_micros m : validPersistedMicros m = true <-> exact_micros m.
Proof. unfold validPersistedMicros, exact_micros. rewrite andb_true_iff, !Z.leb_le. done. Qed.

#[export] Hint Resolve exact_i64 : golib.

(** Both backends clamp a rolled back clock to the last observed microsecond. *)
Lemma clamped_request r m observed :
  Now r = toUTC (ofUnixMicro m) -> is_i64 m ->
  (if negb (Z.max (UnixMicro (Now r)) observed =? UnixMicro (Now r))
   then withNow r (toUTC (ofUnixMicro (Z.max (UnixMicro (Now r)) observed))) else r)
  = at_micros r (Z.max m observed).
Proof.
  intros Hn Hm. rewrite Hn, UnixMicro_utc by done.
  destruct (Z.eqb_spec (Z.max m observed) m) as [->|]; simpl; [|done].
  unfold at_micros, withNow. rewrite <- Hn. by destruct r.
Qed.

Lemma clampNow_micros s r m observed :
  lastSeen s = toUTC (ofUnixMicro observed) -> Now r = toUTC (ofUnixMicro m) ->
  clampNow s r = at_micros r (Z.max m observed).
Proof.
  intros Hs Hn. unfold clampNow, at_micros, Before. rewrite Hs, Hn. simpl.
  destruct (Z.ltb_spec (m * 1000) (observed * 1000)).
  - rewrite Z.max_r by lia. done.
  - rewrite Z.max_l by lia. unfold withNow. rewrite <- Hn. by destruct r.
Qed.

(** ** Waiting times *)

(** Converting before or after the multiplication makes no difference. *)
Lemma tokenDuration_eq tok rem p : tokenDuration tok rem p = refillDuration tok rem p.
Proof.
  unfold tokenDuration, refillDuration. case_match; [done|].
  destruct (Mul64 _ _) as [hi lo]. destruct (Sub64 lo rem 0) as [lo' b].
  destruct (Sub64 hi 0 b) as [hi' b']. case_match; [done|].
  destruct (Div64 hi' lo' (capacity p)) as [q rest]. case_match; [done|].
  generalize (if negb (rest =? 0) then q +u 1 else q). intros x. unfold i64, u64. f_equal.
  rewrite Zplus_mod_idemp_l.
  assert (forall y, ((y + two63) mod two64 - two63) * 1000 + two63 =
          y * 1000 + two63 + - ((y + two63) / two64) * 1000 * two64) as -> by (intros; zlia).
  by rewrite Z.mod_add.
Qed.

(** ** Refilling *)

Record token_row (p : Policy) (P : Z) (row : persistedState) : Prop := {
  row_tokens : 0 <= ps_Tokens row <= Limit p;
  row_remainder : 0 <= ps_Remainder row < P;
  row_full : ps_Tokens row = Limit p -> ps_Remainder row = 0;
  row_last : - maxExactMicros <= ps_LastMicros row <= ps_ObservedMicros row
}.

(** The level of a row, in units of 1/P token. *)
Definition row_level (P : Z) (row : persistedState) : Z := ps_Tokens row * P + ps_Remainder row.

Section Tokens.
Context (p : Policy).
Hypothesis Hwf : wf_policy p.
Hypothesis Hal : algorithm p = TokenBucket.
Abbreviation P := (period_micros p).

(** Elapsed microseconds as the code computes them: saturated at 292 years. *)
Definition row_elapsed (row : persistedState) (m : Z) : Z :=
  u64 (Microseconds (Sub (ofUnixMicro m) (ofUnixMicro (ps_LastMicros row)))).

Lemma row_elapsed_bounds row m :
  ps_LastMicros row < m ->
  1000 <= Sub (ofUnixMicro m) (ofUnixMicro (ps_LastMicros row)) /\
  1 <= row_elapsed row m < two63 /\ row_elapsed row m <= m - ps_LastMicros row /\
  ((m - ps_LastMicros row) * 1000 <= MaxInt64 -> row_elapsed row m = m - ps_LastMicros row).
Proof.
  intros H. unfold row_elapsed, Sub; simpl. set (d := m * 1000 - ps_LastMicros row * 1000).
  assert (Z.max (- two63) (Z.min MaxInt64 d) = Z.min MaxInt64 d) as -> by lia.
  rewrite Microseconds_nonneg by lia. rewrite u64_id by (unfold is_u64; zlia).
  subst d. split_and!; intros; zlia.
Qed.

(** The pair of tokens and remainder after a refill of [e] microseconds. *)
Definition row_refilled (row : persistedState) (e : Z) : Z * Z :=
  let v := e * capacity p + ps_Remainder row in
  if (Limit p - ps_Tokens row) * P <=? v then (Limit p, 0)
  else (ps_Tokens row + v / P, v mod P).

Lemma refillToken_eq row r m :
  token_row p P row -> req_Policy r = p -> Now r = toUTC (ofUnixMicro m) -> is_i64 m ->
  ps_LastMicros row < m -> ps_Tokens row < Limit p ->
  refillToken row r =
    let '(tok, rem) := row_refilled row (row_elapsed row m) in setTokens row tok rem m.
Proof.
  intros [Ht Hr _ _] Hp Hn Hm Hlt Hnf.
  destruct (row_elapsed_bounds row m Hlt) as (Hge & He & _).
  destruct (token_policy p Hwf Hal) as (Hc & HL & Hb & Hlim & Hpm & _).
  unfold refillToken. rewrite Hp, Hn, UnixMicro_utc, (period_u64 p Hwf Hal) by done.
  rewrite (proj2 (Z.ltb_ge _ _) Hge), (proj2 (Z.ltb_lt _ _) Hnf). cbn [negb].
  fold (row_elapsed row m). set (e := row_elapsed row m) in *.
  destruct (refill_numbers p Hwf Hal e (ps_Remainder row)) as (hi & lo & E & Hv & Hhi & Hlo); [lia|done|].
  destruct (Mul64 e (capacity p)) as [high low]. destruct (Add64 low (ps_Remainder row) 0) as [low' carry].
  destruct (Add64 high carry 0) as [high' c']. injection E as -> ->. unfold Div64, row_refilled, is_u64 in *.
  rewrite Hv. set (v := e * capacity p + ps_Remainder row) in *.
  rewrite (u64_id (Limit p - ps_Tokens row)) by (unfold is_u64; lia).
  assert (0 <= v) as Hv0 by (unfold v; nia).
  pose proof (Z.div_mod v P ltac:(lia)) as Hdm. pose proof (Z.mod_pos_bound v P ltac:(lia)) as Hmb.
  destruct (Z.leb_spec P hi).
  { pose proof (scale_le (Limit p - ps_Tokens row) two64 P ltac:(lia) ltac:(lia)).
    destruct (Z.leb_spec ((Limit p - ps_Tokens row) * P) v); [done|lia]. }
  pose proof (le_div_iff (Limit p - ps_Tokens row) P v ltac:(lia)).
  destruct (Z.leb_spec (Limit p - ps_Tokens row) (v / P));
    destruct (Z.leb_spec ((Limit p - ps_Tokens row) * P) v); try done; try lia.
  rewrite u64_id; [done|]. unfold is_u64. assert (0 <= v / P) by (apply Z.div_pos; lia). lia.
Qed.

(** A refilled pair is sound and sits exactly at the ideal level. *)
Lemma row_refilled_ideal row e :
  token_row p P row -> ps_Tokens row < Limit p -> 0 <= e ->
  let '(tok, rem) := row_refilled row e in
  0 <= tok <= Limit p /\ 0 <= rem < P /\ (tok = Limit p -> rem = 0) /\
  tok * P + rem = ideal_refill p (row_level P row) e.
Proof.
  intros [Ht Hr _ _] Hnf He. destruct (token_policy p Hwf Hal) as (Hc & HL & Hb & Hlim & Hpm & _).
  unfold row_refilled, ideal_refill, row_level, full_level. set (v := e * capacity p + ps_Remainder row).
  assert (0 <= v) as Hv0 by (unfold v; nia).
  pose proof (Z.div_mod v P ltac:(lia)) as Hdm. pose proof (Z.mod_pos_bound v P ltac:(lia)) as Hmb.
  assert (0 <= v / P) by (apply Z.div_pos; lia).
  destruct (Z.leb_spec ((Limit p - ps_Tokens row) * P) v); unfold v in *; split_and!; try lia; nia.
Qed.

Lemma setTokens_id row m : ps_LastMicros row = m -> row = setTokens row (ps_Tokens row) (ps_Remainder row) m.
Proof. intros <-. by destruct row. Qed.

(** [refillToken] brings a row up to its observed time. *)
Lemma refillToken_spec row r :
  let m := ps_ObservedMicros row in
  token_row p P row -> req_Policy r = p -> Now r = toUTC (ofUnixMicro m) -> is_i64 m ->
  exists tok rem,
    refillToken row r = setTokens row tok rem m /\ token_row p P (setTokens row tok rem m) /\
    ((m - ps_LastMicros row) * 1000 <= MaxInt64 ->
     tok * P + rem = ideal_refill p (row_level P row) (m - ps_LastMicros row)).
Proof.
  intros m Hrow Hp Hn Hm. pose proof Hrow as [Ht Hr Hf Hl]. fold m in Hl.
  destruct (token_policy p Hwf Hal) as (Hc & HL & Hb & Hlim & Hpm & _).
  assert (0 <= row_level P row <= full_level p) as Hlev.
  { unfold row_level, full_level. destruct (Z.eq_dec (ps_Tokens row) (Limit p)); nia. }
  assert (row_level P row = full_level p \/ ps_Tokens row < Limit p) as Hfull.
  { unfold row_level, full_level. destruct (Z.eq_dec (ps_Tokens row) (Limit p)) as [E|]; [|lia].
    left. rewrite (Hf E), E. lia. }
  destruct (Z.eq_dec (ps_LastMicros row) m) as [E|E].
  { exists (ps_Tokens row), (ps_Remainder row). rewrite <- setTokens_id by done. split_and!; try done.
    - unfold refillToken. rewrite Hn, UnixMicro_utc, E by done. unfold Sub. rewrite Z.sub_diag. done.
    - intros _. rewrite E, Z.sub_diag. unfold ideal_refill, row_level in *. lia. }
  destruct (row_elapsed_bounds row m ltac:(lia)) as (Hge & He & _ & Hex).
  destruct Hfull as [Hfull|Hnf].
  { assert (ps_Tokens row = Limit p) as Et by (unfold row_level, full_level in Hfull; nia).
    exists (ps_Tokens row), (ps_Remainder row). split_and!.
    - unfold refillToken. rewrite Hp, Hn, UnixMicro_utc by done.
      by rewrite (proj2 (Z.ltb_ge _ _) Hge), Et, Z.ltb_irrefl.
    - split; simpl; try done; lia.
    - intros _. unfold ideal_refill. fold (row_level P row). nia. }
  rewrite (refillToken_eq row r m) by (done || lia).
  pose proof (row_refilled_ideal row (row_elapsed row m) Hrow Hnf ltac:(lia)) as Hid.
  destruct (row_refilled row (row_elapsed row m)) as [tok rem]. destruct Hid as (? & ? & ? & Hlevel).
  exists tok, rem. split_and!; [done| |].
  - split; simpl; try done; lia.
  - intros Hsat. by rewrite <- (Hex Hsat).
Qed.

(** One admission in closed form, from the refilled row. *)
Lemma mutateToken_eq row r tok rem :
  let m := ps_ObservedMicros row in
  refillToken row r = setTokens row tok rem m -> token_row p P (setTokens row tok rem m) ->
  req_Policy r = p -> 1 <= Cost r <= maxCost p ->
  let rejected := tok <? Cost r in
  let left := if rejected then tok else tok - Cost r in
  let row' := setTokens row left rem m in
  mutateToken row r =
    (row',
     decision (negb rejected) (Limit p) left (Add (Now r) (refillDuration (Limit p - left) rem p))
       (if rejected then refillDuration (Cost r - tok) rem p else 0)
       (if rejected then ReasonLimited else ReasonAllowed),
     if rejected then Some (Sent ErrRejected) else None) /\
  token_row p P row'.
Proof.
  intros m E Hrow' Hp Hcost. destruct (token_policy p Hwf Hal) as (_ & HL & _ & Hlim & _ & _ & _ & _ & Hmax).
  pose proof Hrow' as [Ht Hr Hf Hl]. simpl in *. unfold mutateToken. rewrite E, Hp. simpl.
  rewrite !tokenDuration_eq.
  destruct (Z.ltb_spec tok (Cost r)); simpl.
  - rewrite (u64_id (Cost r - tok)), (u64_id (Limit p - tok)) by (unfold is_u64; lia). done.
  - rewrite (u64_id (tok - Cost r)) by (unfold is_u64; lia).
    rewrite (u64_id (Limit p - (tok - Cost r))) by (unfold is_u64; lia).
    split; [done|]. split; simpl; try done; lia.
Qed.

(** One admission in closed form. *)
Lemma mutateToken_spec row r :
  let m := ps_ObservedMicros row in
  token_row p P row -> req_Policy r = p -> Now r = toUTC (ofUnixMicro m) -> is_i64 m ->
  1 <= Cost r <= maxCost p ->
  exists tok rem, let rejected := tok <? Cost r in
    let left := if rejected then tok else tok - Cost r in
    let row' := setTokens row left rem m in
    mutateToken row r =
      (row',
       decision (negb rejected) (Limit p) left (Add (Now r) (refillDuration (Limit p - left) rem p))
         (if rejected then refillDuration (Cost r - tok) rem p else 0)
         (if rejected then ReasonLimited else ReasonAllowed),
       if rejected then Some (Sent ErrRejected) else None) /\
    token_row p P row' /\ token_row p P (setTokens row tok rem m) /\
    ((m - ps_LastMicros row) * 1000 <= MaxInt64 ->
     tok * P + rem = ideal_refill p (row_level P row) (m - ps_LastMicros row)).
Proof.
  intros m Hrow Hp Hn Hm Hcost. destruct (refillToken_spec row r Hrow Hp Hn Hm) as (tok & rem & E & Hrow' & Hid).
  exists tok, rem. destruct (mutateToken_eq row r tok rem E Hrow' Hp Hcost) as [Heq Hrow'']. by split_and!.
Qed.
End Tokens.
