(* ===== verification/PgRows.v ===== *)
(** * Soundness of PostgreSQL rows under strict admission

    The strict mutators refuse a row that fails their integrity checks.  This
    file proves that they never refuse a row they wrote themselves: along any
    history of requests on one key, with rolled back clocks and changing policy
    revisions, every request is granted or rejected, and every stored row
    satisfies the invariant [sound_row]. *)

From S2P Require Import Prelude GoTime GoHash Errors Keys Policy.
From S2P Require Import MemoryState TokenBucket Windows SlidingWindow PgState PgTokens.

Local Open Scope Z_scope.

Lemma existsb_false {A} (f : A -> bool) l : (forall x, x ∈ l -> f x = false) -> existsb f l = false.
Proof.
  induction l as [|x l IH]; intros H; simpl; [done|].
  rewrite (H x) by left. apply IH. intros y Hy. apply H. by right.
Qed.

(** The rings of the two backends have the same shape. *)
Definition seg_of (s : persistedSegment) : segment := mkSegment (ps_Index s) (ps_SegUsed s).
Definition ring_of (segs : list persistedSegment) : list segment := seg_of <$> segs.

Lemma ring_of_lookup segs j :
  ring_of segs !! j = seg_of <$> segs !! j.
Proof. apply list_lookup_fmap. Qed.

Lemma ring_of_insert segs j s :
  ring_of (<[j := s]> segs) = <[j := seg_of s]> (ring_of segs).
Proof. apply (list_fmap_insert seg_of). Qed.

(** The two loops of [mutateSliding] are the one loop of the memory backend. *)
Lemma liveUsage_scan o segs : forall use e,
  scanSegments o (ring_of segs) use e =
  (ring_of (clearExpired o segs), (liveUsage o segs use e).1, (liveUsage o segs use e).2).
Proof.
  induction segs as [|s segs IH]; intros use e; [done|].
  change (ring_of (s :: segs)) with (seg_of s :: ring_of segs).
  cbn [clearExpired map scanSegments liveUsage seg_of seg_index seg_used].
  fold (clearExpired o segs).
  destruct (Z.leb_spec (ps_Index s) o); destruct (Z.ltb_spec o (ps_Index s)); try lia;
    rewrite IH; reflexivity.
Qed.

(** The loop of the released variant does the same. *)
Lemma scanLegacy_eq o segs : forall use e,
  scanLegacy o segs use e =
  (clearExpired o segs, (liveUsage o segs use e).1, (liveUsage o segs use e).2).
Proof.
  induction segs as [|s segs IH]; intros use e; [done|].
  cbn [clearExpired map scanLegacy liveUsage]. fold (clearExpired o segs).
  destruct (Z.leb_spec (ps_Index s) o); destruct (Z.ltb_spec o (ps_Index s)); try lia;
    rewrite IH; reflexivity.
Qed.

(** The released sliding algorithm decides like the strict one and stores the
    same row, except that it leaves [Carried] as it was. *)
Lemma legacy_sliding_agrees row r :
  let '(row', d, err) := mutateSliding row r in
  mutateSlidingLegacy row r =
    (setUsage row' (ps_Window row') (ps_Used row') (ps_Carried row), d, err).
Proof.
  unfold mutateSliding, mutateSlidingLegacy. rewrite scanLegacy_eq.
  destruct (liveUsage (oldestSegment r) (ps_Segments row) 0 MaxInt64) as [use e]. cbn [fst snd].
  unfold consume; simpl. destruct (_ <? Cost r); reflexivity.
Qed.

Lemma sumStrict_spec o segs : forall use,
  Forall (fun s => 0 <= ps_SegUsed s) segs -> 0 <= use ->
  use + ring_sum o (ring_of segs) <= maxExactMicros ->
  sumStrict o segs use = (use + ring_sum o (ring_of segs), false).
Proof.
  induction segs as [|s segs IH]; intros use Hf Hu Hle; simpl in *; [by rewrite Z.add_0_r|].
  apply Forall_cons in Hf as [Hs Hf]. fold (ring_of segs) in *.
  assert (0 <= ring_sum o (ring_of segs)) as Hn.
  { apply ring_sum_nonneg. apply Forall_fmap. eapply Forall_impl; [exact Hf|]. done. }
  unfold contribution in *; simpl in *.
  destruct (Z.leb_spec (ps_Index s) o); destruct (Z.ltb_spec o (ps_Index s)); try lia.
  - rewrite IH; [done..|lia].
  - rewrite (u64_id (maxExactMicros - use)) by (unfold is_u64; lia).
    destruct (Z.ltb_spec (maxExactMicros - use) (ps_SegUsed s)); [lia|].
    rewrite (u64_id (use + _)) by (unfold is_u64; lia). rewrite IH; [|done|lia|lia]. f_equal. lia.
Qed.

Lemma positiveRemainder_mod value : positiveRemainder value 16 = value mod 16.
Proof.
  unfold positiveRemainder.
  assert (Z.shiftr (Z.rem value 16) 63 = if Z.rem value 16 <? 0 then -1 else 0) as ->.
  { rewrite Z.shiftr_div_pow2 by lia. change (2 ^ 63) with two63.
    destruct (Z.ltb_spec (Z.rem value 16) 0); qlia. }
  destruct (Z.ltb_spec (Z.rem value 16) 0); simpl; [rewrite i64_id by (unfold is_i64; qlia)|]; qlia.
Qed.

Lemma misplacedFrom_false o top segs : forall k,
  (forall j s, segs !! j = Some s -> ps_SegUsed s = 0 \/ ps_Index s <= o \/
     ps_Index s <= top /\ ps_Index s mod 16 = Z.of_nat (k + j)) ->
  misplacedFrom o top k segs = false.
Proof.
  induction segs as [|s segs IH]; intros k H; simpl; [done|]. apply orb_false_iff. split.
  - specialize (H 0%nat s eq_refl). rewrite Nat.add_0_r in H. unfold slotMisplaced, stateSegments.
    rewrite positiveRemainder_mod.
    destruct (Z.eqb_spec (ps_SegUsed s) 0); [done|]. destruct (Z.leb_spec (ps_Index s) o); [done|].
    destruct H as [|[|[? ->]]]; [lia..|]. rewrite Z.eqb_refl. simpl. rewrite orb_false_r. apply Z.ltb_ge. lia.
  - apply IH. intros j s' Hj. specialize (H (S j) s' Hj). by rewrite Nat.add_succ_r in H.
Qed.

(** ** The invariant *)

(** The revisions of one policy: same identity, algorithm and period, any
    limits. *)
Record lineage (pol : string -> Policy) (name : string) (alg : Algorithm) (P : Z) : Prop := {
  line_wf : forall v, wf_policy (pol v);
  line_revision : forall v, revision (pol v) = v;
  line_id : forall v, id (pol v) = name;
  line_algorithm : forall v, algorithm (pol v) = alg;
  line_windowed : windowed alg;
  line_period : forall v, period (pol v) = P * 1000
}.

(** The segment width and the segments of a microsecond. *)
Definition width (P : Z) : Z := (P + 15) / 16.
Definition seg_at (P m : Z) : Z := m / width P.
Definition old_at (P m : Z) : Z := (m - P) / width P.

Definition slot_sound (P observed : Z) (j : nat) (s : persistedSegment) : Prop :=
  0 <= ps_SegUsed s <= maxExactMicros /\ exact_micros (ps_Index s) /\
  (ps_SegUsed s = 0 \/ ps_Index s mod 16 = Z.of_nat j /\ ps_Index s <= seg_at P observed).

Record fixed_row (p : Policy) (row : persistedState) : Prop := {
  row_window : exact_micros (ps_Window row);
  row_used : 0 <= ps_Used row <= maxExactMicros;
  row_used_carried : ps_Used row <= Limit p \/ ps_Carried row = true
}.

Definition live_sum (P : Z) (row : persistedState) : Z :=
  ring_sum (old_at P (ps_ObservedMicros row)) (ring_of (ps_Segments row)).

Record sliding_row (p : Policy) (P : Z) (row : persistedState) : Prop := {
  row_length : length (ps_Segments row) = 16%nat;
  row_slots : forall j s, ps_Segments row !! j = Some s -> slot_sound P (ps_ObservedMicros row) j s;
  row_live : live_sum P row <= maxExactMicros;
  row_live_carried : live_sum P row <= Limit p \/ ps_Carried row = true
}.

Record sound_row (pol : string -> Policy) (name : string) (alg : Algorithm) (P : Z)
    (row : persistedState) : Prop := {
  row_schema : ps_Schema row = stateSchema;
  row_policy : ps_PolicyID row = name;
  row_algorithm : ps_Algorithm row = alg;
  row_observed : - maxExactMicros <= ps_ObservedMicros row <= maxExactMicros - P;
  row_period : usesWindowMetadata alg = true -> ps_PeriodMicros row = P;
  row_token : alg = TokenBucket -> token_row (pol (ps_Revision row)) P row;
  row_fixed : alg = FixedWindow -> fixed_row (pol (ps_Revision row)) row;
  row_sliding : alg = SlidingWindow -> sliding_row (pol (ps_Revision row)) P row
}.

Section Rows.
Context (pol : string -> Policy) (name : string) (alg : Algorithm) (P : Z).
Hypothesis Hline : lineage pol name alg P.

(** A validated and normalized request at microsecond [m]. *)
Definition row_request (r : Request) (m : Z) : Prop :=
  req_Policy r = pol (revision (req_Policy r)) /\ 1 <= Cost r <= maxCost (req_Policy r) /\
  Now r = toUTC (ofUnixMicro m) /\ - maxExactMicros <= m <= maxExactMicros - P /\
  (alg = FixedWindow -> - maxExactMicros <= m / P * P).

Lemma line_facts v :
  1 <= P <= maxExactMicros /\ 1 <= Limit (pol v) <= maxExactMicros /\
  maxCost (pol v) <= Limit (pol v) /\ Microseconds (period (pol v)) = P /\
  u64 P = P /\ is_i64 (P * 1000) /\ 1 <= width P <= P.
Proof.
  destruct Hline as [Hwf _ _ Hal Hwin Hper]. specialize (Hwf v).
  pose proof (Limit_wf _ Hwf) as HL. pose proof (Hper v) as Hp.
  destruct Hwf as [_ ? ? ? ? _ _ Ht _ Halg]. rewrite Hp in Ht.
  destruct Halg as [(_ & Hp1 & _ & Hb)|(Hc & _)];
    [|by rewrite Hal in Hc; subst alg; apply windowed_not_concurrency in Hwin].
  rewrite Hp in Hp1, Hb. rewrite Z.div_mul in Hb by lia.
  assert (1 <= P) by lia. assert (P <= maxExactMicros) by nia.
  rewrite Hp, Microseconds_nonneg, Z.div_mul by lia. unfold width.
  split_and!; try lia; try done; [by apply u64_id; unfold is_u64; lia|zlia|zlia].
Qed.

Lemma segmentWidth_eq v : segmentWidth (pol v) = width P.
Proof.
  destruct (line_facts v) as (HP & _ & _ & Hm & _). unfold segmentWidth, width, stateSegments.
  rewrite Hm, (i64_id (P + 16)), i64_id by (unfold is_i64; lia). rewrite quot_nonneg by lia.
  f_equal. lia.
Qed.

(** [segmentAt] before and after the epoch. *)
Lemma segmentAt_eq v m loc :
  - 2 * maxExactMicros <= m <= maxExactMicros ->
  segmentAt (pol v) (mkTime (m * 1000) loc) = seg_at P m.
Proof.
  intros Hm. destruct (line_facts v) as (HP & _ & _ & _ & _ & _ & Hw). unfold segmentAt, seg_at.
  rewrite segmentWidth_eq, UnixMicro_at by (unfold is_i64; lia).
  change floor with floorBoundary. rewrite floorBoundary_floor by (unfold is_i64; lia).
  apply Z.quot_mul. lia.
Qed.

Lemma oldestSegment_eq r m :
  req_Policy r = pol (revision (req_Policy r)) -> exact_micros m ->
  oldestSegment (at_micros r m) = old_at P m.
Proof.
  intros Hp Hm. unfold exact_micros in Hm. set (v := revision (req_Policy r)) in Hp.
  destruct (line_facts v) as (HP & _ & _ & _ & _ & Hi & _).
  unfold oldestSegment, at_micros; simpl. rewrite Hp, (line_period _ _ _ _ Hline).
  unfold Add, toUTC; simpl. rewrite i64_id by (unfold is_i64 in *; lia).
  replace (m * 1000 + - (P * 1000)) with ((m - P) * 1000) by lia.
  rewrite segmentAt_eq by lia. done.
Qed.

Lemma clock_range m v :
  - maxExactMicros <= m <= maxExactMicros - P ->
  validateServerClockRange (toUTC (ofUnixMicro m)) (period (pol v)) = None.
Proof.
  intros Hm. destruct (line_facts v) as (HP & _ & _ & Hp & _). unfold validateServerClockRange.
  rewrite UnixMicro_utc, Hp by (unfold is_i64; lia).
  rewrite i64_id by (unfold is_i64; lia).
  destruct (Z.ltb_spec m (- maxExactMicros)); [lia|]. destruct (Z.leb_spec P 0); [lia|].
  destruct (Z.ltb_spec (maxExactMicros - P) m); [lia|]. done.
Qed.

(** *** The strict checks accept a sound row *)

Lemma corruptRow_false row v :
  sound_row pol name alg P row -> corruptRow row (pol v) = false.
Proof.
  intros [_ _ Ha Ho _ Ht Hf Hs]. destruct (line_facts v) as (HP & HL & _ & Hper & HPu & _).
  unfold corruptRow. rewrite (proj2 (valid_micros _)) by (unfold exact_micros; lia).
  rewrite (line_revision _ _ _ _ Hline), Hper, HPu, Ha. cbn [negb].
  destruct (bool_decide_reflect (ps_Revision row = v)) as [<-|Hv]; cbn [andb].
  all: destruct (line_windowed _ _ _ _ Hline) as [E|[E|E]]; rewrite E; eval_algorithms; cbv iota.
  all: try (destruct (Ht E) as [H1 H2 _ H4]; rewrite (proj2 (valid_micros _)) by (unfold exact_micros; lia);
    rewrite !(proj2 (Z.ltb_ge _ _)) by lia; rewrite ?(proj2 (Z.leb_gt _ _)) by lia; done).
  all: try (destruct (Hf E) as [H1 H2 H3]; rewrite (proj2 (valid_micros _)) by done;
    rewrite (proj2 (Z.ltb_ge maxExactMicros _)) by lia; cbn;
    try (destruct H3 as [H3| ->]; [rewrite (proj2 (Z.ltb_ge _ _)) by lia|rewrite andb_false_r]); done).
  all: apply existsb_false; intros x [j Hj]%list_elem_of_lookup;
    destruct (row_slots _ _ _ (Hs E) j x Hj) as ([_ Hu] & Hi & _);
    by rewrite (proj2 (valid_micros _) Hi), (proj2 (Z.ltb_ge _ _) Hu).
Qed.

(** The row as the checks hand it on: a token row adjusts to a new revision. *)
Definition revised (row : persistedState) (v : string) (m : Z) : persistedState :=
  recordWindowPeriod
    (if bool_decide (alg = TokenBucket) && negb (bool_decide (ps_Revision row = v))
     then setTokens row (Z.min (ps_Tokens row) (Limit (pol v))) 0 (Z.max (ps_LastMicros row) m)
     else row) (pol v).

Lemma sliding_positions row r m :
  sliding_row (pol (ps_Revision row)) P row -> req_Policy r = pol (revision (req_Policy r)) ->
  ps_ObservedMicros row <= m -> exact_micros m ->
  validateSlidingPositions row (at_micros r m) = None.
Proof.
  intros [_ Hs _ _] Hp Hmono Hm. destruct (line_facts EmptyString) as (HP & _ & _ & _ & _ & _ & Hw).
  unfold validateSlidingPositions. rewrite oldestSegment_eq by done. simpl.
  rewrite Hp. unfold toUTC, ofUnixMicro; simpl. unfold exact_micros in Hm.
  rewrite segmentAt_eq by lia. rewrite misplacedFrom_false; [done|].
  intros j s Hj. destruct (Hs j s Hj) as (_ & _ & [|[Hmod Hi]]); [by left|]. right. right.
  split; [|done]. etrans; [exact Hi|]. unfold seg_at. apply Z.div_le_mono; lia.
Qed.

Lemma old_at_mono m m' : m <= m' -> old_at P m <= old_at P m'.
Proof.
  destruct (line_facts EmptyString) as (HP & _ & _ & _ & _ & _ & Hw).
  intros. unfold old_at. apply Z.div_le_mono; lia.
Qed.

(** As time passes less of a sound ring counts. *)
Lemma live_sum_later row m :
  sliding_row (pol (ps_Revision row)) P row -> ps_ObservedMicros row <= m ->
  0 <= ring_sum (old_at P m) (ring_of (ps_Segments row)) <= live_sum P row.
Proof.
  intros [_ Hs _ _] Hm. pose proof (old_at_mono _ _ Hm).
  assert (forall g, g ∈ ring_of (ps_Segments row) -> 0 <= seg_used g) as Hpos.
  { intros g (s & -> & [j Hj]%list_elem_of_lookup)%list_elem_of_fmap. simpl. apply (Hs j s Hj). }
  split; [by apply ring_sum_nonneg, Forall_forall|]. apply ring_sum_le, Forall_forall.
  intros g Hg. specialize (Hpos g Hg). unfold contribution.
  destruct (Z.ltb_spec (old_at P m) (seg_index g)); destruct (Z.ltb_spec (old_at P (ps_ObservedMicros row)) (seg_index g)); lia.
Qed.

Lemma sliding_usage row r m :
  sliding_row (pol (ps_Revision row)) P row -> req_Policy r = pol (revision (req_Policy r)) ->
  ps_ObservedMicros row <= m -> exact_micros m ->
  strictSlidingUsage row (at_micros r m) =
    (ring_sum (old_at P m) (ring_of (ps_Segments row)), false).
Proof.
  intros Hrow Hp Hmono Hm. pose proof (live_sum_later row m Hrow Hmono).
  destruct Hrow as [_ Hs Hlive _]. unfold strictSlidingUsage. rewrite oldestSegment_eq by done.
  rewrite sumStrict_spec; [done| |lia|lia].
  apply Forall_forall. intros s [j Hj]%list_elem_of_lookup. apply (Hs j s Hj).
Qed.

Lemma strictChecks_ok row r m :
  sound_row pol name alg P row -> req_Policy r = pol (revision (req_Policy r)) ->
  ps_ObservedMicros row <= m <= maxExactMicros - P ->
  strictChecks row (at_micros r m) = Ok (revised row (revision (req_Policy r)) m).
Proof.
  intros [_ _ _ Ho Hper _ _ Hs] Hp Hm. set (v := revision (req_Policy r)) in *.
  destruct (line_facts v) as (HP & _ & _ & HPm & _).
  assert (exact_micros m) as Hex by (unfold exact_micros; lia).
  unfold strictChecks. simpl. rewrite Hp, clock_range, HPm by lia.
  rewrite (line_algorithm _ _ _ _ Hline), (line_revision _ _ _ _ Hline).
  replace (usesWindowMetadata alg && negb (ps_PeriodMicros row =? 0) && negb (ps_PeriodMicros row =? P))
    with false; [|destruct (usesWindowMetadata alg) eqn:Hm'; [rewrite Hper, Z.eqb_refl, andb_false_r by done|]; done].
  unfold revised. rewrite UnixMicro_utc by auto with golib.
  destruct (bool_decide_reflect (alg = SlidingWindow)) as [E|E]; cbn [andb].
  - specialize (Hs E). rewrite sliding_positions by (done || lia).
    rewrite sliding_usage by (done || lia). cbn [orb].
    pose proof (live_sum_later row m Hs ltac:(lia)) as Hle. destruct Hs as [_ _ _ Hc].
    destruct (bool_decide_reflect (ps_Revision row = v)) as [Hv|Hv]; cbn [andb]; [|done].
    unfold usageExceedsLimit. rewrite <- Hv.
    destruct Hc as [Hc| ->]; [rewrite (proj2 (Z.ltb_ge _ _)) by lia|rewrite andb_false_r]; done.
  - by destruct (strictSlidingUsage row _).
Qed.

(** The row a request works on once every check has passed. *)
Definition prepared (row : persistedState) (v : string) (m : Z) : persistedState :=
  setSeen (revised row v m) v m.

Definition mutateRow (row : persistedState) (r : Request) : persistedState * Decision * option error :=
  if bool_decide (alg = TokenBucket) then mutateToken row r else
  if bool_decide (alg = FixedWindow) then mutateFixed row r else mutateSliding row r.

(** The effective time of a request: rollback is clamped to the row. *)
Definition effective (row : persistedState) (m : Z) : Z := Z.max m (ps_ObservedMicros row).

(** A strict admission on a sound row is the algorithm on the prepared row. *)
Lemma mutateState_eq row r m :
  sound_row pol name alg P row -> row_request r m ->
  let m' := effective row m in
  mutateState (Some row) r =
    let '(row', d, err) := mutateRow (prepared row (revision (req_Policy r)) m') (at_micros r m') in
    (Some row', d, err).
Proof.
  intros Hrow (Hp & Hc & Hn & Hm & Hfl) m'. pose proof Hrow as [Hsc Hid Ha Ho _ _ _ _].
  set (v := revision (req_Policy r)) in *. destruct (line_facts v) as (HP & _ & _ & HPm & _).
  assert (algorithm (req_Policy r) = alg) as Halg by (rewrite Hp; apply Hline).
  unfold mutateState, mutateStateMode. rewrite Halg.
  replace (Microseconds (period (req_Policy r))) with P by (rewrite Hp; done).
  replace (_ && _ && negb _) with false.
  2:{ destruct (bool_decide_reflect (alg = FixedWindow)) as [E|]; [|done]. simpl. symmetry.
      apply negb_false_iff, valid_micros. rewrite Hn, UnixMicro_utc by (unfold is_i64; lia).
      change floor with floorBoundary.
      rewrite floorBoundary_floor by (unfold is_i64; lia). specialize (Hfl E).
      unfold exact_micros. zlia. }
  unfold loadedRow. rewrite Hsc, Z.eqb_refl.
  rewrite (bool_decide_eq_true_2 (ps_PolicyID row = _)) by (rewrite Hp, Hid; symmetry; apply Hline).
  rewrite (bool_decide_eq_true_2 (ps_Algorithm row = _)) by congruence.
  replace (corruptRow row (req_Policy r)) with false by (rewrite Hp; by rewrite corruptRow_false).
  cbn [negb andb].
  rewrite (clamped_request r m) by (done || (unfold is_i64; lia)). fold (effective row m). fold m'.
  assert (ps_ObservedMicros row <= m' <= maxExactMicros - P) as Hm' by (unfold m', effective; lia).
  rewrite strictChecks_ok by done.
  unfold at_micros at 1; simpl Now. rewrite UnixMicro_utc by (unfold is_i64; lia).
  done.
Qed.

(** *** Every algorithm keeps the row sound *)

(** What a strict admission may report. *)
Definition settled (d : Decision) (err : option error) : Prop :=
  (Allowed d = true /\ err = None) \/ (Allowed d = false /\ err = Some (Sent ErrRejected)).

(** The fields no algorithm changes. *)
Definition same_identity (row row' : persistedState) : Prop :=
  ps_Schema row' = ps_Schema row /\ ps_PolicyID row' = ps_PolicyID row /\
  ps_Revision row' = ps_Revision row /\ ps_Algorithm row' = ps_Algorithm row /\
  ps_ObservedMicros row' = ps_ObservedMicros row /\ ps_PeriodMicros row' = ps_PeriodMicros row.

Lemma line_period_micros v : period_micros (pol v) = P.
Proof. unfold period_micros. rewrite (line_period _ _ _ _ Hline), Z.div_mul by lia. done. Qed.

Lemma prepared_identity row v m :
  ps_Schema (prepared row v m) = ps_Schema row /\ ps_PolicyID (prepared row v m) = ps_PolicyID row /\
  ps_Revision (prepared row v m) = v /\ ps_Algorithm (prepared row v m) = ps_Algorithm row /\
  ps_ObservedMicros (prepared row v m) = m /\
  (usesWindowMetadata alg = true -> ps_PeriodMicros (prepared row v m) = P) /\
  ps_Window (prepared row v m) = ps_Window row /\ ps_Used (prepared row v m) = ps_Used row /\
  ps_Segments (prepared row v m) = ps_Segments row.
Proof.
  destruct (line_facts v) as (_ & _ & _ & HPm & _).
  unfold prepared, revised, recordWindowPeriod. rewrite (line_algorithm _ _ _ _ Hline), HPm.
  destruct (usesWindowMetadata alg); destruct (bool_decide (alg = TokenBucket) && _); by split_and!.
Qed.

Lemma prepared_carried row v m : ps_Carried (prepared row v m) = ps_Carried row.
Proof. unfold prepared, revised, recordWindowPeriod. by destruct (usesWindowMetadata _), (_ && _). Qed.

Lemma prepared_token row v m :
  alg = TokenBucket -> sound_row pol name alg P row -> effective row m <= maxExactMicros ->
  let m' := effective row m in token_row (pol v) P (prepared row v m').
Proof.
  intros E Hrow Hm m'. pose proof (row_token _ _ _ _ _ Hrow E) as [Ht Hr Hf Hl].
  destruct (line_facts v) as (HP & HL & _). unfold m', effective in *.
  unfold prepared, revised, recordWindowPeriod. rewrite (line_algorithm _ _ _ _ Hline), E.
  change (usesWindowMetadata TokenBucket) with false. cbn iota. eval_algorithms. cbn [andb].
  destruct (bool_decide_reflect (ps_Revision row = v)) as [<-|]; cbn [negb]; split; simpl; try done; lia.
Qed.

Lemma token_keeps row r :
  alg = TokenBucket -> let m := ps_ObservedMicros row in let v := revision (req_Policy r) in
  token_row (pol v) P row -> req_Policy r = pol v -> 1 <= Cost r <= maxCost (req_Policy r) ->
  exact_micros m ->
  exists row' d err, mutateRow row (at_micros r m) = (row', d, err) /\
    token_row (pol v) P row' /\ same_identity row row' /\ settled d err.
Proof.
  intros E m v Hrow Hp Hc Hm. unfold mutateRow. rewrite E. eval_algorithms. cbn iota.
  destruct (mutateToken_spec (pol v) (line_wf _ _ _ _ Hline v)
              ltac:(by rewrite (line_algorithm _ _ _ _ Hline)) row (at_micros r m))
    as (tok & rem & -> & Hrow' & _ & _); rewrite ?line_period_micros in *;
    try done; [auto with golib|by rewrite <- Hp|].
  eexists _, _, _. split; [done|]. split_and!; try done. unfold settled; simpl.
  destruct (tok <? _); simpl; auto.
Qed.

(** [consume] on a usage that may exceed a lowered limit. *)
Lemma consume_cases row r reset :
  let v := revision (req_Policy r) in
  req_Policy r = pol v -> 1 <= Cost r <= maxCost (req_Policy r) -> 0 <= ps_Used row <= maxExactMicros ->
  let limit := Limit (pol v) in
  consume row r reset =
    if limit <? ps_Used row + Cost r
    then (row, decision false limit (limit - Z.min (ps_Used row) limit) reset
                 (Z.max (Sub reset (Now r)) 0) ReasonLimited, Some (Sent ErrRejected))
    else (setUsage row (ps_Window row) (ps_Used row + Cost r) (ps_Carried row),
          decision true limit (limit - (ps_Used row + Cost r)) reset 0 ReasonAllowed, None).
Proof.
  intros v Hp Hc Hu limit. destruct (line_facts v) as (_ & HL & Hm & _). fold limit in HL, Hm.
  unfold consume. rewrite Hp. fold limit.
  rewrite (u64_id (limit - _)) by (unfold is_u64; lia).
  destruct (Z.ltb_spec (limit - Z.min (ps_Used row) limit) (Cost r));
    destruct (Z.ltb_spec limit (ps_Used row + Cost r)); try lia; [done|].
  rewrite (u64_id (ps_Used row + _)) by (unfold is_u64; lia). simpl.
  rewrite (u64_id (limit - (ps_Used row + _))) by (unfold is_u64; lia). done.
Qed.

Lemma fixed_keeps row r :
  alg = FixedWindow -> let m := ps_ObservedMicros row in let v := revision (req_Policy r) in
  0 <= ps_Used row <= maxExactMicros -> req_Policy r = pol v ->
  1 <= Cost r <= maxCost (req_Policy r) -> exact_micros m -> - maxExactMicros <= m / P * P ->
  exists row' d err, mutateRow row (at_micros r m) = (row', d, err) /\
    fixed_row (pol v) row' /\ same_identity row row' /\ settled d err.
Proof.
  intros E m v Hu Hp Hc Hm Hfl. destruct (line_facts v) as (HP & HL & Hmax & HPm & _).
  unfold exact_micros in Hm.
  unfold mutateRow. rewrite E. eval_algorithms. cbn iota. unfold mutateFixed. simpl.
  rewrite Hp, HPm, UnixMicro_utc by (unfold is_i64; lia). change floor with floorBoundary.
  rewrite floorBoundary_floor by (unfold is_i64; lia). set (w := m / P * P) in *.
  assert (w <= m) by (unfold w; zlia).
  set (row0 := if negb (ps_Window row =? w) then _ else row).
  assert (ps_Window row0 = w /\ 0 <= ps_Used row0 <= maxExactMicros /\ same_identity row row0) as (Hw & Hu0 & Hid).
  { unfold row0. destruct (Z.eqb_spec (ps_Window row) w); simpl; split_and!; try done; lia. }
  rewrite consume_cases by (done || lia). simpl. fold v. unfold usageExceedsLimit, same_identity in *.
  destruct (Z.ltb_spec (Limit (pol v)) (ps_Used row0 + Cost r)); simpl; eexists _, _, _;
    (split; [done|]); unfold settled; simpl; (split_and!; try tauto; [split; simpl|..]);
    unfold exact_micros; try lia.
  all: destruct (Z.ltb_spec (Limit (pol v)) (ps_Used row0)); first [by right | left; lia | idtac].
Qed.

(** *** The ring *)

Definition ring_sound (m : Z) (segs : list persistedSegment) : Prop :=
  length segs = 16%nat /\ forall j s, segs !! j = Some s -> slot_sound P m j s.

Definition slot_at (m : Z) : nat := Z.to_nat (seg_at P m mod 16).

Lemma seg_span m : old_at P m < seg_at P m <= old_at P m + 16.
Proof.
  destruct (line_facts EmptyString) as (HP & _ & _ & _ & _ & _ & Hw).
  assert (P <= 16 * width P) by (unfold width; zlia). unfold old_at, seg_at. split.
  - apply Z.le_succ_l. rewrite <- Z.add_1_r.
    replace ((m - P) / width P + 1) with ((m - P + 1 * width P) / width P)
      by (rewrite Z.div_add; lia). apply Z.div_le_mono; lia.
  - replace ((m - P) / width P + 16) with ((m - P + 16 * width P) / width P)
      by (rewrite Z.div_add; lia). apply Z.div_le_mono; lia.
Qed.

Lemma seg_at_exact m : exact_micros m -> exact_micros (seg_at P m).
Proof.
  destruct (line_facts EmptyString) as (HP & _ & _ & _ & _ & _ & Hw). unfold exact_micros, seg_at. intros. split.
  - apply Z.div_le_lower_bound; nia.
  - apply Z.div_le_upper_bound; nia.
Qed.

Lemma slot_residue_at m : Z.of_nat (slot_at m) = seg_at P m mod 16.
Proof. unfold slot_at. rewrite Z2Nat.id; [done|]. apply Z.mod_pos_bound. lia. Qed.

Lemma ring_clear o segs : ring_of (clearExpired o segs) = map (expire o) (ring_of segs).
Proof.
  induction segs as [|s segs IH]; [done|]. simpl. fold (clearExpired o segs). f_equal; [|exact IH].
  unfold expire; simpl. by case_match.
Qed.

Lemma clear_sound m m' segs :
  ring_sound m segs -> m <= m' -> ring_sound m' (clearExpired (old_at P m') segs).
Proof.
  intros [Hl Hs] Hm. destruct (line_facts EmptyString) as (_ & _ & _ & _ & _ & _ & Hw).
  split; [by unfold clearExpired; rewrite length_map|]. intros j s Hj.
  apply list_lookup_fmap_Some in Hj as (s0 & -> & Hj). destruct (Hs j s0 Hj) as (Hu & Hi & Hc).
  case_match; [split_and!; simpl; [lia|lia|unfold exact_micros; lia|by left]|].
  split; [done|]. split; [done|]. destruct Hc as [|[? Hle]]; [by left|]. right. split; [done|].
  etrans; [exact Hle|]. unfold seg_at. apply Z.div_le_mono; lia.
Qed.

(** Writing the present slot of a sound ring. *)
Lemma write_sound m segs c :
  ring_sound m segs -> exact_micros m -> 0 <= c <= maxExactMicros ->
  ring_sound m (<[slot_at m := mkPersistedSegment (seg_at P m) c]> segs).
Proof.
  intros [Hl Hs] Hm Hc. split; [by rewrite length_insert|]. intros j s Hj.
  apply list_lookup_insert_Some in Hj as [(<- & <- & _)|[_ Hj]]; [|by apply Hs].
  split_and!; simpl; try lia; [by apply seg_at_exact|right]. rewrite slot_residue_at. lia.
Qed.

(** After expiry, the present slot holds the present segment or nothing. *)
Lemma present_free m m' segs s :
  ring_sound m segs -> m <= m' -> clearExpired (old_at P m') segs !! slot_at m' = Some s ->
  ps_Index s = seg_at P m' \/ ps_SegUsed s = 0.
Proof.
  intros Hr Hm Hj. destruct (clear_sound _ _ _ Hr Hm) as [_ Hs].
  destruct (Hs _ _ Hj) as (_ & _ & [|[Hmod Hle]]); [by right|].
  apply list_lookup_fmap_Some in Hj as (s0 & E & _). pose proof (seg_span m').
  destruct (Z.leb_spec (ps_Index s0) (old_at P m')); subst s; [by right|]. left.
  rewrite slot_residue_at in Hmod. zlia.
Qed.

Lemma ring_advance m m' segs :
  ring_sound m segs -> m <= m' -> exact_micros m' ->
  let o := old_at P m' in
  let segs' := claimSlot (slot_at m') (seg_at P m') (clearExpired o segs) in
  ring_sound m' segs' /\ ring_sum o (ring_of segs') = ring_sum o (ring_of segs) /\
  exists s, segs' !! slot_at m' = Some s /\ ps_Index s = seg_at P m'.
Proof.
  intros Hr Hm Hex o segs'. pose proof (clear_sound _ _ _ Hr Hm) as Hclear. fold o in Hclear.
  assert (ring_sum o (ring_of (clearExpired o segs)) = ring_sum o (ring_of segs)) as Hsum
    by (rewrite ring_clear; by apply ring_sum_expire).
  pose proof (Z.mod_pos_bound (seg_at P m') 16 ltac:(lia)).
  destruct (lookup_lt_is_Some_2 (clearExpired o segs) (slot_at m')) as [s Hs].
  { destruct Hclear as [-> _]. unfold slot_at. lia. }
  pose proof (present_free _ _ _ _ Hr Hm Hs) as Hfree. unfold segs', claimSlot. rewrite Hs.
  destruct (Z.eqb_spec (ps_Index s) (seg_at P m')) as [E|E]; simpl; [by eauto|].
  destruct Hfree as [|H0]; [done|]. split_and!.
  - apply write_sound; [done|done|lia].
  - rewrite ring_of_insert, (ring_sum_insert _ _ _ (seg_of s)) by (by rewrite ring_of_lookup, Hs).
    rewrite Hsum. unfold contribution; simpl. rewrite H0. repeat case_match; lia.
  - eexists. rewrite list_lookup_insert_eq by (by eapply lookup_lt_Some). by split.
Qed.

(** The present slot is part of the live usage. *)
Lemma present_used m segs s :
  ring_sound m segs -> segs !! slot_at m = Some s -> ps_Index s = seg_at P m ->
  ps_SegUsed s <= ring_sum (old_at P m) (ring_of segs).
Proof.
  intros [_ Hslots] Hs Hi. pose proof (seg_span m) as Hspan.
  etrans; [|eapply (ring_sum_member _ _ (slot_at m) (seg_of s))].
  - unfold contribution; simpl. by rewrite Hi, (proj2 (Z.ltb_lt _ _)) by lia.
  - apply Forall_lookup. intros j g Hg. rewrite ring_of_lookup in Hg.
    destruct (segs !! j) as [x|] eqn:Hx; simplify_eq/=. apply (Hslots j x Hx).
  - by rewrite ring_of_lookup, Hs.
Qed.

(** The earliest live segment lies within the period. *)
Lemma earliest_span m m' segs e :
  ring_sound m segs -> m <= m' -> earliest_of (old_at P m') (ring_of segs) MaxInt64 e ->
  e = MaxInt64 \/ old_at P m' < e <= seg_at P m'.
Proof.
  intros [_ Hslots] Hm (_ & _ & [|(g & (x & -> & [j Hj]%list_elem_of_lookup)%list_elem_of_fmap & [Hgo Hgu] & <-)]);
    [by left|right]. simpl in *. split; [done|]. destruct (Hslots j x Hj) as (_ & _ & [|[_ Hi]]); [done|].
  destruct (line_facts EmptyString) as (HP & _ & _ & _ & _ & _ & Hw).
  etrans; [exact Hi|]. unfold seg_at. apply Z.div_le_mono; lia.
Qed.

(** Granting in the present slot. *)
Lemma ring_grant m segs s c :
  ring_sound m segs -> exact_micros m -> segs !! slot_at m = Some s -> ps_Index s = seg_at P m ->
  0 <= c -> ring_sum (old_at P m) (ring_of segs) + c <= maxExactMicros ->
  ring_sound m (addToSlot (slot_at m) c segs) /\
  ring_sum (old_at P m) (ring_of (addToSlot (slot_at m) c segs)) =
    ring_sum (old_at P m) (ring_of segs) + c.
Proof.
  intros Hr Hm Hs Hi Hc Hle. pose proof Hr as [_ Hslots]. destruct (Hslots _ _ Hs) as ([Hu _] & _).
  pose proof (seg_span m) as Hspan.
  pose proof (present_used m segs s Hr Hs Hi) as Hmem.
  unfold addToSlot. rewrite Hs, Hi, u64_id by (unfold is_u64; lia). split.
  - apply write_sound; [done|done|lia].
  - rewrite ring_of_insert, (ring_sum_insert _ _ _ (seg_of s)) by (by rewrite ring_of_lookup, Hs).
    unfold contribution; simpl. rewrite Hi, (proj2 (Z.ltb_lt (old_at P m) (seg_at P m))) by lia. lia.
Qed.

Lemma liveUsage_sum m o segs :
  ring_sound m segs -> ring_sum o (ring_of segs) <= maxExactMicros ->
  exists e, liveUsage o segs 0 MaxInt64 = (ring_sum o (ring_of segs), e) /\
    earliest_of o (ring_of segs) MaxInt64 e.
Proof.
  intros [_ Hs] Hle. pose proof (liveUsage_scan o segs 0 MaxInt64) as E.
  destruct (scanSegments_spec o (ring_of segs) 0 MaxInt64) as (e & E' & He).
  - apply Forall_lookup. intros j g Hg. rewrite ring_of_lookup in Hg.
    destruct (segs !! j) as [x|] eqn:Hx; simplify_eq/=. apply (Hs j x Hx).
  - lia.
  - lia.
  - rewrite E' in E. exists e. split; [|done]. destruct (liveUsage o segs 0 MaxInt64).
    simpl in E. injection E as _ <- <-. done.
Qed.

(** [mutateSliding] in closed form on a sound ring. *)
Lemma mutateSliding_eq row r m0 :
  let m := ps_ObservedMicros row in let v := revision (req_Policy r) in
  ring_sound m0 (ps_Segments row) -> m0 <= m -> exact_micros m ->
  let use := ring_sum (old_at P m) (ring_of (ps_Segments row)) in
  use <= maxExactMicros -> req_Policy r = pol v ->
  exists e, (liveUsage (old_at P m) (ps_Segments row) 0 MaxInt64 = (use, e) /\
    earliest_of (old_at P m) (ring_of (ps_Segments row)) MaxInt64 e) /\
  let segs := claimSlot (slot_at m) (seg_at P m) (clearExpired (old_at P m) (ps_Segments row)) in
  let row1 := setPersistedSegments
                (setUsage row (ps_Window row) use (usageExceedsLimit use (Limit (pol v)))) segs in
  let '(row2, d, err) := consume row1 (at_micros r m) (slidingReset (at_micros r m) e) in
  mutateSliding row (at_micros r m) =
    (match err with
     | None => setPersistedSegments row2 (addToSlot (slot_at m) (Cost r) (ps_Segments row2))
     | Some _ => row2 end, d, err).
Proof.
  intros m v Hr Hm0 Hm use Hle Hp. pose proof Hm as Hm'. unfold exact_micros in Hm'.
  destruct (liveUsage_sum m0 (old_at P m) (ps_Segments row) Hr Hle) as (e & E & He).
  exists e. split; [done|]. unfold mutateSliding. rewrite oldestSegment_eq by done. simpl.
  rewrite Hp. unfold toUTC, ofUnixMicro; simpl. rewrite segmentAt_eq by lia.
  rewrite E. unfold stateSegments. rewrite positiveRemainder_mod. fold (slot_at m). fold use.
  destruct (consume _ _ _) as [[row2 d] [err|]]; done.
Qed.

Lemma sliding_keeps row r m0 :
  alg = SlidingWindow -> let m := ps_ObservedMicros row in let v := revision (req_Policy r) in
  ring_sound m0 (ps_Segments row) -> m0 <= m -> exact_micros m ->
  0 <= ring_sum (old_at P m) (ring_of (ps_Segments row)) <= maxExactMicros ->
  req_Policy r = pol v -> 1 <= Cost r <= maxCost (req_Policy r) ->
  exists row' d err, mutateRow row (at_micros r m) = (row', d, err) /\
    sliding_row (pol v) P row' /\ same_identity row row' /\ settled d err.
Proof.
  intros E m v Hr Hm0 Hm Huse Hp Hc. destruct (line_facts v) as (HP & HL & Hmax & _).
  unfold mutateRow. rewrite E. eval_algorithms. cbn iota.
  destruct (mutateSliding_eq row r m0 Hr Hm0 Hm (proj2 Huse) Hp) as (e & _ & Heq). cbv zeta in Heq. fold m in Heq.
  destruct (ring_advance m0 m _ Hr Hm0 Hm) as (Hr' & Hsum & s & Hs & Hi).
  set (segs := claimSlot _ _ _) in *. set (use := ring_sum (old_at P m) (ring_of (ps_Segments row))) in *.
  rewrite consume_cases in Heq by (done || simpl; lia). simpl in Heq. fold v in Heq.
  destruct (Z.ltb_spec (Limit (pol v)) (use + Cost r)) as [Hover|Hfit]; rewrite Heq; simpl.
  - eexists _, _, _. split; [done|]. split_and!; try done; [|by right].
    destruct Hr' as [Hl Hslots]. split; simpl; try done; unfold live_sum; simpl; fold m; rewrite Hsum; [lia|].
    unfold usageExceedsLimit. destruct (Z.ltb_spec (Limit (pol v)) use); [by right|left; lia].
  - destruct (ring_grant m segs s (Cost r) Hr' Hm Hs Hi) as [[Hl Hslots] Hsum']; [lia|rewrite Hsum; lia|].
    eexists _, _, _. split; [done|]. split_and!; try done; [|by left].
    split; simpl; try done; unfold live_sum; simpl; fold m; rewrite Hsum', Hsum; fold use; [lia|left; lia].
Qed.

(** *** One admission, and histories *)

Lemma admission_keeps row r m :
  sound_row pol name alg P row -> row_request r m ->
  exists row' d err, mutateState (Some row) r = (Some row', d, err) /\
    sound_row pol name alg P row' /\ settled d err /\
    ps_ObservedMicros row' = effective row m /\ ps_Revision row' = revision (req_Policy r).
Proof.
  intros Hrow Hr. rewrite (mutateState_eq row r m Hrow Hr).
  destruct Hr as (Hp & Hc & Hn & Hm & Hfl). set (v := revision (req_Policy r)) in *.
  set (m' := effective row m). destruct (line_facts v) as (HP & _).
  pose proof Hrow as [Hsc Hid Ha Ho Hper Ht Hf Hs].
  assert (- maxExactMicros <= m' <= maxExactMicros - P /\ m <= m' /\ ps_ObservedMicros row <= m')
    as (Hm' & Hle & Hmono) by (unfold m', effective; lia).
  destruct (prepared_identity row v m') as (I1 & I2 & I3 & I4 & I5 & I6 & I7 & I8 & I9).
  assert (exact_micros (ps_ObservedMicros (prepared row v m'))) as Hex
    by (rewrite I5; unfold exact_micros; lia).
  assert (exists row' d err, mutateRow (prepared row v m') (at_micros r m') = (row', d, err) /\
    ((alg = TokenBucket -> token_row (pol v) P row') /\ (alg = FixedWindow -> fixed_row (pol v) row') /\
     (alg = SlidingWindow -> sliding_row (pol v) P row')) /\
    same_identity (prepared row v m') row' /\ settled d err) as (row' & d & err & E & Hpay & Hsame & Hset).
  { replace (at_micros r m') with (at_micros r (ps_ObservedMicros (prepared row v m'))) by (by rewrite I5).
    destruct (line_windowed _ _ _ _ Hline) as [E|[E|E]].
    - destruct (token_keeps (prepared row v m') r E) as (row' & d & err & -> & ? & ? & ?); try done.
      { apply prepared_token; [done..|fold m'; lia]. }
      exists row', d, err. split_and!; try done; intros E'; by rewrite E in E'.
    - destruct (fixed_keeps (prepared row v m') r E) as (row' & d & err & -> & ? & ? & ?); try done.
      { rewrite I8. apply (row_used _ _ (Hf E)). }
      { rewrite I5. specialize (Hfl E). assert (m / P <= m' / P) by (apply Z.div_le_mono; lia). nia. }
      exists row', d, err. split_and!; try done; intros E'; by rewrite E in E'.
    - destruct (Hs E) as [S1 S2 S3 S4]. pose proof (live_sum_later row m' (Hs E) Hmono) as Hlive.
      destruct (sliding_keeps (prepared row v m') r (ps_ObservedMicros row) E)
        as (row' & d & err & -> & ? & ? & ?); try done; rewrite ?I5, ?I9; try done; [lia|].
      exists row', d, err. split_and!; try done; intros E'; by rewrite E in E'. }
  rewrite E. exists row', d, err. split; [done|].
  destruct Hsame as (J1 & J2 & J3 & J4 & J5 & J6). destruct Hpay as (K1 & K2 & K3).
  split; [|split_and!; [done|congruence|congruence]].
  assert (ps_Revision row' = v) as Hrev by congruence.
  split; rewrite ?Hrev; [congruence|congruence|congruence|rewrite J5, I5; lia| |done..].
  intros Hw. rewrite J6. by apply I6.
Qed.

(** The row a first request creates. *)
Definition first_row (r : Request) : persistedState :=
  recordWindowPeriod (freshRow r) (req_Policy r).

Lemma fresh_ring m : ring_sound m (replicate 16 emptySegment) /\
  forall o, ring_sum o (ring_of (replicate 16 emptySegment)) = 0.
Proof.
  split; [split; [done|]|].
  - intros j s Hj. change (replicate 16 emptySegment !! j = Some s) in Hj.
    apply lookup_replicate in Hj as [-> _]. split_and!; simpl; [lia|lia|unfold exact_micros; lia|by left].
  - intros o. unfold ring_sum, contribution; simpl. by destruct (o <? 0).
Qed.

Lemma first_row_sound r m :
  row_request r m -> sound_row pol name alg P (first_row r) /\ ps_ObservedMicros (first_row r) = m.
Proof.
  intros (Hp & Hc & Hn & Hm & Hfl). set (v := revision (req_Policy r)) in *.
  destruct (line_facts v) as (HP & HL & _ & HPm & _). destruct (fresh_ring m) as [[Hlen Hring] Hsum].
  assert (UnixMicro (Now r) = m) as Hnow by (rewrite Hn; apply UnixMicro_utc; unfold is_i64; lia).
  assert (algorithm (req_Policy r) = alg) as Halg by (rewrite Hp; apply Hline).
  assert (id (req_Policy r) = name) as Hid by (rewrite Hp; apply Hline).
  unfold first_row, recordWindowPeriod, freshRow. rewrite Hnow, Hid, Halg.
  replace (Limit (req_Policy r)) with (Limit (pol v)) by (by rewrite <- Hp).
  replace (Microseconds (period (req_Policy r))) with P by (rewrite Hp; done).
  destruct (line_windowed _ _ _ _ Hline) as [E|[E|E]]; rewrite E; unfold usesWindowMetadata;
    eval_algorithms; cbn -[replicate]; (split; [|done]); (split; [done|done|done|simpl; lia| |..]); try done;
    intros _; simpl; fold v; try (split; simpl; unfold exact_micros; try done; try lia).
  all: unfold live_sum; simpl ps_ObservedMicros; simpl ps_Segments; rewrite Hsum; lia.
Qed.

Lemma first_admission r m :
  row_request r m -> mutateState None r = mutateState (Some (first_row r)) r.
Proof.
  intros Hr. destruct (first_row_sound r m Hr) as [Hrow _].
  unfold mutateState, mutateStateMode. case_match; [done|].
  replace (loadedRow (Some (first_row r)) r true) with (loadedRow None r true); [done|].
  pose proof Hrow as [Hsc Hid Ha _ _ _ _ _]. unfold loadedRow.
  destruct Hr as (Hp & _). rewrite Hsc, Z.eqb_refl.
  rewrite (bool_decide_eq_true_2 (ps_PolicyID _ = _)) by (rewrite Hid, Hp; symmetry; apply Hline).
  rewrite (bool_decide_eq_true_2 (ps_Algorithm _ = _)) by (rewrite Ha, Hp; symmetry; apply Hline).
  replace (corruptRow (first_row r) (req_Policy r)) with false; [done|].
  rewrite Hp. symmetry. by apply corruptRow_false.
Qed.

(** A history on one key: the stored row is replaced unless it is refused. *)
Fixpoint runRows (row : option persistedState) (rs : list Request)
    : list (Decision * option error) * option persistedState :=
  match rs with
  | [] => ([], row)
  | r :: rest =>
      let '(next, d, err) := mutateState row r in
      let '(log, final) := runRows (match next with Some _ => next | None => row end) rest in
      ((d, err) :: log, final)
  end.

Lemma history_keeps rs : forall row,
  (forall x, row = Some x -> sound_row pol name alg P x) ->
  Forall (fun r => exists m, row_request r m) rs ->
  let '(log, final) := runRows row rs in
  length log = length rs /\ Forall (fun de => settled de.1 de.2) log /\
  (forall x, final = Some x -> sound_row pol name alg P x).
Proof.
  induction rs as [|r rs IH]; intros row Hrow Hrs; simpl; [done|].
  apply Forall_cons in Hrs as [[m Hr] Hrs].
  assert (exists row' d err, mutateState row r = (Some row', d, err) /\
    sound_row pol name alg P row' /\ settled d err) as (row' & d & err & -> & Hrow' & Hset).
  { destruct row as [x|].
    - destruct (admission_keeps x r m (Hrow x eq_refl) Hr) as (row' & d & err & ? & ? & ? & _). eauto 10.
    - rewrite (first_admission r m Hr). destruct (first_row_sound r m Hr) as [Hx _].
      destruct (admission_keeps _ r m Hx Hr) as (row' & d & err & ? & ? & ? & _). eauto 10. }
  specialize (IH (Some row')). destruct (runRows (Some row') rs) as [log final].
  destruct IH as (Hlen & Hlog & Hfin); [by intros x [= <-]|done|]. simpl.
  split_and!; [by rewrite Hlen|by constructor|done].
Qed.

(** C18: strict admission never corrupts its own rows.  Along any history of
    valid requests on one key of one policy, with clocks that run backwards and
    revisions that change the limits, starting without a row, every request is
    granted or rejected (no stored row ever fails an integrity check), and the
    final row satisfies the invariant. *)
Theorem pg_rows_stay_sound rs :
  Forall (fun r => exists m, row_request r m) rs ->
  let '(log, final) := runRows None rs in
  length log = length rs /\ Forall (fun de => settled de.1 de.2) log /\
  (forall row, final = Some row -> sound_row pol name alg P row).
Proof. intros Hrs. by apply (history_keeps rs None). Qed.

(** A token row of the request's own revision is only stamped. *)
Lemma prepared_same row m :
  alg = TokenBucket -> prepared row (ps_Revision row) m = setSeen row (ps_Revision row) m.
Proof.
  intros E. unfold prepared, revised, recordWindowPeriod. rewrite (line_algorithm _ _ _ _ Hline), E.
  change (usesWindowMetadata TokenBucket) with false. cbn iota. eval_algorithms.
  rewrite (bool_decide_eq_true_2 (ps_Revision row = _)) by done. done.
Qed.

(** A strict token admission of the row's own revision, in closed form. *)
Lemma token_admission row r m :
  alg = TokenBucket -> sound_row pol name alg P row -> row_request r m ->
  revision (req_Policy r) = ps_Revision row ->
  let p := req_Policy r in
  let m' := effective row m in
  exists tok rem, let rejected := tok <? Cost r in
    let left := if rejected then tok else tok - Cost r in
    mutateState (Some row) r =
      (Some (setTokens (setSeen row (ps_Revision row) m') left rem m'),
       decision (negb rejected) (Limit p) left
         (Add (toUTC (ofUnixMicro m')) (refillDuration (Limit p - left) rem p))
         (if rejected then refillDuration (Cost r - tok) rem p else 0)
         (if rejected then ReasonLimited else ReasonAllowed),
       if rejected then Some (Sent ErrRejected) else None) /\
    0 <= rem < P /\
    ((m' - ps_LastMicros row) * 1000 <= MaxInt64 ->
     tok * P + rem = ideal_refill p (row_level P row) (m' - ps_LastMicros row)).
Proof.
  intros E Hrow Hr Hv p m'. rewrite (mutateState_eq row r m Hrow Hr). fold m'. cbv zeta.
  destruct Hr as (Hp & Hc & Hn & Hm & _). destruct (line_facts (revision (req_Policy r))) as (HP & _).
  pose proof (row_observed _ _ _ _ _ Hrow) as Ho.
  assert (exact_micros m') as Hm' by (unfold exact_micros, m', effective; lia).
  pose proof (prepared_token row (revision (req_Policy r)) m E Hrow ltac:(fold m'; apply Hm')) as Htok.
  cbv zeta in Htok. fold m' in Htok. rewrite Hv, prepared_same in * by done.
  unfold mutateRow. rewrite E. eval_algorithms. cbn iota.
  destruct (mutateToken_spec p ltac:(unfold p; rewrite Hp; apply Hline)
              ltac:(unfold p; rewrite Hp, <- E; apply Hline)
              (setSeen row (ps_Revision row) m') (at_micros r m'))
    as (tok & rem & -> & _ & [_ Hrem _ _] & Hid);
    replace (period_micros p) with P in * by (unfold p; rewrite Hp; symmetry; apply line_period_micros);
    [unfold p; by rewrite Hp|done|done|simpl; by auto with golib|done|].
  exists tok, rem. split_and!; try done; apply Hrem.
Qed.

(** C32: the PostgreSQL token bucket is the ideal bucket.  On every sound row
    of the request's revision that was refilled at most 292 years ago (the range
    of a [time.Duration]), whatever the rate, one admission makes the decision of
    the exact rational bucket, reports its whole tokens, and stores a sound row
    that again represents the ideal bucket. *)
Theorem pg_token_refines_ideal row r m :
  alg = TokenBucket -> sound_row pol name alg P row -> row_request r m ->
  revision (req_Policy r) = ps_Revision row ->
  (effective row m - ps_LastMicros row) * 1000 <= MaxInt64 ->
  exists row' d err, mutateState (Some row) r = (Some row', d, err) /\
    let '(ok, b) := ideal_admit (req_Policy r) (mkIdeal (row_level P row) (ps_LastMicros row))
                      (effective row m) (Cost r) in
    Allowed d = ok /\ err = (if ok then None else Some (Sent ErrRejected)) /\
    mkIdeal (row_level P row') (ps_LastMicros row') = b /\ Remaining d = ideal_level b / P /\
    sound_row pol name alg P row'.
Proof.
  intros E Hrow Hr Hv Hsat.
  destruct (admission_keeps row r m Hrow Hr) as (row' & d & err & Heq & Hrow' & _).
  exists row', d, err. split; [done|].
  destruct (token_admission row r m E Hrow Hr Hv) as (tok & rem & Hmut & Hrem & Hid).
  specialize (Hid Hsat). destruct (line_facts EmptyString) as (HP & _).
  assert (period_micros (req_Policy r) = P) as HPr
    by (rewrite (proj1 Hr); apply line_period_micros).
  rewrite Heq in Hmut. injection Hmut as -> -> ->. clear Heq. unfold ideal_admit. simpl.
  rewrite HPr, <- Hid.
  destruct (Z.ltb_spec tok (Cost r)); destruct (Z.leb_spec (Cost r * P) (tok * P + rem));
    try (exfalso; nia); simpl; unfold row_level; simpl;
    (split_and!; [done|done|f_equal; lia| |done]).
  - rewrite Z.div_add_l, (Z.div_small rem) by lia. lia.
  - replace (tok * P + rem - Cost r * P) with ((tok - Cost r) * P + rem) by lia.
    rewrite Z.div_add_l, (Z.div_small rem) by lia. lia.
Qed.
End Rows.

(** ** A concrete lineage *)

Module DemoRows.
(** Five units per 160 microseconds under any revision; revision "v2" has 3. *)
Definition pol (alg : Algorithm) (v : string) : Policy :=
  let limit := if bool_decide (v = "v2"%string) then 3 else 5 in
  mkPolicy "window"%string v alg limit 160000 0 limit FailClosed ConsistencyProcessLocal 0.
Definition at_ (alg : Algorithm) (v : string) (m cost : Z) : Request :=
  mkRequest (pol alg v) (mkKey "http:v1:principal:x" "principal") cost (toUTC (ofUnixMicro m)).
(** A token row with two tokens left. *)
Definition row : persistedState :=
  mkPersistedState 1 "window" "v1" TokenBucket 2 0 1700000000000000 1700000000000000 0 0 0 false
    (replicate 16 emptySegment) None.
End DemoRows.

Lemma demo_lineage alg : windowed alg -> lineage (DemoRows.pol alg) "window" alg 160.
Proof.
  intros Hw. split; try done. intros v. unfold DemoRows.pol.
  destruct (bool_decide (v = "v2"%string)); split; simpl; try done; try lia;
    try (by left); left; (split; [done|]); vm_compute; repeat split; discriminate.
Qed.

Lemma demo_row_request alg v m cost :
  1 <= cost <= 3 -> 0 <= m <= maxExactMicros - 160 ->
  row_request (DemoRows.pol alg) alg 160 (DemoRows.at_ alg v m cost) m.
Proof.
  intros Hc Hm. unfold row_request, DemoRows.at_; simpl.
  split_and!; try done; try lia; [destruct (bool_decide (v = "v2"%string)); lia|].
  intros _. assert (0 <= m / 160) by (apply Z.div_pos; lia). lia.
Qed.

Lemma pg_rows_stay_sound_witness :
  let at_ := DemoRows.at_ SlidingWindow in
  let '(log, final) := runRows None [at_ "v1" 1000 3; at_ "v1" 900 2; at_ "v2" 1010 1; at_ "v2" 1200 3] in
  length log = 4%nat /\ Forall (fun de => settled de.1 de.2) log /\
  (forall row, final = Some row -> sound_row (DemoRows.pol SlidingWindow) "window" SlidingWindow 160 row).
Proof.
  assert (windowed SlidingWindow) as Hw by (right; by right).
  apply (pg_rows_stay_sound _ _ _ _ (demo_lineage SlidingWindow Hw)
           [DemoRows.at_ SlidingWindow "v1" 1000 3; DemoRows.at_ SlidingWindow "v1" 900 2;
            DemoRows.at_ SlidingWindow "v2" 1010 1; DemoRows.at_ SlidingWindow "v2" 1200 3]).
  repeat constructor; eexists; apply demo_row_request; lia.
Defined.

Lemma demo_row_sound : sound_row (DemoRows.pol TokenBucket) "window" TokenBucket 160 DemoRows.row.
Proof.
  split; [done|done|done|simpl; lia|done|intros _|done|done].
  split; [|simpl; lia|intros [=]|simpl; lia]. vm_compute; split; discriminate.
Qed.

Lemma pg_token_refines_ideal_witness :
  exists row' d err, mutateState (Some DemoRows.row) (DemoRows.at_ TokenBucket "v1" 1700000000000040 3)
    = (Some row', d, err) /\
    let '(ok, b) := ideal_admit (DemoRows.pol TokenBucket "v1")
                      (mkIdeal (row_level 160 DemoRows.row) 1700000000000000) 1700000000000040 3 in
    Allowed d = ok /\ err = (if ok then None else Some (Sent ErrRejected)) /\
    mkIdeal (row_level 160 row') (ps_LastMicros row') = b /\ Remaining d = ideal_level b / 160 /\
    sound_row (DemoRows.pol TokenBucket) "window" TokenBucket 160 row'.
Proof.
  assert (windowed TokenBucket) as Hw by by left.
  apply (pg_token_refines_ideal _ _ _ _ (demo_lineage TokenBucket Hw) DemoRows.row
           (DemoRows.at_ TokenBucket "v1" 1700000000000040 3) 1700000000000040);
    [done | apply demo_row_sound | apply demo_row_request; lia | done | vm_compute; discriminate].
Defined.
