(* ===== verification/PgAgree.v ===== *)
(** * The PostgreSQL and the in-memory backend agree

    A simulation between the state of the in-memory backend and the row of the
    PostgreSQL backend: on the same history of requests the strict PostgreSQL
    admission and the in-memory admission return the same decisions and errors,
    so every theorem about the one algorithm speaks about the other. *)

From S2P Require Import Prelude GoTime GoHash Errors Keys Policy.
From S2P Require Import MemoryState TokenBucket Windows SlidingWindow PgState PgTokens PgRows.

Local Open Scope Z_scope.

(** The revisions of a policy that differ in name only. *)
Definition revisions (p : Policy) (v : string) : Policy :=
  mkPolicy (id p) v (algorithm p) (capacity p) (period p) (burst p) (maxCost p) (failureMode p)
           (consistency p) (lease p).

Lemma revisions_self p : revisions p (revision p) = p.
Proof. by destruct p. Qed.

Lemma period_whole p : wf_policy p -> windowed (algorithm p) -> period p = period_micros p * 1000.
Proof.
  intros [_ _ _ _ _ _ _ _ _ Halg] Hw. unfold period_micros.
  destruct Halg as [(_ & _ & Hm & _)|(Hc & _)]; [zlia|].
  rewrite Hc in Hw. by apply windowed_not_concurrency in Hw.
Qed.

Lemma revisions_lineage p :
  wf_policy p -> windowed (algorithm p) ->
  lineage (revisions p) (id p) (algorithm p) (period_micros p).
Proof.
  intros Hwf Hw. split; try done; [|intros v; by apply (period_whole p)].
  intros v. by destruct Hwf.
Qed.

(** The decisions of the in-memory backend on one key. *)
Fixpoint decisionsOf (s : state) (rs : list Request) : list (Decision * option error) :=
  match rs with
  | [] => []
  | r :: rest => let '(d, e, s') := admitState s r in (d, e) :: decisionsOf s' rest
  end.

(** ** The simulation relation *)

Record agree (p : Policy) (s : state) (row : persistedState) : Prop := {
  agree_seen : lastSeen s = toUTC (ofUnixMicro (ps_ObservedMicros row));
  agree_revision : ps_Revision row = revision p;
  agree_token : algorithm p = TokenBucket ->
    tokens s = ps_Tokens row /\ remainder s = ps_Remainder row /\
    instant (lastRefill s) = ps_LastMicros row * 1000;
  agree_fixed : algorithm p = FixedWindow ->
    windowStart s = ps_Window row * 1000 /\ used s = ps_Used row;
  agree_sliding : algorithm p = SlidingWindow -> segments s = ring_of (ps_Segments row)
}.

Section Agree.
Context (p : Policy).
Hypothesis Hwf : wf_policy p.
Hypothesis Hw : windowed (algorithm p).

Abbreviation P := (period_micros p).
Abbreviation sound := (sound_row (revisions p) (id p) (algorithm p) P).
Abbreviation valid_at := (row_request (revisions p) (algorithm p) P).
Let Hline : lineage (revisions p) (id p) (algorithm p) P := revisions_lineage p Hwf Hw.

Lemma clampNow_at s row r m :
  agree p s row -> Now r = toUTC (ofUnixMicro m) -> clampNow s r = at_micros r (effective row m).
Proof. intros [Hs _ _ _ _] Hn. by apply clampNow_micros. Qed.

(** *** Token buckets *)

Lemma agree_bucket s row :
  algorithm p = TokenBucket -> sound row -> agree p s row -> wf_bucket p s.
Proof.
  intros Hal Hrow [Hs Hrev Ht _ _]. destruct (Ht Hal) as (Et & Er & El).
  pose proof (row_token _ _ _ _ _ Hrow Hal) as Hr. rewrite Hrev, revisions_self in Hr.
  destruct Hr as [H1 H2 H3 H4].
  split; rewrite ?Et, ?Er; try done; unfold aligned; rewrite ?El, ?Hs; simpl; [|lia].
  split; apply Z.mod_mul; lia.
Qed.

(** Two pairs at the same level are the same pair. *)
Lemma level_unique tok rem tok' rem' :
  0 <= rem < P -> 0 <= rem' < P -> tok * P + rem = tok' * P + rem' -> tok = tok' /\ rem = rem'.
Proof. intros. assert (tok = tok') by nia. subst. split; [done|lia]. Qed.

Lemma token_step_agrees s row r m :
  algorithm p = TokenBucket -> sound row -> agree p s row -> valid_at r m -> req_Policy r = p ->
  let m' := effective row m in
  (m' - ps_LastMicros row) * 1000 <= MaxInt64 ->
  (m' - ps_LastMicros row) * capacity p + P <= (two64 - Limit p) * P ->
  exists row' d err s', admitState s r = (d, err, s') /\
    mutateState (Some row) r = (Some row', d, err) /\ agree p s' row' /\ ps_LastMicros row' = m'.
Proof.
  intros Hal Hrow Hag Hr Hp m' Hsat Hfit. pose proof (agree_bucket s row Hal Hrow Hag) as Hb.
  pose proof Hag as [Hs Hrev Ht _ _]. destruct (Ht Hal) as (Et & Er & El).
  destruct (token_admission _ _ _ _ Hline row r m Hal Hrow Hr) as (tok & rem & Emut & Hrem & Hid);
    [by rewrite Hp|]. specialize (Hid Hsat). fold m' in Emut, Hid. rewrite Hp in Emut, Hid.
  pose proof Hr as (_ & Hc & Hn & Hm & _). pose proof (clampNow_at s row r m Hag Hn) as Hclamp.
  fold m' in Hclamp. rewrite Hp in Hc.
  assert (bucket_request p r) as Hbr.
  { split_and!; try done; try lia. unfold aligned. rewrite Hn. simpl. apply Z.mod_mul. lia. }
  destruct (admitState_token p Hwf Hal s r Hb Hbr) as (Ead & Hs2 & Hseen2 & Hrefill2 & _).
  destruct (refreshed_spec p Hwf Hal s r Hb Hbr) as (Hb1 & _ & _ & _ & Hlev).
  destruct (level_unique (tokens (refreshed s r)) (remainder (refreshed s r)) tok rem) as [E1 E2];
    [apply Hb1|done| |].
  { rewrite Hid. change (level p (refreshed s r) = ideal_refill p (row_level P row) (m' - ps_LastMicros row)).
    rewrite Hlev; rewrite Hclamp.
    - unfold micros; simpl. rewrite El, !Z.div_mul by lia. f_equal. unfold level, row_level. by rewrite Et, Er.
    - destruct Hb as [_ Hbr' _ _ _].
      split; unfold micros; simpl; rewrite El, ?Z.div_mul by lia; lia. }
  rewrite E1, E2, Hclamp in *. simpl in Ead. cbv zeta in Emut.
  destruct (Z.ltb_spec tok (Cost r)); simpl in *; eexists _, _, _, _;
    (split; [exact Ead|]); (split; [exact Emut|]); (split; [|done]).
  all: split; simpl; try done; try (intros E0; rewrite Hal in E0; discriminate).
  all: intros _; rewrite ?E1, ?E2; split_and!; try done.
Qed.

(** *** Windows *)

(** The two backends charge a window with the same code. *)
Lemma consume_agrees s row r reset :
  used s = ps_Used row ->
  let '(d, err, s') := consumeWindow s r reset in
  exists row', consume row r reset = (row', d, err) /\
    used s' = ps_Used row' /\ windowStart s' = windowStart s /\ lastSeen s' = lastSeen s /\
    segments s' = segments s /\ ps_Window row' = ps_Window row /\
    ps_Segments row' = ps_Segments row /\ same_identity row row'.
Proof.
  intros Hu. unfold consumeWindow, consume, nonnegative. rewrite Hu.
  destruct (_ <? Cost r); simpl; rewrite ?Hu; (eexists; split; [reflexivity|]); by split_and!.
Qed.

Lemma windows_line v : period (revisions p v) = P * 1000.
Proof. apply (line_period _ _ _ _ Hline). Qed.

Lemma period_of_p : period p = P * 1000 /\ Microseconds (period p) = P /\ 1 <= P <= maxExactMicros.
Proof.
  destruct (line_facts _ _ _ _ Hline (revision p)) as (HP & _ & _ & HPm & _).
  rewrite revisions_self in HPm. by split; [apply period_whole|].
Qed.

(** The memory backend's nanosecond window is the row's microsecond window. *)
Lemma admitFixed_micros s r m :
  req_Policy r = p -> window_time p (toUTC (ofUnixMicro m)) ->
  let w := m / P * P in
  admitFixed s (at_micros r m) =
    consumeWindow (if negb (windowStart s =? w * 1000) then setWindow s (w * 1000) 0 else s)
                  (at_micros r m) (ofUnixMicro (w + P)).
Proof.
  intros Hp [Hlo Hhi] w. destruct period_of_p as (Hper & _ & HP). rewrite Hper in *. simpl in Hlo, Hhi.
  unfold admitFixed. simpl. rewrite Hp, Hper. unfold UnixNano; simpl.
  rewrite (i64_id (m * 1000)) by (unfold is_i64; lia).
  rewrite !floorBoundary_floor in * by (unfold is_i64; lia).
  assert (m * 1000 / (P * 1000) * (P * 1000) = w * 1000) as ->
    by (rewrite Z.div_mul_cancel_r by lia; unfold w; lia).
  assert (m - P < w <= m) by (unfold w; zlia).
  rewrite (i64_id (w * 1000 + P * 1000)) by (unfold is_i64; lia).
  replace (ofUnixNano (w * 1000 + P * 1000)) with (ofUnixMicro (w + P)); [done|].
  unfold ofUnixNano, ofUnixMicro. f_equal. lia.
Qed.

Lemma mutateFixed_micros row r m :
  req_Policy r = p -> exact_micros m ->
  let w := m / P * P in
  mutateFixed row (at_micros r m) =
    let row0 := if negb (ps_Window row =? w) then setUsage row w 0 (ps_Carried row) else row in
    let '(row', d, err) := consume row0 (at_micros r m) (ofUnixMicro (w + P)) in
    (setUsage row' (ps_Window row') (ps_Used row') (usageExceedsLimit (ps_Used row') (Limit p)), d, err).
Proof.
  intros Hp Hm w. unfold exact_micros in Hm. destruct period_of_p as (_ & HPm & HP).
  unfold mutateFixed. simpl. rewrite Hp, HPm, UnixMicro_utc by (unfold is_i64; lia).
  change floor with floorBoundary. rewrite floorBoundary_floor by (unfold is_i64; lia). fold w.
  assert (m - P < w <= m) by (unfold w; zlia). rewrite i64_id by (unfold is_i64; lia). done.
Qed.

(** One admission on both sides, up to the algorithm. *)
Lemma window_step s row r m :
  sound row -> agree p s row -> valid_at r m -> req_Policy r = p -> algorithm p <> TokenBucket ->
  let m' := effective row m in
  let row0 := prepared (revisions p) (algorithm p) row (revision p) m' in
  let s0 := setLastSeen s (toUTC (ofUnixMicro m')) in
  (admitState s r = if bool_decide (algorithm p = FixedWindow) then admitFixed s0 (at_micros r m')
                    else admitSliding s0 (at_micros r m')) /\
  (mutateState (Some row) r =
     let '(row', d, err) := if bool_decide (algorithm p = FixedWindow)
                            then mutateFixed row0 (at_micros r m')
                            else mutateSliding row0 (at_micros r m') in (Some row', d, err)) /\
  exact_micros m' /\ ps_ObservedMicros row0 = m' /\ ps_Revision row0 = revision p /\
  ps_Window row0 = ps_Window row /\ ps_Used row0 = ps_Used row /\ ps_Segments row0 = ps_Segments row.
Proof.
  intros Hrow Hag Hr Hp Hne m' row0 s0.
  pose proof (clampNow_at s row r m Hag (proj1 (proj2 (proj2 Hr)))) as Hclamp. fold m' in Hclamp.
  pose proof (row_observed _ _ _ _ _ Hrow) as Ho. destruct period_of_p as (_ & _ & HP).
  destruct (prepared_identity _ _ _ _ Hline row (revision p) m') as (_ & _ & I3 & _ & I5 & _ & I7 & I8 & I9).
  split; [|split].
  - unfold admitState. rewrite Hclamp. simpl req_Policy. rewrite Hp.
    by rewrite (bool_decide_eq_false_2 (algorithm p = TokenBucket)) by done.
  - rewrite (mutateState_eq _ _ _ _ Hline row r m Hrow Hr). cbv zeta. fold m'. rewrite Hp. fold row0.
    unfold mutateRow. by rewrite (bool_decide_eq_false_2 (algorithm p = TokenBucket)) by done.
  - destruct Hr as (_ & _ & _ & Hm & _). split_and!; try done; unfold exact_micros, m', effective; lia.
Qed.

Lemma fixed_step_agrees s row r m :
  algorithm p = FixedWindow -> sound row -> agree p s row -> valid_at r m -> req_Policy r = p ->
  window_time p (toUTC (ofUnixMicro (effective row m))) ->
  exists row' d err s', admitState s r = (d, err, s') /\
    mutateState (Some row) r = (Some row', d, err) /\ agree p s' row'.
Proof.
  intros Hal Hrow Hag Hr Hp Ht. pose proof Hag as [Hs Hrev _ Hf _]. destruct (Hf Hal) as [Ew Eu].
  destruct (window_step s row r m Hrow Hag Hr Hp ltac:(by rewrite Hal)) as (-> & -> & Hm & H1 & H2 & H3 & H4 & _).
  set (m' := effective row m) in *. generalize dependent (prepared (revisions p) (algorithm p) row (revision p) m').
  intros row0 H1 H2 H3 H4. rewrite Hal. eval_algorithms. cbn iota. rewrite (admitFixed_micros _ _ _ Hp Ht).
  rewrite (mutateFixed_micros _ _ _ Hp Hm). cbv zeta. simpl windowStart. rewrite Ew, H3.
  set (w := m' / P * P).
  replace (ps_Window row * 1000 =? w * 1000) with (ps_Window row =? w)
    by (destruct (Z.eqb_spec (ps_Window row) w); destruct (Z.eqb_spec (ps_Window row * 1000) (w * 1000)); lia).
  set (s1 := if negb _ then _ else setLastSeen _ _). set (row1 := if negb _ then _ else row0).
  assert (used s1 = ps_Used row1 /\ windowStart s1 = ps_Window row1 * 1000 /\
          lastSeen s1 = toUTC (ofUnixMicro m') /\ same_identity row0 row1) as (F1 & F2 & F3 & F4).
  { unfold s1, row1. destruct (ps_Window row =? w); simpl; split_and!; try done; congruence. }
  pose proof (consume_agrees s1 row1 (at_micros r m') (ofUnixMicro (w + P)) F1) as Hc.
  destruct (consumeWindow s1 _ _) as [[d err] s']. destruct Hc as (row' & -> & G1 & G2 & G3 & _ & G5 & _ & G7).
  eexists _, d, err, s'. split; [done|]. split; [done|]. unfold same_identity in *.
  split; simpl; try (intros E; rewrite Hal in E; discriminate).
  - rewrite G3, F3. do 2 f_equal. intuition congruence.
  - intuition congruence.
  - intros _. split; congruence.
Qed.

(** *** Sliding windows *)

Lemma ring_of_claim j index segs :
  ring_of (claimSlot j index segs) =
  match ring_of segs !! j with
  | Some g => if negb (seg_index g =? index) then <[j := mkSegment index 0]> (ring_of segs)
              else ring_of segs
  | None => ring_of segs
  end.
Proof.
  unfold claimSlot. rewrite ring_of_lookup. destruct (segs !! j) as [x|]; simpl; [|done].
  case_match; [|done]. by rewrite ring_of_insert.
Qed.

Lemma ring_of_add j cost segs :
  ring_of (addToSlot j cost segs) =
  match ring_of segs !! j with
  | Some g => <[j := mkSegment (seg_index g) (seg_used g +u cost)]> (ring_of segs)
  | None => ring_of segs
  end.
Proof.
  unfold addToSlot. rewrite ring_of_lookup. destruct (segs !! j) as [x|]; simpl; [|done].
  by rewrite ring_of_insert.
Qed.

(** Sixteen equal segments: the widths of the two backends agree. *)
Lemma widths_agree :
  P mod 16 = 0 -> segmentSize p = width P * 1000 /\ P = 16 * width P /\ 1 <= width P.
Proof.
  intros Hd. destruct period_of_p as (Hper & _ & HP). unfold segmentSize, slidingSegments, width.
  rewrite Hper, (i64_id (P * 1000 + 16)), i64_id by (unfold is_i64; lia).
  rewrite quot_nonneg by lia. split_and!; zlia.
Qed.

Lemma segments_agree m :
  P mod 16 = 0 -> segment_of p (m * 1000) = seg_at P m /\ oldest_at p (m * 1000) = old_at P m.
Proof.
  intros Hd. destruct period_of_p as (Hper & _ & HP). destruct (widths_agree Hd) as (Hs & HW & Hpos).
  unfold segment_of, oldest_at, seg_at, old_at. rewrite Hs, Hper.
  rewrite Z.div_mul_cancel_r by lia. split; [done|].
  replace (m * 1000 - P * 1000) with ((m - P) * 1000) by lia. apply Z.div_mul_cancel_r; lia.
Qed.

(** The earliest counted segment gives the same reset instant. *)
Lemma resets_agree r m e :
  P mod 16 = 0 -> req_Policy r = p -> window_time p (toUTC (ofUnixMicro m)) -> exact_micros m ->
  (e = MaxInt64 \/ old_at P m < e <= seg_at P m) ->
  (if negb (e =? MaxInt64) then Add (ofUnixNano ((e +i 1) *i segmentSize p)) (period p)
   else Add (toUTC (ofUnixMicro m)) (period p)) = slidingReset (at_micros r m) e.
Proof.
  intros Hd Hp [Hlo Hhi] Hm He. simpl in Hlo, Hhi. unfold exact_micros in Hm.
  destruct period_of_p as (Hper & _ & HP). rewrite Hper in Hlo, Hhi.
  destruct (widths_agree Hd) as (Hs & HW & Hpos). unfold slidingReset. simpl. rewrite Hp.
  destruct (Z.eqb_spec e MaxInt64) as [|Hne]; simpl; [done|]. destruct He as [|[Ho Ht]]; [done|].
  pose proof (segmentWidth_eq _ _ _ _ Hline (revision p)) as Hwid. rewrite revisions_self in Hwid.
  rewrite Hs, Hwid. f_equal. unfold ofUnixNano, ofUnixMicro. f_equal.
  assert (seg_at P m * width P <= m) by (unfold seg_at; zlia).
  assert (m - P < old_at P m * width P + width P) by (unfold old_at; zlia).
  pose proof (scale_le (old_at P m + 1) e (width P) ltac:(lia) ltac:(lia)).
  pose proof (scale_le e (seg_at P m) (width P) ltac:(lia) ltac:(lia)).
  assert (old_at P m * width P + width P <= e * width P <= seg_at P m * width P) by lia.
  assert (- 2 * maxExactMicros <= e <= maxExactMicros) by nia.
  rewrite (i64_id (e + 1)) by (unfold is_i64; lia).
  rewrite !i64_id by (unfold is_i64; lia). lia.
Qed.

(** The two algorithms on the same ring, given the usage and the earliest
    counted segment that their loops compute. *)
Lemma sliding_algorithms_agree s row r m use e :
  algorithm p = SlidingWindow -> P mod 16 = 0 -> req_Policy r = p ->
  window_time p (toUTC (ofUnixMicro m)) -> exact_micros m ->
  segments s = ring_of (ps_Segments row) ->
  liveUsage (old_at P m) (ps_Segments row) 0 MaxInt64 = (use, e) ->
  (e = MaxInt64 \/ old_at P m < e <= seg_at P m) ->
  let '(d, err, s') := admitSliding s (at_micros r m) in
  exists row', mutateSliding row (at_micros r m) = (row', d, err) /\
    lastSeen s' = lastSeen s /\ segments s' = ring_of (ps_Segments row') /\ same_identity row row'.
Proof.
  intros Hal Hd Hp Ht Hm Hseg Euse He. destruct (segments_agree m Hd) as [Hi Ho].
  pose proof Hm as Hm'. unfold exact_micros in Hm'.
  assert (segmentAt p (toUTC (ofUnixMicro m)) = seg_at P m) as Hat.
  { rewrite <- (revisions_self p) at 1. apply (segmentAt_eq _ _ _ _ Hline). lia. }
  assert (oldestSegment (at_micros r m) = old_at P m) as Hold.
  { apply (oldestSegment_eq _ _ _ _ Hline); [|done]. by rewrite Hp, revisions_self. }
  unfold mutateSliding. rewrite Hold, Euse. simpl req_Policy. simpl Now. rewrite Hp, Hat.
  unfold stateSegments. rewrite positiveRemainder_mod.
  unfold admitSliding. simpl req_Policy. simpl Now. rewrite Hp.
  rewrite (sliding_index p Hwf Hal _ Ht), (sliding_oldest p Hwf Hal _ Ht). simpl instant.
  rewrite Hi, Ho, Hseg, liveUsage_scan, Euse. cbn [fst snd].
  unfold slidingSegments. rewrite positiveMod_mod. set (j := Z.to_nat (seg_at P m mod 16)).
  rewrite <- ring_of_claim, (resets_agree r m e Hd Hp Ht Hm He).
  set (segs := claimSlot _ _ _).
  match goal with |- context [consumeWindow ?a ?b ?c] => set (s1 := a) end.
  match goal with |- context [consume ?a ?b ?c] => set (row1 := a) end.
  pose proof (consume_agrees s1 row1 (at_micros r m) (slidingReset (at_micros r m) e) eq_refl) as Hc.
  destruct (consumeWindow s1 _ _) as [[d err] s'].
  destruct Hc as (row' & -> & G1 & G2 & G3 & G4 & G5 & G6 & G7). rewrite G4, G6. simpl ps_Segments.
  simpl segments. change (same_identity row row') in G7.
  destruct err as [err|].
  - destruct (ring_of segs !! j); eexists; split; try done; by rewrite G4, G6.
  - destruct (ring_of segs !! j) as [g|] eqn:Hg; (eexists; split; [done|]); simpl;
      (split; [done|]); (split; [|done]); by rewrite ring_of_add, Hg.
Qed.

Lemma sliding_step_agrees s row r m :
  algorithm p = SlidingWindow -> P mod 16 = 0 ->
  sound row -> agree p s row -> valid_at r m -> req_Policy r = p ->
  window_time p (toUTC (ofUnixMicro (effective row m))) ->
  exists row' d err s', admitState s r = (d, err, s') /\
    mutateState (Some row) r = (Some row', d, err) /\ agree p s' row'.
Proof.
  intros Hal Hd Hrow Hag Hr Hp Ht. pose proof Hag as [Hs Hrev _ _ Hseg]. specialize (Hseg Hal).
  destruct (window_step s row r m Hrow Hag Hr Hp ltac:(by rewrite Hal)) as (-> & -> & Hm & H1 & H2 & _ & _ & H5).
  pose proof (row_sliding _ _ _ _ _ Hrow Hal) as Hsl. set (m' := effective row m) in *.
  assert (ps_ObservedMicros row <= m') as Hmono by (unfold m', effective; lia).
  pose proof (live_sum_later _ _ _ _ Hline row m' Hsl Hmono) as Hlive.
  destruct Hsl as [Hlen Hslots Hle _].
  destruct (liveUsage_sum P (ps_ObservedMicros row) (old_at P m') (ps_Segments row))
    as (e & Euse & Hearliest); [done|lia|].
  assert (e = MaxInt64 \/ old_at P m' < e <= seg_at P m') as He.
  { by apply (earliest_span _ _ _ _ Hline (ps_ObservedMicros row) m' (ps_Segments row)). }
  generalize dependent (prepared (revisions p) (algorithm p) row (revision p) m').
  intros row0 H1 H2 H5. rewrite Hal. eval_algorithms. cbn iota.
  pose proof (sliding_algorithms_agree (setLastSeen s (toUTC (ofUnixMicro m'))) row0 r m'
                (ring_sum (old_at P m') (ring_of (ps_Segments row))) e Hal Hd Hp Ht Hm) as Hstep.
  simpl segments in Hstep. rewrite H5 in Hstep. specialize (Hstep Hseg Euse He).
  destruct (admitSliding _ _) as [[d err] s']. destruct Hstep as (row' & -> & G1 & G2 & G3).
  exists row', d, err, s'. unfold same_identity in G3. split_and!; try done.
  split; try (intros E; rewrite Hal in E; discriminate); [|intuition congruence|done].
  rewrite G1. simpl. do 2 f_equal. intuition congruence.
Qed.

(** *** Histories *)

Section Histories.
Context (base span : Z).
(** Within [span] microseconds a refill of the memory bucket does not wrap, and
    sliding periods divide into sixteen whole microsecond segments. *)
Hypothesis Hspan : algorithm p = TokenBucket ->
  span * 1000 <= MaxInt64 /\ span * capacity p + P <= (two64 - Limit p) * P.
Hypothesis Hsixteen : algorithm p = SlidingWindow -> P mod 16 = 0.

Definition in_span (m : Z) : Prop :=
  base <= m <= base + span /\
  (algorithm p <> TokenBucket -> window_time p (toUTC (ofUnixMicro m))).

Definition comparable (r : Request) : Prop :=
  req_Policy r = p /\ exists m, valid_at r m /\ in_span m.

(** Both sides of a history. *)
Record paired (s : state) (row : persistedState) : Prop := {
  paired_sound : sound row;
  paired_agree : agree p s row;
  paired_span : in_span (ps_ObservedMicros row);
  paired_last : algorithm p = TokenBucket -> base <= ps_LastMicros row
}.

Lemma step_agrees s row r m :
  paired s row -> req_Policy r = p -> valid_at r m -> in_span (effective row m) ->
  exists row' d err s', admitState s r = (d, err, s') /\
    mutateState (Some row) r = (Some row', d, err) /\ agree p s' row' /\
    (algorithm p = TokenBucket -> base <= ps_LastMicros row').
Proof.
  intros [Hrow Hag Hin Hlast] Hp Hr Heff. pose proof Hw as [Hal|[Hal|Hal]].
  - destruct (Hspan Hal) as [Hsat Hfit]. specialize (Hlast Hal). destruct Heff as [Heff _].
    pose proof (token_policy p Hwf Hal) as (Hcap & _).
    destruct (token_step_agrees s row r m Hal Hrow Hag Hr Hp) as (row' & d & err & s' & ? & ? & ? & Hl);
      [lia|nia|]. exists row', d, err, s'. split_and!; try done. intros _. lia.
  - destruct (fixed_step_agrees s row r m Hal Hrow Hag Hr Hp) as (row' & d & err & s' & ? & ? & ?);
      [by apply Heff; rewrite Hal|]. exists row', d, err, s'. split_and!; try done.
    intros E0. by rewrite Hal in E0.
  - destruct (sliding_step_agrees s row r m Hal (Hsixteen Hal) Hrow Hag Hr Hp) as (row' & d & err & s' & ? & ? & ?);
      [by apply Heff; rewrite Hal|]. exists row', d, err, s'. split_and!; try done.
    intros E0. by rewrite Hal in E0.
Qed.

Lemma paired_step s row r :
  paired s row -> comparable r ->
  exists row' d err s', admitState s r = (d, err, s') /\
    mutateState (Some row) r = (Some row', d, err) /\ paired s' row'.
Proof.
  intros Hpair (Hp & m & Hr & Hm). pose proof Hpair as [Hrow _ Hin _].
  assert (in_span (effective row m)) as Heff.
  { unfold effective. destruct (Z.max_spec m (ps_ObservedMicros row)) as [[_ ->]|[_ ->]]; done. }
  destruct (admission_keeps _ _ _ _ Hline row r m Hrow Hr) as (x & y & z & E & Hsound & _ & Hobs & _).
  destruct (step_agrees s row r m Hpair Hp Hr Heff) as (row' & d & err & s' & E1 & E2 & Hag' & Hl).
  rewrite E in E2. injection E2 as -> -> ->. exists row', d, err, s'. split_and!; try done.
  split; try done. by rewrite Hobs.
Qed.

Lemma paired_run rs : forall s row,
  paired s row -> Forall comparable rs -> (runRows (Some row) rs).1 = decisionsOf s rs.
Proof.
  induction rs as [|r rs IH]; intros s row Hpair Hrs; simpl; [done|].
  apply Forall_cons in Hrs as [Hr Hrs].
  destruct (paired_step s row r Hpair Hr) as (row' & d & err & s' & -> & -> & Hpair').
  specialize (IH s' row' Hpair' Hrs). destruct (runRows (Some row') rs) as [log final]. simpl in *. by rewrite IH.
Qed.

Lemma paired_fresh r : comparable r -> paired (newState r) (first_row r).
Proof.
  intros (Hp & m & Hr & Hm). destruct (first_row_sound _ _ _ _ Hline r m Hr) as [Hrow Hobs].
  pose proof Hr as (_ & _ & Hn & Hrange & _). destruct period_of_p as (_ & _ & HP).
  assert (UnixMicro (Now r) = m) as Hnow by (rewrite Hn; apply UnixMicro_utc; unfold is_i64; lia).
  assert (forall x, let x' := recordWindowPeriod x (req_Policy r) in
    ps_Revision x' = ps_Revision x /\ ps_Tokens x' = ps_Tokens x /\ ps_Remainder x' = ps_Remainder x /\
    ps_LastMicros x' = ps_LastMicros x /\ ps_Window x' = ps_Window x /\ ps_Used x' = ps_Used x /\
    ps_Segments x' = ps_Segments x) as Hkeep
    by (intros x; unfold recordWindowPeriod; by case_match).
  destruct (Hkeep (freshRow r)) as (K1 & K2 & K3 & K4 & K5 & K6 & K7). unfold first_row in *.
  split; [done| |by rewrite Hobs|].
  - split; rewrite ?K1, ?K2, ?K3, ?K4, ?K5, ?K6, ?K7, ?Hobs; simpl; rewrite ?Hnow, ?Hp; try done.
    intros _. rewrite Hn. split_and!; done.
  - rewrite K4; simpl. rewrite Hnow. intros _. apply Hm.
Qed.

(** The two backends agree.  On any history of valid requests under one
    policy (token bucket, fixed or sliding window; clocks may run backwards),
    the strict PostgreSQL admission and the in-memory admission return the same
    decisions, field by field, and the same errors. *)
Theorem postgres_agrees_with_memory r rs :
  comparable r -> Forall comparable rs ->
  (runRows None (r :: rs)).1 = decisionsOf (newState r) (r :: rs).
Proof.
  intros Hr Hrs. rewrite <- (paired_run (r :: rs) _ _ (paired_fresh r Hr)) by (by constructor).
  destruct Hr as (_ & m & Hr & _). simpl. rewrite (first_admission _ _ _ _ Hline r m Hr).
  destruct (admission_keeps _ _ _ _ Hline _ r m (proj1 (first_row_sound _ _ _ _ Hline r m Hr)) Hr)
    as (row' & d & err & -> & _). done.
Qed.
End Histories.
End Agree.
