(* ===== verification/PgLeases.v ===== *)
(** * Concurrency leases in PostgreSQL rows

    [mutateLease] against the in-memory [acquireState]: a sound row is the image
    of a key of leases indexed by digest, an acquisition on the row is the
    acquisition on the image, and it keeps the row sound, so the strict checks
    never refuse a row written by a strict acquisition. *)

From S2P Require Import Prelude GoTime GoHash Errors Keys Policy.
From S2P Require Import MemoryState MemoryLeases PgState PgTokens.

Local Open Scope Z_scope.

(** The digest under which [Acquire] files a lease identifier. *)
Definition leaseDigest (leaseID : string) : string := hexEncode (sha256 leaseID).

Lemma hexDigit_lower z : 0 <= z < 16 -> lowerHexByte (byte_of (hexDigit z)) = true.
Proof.
  intros H. assert (exists n, (n < 16)%nat /\ z = Z.of_nat n) as (n & Hn & ->)
    by (exists (Z.to_nat z); lia).
  do 16 (destruct n as [|n]; [reflexivity|]). lia.
Qed.

Lemma leaseDigest_valid leaseID : validLeaseDigest (leaseDigest leaseID) = true.
Proof.
  unfold validLeaseDigest, leaseDigest, strlen. rewrite hexEncode_length, sha256_length. simpl.
  pose proof (sha256_bytes leaseID) as H. induction H as [|b bs Hb _ IH]; simpl; [done|].
  unfold is_byte in Hb. rewrite !hexDigit_lower by zlia. done.
Qed.

(** ** Rows as keys of leases *)

Definition ls_of (l : persistedLease) : leaseState :=
  mkLeaseState (pl_Cost l) (toUTC (ofUnixMicro (pl_ExpiresMicros l))).

(** The state of the in-memory backend that a row stands for. *)
Definition image (row : persistedState) : state :=
  mkState (ps_Revision row) Concurrency (toUTC (ofUnixMicro (ps_ObservedMicros row))) 0 0 zeroTime 0 0 0 []
          (Some (ls_of <$> persistedLeasesOf row)).

Definition lease_sound (digest : string) (l : persistedLease) : Prop :=
  validLeaseDigest digest = true /\ 1 <= pl_Cost l /\ exact_micros (pl_ExpiresMicros l).

Record sound_leases (name : string) (row : persistedState) : Prop := {
  lrow_schema : ps_Schema row = stateSchema;
  lrow_policy : ps_PolicyID row = name;
  lrow_algorithm : ps_Algorithm row = Concurrency;
  lrow_observed : exact_micros (ps_ObservedMicros row);
  lrow_entries : map_Forall lease_sound (persistedLeasesOf row);
  lrow_weight : weight (ls_of <$> persistedLeasesOf row) <= MaxConcurrencyLeases
}.

(** ** The loops do not depend on the order of a map *)

Definition entries_weight (xs : list (string * persistedLease)) : Z :=
  foldr (fun kl total => pl_Cost kl.2 + total) 0 xs.

Lemma entries_weight_nonneg xs :
  Forall (fun kl => 1 <= pl_Cost kl.2) xs -> 0 <= entries_weight xs.
Proof. induction 1; simpl; lia. Qed.

Lemma weight_entries ls : weight (ls_of <$> ls) = entries_weight (map_to_list ls).
Proof.
  induction ls as [|i l ls Hi IH] using map_ind; [done|].
  rewrite fmap_insert, weight_insert by (by rewrite lookup_fmap, Hi). rewrite IH.
  assert (forall xs ys, xs ≡ₚ ys -> entries_weight xs = entries_weight ys) as Hperm
    by (induction 1; simpl; lia).
  rewrite (Hperm _ _ (map_to_list_insert ls i l Hi)). done.
Qed.

Lemma validLeaseEntries_sound xs : forall total,
  Forall (fun kl => lease_sound kl.1 kl.2) xs -> 0 <= total ->
  total + entries_weight xs <= MaxConcurrencyLeases -> validLeaseEntries xs total = true.
Proof.
  induction xs as [|[i l] xs IH]; intros total Hf Ht Hle; simpl in *; [done|].
  apply Forall_cons in Hf as [(Hd & Hc & He) Hf]. simpl in *.
  assert (0 <= entries_weight xs).
  { apply entries_weight_nonneg. eapply Forall_impl; [exact Hf|]. by intros [] (_ & ? & _). }
  rewrite Hd, (proj2 (valid_micros _) He). cbn [negb].
  destruct (Z.eqb_spec (pl_Cost l) 0); [lia|]. destruct (Z.ltb_spec MaxConcurrencyLeases (pl_Cost l)); [lia|].
  rewrite (u64_id (_ - total)) by (unfold is_u64; lia).
  destruct (Z.ltb_spec (MaxConcurrencyLeases - total) (pl_Cost l)); [lia|].
  rewrite (u64_id (total + _)) by (unfold is_u64; lia). apply IH; [done|lia|lia].
Qed.

(** The entries that outlive [now]. *)
Definition live_entries (now : Z) (xs : list (string * persistedLease)) : list (string * persistedLease) :=
  filter (fun kl => now < pl_ExpiresMicros kl.2) xs.

(** [e'] is the least of [e] and the expiries of [xs]. *)
Definition least_expiry (xs : list (string * persistedLease)) (e e' : Z) : Prop :=
  e' <= e /\ Forall (fun kl => e' <= pl_ExpiresMicros kl.2) xs /\
  (e' = e \/ Exists (fun kl => e' = pl_ExpiresMicros kl.2) xs).

Lemma pruneLoop_live now xs : forall use e,
  Forall (fun kl => 1 <= pl_Cost kl.2) xs -> 0 <= use ->
  use + entries_weight (live_entries now xs) <= MaxConcurrencyLeases ->
  exists e', pruneLoop now xs use e = Some (use + entries_weight (live_entries now xs), e') /\
    least_expiry (live_entries now xs) e e'.
Proof.
  induction xs as [|[i l] xs IH]; intros use e Hf Hu Hle; simpl in *.
  { exists e. rewrite Z.add_0_r. split; [done|]. split_and!; [lia|constructor|by left]. }
  apply Forall_cons in Hf as [Hc Hf]. simpl in Hc. unfold live_entries in *.
  destruct (Z.leb_spec (pl_ExpiresMicros l) now) as [Hdead|Hlive].
  - rewrite filter_cons_False in * by (simpl; lia). by apply IH.
  - rewrite filter_cons_True in * by done. simpl in Hle.
    set (rest := filter _ xs) in *.
    assert (0 <= entries_weight rest).
    { apply entries_weight_nonneg, Forall_forall. intros x [_ Hx]%list_elem_of_filter.
      rewrite Forall_forall in Hf. by apply Hf. }
    destruct (Z.eqb_spec (pl_Cost l) 0); [lia|]. destruct (Z.ltb_spec MaxConcurrencyLeases (pl_Cost l)); [lia|].
    rewrite (u64_id (MaxConcurrencyLeases - _)) by (unfold is_u64; lia).
    destruct (Z.ltb_spec (MaxConcurrencyLeases - pl_Cost l) use); [lia|].
    rewrite (u64_id (use + _)) by (unfold is_u64; lia).
    destruct (IH (use + pl_Cost l) (Z.min e (pl_ExpiresMicros l))) as (e' & E & Hle' & Hall & Hex);
      [done|lia|lia|]. exists e'. split; [rewrite E; simpl; do 2 f_equal; lia|].
    split_and!; [lia|constructor; [simpl; lia|done]|].
    destruct Hex as [->|Hex]; [|by right; right].
    destruct (Z.min_spec e (pl_ExpiresMicros l)) as [[_ ->]|[_ ->]]; [by left|right; by left].
Qed.

Lemma entries_weight_perm xs ys : xs ≡ₚ ys -> entries_weight xs = entries_weight ys.
Proof. induction 1; simpl; lia. Qed.

Lemma live_weight now ls :
  entries_weight (live_entries now (map_to_list ls)) = weight (ls_of <$> livePersisted now ls).
Proof.
  unfold live_entries, livePersisted. induction ls as [|i l ls Hi IH] using map_ind.
  { rewrite map_to_list_empty, map_filter_empty, fmap_empty. done. }
  assert (filter (fun kl => now < pl_ExpiresMicros kl.2) (map_to_list (<[i := l]> ls)) ≡ₚ
          filter (fun kl => now < pl_ExpiresMicros kl.2) ((i, l) :: map_to_list ls)) as Hp
    by (by rewrite map_to_list_insert).
  rewrite (entries_weight_perm _ _ Hp). destruct (Z.lt_ge_cases now (pl_ExpiresMicros l)).
  - rewrite filter_cons_True, map_filter_insert_True by done. rewrite fmap_insert, weight_insert, <- IH.
    + done.
    + rewrite lookup_fmap. rewrite (proj2 (map_lookup_filter_None _ _ _)); [done|by left].
  - rewrite filter_cons_False, map_filter_insert_False by (simpl; lia). by rewrite delete_id.
Qed.

Lemma livePersisted_lookup now ls i l :
  livePersisted now ls !! i = Some l <-> ls !! i = Some l /\ now < pl_ExpiresMicros l.
Proof. apply map_lookup_filter_Some. Qed.

Lemma live_image now ls :
  liveLeases (toUTC (ofUnixMicro now)) (ls_of <$> ls) = ls_of <$> livePersisted now ls.
Proof.
  apply map_eq. intros i. apply option_eq. intros l.
  rewrite liveLeases_lookup, !lookup_fmap, !fmap_Some. simpl. split.
  - intros [(x & Hx & ->) Hlt]. exists x. split; [|done]. apply livePersisted_lookup. simpl in Hlt. split; [done|lia].
  - intros (x & Hx & ->). apply livePersisted_lookup in Hx as [Hx Hlt]. simpl. split; [by exists x|lia].
Qed.

Lemma live_sound now ls : map_Forall lease_sound ls -> map_Forall lease_sound (livePersisted now ls).
Proof. intros H i l Hl. apply livePersisted_lookup in Hl as [Hl _]. by apply (H i l). Qed.

Lemma costs_image ls : map_Forall lease_sound ls -> costs_ok (ls_of <$> ls).
Proof.
  intros H i l Hl. rewrite lookup_fmap in Hl. destruct (ls !! i) as [x|] eqn:Hx; simplify_eq/=.
  by destruct (H i x Hx) as (_ & ? & _).
Qed.

(** The pruning loop of a sound row. *)
Lemma prune_sound now ls :
  map_Forall lease_sound ls -> weight (ls_of <$> ls) <= MaxConcurrencyLeases ->
  let live := livePersisted now ls in
  exists e, pruneLoop now (map_to_list ls) 0 MaxInt64 = Some (weight (ls_of <$> live), e) /\
    0 <= weight (ls_of <$> live) <= MaxConcurrencyLeases /\
    (live <> ∅ -> instant (earliestLease (ls_of <$> live)) = e * 1000).
Proof.
  intros Hs Hw live. pose proof (costs_image ls Hs) as Hc.
  pose proof (liveLeases_weight (toUTC (ofUnixMicro now)) _ Hc) as Hle.
  pose proof (weight_nonneg _ (costs_image _ (live_sound now ls Hs))) as Hpos.
  rewrite live_image in Hle. fold live in Hle, Hpos.
  destruct (pruneLoop_live now (map_to_list ls) 0 MaxInt64) as (e & E & Hle' & Hall & Hex).
  { apply Forall_forall. intros [i l] Hin%elem_of_map_to_list. by destruct (Hs i l Hin) as (_ & ? & _). }
  { lia. }
  { rewrite live_weight. fold live. lia. }
  rewrite live_weight in E. fold live in E. exists e. split; [done|]. split; [lia|]. intros Hne.
  assert (forall i l, (i, l) ∈ live_entries now (map_to_list ls) <-> live !! i = Some l) as Hmem.
  { intros i l. unfold live_entries. rewrite list_elem_of_filter, elem_of_map_to_list.
    unfold live. rewrite livePersisted_lookup. simpl. tauto. }
  destruct (earliestLease_least (ls_of <$> live)) as [(i & l & Hl & ->) Hmin].
  { intros i l Hl. rewrite lookup_fmap in Hl. destruct (live !! i) as [x|] eqn:Hx; simplify_eq/=.
    destruct (live_sound now ls Hs i x Hx) as (_ & _ & He). unfold exact_micros in He. lia. }
  { intros E0. apply Hne. by apply fmap_empty_iff in E0. }
  rewrite lookup_fmap in Hl. destruct (live !! i) as [x|] eqn:Hx; simplify_eq/=.
  rewrite Forall_forall in Hall. specialize (Hall (i, x) (proj2 (Hmem i x) Hx)). simpl in Hall.
  assert (pl_ExpiresMicros x <= e); [|lia]. destruct Hex as [->|Hex].
  { destruct (live_sound now ls Hs i x Hx) as (_ & _ & He). unfold exact_micros in He. lia. }
  apply Exists_exists in Hex as ([j y] & Hy%Hmem & ->). simpl.
  specialize (Hmin j (ls_of y)). rewrite lookup_fmap, Hy in Hmin. specialize (Hmin eq_refl). simpl in Hmin. lia.
Qed.

(** ** One acquisition *)

(** Decisions that differ at most in the location of [Reset]. *)
Definition inUTC (d : Decision) : Decision :=
  mkDecision (Allowed d) (Remaining d) (dec_Limit d) (toUTC (Reset d)) (RetryAfter d) (dec_Reason d)
             (dec_Backend d) (dec_PolicyRevision d).

(** The lease of a row operation against that of the image: filed under the
    digest there, named by its identifier here. *)
Definition same_lease (leaseID : string) (l l' : Lease) : Prop :=
  lease_ID l' = leaseID /\ lease_Key l' = lease_Key l /\ lease_PolicyID l' = lease_PolicyID l /\
  lease_PolicyRevision l' = lease_PolicyRevision l /\ lease_Cost l' = lease_Cost l /\
  instant (ExpiresAt l') = instant (ExpiresAt l) /\ lease_Backend l' = "postgres"%string.

Section Acquire.
Context (p : Policy).
Hypothesis Hwf : wf_policy p.
Hypothesis Hal : algorithm p = Concurrency.

Definition lease_micros : Z := lease p / 1000.

Lemma lease_whole : lease p = lease_micros * 1000 /\ 1 <= lease_micros /\ is_i64 (lease p).
Proof.
  destruct Hwf as [_ _ _ _ _ _ _ _ Ht Halg]. unfold lease_micros.
  destruct Halg as [(Hw & _)|(_ & ? & ? & _)]; [by apply windowed_not_concurrency in Hw|].
  split_and!; try done; zlia.
Qed.

(** A validated and normalized request at microsecond [m]. *)
Definition lease_valid (r : Request) (m : Z) : Prop :=
  req_Policy r = p /\ 1 <= Cost r <= maxCost p /\ Now r = toUTC (ofUnixMicro m) /\
  - maxExactMicros <= m <= maxExactMicros - lease_micros.

Lemma lease_clock_range m :
  - maxExactMicros <= m <= maxExactMicros - lease_micros ->
  validateServerClockRange (toUTC (ofUnixMicro m)) (lease p) = None.
Proof.
  intros Hm. destruct lease_whole as (HL & Hpos & _). unfold validateServerClockRange.
  rewrite UnixMicro_utc by (unfold is_i64; lia).
  rewrite Microseconds_nonneg by lia. fold lease_micros. rewrite i64_id by (unfold is_i64; lia).
  destruct (Z.ltb_spec m (- maxExactMicros)); [lia|]. destruct (Z.leb_spec lease_micros 0); [lia|].
  destruct (Z.ltb_spec (maxExactMicros - lease_micros) m); [lia|]. done.
Qed.

Lemma loaded_sound row request :
  sound_leases (id p) row -> req_Policy (lr_Request request) = p ->
  loadedLeaseRow (Some row) request true = Ok row.
Proof.
  intros [Hs Hid Ha Ho He Hw] Hp. unfold loadedLeaseRow, validateConcurrencyState.
  rewrite Hs, Hp, Hid, Ha, Z.eqb_refl, (proj2 (valid_micros _) Ho).
  rewrite !bool_decide_eq_true_2 by done. cbn [negb].
  rewrite validLeaseEntries_sound; [done| |lia|].
  - apply Forall_forall. intros [i l] Hin%elem_of_map_to_list. by apply (He i l).
  - rewrite <- weight_entries. lia.
Qed.

(** On a sound row every check passes and the pruned leases decide. *)
Lemma mutateLease_eq row r m leaseID digest :
  sound_leases (id p) row -> lease_valid r m ->
  let m' := Z.max m (ps_ObservedMicros row) in
  m' <= maxExactMicros - lease_micros ->
  let live := livePersisted m' (persistedLeasesOf row) in
  exists e,
    mutateLease (Some row) (mkLeaseRequest r leaseID) digest =
      decideLease (setPersistedLeases (setSeen row (revision p) m') live)
        (mkLeaseRequest (at_micros r m') leaseID) digest live (weight (ls_of <$> live)) e /\
    0 <= weight (ls_of <$> live) <= MaxConcurrencyLeases /\
    (live <> ∅ -> instant (earliestLease (ls_of <$> live)) = e * 1000).
Proof.
  intros Hrow (Hp & Hc & Hn & Hm) m' Hm' live. pose proof Hrow as [_ _ _ Ho He Hw].
  destruct (prune_sound m' (persistedLeasesOf row) He Hw) as (e & E & Hlive & Hmin).
  destruct lease_whole as (_ & HL & _).
  exists e. split; [|by split]. unfold mutateLease, mutateLeaseMode.
  rewrite loaded_sound by done. simpl lr_Request.
  rewrite (clamped_request r m) by (done || (unfold is_i64; lia)). fold m'. simpl Now. simpl req_Policy.
  unfold exact_micros in Ho. rewrite Hp, lease_clock_range by lia.
  rewrite Hn, UnixMicro_utc by (unfold is_i64; lia). fold m'.
  change (persistedLeasesOf (setSeen row (revision p) m')) with (persistedLeasesOf row).
  rewrite E. done.
Qed.

Lemma free_units w :
  0 <= w -> Limit p -u Z.min w (Limit p) = Limit p - Z.min w (Limit p) /\ 1 <= Limit p <= MaxConcurrencyLeases /\
  maxCost p <= Limit p.
Proof.
  intros Hw. destruct (lease_policy p Hwf Hal) as (HL & Hm & _).
  rewrite u64_id by (unfold is_u64; lia). done.
Qed.

(** The image of a row whose leases are [ls], seen at [m']. *)
Lemma image_leases row v m' ls :
  lastSeen (image (setPersistedLeases (setSeen row v m') ls)) = toUTC (ofUnixMicro m') /\
  leasesOf (image (setPersistedLeases (setSeen row v m') ls)) = ls_of <$> ls.
Proof. done. Qed.

Lemma keeps_sound row m' ls :
  sound_leases (id p) row -> exact_micros m' -> map_Forall lease_sound ls ->
  weight (ls_of <$> ls) <= MaxConcurrencyLeases ->
  sound_leases (id p) (setPersistedLeases (setSeen row (revision p) m') ls).
Proof. intros [H1 H2 H3 _ _ _] Hm Hs Hw. by split. Qed.

Lemma grant_sound live leaseID cost expiry :
  map_Forall lease_sound live -> live !! leaseDigest leaseID = None -> 1 <= cost -> exact_micros expiry ->
  weight (ls_of <$> live) + cost <= MaxConcurrencyLeases ->
  let live' := <[leaseDigest leaseID := mkPersistedLease cost expiry]> live in
  map_Forall lease_sound live' /\ weight (ls_of <$> live') <= MaxConcurrencyLeases.
Proof.
  intros Hs Hnew Hc He Hw live'. split.
  - apply map_Forall_insert_2; [|done]. split_and!; [apply leaseDigest_valid|done..].
  - unfold live'. rewrite fmap_insert, weight_insert by (by rewrite lookup_fmap, Hnew). simpl. lia.
Qed.

(** C19: acquisition on a row is acquisition on the leases it stands for.  On
    every sound row (whatever limits earlier revisions had) a strict acquisition
    returns the decision, the error and the lease of the in-memory backend on
    the same leases, records the same leases under the digest of the identifier,
    and leaves a sound row; no integrity check ever refuses such a row. *)
Theorem pg_acquire_agrees_with_memory row r m leaseID :
  sound_leases (id p) row -> lease_valid r m ->
  Z.max m (ps_ObservedMicros row) <= maxExactMicros - lease_micros ->
  let digest := leaseDigest leaseID in
  let '(l, d, err, s') := acquireState (image row) (mkLeaseRequest r digest) in
  exists row' l' d', mutateLease (Some row) (mkLeaseRequest r leaseID) digest = (Some row', l', d', err) /\
    inUTC d' = inUTC d /\ (err = None -> same_lease leaseID l l') /\ (err <> None -> l' = zeroLease) /\
    lastSeen s' = lastSeen (image row') /\ leasesOf s' = leasesOf (image row') /\
    sound_leases (id p) row'.
Proof.
  intros Hrow Hr Hm' digest.
  destruct (mutateLease_eq row r m leaseID digest Hrow Hr Hm') as (e & -> & Hlive & Hmin).
  destruct Hr as (Hp & Hc & Hn & Hm).
  pose proof (clampNow_micros (image row) r m (ps_ObservedMicros row) eq_refl Hn) as Hclamp.
  set (m' := Z.max m (ps_ObservedMicros row)) in *. pose proof Hrow as [_ _ _ Ho He _].
  assert (exact_micros m') as Hex.
  { destruct lease_whole as (_ & ? & _). unfold exact_micros in *. lia. }
  unfold acquireState. simpl lr_Request. rewrite Hclamp. simpl Now. simpl req_Policy. rewrite Hp.
  change (leasesOf (setLastSeen (image row) (toUTC (ofUnixMicro m')))) with (ls_of <$> persistedLeasesOf row).
  rewrite live_image. set (live := livePersisted m' (persistedLeasesOf row)) in *.
  pose proof (live_sound m' _ He) as Hsound. fold live in Hsound.
  destruct (free_units (weight (ls_of <$> live))) as (Hfree & HL & Hmax); [lia|].
  rewrite usedBy_weight, (u64_id (weight _)), Hfree by (unfold is_u64; lia).
  unfold decideLease. simpl lr_Request. simpl LeaseID. simpl req_Policy. rewrite Hp, Hfree, lookup_fmap.
  set (w := weight (ls_of <$> live)) in *. set (row1 := setPersistedLeases _ live).
  assert (sound_leases (id p) row1) as Hrow1 by (apply keeps_sound; try done; apply Hlive).
  destruct (live !! digest) as [x|] eqn:Hx; simpl.
  { destruct (pl_Cost x =? Cost r); simpl; eexists _, _, _; (split; [done|]); split_and!; try done. }
  destruct (Z.ltb_spec (Limit p - Z.min w (Limit p)) (Cost r)) as [Hover|Hfit].
  - eexists _, _, _. split; [done|]. split_and!; try done.
    assert (live <> ∅) as Hne.
    { intros E. unfold w in Hover. rewrite E, fmap_empty in Hover. unfold weight in Hover.
      rewrite map_fold_empty in Hover. lia. }
    unfold inUTC, decision, toUTC, nonnegative, Sub. simpl. by rewrite (Hmin Hne).
  - destruct lease_whole as (HLm & HL1 & _).
    assert (UnixMicro (Add (toUTC (ofUnixMicro m')) (lease p)) = m' + lease_micros) as Hexp.
    { unfold Add; simpl. rewrite HLm. replace (m' * 1000 + _) with ((m' + lease_micros) * 1000) by lia.
      apply UnixMicro_at. unfold exact_micros, is_i64 in *. lia. }
    destruct (grant_sound live leaseID (Cost r) (m' + lease_micros)) as [Hs' Hw']; try done;
      [lia|unfold exact_micros in *; lia|fold w; lia|]. fold digest in Hs', Hw'.
    rewrite Hexp. eexists _, _, _. split; [done|]. split_and!; try done.
    + unfold leasesOf, image, persistedLeasesOf; simpl. rewrite fmap_insert. f_equal.
      unfold ls_of, Add, toUTC; simpl. do 2 f_equal. rewrite HLm. lia.
    + by apply (keeps_sound row).
Qed.
End Acquire.

(** ** Concrete leases *)

Module DemoLeases.
Definition request (m : Z) : Request :=
  mkRequest DemoJobs.p (mkKey "http:v1:principal:x" "principal") 2 (toUTC (ofUnixMicro m)).
(** A row with one lease of 2 of the 4 units. *)
Definition row : persistedState :=
  mkPersistedState 1 "jobs" "v1" Concurrency 0 0 0 1700000000000000 0 0 0 false
    (replicate 16 emptySegment)
    (Some {[ leaseDigest "a" := mkPersistedLease 2 1700000030000000 ]}).
End DemoLeases.

Lemma demo_row_leases : sound_leases (id DemoJobs.p) DemoLeases.row.
Proof.
  split; [done|done|done|unfold exact_micros; simpl; lia| |];
    change (persistedLeasesOf DemoLeases.row)
      with ({[ leaseDigest "a" := mkPersistedLease 2 1700000030000000 ]} : persistedLeases).
  - apply map_Forall_singleton. split_and!; [apply leaseDigest_valid|simpl; lia..|].
    unfold exact_micros; simpl. lia.
  - rewrite map_fmap_singleton, <- insert_empty, weight_insert by done.
    unfold weight. rewrite map_fold_empty. simpl. lia.
Qed.

Lemma pg_acquire_agrees_with_memory_witness :
  let digest := leaseDigest "b" in
  let '(l, d, err, s') := acquireState (image DemoLeases.row)
                            (mkLeaseRequest (DemoLeases.request 1700000000000500) digest) in
  exists row' l' d',
    mutateLease (Some DemoLeases.row) (mkLeaseRequest (DemoLeases.request 1700000000000500) "b") digest
      = (Some row', l', d', err) /\
    inUTC d' = inUTC d /\ (err = None -> same_lease "b" l l') /\ (err <> None -> l' = zeroLease) /\
    lastSeen s' = lastSeen (image row') /\ leasesOf s' = leasesOf (image row') /\
    sound_leases (id DemoJobs.p) row'.
Proof.
  apply (pg_acquire_agrees_with_memory DemoJobs.p demo_jobs_wf eq_refl DemoLeases.row
           (DemoLeases.request 1700000000000500) 1700000000000500 "b");
    [apply demo_row_leases | | vm_compute; discriminate].
  split; [reflexivity|]. split; [vm_compute; split; discriminate|].
  split; [reflexivity|]. vm_compute; split; discriminate.
Defined.

(** A first acquisition on a key is not a rollback, but its row starts observed
    at the Unix epoch: with a valid clock 16 minutes before 1970 the lease of 30
    seconds expires 30 seconds after the epoch, where the in-memory backend
    grants it for 30 seconds. *)
Theorem pg_first_lease_moves_to_epoch :
  let r := DemoLeases.request (-1000000000) in
  Validate r = None /\
  let '(_, l, _, err) := mutateLease None (mkLeaseRequest r "a") (leaseDigest "a") in
  let '(l', _, err', _) := acquireState (newState r) (mkLeaseRequest r "a") in
  err = None /\ err' = None /\ instant (ExpiresAt l) = lease DemoJobs.p /\
  instant (ExpiresAt l') = instant (Now r) + lease DemoJobs.p.
Proof. vm_compute. repeat split. Qed.
