(* ===== verification/GoJson.v ===== *)
(** * Go's [encoding/json], as far as the PostgreSQL backend uses it

    A document is a byte string.  [parse] reads one value the way the scanner
    and [unquote] of the standard library do (white space, the number grammar,
    escapes, surrogate pairs, invalid UTF-8 replaced by U+FFFD, the nesting
    limit); [printJson] is the compact output of [json.Marshal].  Decoding into
    Go values ([decodeInt64] and the like) follows the rules of [Unmarshal]:
    [null] leaves a non-pointer destination alone, field names match exactly or
    else up to case.  The texts of the errors of the package are not modelled:
    a failure is [None]. *)

From S2P Require Import Prelude GoTime GoHash Errors Keys.

Local Open Scope string_scope.
Local Open Scope Z_scope.

#[warnings="-register-all"] Inductive json :=
| JNull
| JBool (b : bool)
| JNumber (literal : string)
| JString (s : string)
| JArray (elements : list json)
| JObject (members : list (string * json)).

(** ** Bytes and UTF-8 *)

Definition chr (z : Z) : Ascii.ascii := Ascii.ascii_of_N (Z.to_N z).
Definition text (c : Ascii.ascii) : string := String c EmptyString.
Definition at_byte (z : Z) (c : Ascii.ascii) : bool := byte_of c =? z.

Definition continuation (c : Ascii.ascii) : bool := in_range 128 191 (byte_of c).

(** The length of the valid multi-byte rune at the head of [s], or 0. *)
Definition runeSize (s : string) : nat :=
  match s with
  | String a (String b t) =>
      let x := byte_of a in
      if in_range 194 223 x then (if continuation b then 2 else 0)%nat else
      if in_range 224 239 x then
        let lo := if x =? 224 then 160 else 128 in
        let hi := if x =? 237 then 159 else 191 in
        match t with
        | String c _ => (if in_range lo hi (byte_of b) && continuation c then 3 else 0)%nat
        | EmptyString => 0%nat
        end
      else if in_range 240 244 x then
        let lo := if x =? 240 then 144 else 128 in
        let hi := if x =? 244 then 143 else 191 in
        match t with
        | String c (String d _) =>
            (if in_range lo hi (byte_of b) && continuation c && continuation d then 4 else 0)%nat
        | _ => 0%nat
        end
      else 0%nat
  | _ => 0%nat
  end.

Definition replacementChar : string := String (chr 239) (String (chr 191) (text (chr 189))).

Definition isSurrogate (r : Z) : bool := in_range 55296 57343 r.

(** [utf16.DecodeRune]. *)
Definition surrogatePair (r r' : Z) : option Z :=
  if in_range 55296 56319 r && in_range 56320 57343 r'
  then Some ((r - 55296) * 1024 + (r' - 56320) + 65536) else None.

(** [utf8.EncodeRune] on a code point that is not a surrogate. *)
Definition encodeRune (r : Z) : string :=
  if r <? 128 then text (chr r) else
  if r <? 2048 then String (chr (192 + r / 64)) (text (chr (128 + r mod 64))) else
  if r <? 65536 then
    String (chr (224 + r / 4096)) (String (chr (128 + r / 64 mod 64)) (text (chr (128 + r mod 64))))
  else
    String (chr (240 + r / 262144)) (String (chr (128 + r / 4096 mod 64))
      (String (chr (128 + r / 64 mod 64)) (text (chr (128 + r mod 64))))).

(** ** Strings *)

Definition hexValue (c : Ascii.ascii) : option Z :=
  let x := byte_of c in
  if in_range 48 57 x then Some (x - 48) else
  if in_range 97 102 x then Some (x - 87) else
  if in_range 65 70 x then Some (x - 55) else None.

Definition hex4 (a b c d : Ascii.ascii) : option Z :=
  match hexValue a, hexValue b, hexValue c, hexValue d with
  | Some a, Some b, Some c, Some d => Some (a * 4096 + b * 256 + c * 16 + d)
  | _, _, _, _ => None
  end.

(** The byte a one-letter escape stands for. *)
Definition escaped (letter : Z) : option Z :=
  if letter =? 34 then Some 34 else if letter =? 92 then Some 92 else if letter =? 47 then Some 47 else
  if letter =? 98 then Some 8 else if letter =? 102 then Some 12 else if letter =? 110 then Some 10 else
  if letter =? 114 then Some 13 else if letter =? 116 then Some 9 else None.

Definition emit (pre : string) (rest : option (string * string)) : option (string * string) :=
  match rest with Some (s, r) => Some (pre +:+ s, r) | None => None end.

(** The string after its opening quote: its value and what follows it. *)
Fixpoint parseChars (s : string) : option (string * string) :=
  match s with
  | EmptyString => None
  | String c rest =>
      if at_byte 34 c then Some (EmptyString, rest) else
      if at_byte 92 c then
        match rest with
        | EmptyString => None
        | String e rest =>
            if at_byte 117 e then
              match rest with
              | String x1 (String x2 (String x3 (String x4 rest))) =>
                  match hex4 x1 x2 x3 x4 with
                  | None => None
                  | Some r =>
                      if isSurrogate r then
                        match rest with
                        | String b (String u (String y1 (String y2 (String y3 (String y4 rest'))))) =>
                            match (if at_byte 92 b && at_byte 117 u then hex4 y1 y2 y3 y4 else None) with
                            | Some r' =>
                                match surrogatePair r r' with
                                | Some rune => emit (encodeRune rune) (parseChars rest')
                                | None => emit replacementChar (parseChars rest)
                                end
                            | None => emit replacementChar (parseChars rest)
                            end
                        | _ => emit replacementChar (parseChars rest)
                        end
                      else emit (encodeRune r) (parseChars rest)
                  end
              | _ => None
              end
            else
              match escaped (byte_of e) with
              | Some z => emit (text (chr z)) (parseChars rest)
              | None => None
              end
        end
      else if byte_of c <? 32 then None
      else if byte_of c <? 128 then emit (text c) (parseChars rest)
      else
        match runeSize s, rest with
        | 2%nat, String c1 rest => emit (String c (text c1)) (parseChars rest)
        | 3%nat, String c1 (String c2 rest) => emit (String c (String c1 (text c2))) (parseChars rest)
        | 4%nat, String c1 (String c2 (String c3 rest)) =>
            emit (String c (String c1 (String c2 (text c3)))) (parseChars rest)
        | _, _ => emit replacementChar (parseChars rest)
        end
  end.

Definition unicodeEscape (b : Z) : string :=
  "\u00" +:+ String (hexDigit (b / 16)) (text (hexDigit (b mod 16))).

(** One byte below 0x80 as [appendString] writes it, with HTML escaping. *)
Definition quoteByte (c : Ascii.ascii) : string :=
  let x := byte_of c in
  if (x =? 34) || (x =? 92) then String (chr 92) (text c) else
  if x =? 8 then "\b" else if x =? 12 then "\f" else if x =? 10 then "\n" else
  if x =? 13 then "\r" else if x =? 9 then "\t" else
  if (x <? 32) || (x =? 60) || (x =? 62) || (x =? 38) then unicodeEscape x else text c.

(** U+2028 and U+2029 are escaped. *)
Definition lineSeparator (c c1 c2 : Ascii.ascii) : option string :=
  if at_byte 226 c && at_byte 128 c1
  then if at_byte 168 c2 then Some "\u2028" else if at_byte 169 c2 then Some "\u2029" else None
  else None.

Fixpoint quoteChars (s : string) : string :=
  match s with
  | EmptyString => EmptyString
  | String c rest =>
      if byte_of c <? 128 then quoteByte c +:+ quoteChars rest else
      match runeSize s, rest with
      | 2%nat, String c1 rest => String c (String c1 (quoteChars rest))
      | 3%nat, String c1 (String c2 rest) =>
          default (String c (String c1 (text c2))) (lineSeparator c c1 c2) +:+ quoteChars rest
      | 4%nat, String c1 (String c2 (String c3 rest)) =>
          String c (String c1 (String c2 (String c3 (quoteChars rest))))
      | _, _ => "\ufffd" +:+ quoteChars rest
      end
  end.

Definition quote (s : string) : string := String (chr 34) (quoteChars s +:+ text (chr 34)).

(** ** Numbers *)

Definition isDigit (c : Ascii.ascii) : bool := in_range 48 57 (byte_of c).
Definition digit (z : Z) : Ascii.ascii := chr (48 + z).

Fixpoint decimalDigits (fuel : nat) (n : Z) : string :=
  match fuel with
  | O => EmptyString
  | S fuel => if n <? 10 then text (digit n)
              else decimalDigits fuel (n / 10) +:+ text (digit (n mod 10))
  end.

(** [strconv.FormatUint] and [FormatInt] in base 10: a 64-bit number has at most
    20 digits. *)
Definition formatUint (n : Z) : string := decimalDigits 20 n.
Definition formatInt (n : Z) : string :=
  if n <? 0 then String (chr 45) (formatUint (- n)) else formatUint n.

Fixpoint spanDigits (s : string) : string * string :=
  match s with
  | String c rest =>
      if isDigit c then let '(ds, r) := spanDigits rest in (String c ds, r) else (EmptyString, s)
  | EmptyString => (EmptyString, EmptyString)
  end.

Fixpoint digitsValue (acc : Z) (s : string) : Z :=
  match s with
  | String c rest => digitsValue (acc * 10 + (byte_of c - 48)) rest
  | EmptyString => acc
  end.

Definition scanSign (s : string) : string * string :=
  match s with
  | String c rest => if at_byte 45 c then (text c, rest) else (EmptyString, s)
  | EmptyString => (EmptyString, s)
  end.

Definition scanInteger (s : string) : option (string * string) :=
  match s with
  | String c rest =>
      if at_byte 48 c then Some (text c, rest) else
      if isDigit c then Some (spanDigits s) else None
  | EmptyString => None
  end.

(** At least one digit, after a prefix that was read already. *)
Definition someDigits (pre : string) (s : string) : option (string * string) :=
  match spanDigits s with
  | (EmptyString, _) => None
  | (ds, rest) => Some (pre +:+ ds, rest)
  end.

Definition scanFraction (s : string) : option (string * string) :=
  match s with
  | String c rest => if at_byte 46 c then someDigits (text c) rest else Some (EmptyString, s)
  | EmptyString => Some (EmptyString, s)
  end.

Definition scanExponent (s : string) : option (string * string) :=
  match s with
  | String e rest =>
      if at_byte 101 e || at_byte 69 e then
        match rest with
        | String sign rest' =>
            if at_byte 43 sign || at_byte 45 sign then someDigits (String e (text sign)) rest'
            else someDigits (text e) rest
        | EmptyString => None
        end
      else Some (EmptyString, s)
  | EmptyString => Some (EmptyString, s)
  end.

Definition scanNumber (s : string) : option (string * string) :=
  let '(sign, s) := scanSign s in
  match scanInteger s with
  | None => None
  | Some (whole, s) =>
      match scanFraction s with
      | None => None
      | Some (frac, s) =>
          match scanExponent s with
          | None => None
          | Some (expo, s) => Some (sign +:+ whole +:+ frac +:+ expo, s)
          end
      end
  end.

Definition allDigits (s : string) : bool :=
  match s with EmptyString => false | _ => all_bytes (in_range 48 57) s end.

(** [strconv.ParseUint] and [ParseInt] (64 bits) on a number literal. *)
Definition ParseUint (literal : string) : option Z :=
  let v := digitsValue 0 literal in
  if allDigits literal && (v <? two64) then Some v else None.

Definition ParseInt (literal : string) : option Z :=
  let '(sign, digits) := scanSign literal in
  let v := digitsValue 0 digits in
  let v := match sign with EmptyString => v | _ => - v end in
  if allDigits digits && (- two63 <=? v) && (v <? two63) then Some v else None.

(** ** Values *)

Definition isSpace (c : Ascii.ascii) : bool :=
  at_byte 32 c || at_byte 9 c || at_byte 10 c || at_byte 13 c.

Fixpoint skipSpace (s : string) : string :=
  match s with
  | String c rest => if isSpace c then skipSpace rest else s
  | EmptyString => EmptyString
  end.

Definition maxNestingDepth : Z := 10000.

(** The rest of [s] after a prefix. *)
Fixpoint stripPrefix (pre s : string) : option string :=
  match pre, s with
  | EmptyString, _ => Some s
  | String a pre, String b s => if Ascii.eqb a b then stripPrefix pre s else None
  | String _ _, EmptyString => None
  end.

Definition literalOr (word : string) (v : json) (s : string) (other : option (json * string))
    : option (json * string) :=
  match stripPrefix word s with Some rest => Some (v, rest) | None => other end.

(** The string after its opening quote as it is written: what an [Unmarshaler] is
    handed, without the quotes. *)
Definition rawChars (s : string) : option (string * string) :=
  match parseChars s with
  | Some (_, rest) => Some (String.substring 0 (String.length s - String.length rest - 1) s, rest)
  | None => None
  end.

(** A member's name and the colon after it. *)
Definition parseName (s : string) : option (string * string) :=
  match skipSpace s with
  | String c rest =>
      if at_byte 34 c then
        match parseChars rest with
        | Some (name, rest) =>
            match skipSpace rest with
            | String c rest => if at_byte 58 c then Some (name, rest) else None
            | EmptyString => None
            end
        | None => None
        end
      else None
  | EmptyString => None
  end.

(** The parser, for a reader of strings: [parseChars], or [rawChars] for the
    documents that hold values with an [UnmarshalJSON] method. *)
Section Parser.
Context (chars : string -> option (string * string)).

(** A value that is not a container, from its first byte. *)
Definition parseScalarWith (s : string) : option (json * string) :=
  match s with
  | EmptyString => None
  | String c rest =>
      if at_byte 34 c then
        match chars rest with Some (v, rest) => Some (JString v, rest) | None => None end
      else
        literalOr "null" JNull s (literalOr "true" (JBool true) s (literalOr "false" (JBool false) s
          match scanNumber s with Some (v, rest) => Some (JNumber v, rest) | None => None end))
  end.

(** [depth] counts the containers that are open.  The containers' loops run
    from just after the opening bracket or a comma. *)
Fixpoint parseValueWith (fuel : nat) (depth : Z) (s : string) : option (json * string) :=
  match fuel with
  | O => None
  | S fuel =>
      match skipSpace s with
      | EmptyString => None
      | String c rest =>
          if at_byte 123 c then
            if maxNestingDepth <=? depth then None else
            match skipSpace rest with
            | String e rest' =>
                if at_byte 125 e then Some (JObject [], rest') else
                match parseMembersWith fuel (depth + 1) rest with
                | Some (ms, rest) => Some (JObject ms, rest)
                | None => None
                end
            | EmptyString => None
            end
          else if at_byte 91 c then
            if maxNestingDepth <=? depth then None else
            match skipSpace rest with
            | String e rest' =>
                if at_byte 93 e then Some (JArray [], rest') else
                match parseElementsWith fuel (depth + 1) rest with
                | Some (es, rest) => Some (JArray es, rest)
                | None => None
                end
            | EmptyString => None
            end
          else parseScalarWith (String c rest)
      end
  end
with parseElementsWith (fuel : nat) (depth : Z) (s : string) : option (list json * string) :=
  match fuel with
  | O => None
  | S fuel =>
      match parseValueWith fuel depth s with
      | None => None
      | Some (v, rest) =>
          match skipSpace rest with
          | String c rest =>
              if at_byte 93 c then Some ([v], rest) else
              if at_byte 44 c then
                match parseElementsWith fuel depth rest with
                | Some (vs, rest) => Some (v :: vs, rest)
                | None => None
                end
              else None
          | EmptyString => None
          end
      end
  end
with parseMembersWith (fuel : nat) (depth : Z) (s : string) : option (list (string * json) * string) :=
  match fuel with
  | O => None
  | S fuel =>
      match parseName s with
      | None => None
      | Some (name, rest) =>
          match parseValueWith fuel depth rest with
          | None => None
          | Some (v, rest) =>
              match skipSpace rest with
              | String c rest =>
                  if at_byte 125 c then Some ([(name, v)], rest) else
                  if at_byte 44 c then
                    match parseMembersWith fuel depth rest with
                    | Some (ms, rest) => Some ((name, v) :: ms, rest)
                    | None => None
                    end
                  else None
              | EmptyString => None
              end
          end
      end
  end.
End Parser.

Abbreviation parseScalar := (parseScalarWith parseChars).
Abbreviation parseValue := (parseValueWith parseChars).
Abbreviation parseElements := (parseElementsWith parseChars).
Abbreviation parseMembers := (parseMembersWith parseChars).

(** Twice the length of the input bounds the depth of the recursion. *)
Definition parseWith (chars : string -> option (string * string)) (s : string) : option (json * string) :=
  parseValueWith chars (S (2 * String.length s)) 0 s.
Abbreviation parse := (parseWith parseChars).

(** [json.Unmarshal] requires one value and nothing else. *)
Definition parseAllWith (chars : string -> option (string * string)) (s : string) : option json :=
  match parseWith chars s with
  | Some (v, rest) => match skipSpace rest with EmptyString => Some v | _ => None end
  | None => None
  end.
Abbreviation parseAll := (parseAllWith parseChars).

(** ** Printing *)

Fixpoint printJson (j : json) : string :=
  match j with
  | JNull => "null"
  | JBool true => "true"
  | JBool false => "false"
  | JNumber literal => literal
  | JString s => quote s
  | JArray es => "[" +:+ String.concat "," (map printJson es) +:+ "]"
  | JObject ms => "{" +:+ String.concat "," (map (fun m => quote m.1 +:+ ":" +:+ printJson m.2) ms) +:+ "}"
  end.

(** ** Decoding into Go values *)

(** [null] is a no-op for a destination that is not a pointer, map or slice. *)
Definition decodeUint64 (old : Z) (j : json) : option Z :=
  match j with JNull => Some old | JNumber l => ParseUint l | _ => None end.
Definition decodeInt64 (old : Z) (j : json) : option Z :=
  match j with JNull => Some old | JNumber l => ParseInt l | _ => None end.
Definition decodeString (old : string) (j : json) : option string :=
  match j with JNull => Some old | JString s => Some s | _ => None end.

(** [foldName]: upper-case ASCII; of the other runes only U+017F and U+212A
    fold to ASCII letters. *)
Fixpoint foldName (s : string) : string :=
  match s with
  | EmptyString => EmptyString
  | String c rest =>
      if in_range 97 122 (byte_of c) then String (chr (byte_of c - 32)) (foldName rest) else
      match rest with
      | String c1 rest1 =>
          if at_byte 197 c && at_byte 191 c1 then String (chr 83) (foldName rest1) else
          match rest1 with
          | String c2 rest2 =>
              if at_byte 226 c && at_byte 132 c1 && at_byte 170 c2 then String (chr 75) (foldName rest2)
              else String c (foldName rest)
          | EmptyString => String c (foldName rest)
          end
      | EmptyString => text c
      end
  end.

(** The field of a struct that a member's name selects. *)
Definition fieldNamed (fields : list string) (name : string) : option string :=
  if bool_decide (name ∈ fields) then Some name else
  List.find (fun f => bool_decide (foldName f = foldName name)) fields.

(** The members of an object, decoded one after the other into a struct; an
    unknown name is an error when [strict], and skipped otherwise. *)
Section Struct.
Context {A : Type} (fields : list string) (strict : bool) (store : string -> json -> A -> option A).

Fixpoint decodeMembers (ms : list (string * json)) (a : A) : option A :=
  match ms with
  | [] => Some a
  | (name, v) :: rest =>
      match fieldNamed fields name with
      | Some f => match store f v a with Some a => decodeMembers rest a | None => None end
      | None => if strict then None else decodeMembers rest a
      end
  end.

Definition decodeStruct (a : A) (j : json) : option A :=
  match j with JNull => Some a | JObject ms => decodeMembers ms a | _ => None end.
End Struct.
