(* ===== verification/JsonFacts.v ===== *)
(** * Facts about the JSON model

    The fuel of [parse] is always enough; parsing inverts printing on documents
    with UTF-8 strings and decimal integers; decoding a struct does not depend
    on the order of an object's members, which [jsonb] columns do not keep. *)

From S2P Require Import Prelude GoTime GoHash Errors Keys GoJson.

Local Open Scope string_scope.
Local Open Scope Z_scope.

Abbreviation len := String.length.

#[local] Arguments String.append !_ _ / : simpl nomatch.

Lemma string_app_assoc s t u : s +:+ (t +:+ u) = (s +:+ t) +:+ u.
Proof. induction s as [|c s IH]; simpl; [done|]. by rewrite IH. Qed.

Lemma string_app_nil s : s +:+ EmptyString = s.
Proof. induction s as [|c s IH]; simpl; [done|]. by rewrite IH. Qed.

(** ** The parser consumes its input *)

Lemma skipSpace_length s : (len (skipSpace s) <= len s)%nat.
Proof. induction s as [|c s IH]; simpl; [done|]. case_match; simpl; lia. Qed.

Lemma emit_length pre x v r n :
  (forall v r, x = Some (v, r) -> (len r < n)%nat) -> emit pre x = Some (v, r) -> (len r < n)%nat.
Proof. intros H. destruct x as [[v' r']|]; simpl; [|done]. intros [= _ <-]. by eapply H. Qed.

Lemma parseChars_length s : forall v r, parseChars s = Some (v, r) -> (len r < len s)%nat.
Proof.
  remember (len s) as n eqn:Hn. revert s Hn. induction (lt_wf n) as [n _ IH]. intros s -> v r.
  destruct s as [|c s]; [done|]. cbn [parseChars].
  assert (forall t pre v r, (len t <= len s)%nat -> emit pre (parseChars t) = Some (v, r) ->
    (len r < len (String c s))%nat) as Hstep.
  { intros t pre v' r' Ht. apply emit_length. intros v2 r2 E. simpl in *.
    assert (len r2 < len t)%nat by (eapply (IH (len t)); [simpl; lia|done|exact E]). lia. }
  assert (forall t pre, (len t <= len s)%nat -> emit pre (parseChars t) = Some (v, r) ->
    (len r < len (String c s))%nat) as Hgo by (intros t pre; apply Hstep).
  clear Hstep IH. generalize dependent parseChars. intros next Hgo.
  repeat (case_match; try done); subst; try (by intros [= _ <-]; cbn [len]; lia);
    apply Hgo; cbn [len]; lia.
Qed.

Lemma spanDigits_length s : (len (spanDigits s).2 <= len s)%nat.
Proof.
  induction s as [|c s IH]; simpl; [done|]. case_match; simpl; [|lia].
  destruct (spanDigits s); simpl in *. lia.
Qed.

Lemma someDigits_length pre s v r : someDigits pre s = Some (v, r) -> (len r <= len s)%nat.
Proof.
  unfold someDigits. pose proof (spanDigits_length s) as H. destruct (spanDigits s) as [[|] ?]; [done|].
  simpl in H. by intros [= _ <-].
Qed.

Lemma scanNumber_length s v r : scanNumber s = Some (v, r) -> (len r < len s)%nat.
Proof.
  unfold scanNumber. destruct (scanSign s) as [sign s1] eqn:E1.
  assert (len s1 <= len s)%nat as H1.
  { unfold scanSign in E1. destruct s; [by simplify_eq|]. case_match; simplify_eq/=; lia. }
  destruct (scanInteger s1) as [[whole s2]|] eqn:E2; [|done].
  assert (len s2 < len s1)%nat as H2.
  { unfold scanInteger in E2. destruct s1 as [|c s1]; [done|]. case_match; simplify_eq/=; [lia|].
    case_match; [|done]. pose proof (spanDigits_length s1). destruct (spanDigits s1); simplify_eq/=. lia. }
  destruct (scanFraction s2) as [[frac s3]|] eqn:E3; [|done].
  assert (len s3 <= len s2)%nat as H3.
  { unfold scanFraction in E3. destruct s2; [by simplify_eq|]. case_match; simplify_eq/=; [|lia].
    apply someDigits_length in E3. lia. }
  destruct (scanExponent s3) as [[expo s4]|] eqn:E4; [|done]. intros [= _ <-].
  assert (len s4 <= len s3)%nat; [|lia].
  unfold scanExponent in E4. destruct s3 as [|e s3]; [by simplify_eq|]. case_match; [|simplify_eq/=; lia].
  destruct s3; [done|]. case_match; apply someDigits_length in E4; simpl in *; lia.
Qed.

Lemma stripPrefix_length pre s r : stripPrefix pre s = Some r -> len s = (len pre + len r)%nat.
Proof.
  revert s. induction pre as [|a pre IH]; intros [|b s]; simpl; try done; try (by intros [= <-]).
  case_match; [|done]. intros E. by rewrite (IH s E).
Qed.

Lemma literalOr_length w v s other j r :
  (0 < len w)%nat -> (other = Some (j, r) -> (len r < len s)%nat) ->
  literalOr w v s other = Some (j, r) -> (len r < len s)%nat.
Proof.
  intros Hw Ho. unfold literalOr. destruct (stripPrefix w s) eqn:E; [|done]. intros [= _ <-].
  apply stripPrefix_length in E. lia.
Qed.

Lemma parseName_length s v r : parseName s = Some (v, r) -> (len r < len s)%nat.
Proof.
  unfold parseName. pose proof (skipSpace_length s). destruct (skipSpace s) as [|c s1]; [done|]. case_match; [|done].
  destruct (parseChars s1) as [[v1 s2]|] eqn:E; [|done]. apply parseChars_length in E.
  pose proof (skipSpace_length s2). destruct (skipSpace s2) as [|c' s3]; [done|]. case_match; [|done].
  intros [= _ <-]. simpl in *. lia.
Qed.

(** The reader of strings consumes its input, too. *)
Section Reader.
Context (chars : string -> option (string * string)).
Hypothesis chars_length : forall s v r, chars s = Some (v, r) -> (len r < len s)%nat.

Lemma parseScalar_length s v r : parseScalarWith chars s = Some (v, r) -> (len r < len s)%nat.
Proof.
  destruct s as [|c s]; [done|]. unfold parseScalarWith. case_match.
  - destruct (chars s) as [[? ?]|] eqn:E; [|done]. intros [= _ <-]. apply chars_length in E. simpl. lia.
  - do 3 (apply literalOr_length; [simpl; lia|]).
    destruct (scanNumber _) as [[? ?]|] eqn:E; [|done]. intros [= _ <-]. by apply scanNumber_length in E.
Qed.

Lemma parse_lengths fuel :
  (forall d s v r, parseValueWith chars fuel d s = Some (v, r) -> (len r < len s)%nat) /\
  (forall d s v r, parseElementsWith chars fuel d s = Some (v, r) -> (len r < len s)%nat) /\
  (forall d s v r, parseMembersWith chars fuel d s = Some (v, r) -> (len r < len s)%nat).
Proof.
  induction fuel as [|fuel (IHv & IHe & IHm)]; [done|]. split_and!; intros d s v r; cbn [parseValueWith parseElementsWith parseMembersWith].
  - pose proof (skipSpace_length s) as Hs. destruct (skipSpace s) as [|c s1]; [done|].
    pose proof (skipSpace_length s1) as Hs1.
    case_match; [|case_match]; try (case_match; [done|]; destruct (skipSpace s1) as [|e s2]; [done|];
      case_match; [intros [= _ <-]; simpl in *; lia|]).
    + destruct (parseMembersWith chars _ _ _) as [[ms t]|] eqn:E; [|done]. intros [= _ <-]. apply IHm in E. simpl in *. lia.
    + destruct (parseElementsWith chars _ _ _) as [[ms t]|] eqn:E; [|done]. intros [= _ <-]. apply IHe in E. simpl in *. lia.
    + intros E%parseScalar_length. lia.
  - destruct (parseValueWith chars _ _ _) as [[x t]|] eqn:E; [|done]. apply IHv in E.
    pose proof (skipSpace_length t) as Ht. destruct (skipSpace t) as [|c t1]; [done|].
    case_match; [intros [= _ <-]; simpl in *; lia|]. case_match; [|done].
    destruct (parseElementsWith chars _ _ _) as [[xs u]|] eqn:E'; [|done]. apply IHe in E'. intros [= _ <-]. simpl in *. lia.
  - destruct (parseName s) as [[name s1]|] eqn:En; [|done]. apply parseName_length in En.
    destruct (parseValueWith chars _ _ _) as [[x t]|] eqn:E; [|done]. apply IHv in E.
    pose proof (skipSpace_length t) as Ht. destruct (skipSpace t) as [|c t1]; [done|].
    case_match; [intros [= _ <-]; simpl in *; lia|]. case_match; [|done].
    destruct (parseMembersWith chars _ _ _) as [[xs u]|] eqn:E'; [|done]. apply IHm in E'. intros [= _ <-]. simpl in *. lia.
Qed.

(** ** The fuel is enough *)

Lemma parse_fuel n :
  (forall d s f f', (len s <= n)%nat -> (2 * len s < f)%nat -> (2 * len s < f')%nat ->
    parseValueWith chars f d s = parseValueWith chars f' d s) /\
  (forall d s f f', (len s <= n)%nat -> (2 * len s + 1 < f)%nat -> (2 * len s + 1 < f')%nat ->
    parseElementsWith chars f d s = parseElementsWith chars f' d s) /\
  (forall d s f f', (len s <= n)%nat -> (2 * len s < f)%nat -> (2 * len s < f')%nat ->
    parseMembersWith chars f d s = parseMembersWith chars f' d s).
Proof.
  induction (lt_wf n) as [n _ IH]. 
  assert (forall d s f f', (len s <= n)%nat -> (2 * len s < f)%nat -> (2 * len s < f')%nat ->
    parseValueWith chars f d s = parseValueWith chars f' d s) as Hv.
  { intros d s [|f] [|f'] Hn Hf Hf'; try lia. cbn [parseValueWith].
    pose proof (skipSpace_length s) as Hs. destruct (skipSpace s) as [|c s1]; [done|]. simpl in Hs.
    destruct (IH (len s1)) as (_ & IHe & IHm); [lia|].
    case_match; [|case_match; [|done]]; (case_match; [done|]); (case_match; [done|]); (case_match; [done|]).
    - rewrite (IHm (d + 1) s1 f f') by lia. done.
    - rewrite (IHe (d + 1) s1 f f') by lia. done. }
  split_and!; [done|..]; intros d s [|f] [|f'] Hn Hf Hf'; try lia; cbn [parseElementsWith parseMembersWith].
  - rewrite (Hv d s f f') by lia. destruct (parseValueWith chars f' d s) as [[x t]|] eqn:E; [|done].
    apply (proj1 (parse_lengths f')) in E. pose proof (skipSpace_length t) as Ht.
    destruct (skipSpace t) as [|c t1]; [done|]. simpl in Ht. case_match; [done|]. case_match; [|done].
    destruct (IH (len t1)) as (_ & IHe & _); [lia|]. by rewrite (IHe d t1 f f') by lia.
  - destruct (parseName s) as [[name s1]|] eqn:En; [|done]. apply parseName_length in En.
    destruct (IH (len s1)) as (IHv & _ & _); [lia|]. rewrite (IHv d s1 f f') by lia.
    destruct (parseValueWith chars f' d s1) as [[x t]|] eqn:E; [|done].
    apply (proj1 (parse_lengths f')) in E. pose proof (skipSpace_length t) as Ht.
    destruct (skipSpace t) as [|c t1]; [done|]. simpl in Ht. case_match; [done|]. case_match; [|done].
    destruct (IH (len t1)) as (_ & _ & IHm); [lia|]. by rewrite (IHm d t1 f f') by lia.
Qed.

(** Any fuel that reads a value reads the value that [parse] reads. *)
Lemma parse_enough s fuel : (2 * len s < fuel)%nat -> parseValueWith chars fuel 0 s = parseWith chars s.
Proof. intros H. unfold parseWith. apply (proj1 (parse_fuel (len s))); lia. Qed.
End Reader.

(** ** Strings *)

Fixpoint validUtf8 (s : string) : bool :=
  match s with
  | EmptyString => true
  | String c rest =>
      if byte_of c <? 128 then validUtf8 rest else
      match runeSize s, rest with
      | 2%nat, String _ rest => validUtf8 rest
      | 3%nat, String _ (String _ rest) => validUtf8 rest
      | 4%nat, String _ (String _ (String _ rest)) => validUtf8 rest
      | _, _ => false
      end
  end.

Lemma runeSize_2 c c1 t t' :
  runeSize (String c (String c1 t)) = 2%nat -> runeSize (String c (String c1 t')) = 2%nat.
Proof. unfold runeSize. by repeat case_match. Qed.
Lemma runeSize_3 c c1 c2 t t' :
  runeSize (String c (String c1 (String c2 t))) = 3%nat -> runeSize (String c (String c1 (String c2 t'))) = 3%nat.
Proof. unfold runeSize. by repeat case_match. Qed.
Lemma runeSize_4 c c1 c2 c3 t t' :
  runeSize (String c (String c1 (String c2 (String c3 t)))) = 4%nat ->
  runeSize (String c (String c1 (String c2 (String c3 t')))) = 4%nat.
Proof. unfold runeSize. by repeat case_match. Qed.

(** An ASCII byte is read back from its quoted form. *)
Lemma parse_quoteByte c rest :
  byte_of c < 128 -> parseChars (quoteByte c +:+ rest) = emit (text c) (parseChars rest).
Proof.
  intros H. destruct c as [[] [] [] [] [] [] [] []]; try reflexivity; vm_compute in H; discriminate.
Qed.

(** A byte from 0x80 on is read as part of a rune. *)
Lemma parse_rune c rest :
  128 <= byte_of c ->
  parseChars (String c rest) =
    match runeSize (String c rest), rest with
    | 2%nat, String c1 rest => emit (String c (text c1)) (parseChars rest)
    | 3%nat, String c1 (String c2 rest) => emit (String c (String c1 (text c2))) (parseChars rest)
    | 4%nat, String c1 (String c2 (String c3 rest)) =>
        emit (String c (String c1 (String c2 (text c3)))) (parseChars rest)
    | _, _ => emit replacementChar (parseChars rest)
    end.
Proof.
  intros H. cbn [parseChars]. unfold at_byte.
  rewrite (proj2 (Z.eqb_neq _ 34)), (proj2 (Z.eqb_neq _ 92)) by lia.
  rewrite (proj2 (Z.ltb_ge _ 32)), (proj2 (Z.ltb_ge _ 128)) by lia. done.
Qed.

Lemma byte_of_eq c z : byte_of c = z -> c = chr z.
Proof.
  intros <-. unfold chr, byte_of. rewrite N2Z.id. symmetry. apply Ascii.ascii_N_embedding.
Qed.

Lemma lineSeparator_inv c c1 c2 e rest :
  lineSeparator c c1 c2 = Some e ->
  parseChars (e +:+ rest) = emit (String c (String c1 (text c2))) (parseChars rest).
Proof.
  unfold lineSeparator, at_byte.
  destruct (Z.eqb_spec (byte_of c) 226) as [->%byte_of_eq|]; simpl; [|done].
  destruct (Z.eqb_spec (byte_of c1) 128) as [->%byte_of_eq|]; simpl; [|done].
  destruct (Z.eqb_spec (byte_of c2) 168) as [->%byte_of_eq|]; [by intros [= <-]|].
  destruct (Z.eqb_spec (byte_of c2) 169) as [->%byte_of_eq|]; [by intros [= <-]|done].
Qed.

Lemma parse_quoteChars s rest :
  validUtf8 s = true -> parseChars (quoteChars s +:+ String (chr 34) rest) = Some (s, rest).
Proof.
  remember (len s) as n eqn:Hn. revert s Hn. induction (lt_wf n) as [n _ IH]. intros s -> Hs.
  destruct s as [|c s]; [done|]. cbn [validUtf8 quoteChars] in *.
  assert (forall t, (len t < len (String c s))%nat -> validUtf8 t = true ->
    parseChars (quoteChars t +:+ String (chr 34) rest) = Some (t, rest)) as Hgo
    by (intros t Ht; by apply (IH (len t))). clear IH.
  destruct (Z.ltb_spec (byte_of c) 128) as [Hc|Hc].
  { rewrite <- string_app_assoc, parse_quoteByte, Hgo by (done || simpl; lia). done. }
  destruct (runeSize (String c s)) as [|[|[|[|[|k]]]]] eqn:Er; try done; destruct s as [|c1 s]; try done.
  - simpl String.append. rewrite parse_rune, (runeSize_2 _ _ _ _ Er), Hgo by (done || simpl; lia). done.
  - destruct s as [|c2 s]; [done|]. rewrite <- string_app_assoc.
    destruct (lineSeparator c c1 c2) as [e|] eqn:El; simpl default.
    + rewrite (lineSeparator_inv _ _ _ _ _ El), Hgo by (done || simpl; lia). done.
    + simpl String.append. rewrite parse_rune, (runeSize_3 _ _ _ _ _ Er), Hgo by (done || simpl; lia). done.
  - destruct s as [|c2 [|c3 s]]; try done.
    simpl String.append. rewrite parse_rune, (runeSize_4 _ _ _ _ _ _ Er), Hgo by (done || simpl; lia). done.
Qed.

(** ** Numbers *)

Lemma byte_of_chr z : 0 <= z < 256 -> byte_of (chr z) = z.
Proof. intros H. unfold byte_of, chr. rewrite Ascii.N_ascii_embedding by lia. lia. Qed.

Lemma byte_of_digit z : 0 <= z < 10 -> byte_of (digit z) = 48 + z.
Proof. intros H. apply byte_of_chr. lia. Qed.

Lemma digitsValue_app s t acc : digitsValue acc (s +:+ t) = digitsValue (digitsValue acc s) t.
Proof. revert acc. induction s as [|c s IH]; intros acc; simpl; [done|]. apply IH. Qed.

(** The digits of a number: its value, and no leading zero. *)
Lemma decimalDigits_spec fuel : forall n,
  (0 < fuel)%nat -> 0 <= n < 10 ^ Z.of_nat fuel ->
  digitsValue 0 (decimalDigits fuel n) = n /\ all_bytes (in_range 48 57) (decimalDigits fuel n) = true /\
  exists c t, decimalDigits fuel n = String c t /\ (byte_of c = 48 -> n = 0 /\ t = EmptyString).
Proof.
  induction fuel as [|fuel IH]; [lia|]. intros n _ Hn. cbn [decimalDigits].
  destruct (Z.ltb_spec n 10) as [H|H].
  - assert (in_range 48 57 (byte_of (digit n)) = true) as Hd
      by (rewrite byte_of_digit by lia; unfold in_range; apply andb_true_iff; split; apply Z.leb_le; lia).
    unfold text. cbn [digitsValue all_bytes]. rewrite Hd. rewrite byte_of_digit by lia. split_and!; [lia|done|].
    exists (digit n), EmptyString. split; [done|]. rewrite byte_of_digit by lia. intros ?. split; [lia|done].
  - assert (Z.of_nat (S fuel) = Z.succ (Z.of_nat fuel)) as Ef by lia. rewrite Ef, Z.pow_succ_r in Hn by lia.
    assert (0 < fuel)%nat by (destruct fuel; [simpl in Hn; lia|lia]).
    destruct (IH (n / 10)) as (Hv & Ha & c & t & E & Hc); [done|zlia|].
    assert (0 <= n mod 10 < 10) by (apply Z.mod_pos_bound; lia).
    rewrite digitsValue_app, Hv, all_bytes_app, Ha. unfold text. cbn [digitsValue all_bytes].
    rewrite byte_of_digit by lia.
    split_and!; [zlia|simpl; rewrite andb_true_r; unfold in_range; apply andb_true_iff; split; apply Z.leb_le; lia|].
    rewrite E. simpl. exists c, (t +:+ text (digit (n mod 10))). split; [done|]. intros [Hz _]%Hc. exfalso. zlia.
Qed.

(** What may follow a number. *)
Definition delimits (rest : string) : Prop :=
  match rest with
  | String c _ => isDigit c = false /\ at_byte 46 c = false /\ at_byte 101 c = false /\ at_byte 69 c = false
  | EmptyString => True
  end.

Lemma spanDigits_app s rest :
  all_bytes (in_range 48 57) s = true -> delimits rest -> spanDigits (s +:+ rest) = (s, rest).
Proof.
  intros Hs Hr. induction s as [|c s IH]; simpl in *.
  - destruct rest as [|c rest]; [done|]. destruct Hr as [Hd _]. simpl. by rewrite Hd.
  - apply andb_true_iff in Hs as [Hc Hs]. unfold isDigit. by rewrite Hc, (IH Hs).
Qed.

Abbreviation ten20 := 100000000000000000000.

Lemma scanNumber_tail whole rest sign s :
  scanSign s = (sign, whole +:+ rest) -> scanInteger (whole +:+ rest) = Some (whole, rest) -> delimits rest ->
  scanNumber s = Some (sign +:+ whole, rest).
Proof.
  intros Es Ei Hr. unfold scanNumber. rewrite Es, Ei. unfold scanFraction, scanExponent.
  destruct rest as [|c rest]; [by rewrite !string_app_nil|]. destruct Hr as (_ & H1 & H2 & H3).
  rewrite H1, H2, H3. simpl. by rewrite !string_app_nil.
Qed.

Lemma scanInteger_format n rest :
  0 <= n < ten20 -> delimits rest ->
  scanInteger (formatUint n +:+ rest) = Some (formatUint n, rest) /\
  exists c t, formatUint n = String c t /\ isDigit c = true.
Proof.
  intros Hn Hr. destruct (decimalDigits_spec 20 n) as (_ & Ha & c & t & E & Hc); [lia|done|].
  unfold formatUint in *. pose proof (spanDigits_app _ rest Ha Hr) as Hspan. rewrite E in *.
  simpl in Ha. apply andb_true_iff in Ha as [Hd _]. split; [|by exists c, t].
  unfold scanInteger. simpl String.append. cbn [all_bytes]. unfold at_byte.
  destruct (Z.eqb_spec (byte_of c) 48) as [Ez|Ez].
  - destruct (Hc Ez) as [_ ->]. done.
  - unfold isDigit. rewrite Hd. simpl String.append in Hspan. by rewrite Hspan.
Qed.

Lemma scanSign_none s c t : s = String c t -> isDigit c = true -> scanSign s = (EmptyString, s).
Proof.
  intros -> Hd. unfold scanSign, at_byte. unfold isDigit, in_range in Hd. apply andb_true_iff in Hd as [Hd%Z.leb_le _].
  by rewrite (proj2 (Z.eqb_neq _ 45)) by lia.
Qed.

(** A formatted integer is one number literal. *)
Lemma scanNumber_formatInt n rest :
  - ten20 < n < ten20 -> delimits rest -> scanNumber (formatInt n +:+ rest) = Some (formatInt n, rest).
Proof.
  intros Hn Hr. unfold formatInt. destruct (Z.ltb_spec n 0).
  - destruct (scanInteger_format (- n) rest) as [Hi _]; [lia|done|].
    by apply (scanNumber_tail (formatUint (- n)) rest (text (chr 45))).
  - destruct (scanInteger_format n rest) as (Hi & c & t & E & Hd); [lia|done|].
    rewrite (scanNumber_tail (formatUint n) rest EmptyString); try done.
    apply (scanSign_none _ c (t +:+ rest)); [by rewrite E|done].
Qed.

Lemma allDigits_format n : 0 <= n < ten20 -> allDigits (formatUint n) = true /\ digitsValue 0 (formatUint n) = n.
Proof.
  intros Hn. destruct (decimalDigits_spec 20 n) as (Hv & Ha & c & t & E & _); [lia|done|].
  unfold allDigits, formatUint. rewrite Hv. split; [|done]. by rewrite E in *.
Qed.

Lemma formatUint_inj m n : 0 <= m < ten20 -> 0 <= n < ten20 -> formatUint m = formatUint n -> m = n.
Proof.
  intros Hm Hn E%(f_equal (digitsValue 0)). destruct (allDigits_format m Hm) as [_ Em], (allDigits_format n Hn) as [_ En]. congruence.
Qed.

Lemma ParseUint_format n : is_u64 n -> ParseUint (formatUint n) = Some n.
Proof.
  unfold is_u64. intros Hn. destruct (allDigits_format n) as [Ha Hv]; [lia|]. unfold ParseUint.
  rewrite Ha, Hv. simpl. by rewrite (proj2 (Z.ltb_lt _ _)) by lia.
Qed.

Lemma ParseInt_format n : is_i64 n -> ParseInt (formatInt n) = Some n.
Proof.
  unfold is_i64. intros Hn. unfold ParseInt, formatInt. destruct (Z.ltb_spec n 0).
  - destruct (allDigits_format (- n)) as [Ha Hv]; [lia|]. simpl. rewrite Ha, Hv, Z.opp_involutive. simpl.
    by rewrite (proj2 (Z.leb_le _ _)), (proj2 (Z.ltb_lt _ _)) by lia.
  - destruct (allDigits_format n) as [Ha Hv]; [lia|].
    destruct (scanInteger_format n EmptyString) as (_ & c & t & E & Hd); [lia|done|].
    rewrite (scanSign_none _ c t E Hd), Ha, Hv. simpl.
    by rewrite (proj2 (Z.leb_le _ _)), (proj2 (Z.ltb_lt _ _)) by lia.
Qed.

(** ** Parsing inverts printing *)

Fixpoint printable (j : json) : Prop :=
  match j with
  | JNumber l => exists n, l = formatInt n /\ - ten20 < n < ten20
  | JString s => validUtf8 s = true
  | JArray es => foldr (fun e P => printable e /\ P) True es
  | JObject ms => foldr (fun m P => validUtf8 m.1 = true /\ printable m.2 /\ P) True ms
  | _ => True
  end.

(** Fuel that is enough, and the depth of the containers. *)
Fixpoint need (j : json) : nat :=
  match j with
  | JArray es => S (foldr (fun e n => S (need e + n)) O es)
  | JObject ms => S (foldr (fun m n => S (need m.2 + n)) O ms)
  | _ => 1%nat
  end.

Fixpoint height (j : json) : Z :=
  match j with
  | JArray es => 1 + foldr (fun e h => Z.max (height e) h) 0 es
  | JObject ms => 1 + foldr (fun m h => Z.max (height m.2) h) 0 ms
  | _ => 0
  end.

(** What a reader of strings makes of a printed document. *)
Section Printed.
Context (chars : string -> option (string * string)).
Hypothesis chars_length : forall s v r, chars s = Some (v, r) -> (len r < len s)%nat.
Context (onString : string -> string).
Hypothesis chars_quote : forall s rest, validUtf8 s = true ->
  chars (quoteChars s +:+ String (chr 34) rest) = Some (onString s, rest).

Fixpoint asRead (j : json) : json :=
  match j with
  | JString s => JString (onString s)
  | JArray es => JArray (map asRead es)
  | JObject ms => JObject (map (fun m => (m.1, asRead m.2)) ms)
  | _ => j
  end.

Definition reads (j : json) : Prop := forall fuel d rest,
  delimits rest -> (need j <= fuel)%nat -> d + height j <= maxNestingDepth ->
  parseValueWith chars fuel d (printJson j +:+ rest) = Some (asRead j, rest).

(** The first byte of a document decides nothing else. *)
Definition opens (c : Ascii.ascii) : Prop :=
  isSpace c = false /\ at_byte 93 c = false /\ at_byte 125 c = false.

Lemma number_head c t : isDigit c = true \/ c = chr 45 ->
  opens c /\ at_byte 34 c = false /\ at_byte 91 c = false /\ at_byte 123 c = false /\
  stripPrefix "null" (String c t) = None /\ stripPrefix "true" (String c t) = None /\
  stripPrefix "false" (String c t) = None.
Proof.
  intros [H| ->]; [|done]. destruct c as [[] [] [] [] [] [] [] []]; vm_compute in H; try discriminate; by split_and!.
Qed.

Lemma formatInt_head n : - ten20 < n < ten20 -> exists c t, formatInt n = String c t /\
  (isDigit c = true \/ c = chr 45).
Proof.
  intros Hn. unfold formatInt. destruct (Z.ltb_spec n 0); [by eexists _, _; auto|].
  destruct (scanInteger_format n EmptyString) as (_ & c & t & E & Hd); [lia|done|]. rewrite E. eauto.
Qed.

Lemma reads_number n : - ten20 < n < ten20 -> reads (JNumber (formatInt n)).
Proof.
  intros Hn [|fuel] d rest Hr Hf Hd; simpl in Hf; [lia|]. cbn [printJson].
  pose proof (scanNumber_formatInt n rest Hn Hr) as Hscan. destruct (formatInt_head n Hn) as (c & t & E & Hc).
  rewrite E in *. simpl String.append in *. cbn [parseValueWith].
  destruct (number_head c (t +:+ rest) Hc) as ((Hs & _) & H34 & H91 & H123 & Hl1 & Hl2 & Hl3).
  cbn [skipSpace]. rewrite Hs, H123, H91. unfold parseScalarWith, literalOr. by rewrite H34, Hl1, Hl2, Hl3, Hscan.
Qed.

Lemma reads_string s : validUtf8 s = true -> reads (JString s).
Proof.
  intros Hs [|fuel] d rest _ Hf _; simpl in Hf; [lia|]. cbn [printJson]. unfold quote. simpl String.append.
  rewrite <- string_app_assoc. simpl String.append. cbn [parseValueWith].
  change (skipSpace (String (chr 34) (quoteChars s +:+ String (chr 34) rest)))
    with (String (chr 34) (quoteChars s +:+ String (chr 34) rest)).
  change (at_byte 123 (chr 34)) with false. change (at_byte 91 (chr 34)) with false. unfold parseScalarWith.
  change (at_byte 34 (chr 34)) with true. cbv iota. by rewrite chars_quote.
Qed.

Lemma print_head j : printable j -> exists c t, printJson j = String c t /\ opens c.
Proof.
  destruct j as [|[]|l|s|es|ms]; simpl; intros H; try (by eexists _, _).
  destruct H as (n & -> & Hn). destruct (formatInt_head n Hn) as (c & t & -> & Hc). exists c, t. split; [done|].
  by apply (number_head c t).
Qed.

Lemma skip_opens c t : opens c -> skipSpace (String c t) = String c t.
Proof. intros (H & _). simpl. by rewrite H. Qed.

Lemma concat_cons x y l : String.concat "," (x :: y :: l) = x +:+ ("," +:+ String.concat "," (y :: l)).
Proof. done. Qed.

(** The loop over the elements of an array. *)
Lemma reads_elements es : forall fuel d rest,
  es <> [] -> Forall reads es -> (foldr (fun e n => S (need e + n)) O es <= fuel)%nat ->
  d + foldr (fun e h => Z.max (height e) h) 0 es <= maxNestingDepth ->
  parseElementsWith chars fuel d (String.concat "," (map printJson es) +:+ ("]" +:+ rest)) = Some (map asRead es, rest).
Proof.
  induction es as [|e es IH]; [done|]. intros fuel d rest _ Hall Hf Hd. apply Forall_cons in Hall as [He Hall].
  cbn [foldr map] in *. destruct fuel as [|fuel]; [lia|]. cbn [parseElementsWith]. destruct es as [|e' es].
  - cbn [map String.concat]. rewrite He by (done || simpl in *; lia). done.
  - cbn [map]. rewrite concat_cons, <- !string_app_assoc.
    rewrite He by (done || simpl in *; lia). specialize (IH fuel d rest ltac:(done) Hall). cbn [map] in IH.
    match goal with |- context ["," +:+ ?x] => change (skipSpace ("," +:+ x)) with (String (chr 44) x) end.
    change (at_byte 93 (chr 44)) with false. change (at_byte 44 (chr 44)) with true. cbv iota.
    rewrite IH by lia. done.
Qed.

Lemma parseName_quote name rest :
  validUtf8 name = true -> parseName (quote name +:+ (":" +:+ rest)) = Some (name, rest).
Proof.
  intros Hs. unfold parseName, quote. simpl String.append. rewrite <- string_app_assoc. simpl String.append.
  match goal with |- context [skipSpace (String (chr 34) ?x)] =>
    change (skipSpace (String (chr 34) x)) with (String (chr 34) x) end.
  change (at_byte 34 (chr 34)) with true. cbv iota. by rewrite parse_quoteChars.
Qed.

Lemma reads_members ms : forall fuel d rest,
  ms <> [] -> Forall (fun m => validUtf8 m.1 = true /\ reads m.2) ms ->
  (foldr (fun m n => S (need m.2 + n)) O ms <= fuel)%nat ->
  d + foldr (fun m h => Z.max (height m.2) h) 0 ms <= maxNestingDepth ->
  parseMembersWith chars fuel d
    (String.concat "," (map (fun m => quote m.1 +:+ ":" +:+ printJson m.2) ms) +:+ ("}" +:+ rest))
    = Some (map (fun m => (m.1, asRead m.2)) ms, rest).
Proof.
  induction ms as [|[name v] ms IH]; [done|]. intros fuel d rest _ Hall Hf Hd.
  apply Forall_cons in Hall as [[Hn Hv] Hall]. cbn [foldr map fst snd] in *.
  destruct fuel as [|fuel]; [lia|]. cbn [parseMembersWith]. destruct ms as [|m' ms].
  - cbn [map String.concat]. rewrite <- !string_app_assoc, parseName_quote by done.
    rewrite Hv by (done || simpl in *; lia). done.
  - cbn [map]. rewrite concat_cons, <- !string_app_assoc, parseName_quote by done.
    rewrite Hv by (done || simpl in *; lia). specialize (IH fuel d rest ltac:(done) Hall). cbn [map] in IH.
    match goal with |- context ["," +:+ ?x] => change (skipSpace ("," +:+ x)) with (String (chr 44) x) end.
    change (at_byte 125 (chr 44)) with false. change (at_byte 44 (chr 44)) with true. cbv iota.
    rewrite IH by lia. done.
Qed.

Lemma reads_array es : Forall printable es -> Forall reads es -> reads (JArray es).
Proof.
  intros Hp Hr [|fuel] d rest _ Hf Hd; simpl in Hf; [lia|]. cbn [printJson]. rewrite <- !string_app_assoc.
  cbn [parseValueWith]. match goal with |- context ["[" +:+ ?x] => change (skipSpace ("[" +:+ x)) with (String (chr 91) x) end.
  change (at_byte 123 (chr 91)) with false. change (at_byte 91 (chr 91)) with true. cbv iota. simpl height in Hd.
  assert (0 <= foldr (fun e h => Z.max (height e) h) 0 es) by (clear; induction es; simpl; lia).
  rewrite (proj2 (Z.leb_gt maxNestingDepth d)) by lia. destruct es as [|e es]; [done|].
  pose proof (reads_elements (e :: es) fuel (d + 1) rest ltac:(done) Hr ltac:(lia) ltac:(lia)) as Hel.
  apply Forall_cons in Hp as [Hp _]. destruct (print_head e Hp) as (c & t & E & Hc).
  assert (exists t', String.concat "," (map printJson (e :: es)) +:+ "]" +:+ rest = String c t') as [t' Et].
  { destruct es as [|e' es]; cbn [map]; [simpl; rewrite E; by eexists|]. rewrite concat_cons, E. by eexists. }
  rewrite Et in *. rewrite (skip_opens c t' Hc). destruct Hc as (_ & -> & _). by rewrite Hel.
Qed.

Lemma reads_object ms : Forall (fun m => validUtf8 m.1 = true /\ reads m.2) ms -> reads (JObject ms).
Proof.
  intros Hr [|fuel] d rest _ Hf Hd; simpl in Hf; [lia|]. cbn [printJson]. rewrite <- !string_app_assoc.
  cbn [parseValueWith]. match goal with |- context ["{" +:+ ?x] => change (skipSpace ("{" +:+ x)) with (String (chr 123) x) end.
  change (at_byte 123 (chr 123)) with true. cbv iota. simpl height in Hd.
  assert (0 <= foldr (fun m h => Z.max (height m.2) h) 0 ms) by (clear; induction ms; simpl; lia).
  rewrite (proj2 (Z.leb_gt maxNestingDepth d)) by lia. destruct ms as [|m ms]; [done|].
  pose proof (reads_members (m :: ms) fuel (d + 1) rest ltac:(done) Hr ltac:(lia) ltac:(lia)) as Hel.
  assert (exists t', String.concat "," (map (fun m => quote m.1 +:+ ":" +:+ printJson m.2) (m :: ms)) +:+ "}" +:+ rest =
    String (chr 34) t') as [t' Et] by (destruct ms as [|m' ms]; cbn [map]; [|rewrite concat_cons]; by eexists).
  rewrite Et in *. rewrite (skip_opens (chr 34) t') by done. change (at_byte 125 (chr 34)) with false. by rewrite Hel.
Qed.

Fixpoint json_reads (j : json) : printable j -> reads j.
Proof.
  destruct j as [|[]|l|s|es|ms]; cbn [printable].
  - intros _ [|fuel] d rest _ Hf _; [simpl in Hf; lia|done].
  - intros _ [|fuel] d rest _ Hf _; [simpl in Hf; lia|done].
  - intros _ [|fuel] d rest _ Hf _; [simpl in Hf; lia|done].
  - intros (n & -> & Hn). by apply reads_number.
  - apply reads_string.
  - intros H. apply reads_array; induction es as [|e es IH]; constructor; try (apply json_reads); try apply H; apply IH, H.
  - intros H. apply reads_object; induction ms as [|m ms IH]; constructor; [|apply IH, H].
    split; [apply H|apply json_reads, H].
Qed.

(** Printing and reading back a document. *)
Lemma parse_printed j rest :
  printable j -> height j <= maxNestingDepth -> delimits rest ->
  parseWith chars (printJson j +:+ rest) = Some (asRead j, rest).
Proof.
  intros Hp Hh Hr. rewrite <- (parse_enough chars chars_length _ (S (2 * len (printJson j +:+ rest)) + need j)) by lia.
  apply json_reads; try done; lia.
Qed.
End Printed.

Fixpoint asRead_id (j : json) : asRead (fun s => s) j = j.
Proof.
  destruct j as [| | | |es|ms]; cbn [asRead]; try done; f_equal.
  - induction es as [|e es IH]; [done|]. cbn [map]. by rewrite asRead_id, IH.
  - induction ms as [|[n v] ms IH]; [done|]. cbn [map fst snd]. by rewrite asRead_id, IH.
Qed.

Lemma parse_print j rest :
  printable j -> height j <= maxNestingDepth -> delimits rest -> parse (printJson j +:+ rest) = Some (j, rest).
Proof.
  intros Hp Hh Hr. rewrite (parse_printed parseChars parseChars_length (fun s => s)); try done.
  - by rewrite asRead_id.
  - apply parse_quoteChars.
Qed.

(** Strings as they are written. *)
Lemma rawChars_length s v r : rawChars s = Some (v, r) -> (len r < len s)%nat.
Proof.
  unfold rawChars. destruct (parseChars s) as [[v' r']|] eqn:E; [|done]. intros [= _ <-]. by apply parseChars_length in E.
Qed.

Lemma substring_app s t : String.substring 0 (len s) (s +:+ t) = s.
Proof. induction s as [|c s IH]; simpl; [by destruct t|]. by rewrite IH. Qed.

Lemma length_string_app s t : len (s +:+ t) = (len s + len t)%nat.
Proof. induction s as [|c s IH]; simpl; [done|]. by rewrite IH. Qed.

Lemma rawChars_quote s rest :
  validUtf8 s = true -> rawChars (quoteChars s +:+ String (chr 34) rest) = Some (quoteChars s, rest).
Proof.
  intros Hs. unfold rawChars. rewrite parse_quoteChars by done. rewrite length_string_app. simpl len.
  replace (_ - _ - 1)%nat with (len (quoteChars s)) by lia. by rewrite substring_app.
Qed.

Lemma parse_raw j rest :
  printable j -> height j <= maxNestingDepth -> delimits rest ->
  parseWith rawChars (printJson j +:+ rest) = Some (asRead quoteChars j, rest).
Proof. apply parse_printed; [apply rawChars_length|apply rawChars_quote]. Qed.

(** ** Documents up to the order of members *)

(** The same values, with the members of every object in any order. *)
#[warnings="-register-all"] Inductive same_json : json -> json -> Prop :=
| same_json_refl j : same_json j j
| same_json_array es es' : Forall2 same_json es es' -> same_json (JArray es) (JArray es')
| same_json_object ms ms1 ms' :
    ms ≡ₚ ms1 -> Forall2 (fun m m' => m.1 = m'.1 /\ same_json m.2 m'.2) ms1 ms' ->
    same_json (JObject ms) (JObject ms').

Definition scalar (j : json) : Prop := match j with JArray _ | JObject _ => False | _ => True end.

Lemma same_scalar j j' : scalar j -> same_json j j' -> j' = j.
Proof. intros Hs H. by destruct H. Qed.

Lemma same_array_inv es j : same_json (JArray es) j -> exists es', j = JArray es' /\ Forall2 same_json es es'.
Proof.
  intros H. inversion H as [|? es' Hall|]; subst; eexists; (split; [done|]); [|done].
  apply Forall_Forall2_diag, Forall_true. intros; apply same_json_refl.
Qed.

Lemma same_object_inv ms j : same_json (JObject ms) j -> exists ms1 ms',
  j = JObject ms' /\ ms ≡ₚ ms1 /\ Forall2 (fun m m' => m.1 = m'.1 /\ same_json m.2 m'.2) ms1 ms'.
Proof.
  intros H. inversion H as [| |? ms1 ms' Hp Hall]; subst; eexists _, _; (split; [done|]); [|done].
  split; [done|]. apply Forall_Forall2_diag, Forall_true. intros. split; [done|apply same_json_refl].
Qed.

(** Objects of scalars are only permuted. *)
Lemma same_flat_object ms j :
  Forall (fun m => scalar m.2) ms -> same_json (JObject ms) j -> exists ms', j = JObject ms' /\ ms ≡ₚ ms'.
Proof.
  intros Hs (ms1 & ms' & -> & Hp & Hall)%same_object_inv. exists ms'. split; [done|]. rewrite Hp.
  assert (Forall (fun m => scalar m.2) ms1) as Hs1 by (by rewrite <- Hp). clear Hp Hs.
  induction Hall as [|[n v] [n' v'] ms1 ms' [Hn Hv] _ IH]; [done|]. apply Forall_cons in Hs1 as [H1 H2]. simpl in *.
  apply same_scalar in Hv; [|done]. subst. by rewrite IH.
Qed.

Lemma fieldNamed_elem fields name f : fieldNamed fields name = Some f -> f ∈ fields.
Proof.
  unfold fieldNamed. case_bool_decide; [by intros [= <-]|].
  intros [Hin _]%List.find_some. by apply list_elem_of_In.
Qed.

Section Reordering.
Context {A : Type} (fields : list string) (strict : bool) (store : string -> json -> A -> option A).
(** Assignments to different fields commute. *)
Hypothesis commute : forall f g v w a, f ∈ fields -> g ∈ fields -> f <> g ->
  store f v a ≫= store g w = store g w a ≫= store f v.

Abbreviation decode := (decodeMembers fields strict store).
Definition selected (ms : list (string * json)) : list string := omap (fieldNamed fields) (map fst ms).

Lemma selected_perm ms ms' : ms ≡ₚ ms' -> selected ms ≡ₚ selected ms'.
Proof. intros H. unfold selected. by rewrite H. Qed.

Lemma decodeMembers_swap m m' ms a :
  NoDup (selected (m :: m' :: ms)) -> decode (m :: m' :: ms) a = decode (m' :: m :: ms) a.
Proof.
  destruct m as [x v], m' as [y w]. unfold selected. simpl. intros Hnd.
  destruct (fieldNamed fields x) as [f|] eqn:Ef, (fieldNamed fields y) as [g|] eqn:Eg; simpl in *; try done.
  - apply NoDup_cons in Hnd as [Hne _]. apply not_elem_of_cons in Hne as [Hne _].
    pose proof (commute f g v w a (fieldNamed_elem _ _ _ Ef) (fieldNamed_elem _ _ _ Eg) Hne) as Hc. simpl in Hc.
    destruct (store f v a) as [a1|], (store g w a) as [a2|]; simpl in Hc; try done.
    + by destruct (store g w a1), (store f v a2); simplify_eq.
    + by rewrite Hc.
    + by rewrite <- Hc.
  - destruct (store f v a), strict; done.
  - destruct (store g w a), strict; done.
Qed.

(** Decoding a struct does not depend on the order of the members. *)
Lemma decodeMembers_perm ms ms' : ms ≡ₚ ms' -> NoDup (selected ms) -> forall a, decode ms a = decode ms' a.
Proof.
  induction 1 as [|[x v] ms ms' _ IH|m m' ms|ms1 ms2 ms3 H1 IH1 H2 IH2]; intros Hnd a.
  - done.
  - unfold selected in *. simpl in *. destruct (fieldNamed fields x) as [f|]; simpl in *.
    + apply NoDup_cons in Hnd as [_ Hnd]. destruct (store f v a); [by apply IH|done].
    + destruct strict; [done|by apply IH].
  - symmetry. apply decodeMembers_swap. by rewrite (selected_perm _ (m' :: m :: ms)) by apply Permutation_swap.
  - rewrite IH1 by done. apply IH2. by rewrite <- (selected_perm _ _ H1).
Qed.

(** Members with the same names and interchangeable values. *)
Lemma decodeMembers_alike ms ms' :
  Forall2 (fun m m' => m.1 = m'.1 /\ forall f a, fieldNamed fields m.1 = Some f -> store f m.2 a = store f m'.2 a) ms ms' ->
  forall a, decode ms a = decode ms' a.
Proof.
  induction 1 as [|[x v] [y w] ms ms' [Hn Hv] _ IH]; intros a; simpl in *; [done|]. subst y.
  destruct (fieldNamed fields x) as [f|]; [|destruct strict; [done|apply IH]].
  rewrite (Hv f a) by done. destruct (store f w a); [apply IH|done].
Qed.
End Reordering.
