(* ===== verification/PgCodec.v ===== *)
(** * The wire format of a PostgreSQL row (postgres/state.go)

    [encodeState] writes a [persistedState] as JSON; [decodeState] reads it with
    the integrity checks of the strict methods, [decodeStateLegacy] without.
    The window period and the carried flag have no field of their own: they
    travel in [remainder] and [last_micros], which windows do not use. *)

From S2P Require Import Prelude GoTime GoHash Errors Keys Policy GoJson JsonFacts.
From S2P Require Import MemoryState PgState.

Local Open Scope string_scope.
Local Open Scope Z_scope.

(** ** Encoding *)

Definition wireState (s : persistedState) : persistedState :=
  if usesWindowMetadata (ps_Algorithm s) then
    if negb (ps_PeriodMicros s =? 0)
    then setTokens s (ps_Tokens s) (u64 (ps_PeriodMicros s)) (if ps_Carried s then 1 else 0)
    else s
  else s.

Definition jsonInt (n : Z) : json := JNumber (formatInt n).

Definition segmentJson (g : persistedSegment) : json :=
  JObject [("index", jsonInt (ps_Index g)); ("used", jsonInt (ps_SegUsed g))].

Definition leaseJson (l : persistedLease) : json :=
  JObject [("cost", jsonInt (pl_Cost l)); ("expires_micros", jsonInt (pl_ExpiresMicros l))].

(** [json.Marshal] writes the entries of a map in the order of their keys. *)
Definition byKey (a b : string * persistedLease) : Prop := String.leb a.1 b.1 = true.

#[global] Instance byKey_dec a b : base.Decision (byKey a b).
Proof. unfold byKey. apply _. Defined.

Definition leasesJson (ls : persistedLeases) : json :=
  JObject (map (fun kl => (kl.1, leaseJson kl.2)) (merge_sort byKey (map_to_list ls))).

(** [omitempty] drops a map without entries. *)
Definition leasesMember (ls : option persistedLeases) : list (string * json) :=
  match ls with
  | Some ls => if bool_decide (ls = ∅) then [] else [("leases", leasesJson ls)]
  | None => []
  end.

Definition stateJson (s : persistedState) : json :=
  JObject ([("schema", jsonInt (ps_Schema s)); ("policy_id", JString (ps_PolicyID s));
            ("revision", JString (ps_Revision s)); ("algorithm", JString (ps_Algorithm s));
            ("tokens", jsonInt (ps_Tokens s)); ("remainder", jsonInt (ps_Remainder s));
            ("last_micros", jsonInt (ps_LastMicros s)); ("observed_micros", jsonInt (ps_ObservedMicros s));
            ("window", jsonInt (ps_Window s)); ("used", jsonInt (ps_Used s));
            ("segments", JArray (map segmentJson (ps_Segments s)))] ++ leasesMember (ps_Leases s))%list.

Definition encodeState (s : persistedState) : string := printJson (stateJson (wireState s)).

(** ** Decoding *)

Definition zeroState : persistedState :=
  mkPersistedState 0 EmptyString EmptyString EmptyString 0 0 0 0 0 0 0 false
    (replicate 16 emptySegment) None.

Definition segmentFields : list string := ["index"; "used"].
Definition storeSegment (f : string) (v : json) (g : persistedSegment) : option persistedSegment :=
  if bool_decide (f = "index")
  then option_map (fun x => mkPersistedSegment x (ps_SegUsed g)) (decodeInt64 (ps_Index g) v)
  else option_map (fun x => mkPersistedSegment (ps_Index g) x) (decodeUint64 (ps_SegUsed g) v).
Definition decodeSegment : persistedSegment -> json -> option persistedSegment :=
  decodeStruct segmentFields true storeSegment.

Definition leaseFields : list string := ["cost"; "expires_micros"].
Definition storeLease (f : string) (v : json) (l : persistedLease) : option persistedLease :=
  if bool_decide (f = "cost")
  then option_map (fun x => mkPersistedLease x (pl_ExpiresMicros l)) (decodeUint64 (pl_Cost l) v)
  else option_map (fun x => mkPersistedLease (pl_Cost l) x) (decodeInt64 (pl_ExpiresMicros l) v).
Definition decodeLease : json -> option persistedLease :=
  decodeStruct leaseFields true storeLease (mkPersistedLease 0 0).

(** An array of fixed length: elements beyond it are skipped, missing ones are
    zeroed. *)
Fixpoint fillSegments (olds : list persistedSegment) (es : list json) : option (list persistedSegment) :=
  match olds, es with
  | [], _ => Some []
  | _ :: olds, [] => option_map (cons emptySegment) (fillSegments olds [])
  | old :: olds, e :: es =>
      match decodeSegment old e with
      | Some g => option_map (cons g) (fillSegments olds es)
      | None => None
      end
  end.

Definition decodeSegments (olds : list persistedSegment) (v : json) : option (list persistedSegment) :=
  match v with JNull => Some olds | JArray es => fillSegments olds es | _ => None end.

(** A map: entries are added to it, each decoded into a fresh element. *)
Fixpoint addLeases (ms : list (string * json)) (ls : persistedLeases) : option persistedLeases :=
  match ms with
  | [] => Some ls
  | (k, v) :: rest =>
      match decodeLease v with Some l => addLeases rest (<[k := l]> ls) | None => None end
  end.

Definition decodeLeases (old : option persistedLeases) (v : json) : option (option persistedLeases) :=
  match v with
  | JNull => Some None
  | JObject ms => option_map Some (addLeases ms (default ∅ old))
  | _ => None
  end.

Definition stateFields : list string :=
  ["schema"; "policy_id"; "revision"; "algorithm"; "tokens"; "remainder"; "last_micros";
   "observed_micros"; "window"; "used"; "segments"; "leases"].

Definition storeState (f : string) (v : json) (s : persistedState) : option persistedState :=
  let '(mkPersistedState schema policy rev alg tok rem last obs win use per car segs ls) := s in
  let named name := bool_decide (f = name) in
  if named "schema" then
    option_map (fun x => mkPersistedState x policy rev alg tok rem last obs win use per car segs ls)
               (decodeInt64 schema v)
  else if named "policy_id" then
    option_map (fun x => mkPersistedState schema x rev alg tok rem last obs win use per car segs ls)
               (decodeString policy v)
  else if named "revision" then
    option_map (fun x => mkPersistedState schema policy x alg tok rem last obs win use per car segs ls)
               (decodeString rev v)
  else if named "algorithm" then
    option_map (fun x => mkPersistedState schema policy rev x tok rem last obs win use per car segs ls)
               (decodeString alg v)
  else if named "tokens" then
    option_map (fun x => mkPersistedState schema policy rev alg x rem last obs win use per car segs ls)
               (decodeUint64 tok v)
  else if named "remainder" then
    option_map (fun x => mkPersistedState schema policy rev alg tok x last obs win use per car segs ls)
               (decodeUint64 rem v)
  else if named "last_micros" then
    option_map (fun x => mkPersistedState schema policy rev alg tok rem x obs win use per car segs ls)
               (decodeInt64 last v)
  else if named "observed_micros" then
    option_map (fun x => mkPersistedState schema policy rev alg tok rem last x win use per car segs ls)
               (decodeInt64 obs v)
  else if named "window" then
    option_map (fun x => mkPersistedState schema policy rev alg tok rem last obs x use per car segs ls)
               (decodeInt64 win v)
  else if named "used" then
    option_map (fun x => mkPersistedState schema policy rev alg tok rem last obs win x per car segs ls)
               (decodeUint64 use v)
  else if named "segments" then
    option_map (fun x => mkPersistedState schema policy rev alg tok rem last obs win use per car x ls)
               (decodeSegments segs v)
  else
    option_map (fun x => mkPersistedState schema policy rev alg tok rem last obs win use per car segs x)
               (decodeLeases ls v).

(** The number of segments the strict decoder asks for. *)
Definition storeShape (f : string) (v : json) (n : nat) : option nat :=
  match v with JNull => Some O | JArray es => Some (length es) | _ => None end.
Definition segmentShape : json -> option nat := decodeStruct ["segments"] false storeShape O.

Definition stateDecodeError (strict : bool) (err : error) : error :=
  if strict then persistedStateError err else err.

(** An error of the JSON package; what it says is not modelled. *)
Definition jsonError : error := Foreign 0 "json" true [].

Definition decodeFailure : error :=
  Wrapped (sentinelText ErrCorrupt +:+ ": decode state: json") [Sent ErrCorrupt; jsonError].

(** The metadata of a window, read back from the fields it travels in. *)
Definition readMetadata (strict : bool) (s : persistedState) : result error persistedState :=
  if strict && usesWindowMetadata (ps_Algorithm s) then
    if negb (ps_Remainder s =? 0) then
      if (maxExactMicros <? ps_Remainder s) || negb (ps_LastMicros s =? 0) && negb (ps_LastMicros s =? 1)
      then Err (stateDecodeError strict (errorf ErrCorrupt "invalid window metadata"))
      else Ok (setUsage (setPeriod s (i64 (ps_Remainder s))) (ps_Window s) (ps_Used s) (ps_LastMicros s =? 1))
    else Ok s
  else Ok s.

(** The decoder proper: one document, nothing after it, and an identity. *)
Definition decodeDocument (encoded : string) (strict : bool) : result error persistedState :=
  match parse encoded with
  | None => Err (stateDecodeError strict decodeFailure)
  | Some (document, rest) =>
      match decodeStruct stateFields true storeState zeroState document with
      | None => Err (stateDecodeError strict decodeFailure)
      | Some s =>
          if negb (bool_decide (skipSpace rest = EmptyString))
          then Err (stateDecodeError strict (errorf ErrCorrupt "trailing state data")) else
          if negb (ps_Schema s =? stateSchema)
          then Err (stateDecodeError strict (errorf ErrCorrupt "invalid state identity")) else
          if bool_decide (ps_PolicyID s = EmptyString)
          then Err (stateDecodeError strict (errorf ErrCorrupt "invalid state identity")) else
          if bool_decide (ps_Algorithm s = EmptyString)
          then Err (stateDecodeError strict (errorf ErrCorrupt "invalid state identity")) else
          readMetadata strict s
      end
  end.

Definition decodeStateMode (encoded : string) (strict : bool) : result error persistedState :=
  if strict then
    match parseAll encoded with
    | None => Err (stateDecodeError strict decodeFailure)
    | Some document =>
        match segmentShape document with
        | None => Err (stateDecodeError strict decodeFailure)
        | Some n =>
            if negb (Z.of_nat n =? stateSegments)
            then Err (stateDecodeError strict (errorf ErrCorrupt "invalid segment shape"))
            else decodeDocument encoded strict
        end
    end
  else decodeDocument encoded strict.

Definition decodeState (encoded : string) : result error persistedState := decodeStateMode encoded true.
Definition decodeStateLegacy (encoded : string) : result error persistedState :=
  decodeStateMode encoded false.

(** ** Reading back what was written *)

Lemma decodeInt64_json old n : is_i64 n -> decodeInt64 old (jsonInt n) = Some n.
Proof. apply ParseInt_format. Qed.

Lemma decodeUint64_json old n : is_u64 n -> decodeUint64 old (jsonInt n) = Some n.
Proof.
  intros Hn. unfold jsonInt, formatInt. pose proof Hn as Hn'. unfold is_u64 in Hn'.
  rewrite (proj2 (Z.ltb_ge n 0)) by lia. by apply ParseUint_format.
Qed.

(** Evaluate field names, which are closed strings. *)
Ltac eval_fields :=
  repeat match goal with
  | |- context [fieldNamed ?fs ?n] =>
      let v := eval vm_compute in (fieldNamed fs n) in change (fieldNamed fs n) with v; cbv iota
  end; eval_algorithms; cbv iota.

Ltac nodup_names :=
  match goal with |- NoDup ?l => let v := eval vm_compute in l in change (NoDup v) end;
  refine (bool_decide_eq_true_1 _ _); vm_compute; reflexivity.

Definition typed_segment (g : persistedSegment) : Prop := is_i64 (ps_Index g) /\ is_u64 (ps_SegUsed g).
Definition typed_lease (l : persistedLease) : Prop := is_u64 (pl_Cost l) /\ is_i64 (pl_ExpiresMicros l).

Lemma segment_commute f g v w a : f ∈ segmentFields -> g ∈ segmentFields -> f <> g ->
  storeSegment f v a ≫= storeSegment g w = storeSegment g w a ≫= storeSegment f v.
Proof.
  unfold segmentFields, storeSegment. rewrite !list_elem_of_In. simpl.
  intros [<-|[<-|[]]] [<-|[<-|[]]] Hne; try done; eval_fields;
    destruct (decodeInt64 _ _) eqn:E1, (decodeUint64 _ _) eqn:E2; simpl; rewrite ?E1, ?E2; done.
Qed.

Lemma lease_commute f g v w a : f ∈ leaseFields -> g ∈ leaseFields -> f <> g ->
  storeLease f v a ≫= storeLease g w = storeLease g w a ≫= storeLease f v.
Proof.
  unfold leaseFields, storeLease. rewrite !list_elem_of_In. simpl.
  intros [<-|[<-|[]]] [<-|[<-|[]]] Hne; try done; eval_fields;
    destruct (decodeInt64 _ _) eqn:E1, (decodeUint64 _ _) eqn:E2; simpl; rewrite ?E1, ?E2; done.
Qed.

Lemma decodeSegment_same old g j :
  typed_segment g -> same_json (segmentJson g) j -> decodeSegment old j = Some g.
Proof.
  intros [Hi Hu] Hs. apply same_flat_object in Hs as (ms & -> & Hp); [|by repeat constructor].
  unfold decodeSegment, decodeStruct.
  rewrite <- (decodeMembers_perm _ _ _ segment_commute _ _ Hp) by nodup_names.
  cbn [decodeMembers]. unfold storeSegment. eval_fields. rewrite decodeInt64_json by done. cbn [option_map].
  rewrite decodeUint64_json by done. by destruct g.
Qed.

Lemma decodeLease_same l j : typed_lease l -> same_json (leaseJson l) j -> decodeLease j = Some l.
Proof.
  intros [Hc He] Hs. apply same_flat_object in Hs as (ms & -> & Hp); [|by repeat constructor].
  unfold decodeLease, decodeStruct.
  rewrite <- (decodeMembers_perm _ _ _ lease_commute _ _ Hp) by nodup_names.
  cbn [decodeMembers]. unfold storeLease. eval_fields. rewrite decodeUint64_json by done. cbn [option_map].
  rewrite decodeInt64_json by done. by destruct l.
Qed.

Lemma fillSegments_same segs : forall olds es,
  length olds = length segs -> Forall typed_segment segs -> Forall2 same_json (map segmentJson segs) es ->
  fillSegments olds es = Some segs.
Proof.
  induction segs as [|g segs IH]; intros [|old olds] es Hl Ht Hs; simplify_eq/=; inversion Hs; subst; [done|].
  apply Forall_cons in Ht as [Hg Ht]. rewrite (decodeSegment_same old g) by done. by rewrite IH.
Qed.

(** The entries of a map in any order give the map. *)
Lemma addLeases_spec kls : forall ms acc,
  NoDup kls.*1 -> Forall (fun kl => typed_lease kl.2) kls ->
  Forall2 (fun kl m => m.1 = kl.1 /\ same_json (leaseJson kl.2) m.2) kls ms ->
  addLeases ms acc = Some (list_to_map kls ∪ acc).
Proof.
  induction kls as [|[k l] kls IH]; intros ms acc Hnd Ht Hs; inversion Hs as [|? [k' v] ? ms' [Hk Hv] Hs']; subst; simpl in *.
  { by rewrite (left_id_L ∅ (∪)). }
  subst k'. apply Forall_cons in Ht as [Hl Ht]. apply NoDup_cons in Hnd as [Hni Hnd].
  rewrite (decodeLease_same l v) by done. rewrite IH by done. f_equal. rewrite <- insert_union_r, insert_union_l; [done|].
  by apply not_elem_of_list_to_map.
Qed.

Lemma leases_same ls j :
  map_Forall (fun _ => typed_lease) ls -> same_json (leasesJson ls) j ->
  exists ms, j = JObject ms /\ addLeases ms ∅ = Some ls.
Proof.
  intros Ht Hs. apply same_object_inv in Hs as (ms1 & ms & -> & Hp & Hall). exists ms. split; [done|].
  assert (exists kls, kls ≡ₚ map_to_list ls /\ ms1 = map (fun kl => (kl.1, leaseJson kl.2)) kls) as (kls & Hk & ->).
  { symmetry in Hp. apply Permutation_map_inv in Hp as (kls & -> & Hk). exists kls. split; [|done].
    rewrite <- Hk. apply merge_sort_Permutation. }
  assert (NoDup kls.*1) as Hnd by (rewrite Hk; apply NoDup_fst_map_to_list).
  rewrite (addLeases_spec kls), (right_id_L ∅ (∪)).
  - f_equal. rewrite (list_to_map_proper _ _ Hnd Hk). apply list_to_map_to_list.
  - done.
  - rewrite Hk. apply Forall_forall. intros [k l] Hin%elem_of_map_to_list. by apply (Ht k).
  - clear -Hall. revert ms Hall. induction kls as [|[k l] kls IH]; intros ms Hall; inversion Hall as [|? m ? ? [H1 H2] H3]; subst; constructor; [done|].
    by apply IH.
Qed.

(** *** Whole rows *)

Lemma state_commute f g v w a : f ∈ stateFields -> g ∈ stateFields -> f <> g ->
  storeState f v a ≫= storeState g w = storeState g w a ≫= storeState f v.
Proof.
  intros Hf Hg Hne. destruct a as [schema policy rev alg tok rem last obs win use per car segs ls].
  unfold stateFields in Hf, Hg. rewrite list_elem_of_In in Hf, Hg. simpl in Hf, Hg.
  unfold storeState.
  repeat destruct Hf as [<-|Hf]; try done; eval_algorithms; cbn iota;
  repeat destruct Hg as [<-|Hg]; try done; eval_algorithms; cbn iota;
  match goal with |- option_map _ ?x ≫= _ = option_map _ ?y ≫= _ => destruct x eqn:?, y eqn:? end;
  simpl; repeat match goal with H : _ = _ |- _ => rewrite H end; done.
Qed.
