(* ===== verification/PgWire.v ===== *)
(** * Rows are read back as they were written

    A row that is encoded, stored in a [jsonb] column (which keeps the values
    but not the order of members or the white space) and decoded is the row that
    was written, up to the fields a window does not use. *)

From S2P Require Import Prelude GoTime GoHash Errors Keys Policy GoJson JsonFacts.
From S2P Require Import MemoryState PgState PgCodec.

Local Open Scope string_scope.
Local Open Scope Z_scope.

(** The values of the Go types, with UTF-8 strings and window metadata where it
    belongs. *)
Record typed_row (s : persistedState) : Prop := {
  ty_schema : ps_Schema s = stateSchema;
  ty_policy : ps_PolicyID s <> EmptyString /\ validUtf8 (ps_PolicyID s) = true;
  ty_revision : validUtf8 (ps_Revision s) = true;
  ty_algorithm : ps_Algorithm s <> EmptyString /\ validUtf8 (ps_Algorithm s) = true;
  ty_tokens : is_u64 (ps_Tokens s) /\ is_u64 (ps_Remainder s) /\ is_i64 (ps_LastMicros s);
  ty_window : is_i64 (ps_ObservedMicros s) /\ is_i64 (ps_Window s) /\ is_u64 (ps_Used s);
  ty_segments : length (ps_Segments s) = 16%nat /\ Forall typed_segment (ps_Segments s);
  ty_leases : forall ls, ps_Leases s = Some ls ->
    map_Forall (fun k l => validUtf8 k = true /\ typed_lease l) ls;
  ty_metadata : if usesWindowMetadata (ps_Algorithm s)
    then 0 <= ps_PeriodMicros s <= maxExactMicros /\
         (ps_PeriodMicros s = 0 -> ps_Remainder s = 0 /\ ps_Carried s = false)
    else ps_PeriodMicros s = 0 /\ ps_Carried s = false
}.

(** What a row is after it was written and read: windows keep their metadata in
    the fields it travels in, and an empty map of leases becomes nil. *)
Definition stored (s : persistedState) : persistedState :=
  let w := wireState s in
  mkPersistedState (ps_Schema w) (ps_PolicyID w) (ps_Revision w) (ps_Algorithm w) (ps_Tokens w)
    (ps_Remainder w) (ps_LastMicros w) (ps_ObservedMicros w) (ps_Window w) (ps_Used w)
    (ps_PeriodMicros w) (ps_Carried w) (ps_Segments w)
    (match ps_Leases w with Some ls => if bool_decide (ls = ∅) then None else Some ls | None => None end).

(** The document without the private fields. *)
Definition wireOnly (s : persistedState) : persistedState :=
  mkPersistedState (ps_Schema s) (ps_PolicyID s) (ps_Revision s) (ps_Algorithm s) (ps_Tokens s)
    (ps_Remainder s) (ps_LastMicros s) (ps_ObservedMicros s) (ps_Window s) (ps_Used s) 0 false
    (ps_Segments s)
    (match ps_Leases s with Some ls => if bool_decide (ls = ∅) then None else Some ls | None => None end).

Record typed_wire (s : persistedState) : Prop := {
  tw_numbers : is_i64 (ps_Schema s) /\ is_u64 (ps_Tokens s) /\ is_u64 (ps_Remainder s) /\ is_i64 (ps_LastMicros s) /\
    is_i64 (ps_ObservedMicros s) /\ is_i64 (ps_Window s) /\ is_u64 (ps_Used s);
  tw_segs : length (ps_Segments s) = 16%nat /\ Forall typed_segment (ps_Segments s);
  tw_leases : forall ls, ps_Leases s = Some ls -> map_Forall (fun _ l => typed_lease l) ls
}.

(** Decoding the members in the order they were written. *)
Lemma decode_in_order s segs' lsj :
  typed_wire s -> Forall2 same_json (map segmentJson (ps_Segments s)) segs' ->
  (forall ls, ps_Leases s = Some ls -> ls <> ∅ -> same_json (leasesJson ls) lsj) ->
  decodeMembers stateFields true storeState
    ([("schema", jsonInt (ps_Schema s)); ("policy_id", JString (ps_PolicyID s));
      ("revision", JString (ps_Revision s)); ("algorithm", JString (ps_Algorithm s));
      ("tokens", jsonInt (ps_Tokens s)); ("remainder", jsonInt (ps_Remainder s));
      ("last_micros", jsonInt (ps_LastMicros s)); ("observed_micros", jsonInt (ps_ObservedMicros s));
      ("window", jsonInt (ps_Window s)); ("used", jsonInt (ps_Used s)); ("segments", JArray segs')] ++
     match leasesMember (ps_Leases s) with [] => [] | _ => [("leases", lsj)] end)%list zeroState
  = Some (wireOnly s).
Proof.
  intros [(N1 & N2 & N3 & N4 & N5 & N6 & N7) [Hlen Hsegs] Hls] Hes Hlj.
  cbn [app decodeMembers]. unfold storeState, zeroState. eval_fields.
  repeat first [rewrite decodeInt64_json by done | rewrite decodeUint64_json by done
               | progress cbn [option_map decodeString] | progress cbv beta iota].
  unfold decodeSegments. rewrite (fillSegments_same (ps_Segments s)) by (done || by rewrite length_replicate).
  cbn [option_map]. unfold leasesMember, wireOnly. destruct (ps_Leases s) as [ls|] eqn:El; [|done].
  case_bool_decide as E; [done|]. cbn [decodeMembers]. eval_fields.
  destruct (leases_same ls lsj) as (ms & -> & Eadd); [by apply Hls|by apply Hlj|].
  unfold decodeLeases. cbn [default]. rewrite Eadd. done.
Qed.

(** A document with the values of a row, in any order of members. *)
Lemma same_state_members s j :
  same_json (stateJson s) j ->
  exists ms segs' lsj ms2, j = JObject ms /\ ms2 ≡ₚ ms /\
    ms2 = ([("schema", jsonInt (ps_Schema s)); ("policy_id", JString (ps_PolicyID s));
      ("revision", JString (ps_Revision s)); ("algorithm", JString (ps_Algorithm s));
      ("tokens", jsonInt (ps_Tokens s)); ("remainder", jsonInt (ps_Remainder s));
      ("last_micros", jsonInt (ps_LastMicros s)); ("observed_micros", jsonInt (ps_ObservedMicros s));
      ("window", jsonInt (ps_Window s)); ("used", jsonInt (ps_Used s)); ("segments", JArray segs')] ++
      match leasesMember (ps_Leases s) with [] => [] | _ => [("leases", lsj)] end)%list /\
    Forall2 same_json (map segmentJson (ps_Segments s)) segs' /\
    (forall ls, ps_Leases s = Some ls -> ls <> ∅ -> same_json (leasesJson ls) lsj).
Proof.
  intros (ms1 & ms & -> & Hp & Hall)%same_object_inv. symmetry in Hp.
  destruct (Permutation_Forall2 Hp Hall) as (ms2 & Hp2 & Hall2).
  assert (forall x v l l', Forall2 (fun m m' : string * json => m.1 = m'.1 /\ same_json m.2 m'.2) ((x, v) :: l) l' ->
    exists v' t, l' = (x, v') :: t /\ same_json v v' /\ Forall2 (fun m m' => m.1 = m'.1 /\ same_json m.2 m'.2) l t) as Hinv.
  { intros x v l l' H. inversion H as [|? [x' v'] ? t [H1 H2] H3]; subst. simpl in *. subst. by eexists _, _. }
  assert (forall l', Forall2 (fun m m' : string * json => m.1 = m'.1 /\ same_json m.2 m'.2) (leasesMember (ps_Leases s)) l' ->
    exists lsj, l' = match leasesMember (ps_Leases s) with [] => [] | _ => [("leases", lsj)] end /\
    (forall ls, ps_Leases s = Some ls -> ls <> ∅ -> same_json (leasesJson ls) lsj)) as Hlast.
  { intros l'. unfold leasesMember. destruct (ps_Leases s) as [ls|]; [case_bool_decide as E|].
    - intros H. apply Forall2_nil_inv_l in H as ->. exists JNull. split; [done|]. by intros ? [= <-].
    - intros (v' & t & -> & Hv & H%Forall2_nil_inv_l)%Hinv. subst t. exists v'. split; [done|]. by intros ? [= <-] _.
    - intros H. apply Forall2_nil_inv_l in H as ->. by exists JNull. }
  do 11 (apply Hinv in Hall2 as (? & ? & -> & ? & Hall2)).
  apply Hlast in Hall2 as (lsj & -> & Hlsj).
  repeat match goal with H : same_json ?v _ |- _ => apply same_scalar in H as ->; [|exact I] end.
  match goal with H : same_json (JArray _) _ |- _ => apply same_array_inv in H as (segs' & -> & Hsegs) end.
  exists ms, segs', lsj. eexists. split; [done|]. split; [symmetry; exact Hp2|]. done.
Qed.

Lemma shape_commute f g v w a : f ∈ ["segments"] -> g ∈ ["segments"] -> f <> g ->
  storeShape f v a ≫= storeShape g w = storeShape g w a ≫= storeShape f v.
Proof. intros Hf Hg. apply list_elem_of_singleton in Hf, Hg. congruence. Qed.

Lemma decode_same s j :
  typed_wire s -> same_json (stateJson s) j ->
  decodeStruct stateFields true storeState zeroState j = Some (wireOnly s) /\ segmentShape j = Some 16%nat.
Proof.
  intros Ht Hs. apply same_state_members in Hs as (ms & segs' & lsj & ms2 & -> & Hp & E2 & Hsegs & Hls).
  assert (NoDup (selected stateFields ms2)) as Hnd.
  { subst ms2. destruct (leasesMember (ps_Leases s)); simpl app; nodup_names. }
  assert (NoDup (selected ["segments"] ms2)) as Hnd1.
  { subst ms2. destruct (leasesMember (ps_Leases s)); simpl app; nodup_names. }
  unfold segmentShape, decodeStruct. split.
  - rewrite <- (decodeMembers_perm _ _ _ state_commute _ _ Hp Hnd), E2. by apply decode_in_order.
  - rewrite <- (decodeMembers_perm _ _ _ shape_commute _ _ Hp Hnd1). subst ms2. cbn [app decodeMembers]. eval_fields. cbn [storeShape].
    rewrite <- (Forall2_length _ _ _ Hsegs), length_map, (proj1 (tw_segs _ Ht)).
    by destruct (leasesMember (ps_Leases s)).
Qed.

Lemma wire_typed s : typed_row s -> typed_wire (wireState s).
Proof.
  intros [Y1 _ _ _ (Y5 & Y5' & Y5'') (Y6 & Y6' & Y6'') Y7 Y8 Y9].
  assert (forall ls, ps_Leases s = Some ls -> map_Forall (fun _ l => typed_lease l) ls) as Hls
    by (intros ls E k l Hk; by apply (Y8 ls E k)).
  assert (is_i64 (ps_Schema s)) by (rewrite Y1; done).
  unfold wireState. repeat case_match; split; simpl; try done; split_and!; try done;
    apply u64_range.
Qed.

Lemma printable_int n : is_i64 n \/ is_u64 n -> printable (jsonInt n).
Proof. unfold is_i64, is_u64. intros H. exists n. split; [done|lia]. Qed.

Lemma printable_segments segs : Forall typed_segment segs -> printable (JArray (map segmentJson segs)).
Proof.
  simpl. induction 1 as [|g segs [Hi Hu] _ IH]; simpl; [done|]. split; [|done].
  split_and!; try done; apply printable_int; auto.
Qed.

Lemma printable_leases ls :
  map_Forall (fun k l => validUtf8 k = true /\ typed_lease l) ls -> printable (leasesJson ls).
Proof.
  intros Hls. unfold leasesJson. cbn [printable].
  assert (Forall (fun kl => validUtf8 kl.1 = true /\ typed_lease kl.2) (merge_sort byKey (map_to_list ls))) as Hall.
  { rewrite (merge_sort_Permutation byKey). apply Forall_forall. intros [k l] Hin%elem_of_map_to_list. by apply (Hls k). }
  induction Hall as [|[k l] kls [Hk [Hc He]] _ IH]; simpl; [done|]. split_and!; try done; apply printable_int; auto.
Qed.

Lemma height_flat {A} (f : A -> json) (l : list A) :
  (forall a, height (f a) = 1) -> foldr (fun e h => Z.max (height e) h) 0 (map f l) <= 1.
Proof. intros H. induction l as [|a l IH]; simpl; [lia|]. rewrite H. lia. Qed.

Lemma height_leases ls : height (leasesJson ls) <= 2.
Proof.
  unfold leasesJson. cbn [height]. induction (merge_sort byKey (map_to_list ls)) as [|kl kls IH]; simpl in *; lia.
Qed.

(** Every document that is written can be printed and read back. *)
Lemma wire_document s : typed_row s ->
  printable (stateJson (wireState s)) /\ height (stateJson (wireState s)) <= maxNestingDepth.
Proof.
  intros Ht. pose proof (wire_typed s Ht) as [(N1 & N2 & N3 & N4 & N5 & N6 & N7) [_ Hsegs] _].
  destruct Ht as [_ [_ Y2] Y3 [_ Y4] _ _ _ Y8 _].
  assert (ps_Leases (wireState s) = ps_Leases s /\ ps_PolicyID (wireState s) = ps_PolicyID s /\
    ps_Revision (wireState s) = ps_Revision s /\ ps_Algorithm (wireState s) = ps_Algorithm s) as (E1 & E2 & E3 & E4)
    by (unfold wireState; by repeat case_match).
  unfold stateJson. rewrite E1, E2, E3, E4. clear E1 E2 E3 E4.
  pose proof (printable_segments _ Hsegs) as Hps.
  pose proof (height_flat segmentJson (ps_Segments (wireState s)) ltac:(done)) as Hh. split.
  - cbn [printable app foldr fst snd]. split_and!; try done; try (apply printable_int; by auto).
    unfold leasesMember. destruct (ps_Leases s) as [ls|]; [case_bool_decide|]; simpl; try done.
    split_and!; try done. by apply printable_leases, Y8.
  - cbn [height app foldr snd]. unfold leasesMember, maxNestingDepth.
    destruct (ps_Leases s) as [ls|]; [case_bool_decide|]; cbn [foldr snd]; try (simpl in *; lia).
    pose proof (height_leases ls). simpl in *. lia.
Qed.

(** The end of [decodeDocument] on what was written. *)
Lemma metadata_restored s :
  typed_row s -> readMetadata true (wireOnly (wireState s)) = Ok (stored s).
Proof.
  intros Ht. pose proof (ty_metadata _ Ht) as Hm. pose proof (ty_tokens _ Ht) as (_ & Hr & _). unfold is_u64 in Hr.
  unfold readMetadata, stored, wireState in *. cbn [andb].
  destruct (usesWindowMetadata (ps_Algorithm s)) eqn:Hu; simpl; rewrite ?Hu.
  - destruct Hm as [Hp Hz]. destruct (Z.eqb_spec (ps_PeriodMicros s) 0) as [E|E]; simpl; rewrite Hu; simpl.
    + destruct (Hz E) as [Er Ec]. unfold wireOnly. by rewrite Er, Ec, E.
    + rewrite u64_id by (unfold is_u64; lia). rewrite (proj2 (Z.eqb_neq _ _) E). simpl.
      rewrite (proj2 (Z.ltb_ge _ _)) by lia. rewrite i64_id by (unfold is_i64; lia).
      by destruct (ps_Carried s).
  - destruct Hm as [-> ->]. done.
Qed.

Section Reading.
Context (s : persistedState) (t : string) (j : json) (rest : string).
Hypothesis Htyped : typed_row s.
(** What the database hands back denotes the document that was written. *)
Hypothesis Hparse : parse t = Some (j, rest).
Hypothesis Hrest : skipSpace rest = EmptyString.
Hypothesis Hsame : same_json (stateJson (wireState s)) j.

Lemma wire_identity :
  ps_Schema (wireOnly (wireState s)) = stateSchema /\ ps_PolicyID (wireOnly (wireState s)) <> EmptyString /\
  ps_Algorithm (wireOnly (wireState s)) <> EmptyString.
Proof.
  destruct Htyped as [Y1 [Y2 _] _ [Y4 _] _ _ _ _ _]. unfold wireState. by repeat case_match.
Qed.

Lemma decodeDocument_same strict :
  decodeDocument t strict = readMetadata strict (wireOnly (wireState s)).
Proof.
  destruct (decode_same _ _ (wire_typed s Htyped) Hsame) as [E _]. destruct wire_identity as (I1 & I2 & I3).
  unfold decodeDocument. rewrite Hparse, E, Hrest, (bool_decide_eq_true_2 (EmptyString = EmptyString)) by done.
  cbn [negb]. rewrite I1, Z.eqb_refl. cbn [negb]. by rewrite !bool_decide_eq_false_2 by done.
Qed.

Lemma decodeState_same : decodeState t = Ok (stored s).
Proof.
  unfold decodeState, decodeStateMode, parseAllWith. rewrite Hparse, Hrest.
  destruct (decode_same _ _ (wire_typed s Htyped) Hsame) as [_ ->]. change (Z.of_nat 16 =? stateSegments) with true.
  cbn [negb]. rewrite decodeDocument_same. by apply metadata_restored.
Qed.

Lemma decodeStateLegacy_same : decodeStateLegacy t = Ok (wireOnly (wireState s)).
Proof. unfold decodeStateLegacy, decodeStateMode. by rewrite decodeDocument_same. Qed.
End Reading.

(** A row that was encoded is decoded to itself, up to the unused fields of a
    window, by the strict decoder; the released one reads the same document. *)
Lemma encode_decode s :
  typed_row s ->
  decodeState (encodeState s) = Ok (stored s) /\ decodeStateLegacy (encodeState s) = Ok (wireOnly (wireState s)).
Proof.
  intros Ht. destruct (wire_document s Ht) as [Hp Hh]. pose proof (parse_print _ EmptyString Hp Hh I) as E.
  rewrite string_app_nil in E.
  split; [by eapply decodeState_same; [..|apply same_json_refl] | by eapply decodeStateLegacy_same; [..|apply same_json_refl]].
Qed.

(** Two rows that say the same.  A fixed or sliding window does not use the
    remainder and the time of the last refill; a missing map of leases is empty. *)
Record same_document (s s' : persistedState) : Prop := {
  sd_identity : ps_Schema s' = ps_Schema s /\ ps_PolicyID s' = ps_PolicyID s /\ ps_Revision s' = ps_Revision s /\
                ps_Algorithm s' = ps_Algorithm s;
  sd_observed : ps_ObservedMicros s' = ps_ObservedMicros s;
  sd_tokens : ps_Tokens s' = ps_Tokens s;
  sd_refill : ps_Algorithm s <> FixedWindow -> ps_Algorithm s <> SlidingWindow ->
              ps_Remainder s' = ps_Remainder s /\ ps_LastMicros s' = ps_LastMicros s;
  sd_window : ps_Window s' = ps_Window s /\ ps_Used s' = ps_Used s;
  sd_segments : ps_Segments s' = ps_Segments s;
  sd_leases : default ∅ (ps_Leases s') = default ∅ (ps_Leases s)
}.

(** With the period and the carried usage of a window. *)
Record same_row (s s' : persistedState) : Prop := {
  sr_document : same_document s s';
  sr_period : ps_PeriodMicros s' = ps_PeriodMicros s;
  sr_carried : ps_Carried s' = ps_Carried s
}.

Lemma default_leases (o : option (gmap string persistedLease)) :
  default ∅ (match o with Some ls => if bool_decide (ls = ∅) then None else Some ls | None => None end) = default ∅ o.
Proof. destruct o as [ls|]; [|done]. by case_bool_decide. Qed.

Lemma wire_same_document s s' :
  s' = wireOnly (wireState s) \/ s' = stored s -> same_document s s'.
Proof.
  intros Hs'. assert (ps_Algorithm s <> FixedWindow -> ps_Algorithm s <> SlidingWindow -> wireState s = s) as Hw.
  { intros Hf Hw. unfold wireState, usesWindowMetadata. by rewrite !bool_decide_eq_false_2. }
  destruct Hs' as [-> | ->]; split; try (intros H1 H2; unfold stored, wireOnly; rewrite (Hw H1 H2); done);
    unfold stored, wireOnly; simpl; rewrite ?default_leases; unfold wireState; repeat case_match; done.
Qed.

Lemma stored_same s : usesWindowMetadata (ps_Algorithm s) = false -> ps_Leases s <> Some ∅ -> stored s = s.
Proof.
  intros Hu Hl. unfold stored, wireState. rewrite Hu. destruct s as [? ? ? ? ? ? ? ? ? ? ? ? ? [ls|]]; simpl in *; [|done].
  by rewrite bool_decide_eq_false_2 by congruence.
Qed.


Module DemoWire.
Definition row : persistedState :=
  mkPersistedState 1 "api" "v1" SlidingWindow 5 0 0 1700000000000000 0 3 160 true
    (<[3%nat := mkPersistedSegment 170000000000 3]> (replicate 16 emptySegment)) None.
Definition members : list (string * json) := match stateJson (wireState row) with JObject ms => ms | _ => [] end.
(** The same members in the opposite order, between blanks. *)
Definition text : string := " " +:+ printJson (JObject (reverse members)) +:+ " ".
End DemoWire.

Lemma demo_row_typed : typed_row DemoWire.row.
Proof.
  split.
  - reflexivity.
  - split; [discriminate|reflexivity].
  - reflexivity.
  - split; [discriminate|reflexivity].
  - vm_compute. repeat split; discriminate.
  - vm_compute. repeat split; discriminate.
  - split; [reflexivity|]. apply Forall_insert; [apply Forall_replicate|]; vm_compute; repeat split; discriminate.
  - intros ls. discriminate.
  - vm_compute. repeat split; discriminate.
Qed.

