(* ===== verification/PgStore.v ===== *)
(** * The PostgreSQL backend (postgres/store.go, native.go, lease.go, strict.go)

    The database is a parameter: a [Database] begins [Transaction]s, records of
    the statements the package sends.  An operation on them may do anything to
    the world, fail, or panic.  A row that [Scan] reports with [pgx.ErrNoRows]
    is [Ok None].  The contexts derived with [context.WithTimeout],
    [WithDeadline] and [WithoutCancel] and the wall clock are parameters too, so
    that every interleaving of cancellation with the statements is covered. *)

From S2P Require Import Prelude GoTime GoHash Errors Keys Policy Backend GoJson.
From S2P Require Import MemoryState PgState PgCodec.

Local Open Scope string_scope.
Local Open Scope Z_scope.

(** A [uint8]: 0, 1, or a value that has no name. *)
Inductive ClockPolicy := ClientClock | ServerClock | UnknownClock (n : Z).

#[global] Instance ClockPolicy_eq_dec : EqDecision ClockPolicy.
Proof. solve_decision. Defined.

Record Options := mkOptions { Timeout : Duration; LockTimeout : Duration; opt_Clock : ClockPolicy }.
Record StrictOptions := mkStrictOptions { so_Options : Options; RollbackTimeout : Duration }.

Definition MaxCleanupBatch : Z := 10000.
Definition maxEncodedStateBytes : Z := 131072.

(** ** The database *)

(** The statements of a transaction. *)
Record Transaction (W : Type) := mkTransaction {
  (** setLockTimeoutSQL *)
  setLockTimeout : Context W -> string -> M W (option error);
  (** lockAndTimeSQL: the advisory lock and the time of the server *)
  lockAndTime : Context W -> Z -> M W (result error Time);
  (** selectStateSQL: the document and its expiry *)
  selectState : Context W -> list Z -> M W (result error (option (string * Time)));
  (** selectStateStrictSQL: also whether the document is within the limit *)
  selectStateStrict : Context W -> list Z -> Z -> M W (result error (option (string * Time * bool)));
  (** deleteStateSQL *)
  deleteState : Context W -> list Z -> M W (option error);
  (** upsertStateSQL: the document, its expiry and the time of the update *)
  upsertState : Context W -> list Z -> string -> Time -> Time -> M W (option error);
  commit : Context W -> M W (option error);
  rollback : Context W -> M W (option error)
}.
Arguments mkTransaction {W} _ _ _ _ _ _ _ _.
Arguments setLockTimeout {W} _ _ _.
Arguments lockAndTime {W} _ _ _.
Arguments selectState {W} _ _ _.
Arguments selectStateStrict {W} _ _ _ _.
Arguments deleteState {W} _ _ _.
Arguments upsertState {W} _ _ _ _ _ _.
Arguments commit {W} _ _.
Arguments rollback {W} _ _.

Record Database (W : Type) := mkDatabase {
  begin : Context W -> M W (result error (Transaction W));
  (** the name of the table, or NULL *)
  regclass : Context W -> M W (result error (option string));
  (** cleanupSQL: the number of rows deleted *)
  cleanup : Context W -> Z -> M W (result error Z)
}.
Arguments mkDatabase {W} _ _ _.
Arguments begin {W} _ _.
Arguments regclass {W} _ _.
Arguments cleanup {W} _ _ _.

(** ** Pure helpers *)

(** [binary.BigEndian.Uint64(key[:8])], reinterpreted as signed. *)
Definition advisoryKey (key : list Z) : Z :=
  i64 (foldl (fun acc b => acc * 256 + b) 0 (take 8 key)).

Definition rowKey (policyID key : string) : list Z := sha256 (policyID +:+ NUL +:+ key).
Definition requestKey (r : Request) : list Z := rowKey (id (req_Policy r)) (key_value (req_Key r)).

Definition latestLeaseExpiry (ls : persistedLeases) : Time :=
  ofUnixMicro (map_fold (fun _ l latest => Z.max latest (pl_ExpiresMicros l)) 0 ls).

Definition postgresStateTTL (duration : Duration) : Duration :=
  if MaxInt64 ÷ 2 <? duration then MaxInt64 else Z.max (duration *i 2) Second.

Definition postgresAdmissionTTL (policy : Policy) : Duration :=
  let ttl := postgresStateTTL (period policy) in
  if bool_decide (algorithm policy = TokenBucket)
  then Z.max ttl (tokenDuration (Limit policy) 0 policy) else ttl.

Definition validateStrictDecisionTime (d : Decision) (effective : Time) : option error :=
  if negb (IsZero (Reset d)) && Before (Reset d) effective then Some (Sent ErrCorrupt) else None.

Definition validateStrictLeaseTime (l : Lease) (d : Decision) (effective : Time) : option error :=
  match validateStrictDecisionTime d effective with
  | Some err => Some err
  | None =>
      if negb (IsZero (ExpiresAt l)) &&
         (negb (After (ExpiresAt l) effective) || negb (Equal (ExpiresAt l) (Reset d)))
      then Some (Sent ErrCorrupt) else None
  end.

Definition observedTime (s : persistedState) : Time := toUTC (ofUnixMicro (ps_ObservedMicros s)).

(** [errors.Is(err, ErrRejected)] on an error that is not nil. *)
Definition failed (err : option error) : bool :=
  match err with Some e => negb (errorsIsAt e ErrRejected) | None => false end.

Definition withMicros (request : Request) : Request :=
  withNow request (toUTC (ofUnixMicro (UnixMicro (Now request)))).

(** The lock timeout in milliseconds: truncated, and rounded up by the strict
    methods. *)
Definition lockText (lockTimeout : Duration) : string :=
  formatInt (lockTimeout ÷ Millisecond) +:+ "ms".
Definition lockTextStrict (lockTimeout : Duration) : string :=
  let lockMilliseconds := lockTimeout ÷ Millisecond in
  formatInt (if negb (Z.rem lockTimeout Millisecond =? 0) then lockMilliseconds +i 1 else lockMilliseconds)
    +:+ "ms".

(** [err == s] for one of the sentinels. *)
Definition directlyAny (err : error) (sentinels : list Sentinel) : bool :=
  existsb (directError (Some err)) sentinels.

Section Store.
Context {W : Type}.
Context (withTimeout : Context W -> Duration -> Context W).
Context (withDeadline : Context W -> Time -> Context W).
Context (withoutCancel : Context W -> Context W).
Context (wallClock : W -> Time * W).

(** ** Classification of errors *)

Definition postgresStrictContext (ctx : Context W) : M W (option error) :=
  first ← lift (ctxErr ctx);
  if directError first CtxCanceled then mret (Some CanceledOutcome) else
  second ← lift (ctxErr ctx);
  if directError second CtxDeadlineExceeded then mret (Some DeadlineOutcome) else
  mret None.

Definition postgresPredispatchCategory (ctx : Context W) (err : error) : M W error :=
  early ← postgresStrictContext ctx;
  match early with
  | Some outcome => mret outcome
  | None =>
      if directError (Some err) CtxCanceled then mret CanceledOutcome else
      if directError (Some err) CtxDeadlineExceeded then mret DeadlineOutcome else
      match err with
      | nilBackendError | BackendError None => mret (Sent ErrUnavailable)
      | BackendError (Some _) => mret err
      | _ =>
          if directlyAny err [ErrRejected; ErrOverflow; ErrCorrupt; ErrUnsupported; ErrLeaseNotFound;
                              ErrLeaseNotOwned]
          then mret err else mret (Sent ErrUnavailable)
      end
  end.

Definition postgresPrecommitCategory (ctx : Context W) (err : option error) : M W (option error) :=
  match err with
  | None => mret None
  | Some (persistedStateError _) => mret (Some (Sent ErrCorrupt))
  | Some err =>
      if directlyAny err [ErrRejected; ErrOverflow; ErrCorrupt; ErrLeaseNotFound; ErrLeaseNotOwned]
      then mret (Some err) else
      early ← postgresStrictContext ctx;
      mret (Some (default (Sent ErrUnavailable) early))
  end.

(** ** Transactions *)

(** Run a handler when the body panics; the panic continues. *)
Definition onPanic {A} (body : M W A) (handler : M W (option error)) : M W A := fun w =>
  match body w with
  | (Ret a, w) => (Ret a, w)
  | (Panic, w) => (Panic, (handler w).2)
  end.

Definition rollbackStrict (ctx : Context W) (tx : Transaction W) (deadline : Time) : M W (option error) :=
  rollback tx (withDeadline (withoutCancel ctx) deadline).

(** [ratelimit.UnknownOutcome(ctx.Err())] *)
Definition unknownOutcome (ctx : Context W) : M W (option error) :=
  now ← lift (ctxErr ctx); mret (Some (UnknownOutcome now)).

(** The two statements that open a transaction: the lock timeout, and the
    advisory lock with the server's time. *)
Definition lockRow (tx : Transaction W) (ctx : Context W) (key : list Z) (timeout : string)
    : M W (result error Time) :=
  err ← setLockTimeout tx ctx timeout;
  match err with
  | Some err => mret (Err err)
  | None => lockAndTime tx ctx (advisoryKey key)
  end.

(** The transaction (if one was begun), the server's time, the deadline of a
    rollback, and the error. *)
Definition beginLockedStrict (db : Database W) (opts : Options) (ctx : Context W) (key : list Z)
    (rollbackTimeout : Duration) : M W (option (Transaction W * Time) * Time * option error) :=
  begun ← begin db ctx;
  match begun with
  | Err _ => err ← unknownOutcome ctx; mret (None, zeroTime, err)
  | Ok tx =>
      started ← lift wallClock;
      let rollbackDeadline := Add started rollbackTimeout in
      onPanic (locked ← lockRow tx ctx key (lockTextStrict (LockTimeout opts));
               match locked with
               | Err err =>
                   err ← postgresPrecommitCategory ctx (Some err);
                   mret (Some (tx, zeroTime), rollbackDeadline, err)
               | Ok now => mret (Some (tx, now), rollbackDeadline, None)
               end)
              (rollbackStrict ctx tx rollbackDeadline)
  end.

(** A strict transaction: [body] says whether it committed; otherwise it is
    rolled back when the handler returns or panics, and a failing rollback makes
    the outcome unknown. *)
Definition strictTransaction {A} (db : Database W) (opts : Options) (ctx : Context W) (key : list Z)
    (rollbackTimeout : Duration) (fail : option error -> A)
    (body : Transaction W -> Time -> M W (bool * A)) : M W A :=
  begun ← beginLockedStrict db opts ctx key rollbackTimeout;
  let '(owned, rollbackDeadline, err) := begun : option (Transaction W * Time) * Time * option error in
  match owned with
  | None => mret (fail err)
  | Some (tx, serverNow) =>
      result ← deferred (false, fail None)
        (match err with
         | Some _ => mret (false, fail err)
         | None => body tx serverNow
         end)
        (fun result : bool * A =>
           if result.1 then mret result else
           failure ← rollbackStrict ctx tx rollbackDeadline;
           match failure with
           | None => mret result
           | Some _ => err ← unknownOutcome ctx; mret (false, fail err)
           end);
      mret (result : bool * A).2
  end.

(** ** Loading rows *)

(** An expired row is deleted; [Ok None] is no row. *)
Definition loadState (ctx : Context W) (tx : Transaction W) (key : list Z) (now : Time)
    : M W (result error (option persistedState)) :=
  row ← selectState tx ctx key;
  match row with
  | Err err => mret (Err err)
  | Ok None => mret (Ok None)
  | Ok (Some (encoded, expiresAt)) =>
      if After expiresAt now then
        mret match decodeStateLegacy encoded with Ok s => Ok (Some s) | Err err => Err err end
      else
        err ← deleteState tx ctx key;
        mret match err with Some err => Err err | None => Ok None end
  end.

Definition loadStateStrict (ctx : Context W) (tx : Transaction W) (key : list Z) (now : Time)
    : M W (result error (option persistedState)) :=
  row ← selectStateStrict tx ctx key maxEncodedStateBytes;
  match row with
  | Err err => mret (Err err)
  | Ok None => mret (Ok None)
  | Ok (Some (encoded, expiresAt, withinLimit)) =>
      if negb withinLimit then mret (Err (Sent ErrCorrupt)) else
      if After expiresAt now then
        mret match decodeState encoded with Ok s => Ok (Some s) | Err err => Err err end
      else
        err ← deleteState tx ctx key;
        mret match err with Some err => Err err | None => Ok None end
  end.

Definition loadStateForRelease (ctx : Context W) (tx : Transaction W) (key : list Z)
    : M W (result error (option persistedState)) :=
  row ← selectState tx ctx key;
  mret match row with
       | Err err => Err err
       | Ok None => Ok None
       | Ok (Some (encoded, _)) =>
           match decodeStateLegacy encoded with Ok s => Ok (Some s) | Err err => Err err end
       end.

Definition loadStateForReleaseStrict (ctx : Context W) (tx : Transaction W) (key : list Z)
    : M W (result error (option persistedState)) :=
  row ← selectStateStrict tx ctx key maxEncodedStateBytes;
  mret match row with
       | Err err => Err err
       | Ok None => Ok None
       | Ok (Some (encoded, _, withinLimit)) =>
           if negb withinLimit then Err (Sent ErrCorrupt) else
           match decodeState encoded with Ok s => Ok (Some s) | Err err => Err err end
       end.

(** ** The strict handlers *)

Definition strictPostgresDecisionResult (ctx : Context W) (next : option persistedState) (d : Decision)
    (err : option error) : M W (Decision * option error) :=
  if failed err then
    category ← postgresPrecommitCategory ctx err; mret (emptyDecision, category)
  else
    match next with
    | None => panic
    | Some next =>
        match validateStrictDecisionTime d (observedTime next) with
        | Some timeErr => mret (emptyDecision, Some timeErr)
        | None => mret (d, err)
        end
    end.

Definition strictPostgresLeaseResult (ctx : Context W) (next : option persistedState) (l : Lease)
    (d : Decision) (err : option error) : M W (Lease * Decision * option error) :=
  if failed err then
    category ← postgresPrecommitCategory ctx err; mret (zeroLease, emptyDecision, category)
  else
    match next with
    | None => panic
    | Some next =>
        match validateStrictLeaseTime l d (observedTime next) with
        | Some timeErr => mret (zeroLease, emptyDecision, Some timeErr)
        | None => mret (l, d, err)
        end
    end.

(** Write the row and commit: [Some err] is what the handler returns, with the
    transaction open; [None] means it committed. *)
Definition writeAndCommit (ctx : Context W) (tx : Transaction W) (write : M W (option error))
    : M W (option (option error)) :=
  err ← write;
  match err with
  | Some err => category ← postgresPrecommitCategory ctx (Some err); mret (Some category)
  | None =>
      err ← commit tx ctx;
      match err with
      | Some _ => err ← unknownOutcome ctx; mret (Some err)
      | None => mret None
      end
  end.

(** The server's clock replaces the request's when it is the authority. *)
Definition atServerTime (opts : Options) (request : Request) (serverNow : Time) (duration : Duration)
    : result error Request :=
  if bool_decide (opt_Clock opts = ServerClock) then
    let request := withNow request (toUTC serverNow) in
    match validateServerClockRange (Now request) duration with
    | Some err => Err err
    | None => Ok request
    end
  else Ok request.

Definition admitBody (opts : Options) (ctx : Context W) (key : list Z) (request : Request)
    (tx : Transaction W) (serverNow : Time) : M W (bool * (Decision * option error)) :=
  let fail err := (false, (emptyDecision, err)) in
  match atServerTime opts request serverNow (period (req_Policy request)) with
  | Err err => mret (fail (Some err))
  | Ok request =>
      loaded ← loadStateStrict ctx tx key (Now request);
      match loaded with
      | Err err => category ← postgresPrecommitCategory ctx (Some err); mret (fail category)
      | Ok current =>
          let '(next, d, err) := mutateState current request in
          result ← strictPostgresDecisionResult ctx next d err;
          let '(d, err) := result : Decision * option error in
          if failed err then mret (fail err) else
          match next with
          | None => panic
          | Some next =>
              let effective := observedTime next in
              let ttl := postgresAdmissionTTL (req_Policy request) in
              stopped ← writeAndCommit ctx tx
                (upsertState tx ctx key (encodeState next) (Add effective ttl) effective);
              match stopped with
              | Some err => mret (fail err)
              | None => err ← postgresPrecommitCategory ctx err; mret (true, (d, err))
              end
          end
      end
  end.

Definition admitStrict (db : Database W) (opts : Options) (ctx : Context W) (key : list Z)
    (request : Request) (rollbackTimeout : Duration) : M W (Decision * option error) :=
  strictTransaction db opts ctx key rollbackTimeout (pair emptyDecision)
    (admitBody opts ctx key request).

Definition acquireBody (opts : Options) (ctx : Context W) (key : list Z) (request : LeaseRequest)
    (digest : string) (tx : Transaction W) (serverNow : Time)
    : M W (bool * (Lease * Decision * option error)) :=
  let fail err := (false, (zeroLease, emptyDecision, err)) in
  let leased := lease (req_Policy (lr_Request request)) in
  match atServerTime opts (lr_Request request) serverNow leased with
  | Err err => mret (fail (Some err))
  | Ok r =>
      let request := mkLeaseRequest r (LeaseID request) in
      loaded ← loadStateStrict ctx tx key (Now r);
      match loaded with
      | Err err => category ← postgresPrecommitCategory ctx (Some err); mret (fail category)
      | Ok current =>
          let '(next, l, d, err) := mutateLease current request digest in
          result ← strictPostgresLeaseResult ctx next l d err;
          let '(l, d, err) := result : Lease * Decision * option error in
          if failed err then mret (fail err) else
          match next with
          | None => panic
          | Some next =>
              let effective := observedTime next in
              stopped ← writeAndCommit ctx tx
                (upsertState tx ctx key (encodeState next) (Add effective (postgresStateTTL leased)) effective);
              match stopped with
              | Some err => mret (fail err)
              | None => err ← postgresPrecommitCategory ctx err; mret (true, (l, d, err))
              end
          end
      end
  end.

Definition acquireStrict (db : Database W) (opts : Options) (ctx : Context W) (key : list Z)
    (request : LeaseRequest) (digest : string) (rollbackTimeout : Duration)
    : M W (Lease * Decision * option error) :=
  strictTransaction db opts ctx key rollbackTimeout (pair (zeroLease, emptyDecision))
    (acquireBody opts ctx key request digest).

(** The lease of a row that a release asks for. *)
Definition ownedLease (current : persistedState) (digest : string) (l : Lease)
    : result error persistedLeases :=
  match persistedLeasesOf current !! digest with
  | None => Err (Sent ErrLeaseNotFound)
  | Some existing =>
      if negb (pl_Cost existing =? lease_Cost l) ||
         negb (pl_ExpiresMicros existing =? UnixMicro (ExpiresAt l))
      then Err (Sent ErrLeaseNotOwned)
      else Ok (delete digest (persistedLeasesOf current))
  end.

(** A row without leases is deleted. *)
Definition writeReleased (ctx : Context W) (tx : Transaction W) (key : list Z) (serverNow : Time)
    (current : persistedState) (remaining : persistedLeases) : M W (option error) :=
  if bool_decide (remaining = ∅) then deleteState tx ctx key
  else upsertState tx ctx key (encodeState (setPersistedLeases current remaining))
                   (latestLeaseExpiry remaining) (toUTC serverNow).

Definition releaseBody (ctx : Context W) (key : list Z) (l : Lease) (digest : string)
    (tx : Transaction W) (serverNow : Time) : M W (bool * option error) :=
  loaded ← loadStateForReleaseStrict ctx tx key;
  match loaded with
  | Err err => category ← postgresPrecommitCategory ctx (Some err); mret (false, category)
  | Ok None => mret (false, Some (Sent ErrLeaseNotFound))
  | Ok (Some current) =>
      match validateConcurrencyState current (lease_PolicyID l) with
      | Some err => mret (false, Some err)
      | None =>
          match ownedLease current digest l with
          | Err err => mret (false, Some err)
          | Ok remaining =>
              stopped ← writeAndCommit ctx tx (writeReleased ctx tx key serverNow current remaining);
              match stopped with
              | Some err => mret (false, err)
              | None => mret (true, None)
              end
          end
      end
  end.

Definition releaseStrict (db : Database W) (opts : Options) (ctx : Context W) (key : list Z)
    (l : Lease) (digest : string) (rollbackTimeout : Duration) : M W (option error) :=
  strictTransaction db opts ctx key rollbackTimeout (fun err => err) (releaseBody ctx key l digest).

(** ** The released handlers *)

(** [_ = tx.rollback(context.WithoutCancel(ctx))] *)
Definition discard (ctx : Context W) (tx : Transaction W) : M W unit :=
  _ ← rollback tx (withoutCancel ctx); mret tt.

Definition beginLocked (db : Database W) (opts : Options) (ctx : Context W) (key : list Z)
    : M W (result error (Transaction W * Time)) :=
  begun ← begin db ctx;
  match begun with
  | Err err => mret (Err err)
  | Ok tx =>
      locked ← lockRow tx ctx key (lockText (LockTimeout opts));
      match locked with
      | Err err => _ ← discard ctx tx; mret (Err err)
      | Ok now => mret (Ok (tx, now))
      end
  end.

(** The deferred rollback of a released handler; after a commit it does
    nothing to the database. *)
Definition releasedTransaction {A} (db : Database W) (opts : Options) (ctx : Context W) (key : list Z)
    (fail : error -> A) (body : Transaction W -> Time -> M W A) : M W A :=
  begun ← beginLocked db opts ctx key;
  match begun with
  | Err err => mret (fail err)
  | Ok (tx, serverNow) =>
      deferred (fail (Sent ErrUnavailable)) (body tx serverNow) (fun result => _ ← discard ctx tx; mret result)
  end.

(** Write the row and commit; the error of either is returned as it is. *)
Definition writeThenCommit (ctx : Context W) (tx : Transaction W) (write : M W (option error))
    : M W (option error) :=
  err ← write;
  match err with
  | Some err => mret (Some err)
  | None => commit tx ctx
  end.

Definition admitNative (db : Database W) (opts : Options) (ctx : Context W) (key : list Z) (request : Request)
    : M W (Decision * option error) :=
  let fail err := (emptyDecision, Some err) in
  releasedTransaction db opts ctx key fail (fun tx serverNow =>
    let request := if bool_decide (opt_Clock opts = ServerClock)
                   then withNow request (toUTC serverNow) else request in
    loaded ← loadState ctx tx key (Now request);
    match loaded with
    | Err err => mret (fail err)
    | Ok current =>
        let '(next, d, err) := mutateStateLegacy current request in
        if failed err then mret (emptyDecision, err) else
        match next with
        | None => panic
        | Some next =>
            let policy := req_Policy request in
            let token := bool_decide (algorithm policy = TokenBucket) in
            let ttl := if token then postgresAdmissionTTL policy else Z.max (period policy *i 2) Second in
            let effective := if token then observedTime next else Now request in
            stopped ← writeThenCommit ctx tx
              (upsertState tx ctx key (encodeState next) (Add effective ttl) effective);
            match stopped with
            | Some err => mret (fail err)
            | None => mret (d, err)
            end
        end
    end).

Definition acquire (db : Database W) (opts : Options) (ctx : Context W) (key : list Z)
    (request : LeaseRequest) (digest : string) : M W (Lease * Decision * option error) :=
  let fail err := (zeroLease, emptyDecision, Some err) in
  releasedTransaction db opts ctx key fail (fun tx serverNow =>
    let r := if bool_decide (opt_Clock opts = ServerClock)
             then withNow (lr_Request request) (toUTC serverNow) else lr_Request request in
    let request := mkLeaseRequest r (LeaseID request) in
    loaded ← loadState ctx tx key (Now r);
    match loaded with
    | Err err => mret (fail err)
    | Ok current =>
        let '(next, l, d, err) := mutateLeaseLegacy current request digest in
        if failed err then mret (zeroLease, emptyDecision, err) else
        match next with
        | None => panic
        | Some next =>
            let ttl := Z.max (lease (req_Policy r) *i 2) Second in
            stopped ← writeThenCommit ctx tx
              (upsertState tx ctx key (encodeState next) (Add (Now r) ttl) (Now r));
            match stopped with
            | Some err => mret (fail err)
            | None => mret (l, d, err)
            end
        end
    end).

Definition release (db : Database W) (opts : Options) (ctx : Context W) (key : list Z) (l : Lease)
    (digest : string) : M W (option error) :=
  releasedTransaction db opts ctx key Some (fun tx serverNow =>
    loaded ← loadStateForRelease ctx tx key;
    match loaded with
    | Err err => mret (Some err)
    | Ok None => mret (Some (Sent ErrLeaseNotFound))
    | Ok (Some current) =>
        if negb (bool_decide (ps_Algorithm current = Concurrency)) then mret (Some (Sent ErrLeaseNotFound)) else
        match ownedLease current digest l with
        | Err err => mret (Some err)
        | Ok remaining => writeThenCommit ctx tx (writeReleased ctx tx key serverNow current remaining)
        end
    end).

(** ** The store *)

(** The executor of a store: the native one, or another (as in tests), which
    may or may not handle leases. *)
Inductive executor :=
| nativeExecutor (db : Database W) (opts : Options)
| otherExecutor
    (run : Context W -> list Z -> Request -> M W (Decision * option error))
    (leases : option ((Context W -> list Z -> LeaseRequest -> string -> M W (Lease * Decision * option error)) *
                      (Context W -> list Z -> Lease -> string -> M W (option error)))).

Record Store := mkStore { st_executor : executor; st_options : Options; rollbackTimeout : Duration }.

Definition defaultLock (opts : Options) : Options :=
  if LockTimeout opts <? 1 then mkOptions (Timeout opts) (Timeout opts) (opt_Clock opts) else opts.

Definition newStore (exec : option executor) (opts : Options) : result error Store :=
  let invalid := Err (errorf ErrInvalidPolicy "executor, timeout, and clock are required") in
  match exec with
  | None => invalid
  | Some exec =>
      if Timeout opts <? 1 then invalid else
      match opt_Clock opts with
      | UnknownClock _ => invalid
      | _ => Ok (mkStore exec (defaultLock opts) 0)
      end
  end.

Definition New (pool : option (Database W)) (opts : Options) : result error Store :=
  match pool with
  | None => Err (errorf ErrInvalidPolicy "pgx pool is required")
  | Some db => newStore (Some (nativeExecutor db (defaultLock opts))) (defaultLock opts)
  end.

Definition NewStrict (pool : option (Database W)) (opts : StrictOptions) : result error Store :=
  match pool with
  | None => Err (errorf ErrInvalidPolicy "PostgreSQL pool is required")
  | Some db =>
      if RollbackTimeout opts <=? 0 then Err (errorf ErrInvalidPolicy "rollback timeout must be positive") else
      match New (Some db) (so_Options opts) with
      | Err err => Err err
      | Ok store => Ok (mkStore (st_executor store) (st_options store) (RollbackTimeout opts))
      end
  end.

Definition Name : string := "postgres".

(** [errors.Is(callCtx.Err(), DeadlineExceeded) || errors.Is(err, DeadlineExceeded)], and
    the category it selects. *)
Definition deadlineOrUnavailable (ctx : Context W) (err : error) : M W error :=
  late ← lift (ctxErr ctx);
  mret (Sent (if errorsIs late CtxDeadlineExceeded || errorsIsAt err CtxDeadlineExceeded
              then ErrDeadline else ErrUnavailable)).

Definition executeAdmit (exec : executor) : Context W -> list Z -> Request -> M W (Decision * option error) :=
  match exec with nativeExecutor db opts => admitNative db opts | otherExecutor f _ => f end.

Definition Admit (store : Store) (ctx : Context W) (request : Request) : M W (Decision * option error) :=
  match Validate request with
  | Some err => mret (emptyDecision, Some err)
  | None =>
      if bool_decide (algorithm (req_Policy request) = Concurrency)
      then mret (emptyDecision, Some (Sent ErrUnsupported)) else
      let request := withMicros request in
      let callCtx := withTimeout ctx (Timeout (st_options store)) in
      result ← executeAdmit (st_executor store) callCtx (requestKey request) request;
      let '(d, err) := result : Decision * option error in
      match err with
      | None => mret (d, None)
      | Some err =>
          if errorsIsAt err ErrRejected then mret (d, Some err) else
          if errorsIsAt err ErrCorrupt then mret (emptyDecision, Some (Sent ErrCorrupt)) else
          if errorsIsAt err ErrOverflow then mret (emptyDecision, Some (Sent ErrOverflow)) else
          category ← deadlineOrUnavailable callCtx err; mret (emptyDecision, Some category)
      end
  end.

(** [store.executor.(leaseExecutor)] *)
Definition leaseExecutor (exec : executor)
    : option ((Context W -> list Z -> LeaseRequest -> string -> M W (Lease * Decision * option error)) *
              (Context W -> list Z -> Lease -> string -> M W (option error))) :=
  match exec with nativeExecutor db opts => Some (acquire db opts, release db opts) | otherExecutor _ ls => ls end.

Definition digestOf (leaseID : string) : string := hexEncode (sha256 leaseID).

Definition Acquire (store : Store) (ctx : Context W) (request : LeaseRequest)
    : M W (Lease * Decision * option error) :=
  let fail err := (zeroLease, emptyDecision, Some err) in
  match LeaseRequest_Validate request with
  | Some err => mret (fail err)
  | None =>
      let request := mkLeaseRequest (withMicros (lr_Request request)) (LeaseID request) in
      match leaseExecutor (st_executor store) with
      | None => mret (fail (Sent ErrUnsupported))
      | Some (acquire, _) =>
          let callCtx := withTimeout ctx (Timeout (st_options store)) in
          result ← acquire callCtx (requestKey (lr_Request request)) request (digestOf (LeaseID request));
          let '(l, d, err) := result : Lease * Decision * option error in
          match err with
          | None => mret (l, d, None)
          | Some err =>
              if errorsIsAt err ErrRejected || errorsIsAt err ErrLeaseNotOwned then mret (l, d, Some err) else
              if errorsIsAt err ErrCorrupt then mret (fail (Sent ErrCorrupt)) else
              category ← deadlineOrUnavailable callCtx err; mret (fail category)
          end
      end
  end.

Definition Release (store : Store) (ctx : Context W) (l : Lease) : M W (option error) :=
  if bool_decide (lease_ID l = EmptyString) || bool_decide (lease_PolicyID l = EmptyString) ||
     bool_decide (key_value (lease_Key l) = EmptyString) || (lease_Cost l =? 0)
  then mret (Some (Sent ErrInvalidRequest)) else
  match leaseExecutor (st_executor store) with
  | None => mret (Some (Sent ErrUnsupported))
  | Some (_, release) =>
      let callCtx := withTimeout ctx (Timeout (st_options store)) in
      err ← release callCtx (rowKey (lease_PolicyID l) (key_value (lease_Key l))) l (digestOf (lease_ID l));
      match err with
      | None => mret None
      | Some err =>
          if errorsIsAt err ErrLeaseNotFound || errorsIsAt err ErrLeaseNotOwned then mret (Some err) else
          if errorsIsAt err ErrCorrupt then mret (Some (Sent ErrCorrupt)) else
          category ← deadlineOrUnavailable callCtx err; mret (Some category)
      end
  end.

Definition Check (store : Store) (ctx : Context W) : M W (option error) :=
  match st_executor store with
  | otherExecutor _ _ => mret (Some (Sent ErrUnsupported))
  | nativeExecutor db _ =>
      table ← regclass db ctx;
      mret match table with
           | Err _ => Some (errorf ErrUnavailable "schema check")
           | Ok None => Some (errorf ErrUnavailable "rate_limit_states migration is missing")
           | Ok (Some _) => None
           end
  end.

Definition Cleanup (store : Store) (ctx : Context W) (batch : Z) : M W (Z * option error) :=
  if (batch <? 1) || (MaxCleanupBatch <? batch)
  then mret (0, invalidRequest "cleanup batch must be positive") else
  match st_executor store with
  | otherExecutor _ _ => mret (0, Some (Sent ErrUnsupported))
  | nativeExecutor db _ =>
      count ← cleanup db ctx batch;
      mret match count with
           | Err _ => (0, Some (errorf ErrUnavailable "cleanup"))
           | Ok count => (count, None)
           end
  end.

(** [Open] and [openChecked]. *)
Definition Open (pool : option (Database W)) (ctx : Context W) (opts : Options) : M W (result error Store) :=
  match New pool opts with
  | Err err => mret (Err err)
  | Ok store =>
      err ← Check store ctx;
      mret match err with Some err => Err err | None => Ok store end
  end.

(** ** The strict methods *)

(** [strictReady]: a strict store and a context; a nil [*Store] is [None]. *)
Definition strictReady (store : option Store) (ctx : iface (Context W)) : result error (Store * Context W) :=
  let uninitialized := Err (errorf ErrInvalidPolicy "backend is nil or uninitialized") in
  match store with
  | None => uninitialized
  | Some store =>
      if rollbackTimeout store <=? 0 then uninitialized else
      match ctx with
      | iface_of ctx => Ok (store, ctx)
      | _ => Err (errorf ErrInvalidRequest "context is required")
      end
  end.

(** [store.executor.( *nativeExecutor)] *)
Definition native (store : Store) : result error (Database W * Options) :=
  match st_executor store with
  | nativeExecutor db opts => Ok (db, opts)
  | otherExecutor _ _ => Err (errorf ErrInvalidPolicy "backend is nil or uninitialized")
  end.

(** What the strict methods check before they start a transaction: the store
    and context, the request, the context's state and the executor. *)
Definition strictEntry {A} (store : option Store) (ctx : iface (Context W)) (invalid : option error)
    (unsupported : bool) (fail : error -> A)
    (run : Store -> Context W -> Database W -> Options -> M W A) : M W A :=
  match strictReady store ctx with
  | Err err => mret (fail err)
  | Ok (store, ctx) =>
      match invalid with
      | Some err => mret (fail err)
      | None =>
          early ← postgresStrictContext ctx;
          match early with
          | Some err => mret (fail err)
          | None =>
              if unsupported then mret (fail (Sent ErrUnsupported)) else
              match native store with
              | Err err => mret (fail err)
              | Ok (db, opts) => run store ctx db opts
              end
          end
      end
  end.

Definition AdmitStrict (store : option Store) (ctx : iface (Context W)) (request : Request)
    : M W (Decision * option error) :=
  strictEntry store ctx (Validate request) (bool_decide (algorithm (req_Policy request) = Concurrency))
    (fun err => (emptyDecision, Some err))
    (fun store ctx db opts =>
       let request := withMicros request in
       admitStrict db opts (withTimeout ctx (Timeout (st_options store))) (requestKey request) request
                   (rollbackTimeout store)).

Definition AcquireStrict (store : option Store) (ctx : iface (Context W)) (request : LeaseRequest)
    : M W (Lease * Decision * option error) :=
  strictEntry store ctx (LeaseRequest_Validate request) false
    (fun err => (zeroLease, emptyDecision, Some err))
    (fun store ctx db opts =>
       let request := mkLeaseRequest (withMicros (lr_Request request)) (LeaseID request) in
       acquireStrict db opts (withTimeout ctx (Timeout (st_options store)))
                     (requestKey (lr_Request request)) request (digestOf (LeaseID request))
                     (rollbackTimeout store)).

Definition ReleaseStrict (store : option Store) (ctx : iface (Context W)) (l : Lease) : M W (option error) :=
  let incomplete := bool_decide (lease_ID l = EmptyString) || bool_decide (lease_PolicyID l = EmptyString) ||
                    bool_decide (key_value (lease_Key l) = EmptyString) || (lease_Cost l =? 0) ||
                    IsZero (ExpiresAt l) in
  strictEntry store ctx (if incomplete then Some (Sent ErrInvalidRequest) else None) false Some
    (fun store ctx db opts =>
       releaseStrict db opts (withTimeout ctx (Timeout (st_options store)))
                     (rowKey (lease_PolicyID l) (key_value (lease_Key l))) l (digestOf (lease_ID l))
                     (rollbackTimeout store)).

Definition CheckStrict (store : option Store) (ctx : iface (Context W)) : M W (option error) :=
  strictEntry store ctx None false Some (fun _ ctx db _ =>
    table ← regclass db ctx;
    match table with
    | Err err => category ← postgresPredispatchCategory ctx err; mret (Some category)
    | Ok None => mret (Some (Sent ErrUnavailable))
    | Ok (Some _) => mret None
    end).

Definition CleanupStrict (store : option Store) (ctx : iface (Context W)) (batch : Z) : M W (Z * option error) :=
  strictEntry store ctx
    (if (batch <? 1) || (MaxCleanupBatch <? batch)
     then invalidRequest "cleanup batch must be positive" else None) false
    (fun err => (0, Some err))
    (fun _ ctx db _ =>
       count ← cleanup db ctx batch;
       match count with
       | Err _ => err ← unknownOutcome ctx; mret (0, err)
       | Ok count => mret (count, None)
       end).

Definition OpenStrict (pool : option (Database W)) (ctx : iface (Context W)) (opts : StrictOptions)
    : M W (result error Store) :=
  match ctx with
  | iface_of _ =>
      match NewStrict pool opts with
      | Err err => mret (Err err)
      | Ok store =>
          err ← CheckStrict (Some store) ctx;
          mret match err with Some err => Err err | None => Ok store end
      end
  | _ => mret (Err (errorf ErrInvalidRequest "context is required"))
  end.

(** [*Store] as a [Backend] and a [LeaseBackend]. *)
Definition postgresBackend (store : Store) : Backend W :=
  mkBackend Name (Admit store) (Some (mkLeaseBackend (Acquire store) (Release store))).
End Store.
