(* ===== verification/PgLaws.v ===== *)
(** * What the PostgreSQL backend relies on, and the outcomes of its calls

    [PostgresLaws] states the documented behaviour of PostgreSQL that the package
    needs: an open transaction collects writes that nobody sees, a commit makes
    all of them visible or reports an error, a rollback makes none of them
    visible, a row does not change while the advisory lock that stands for it is
    held, and a [jsonb] column gives back the document that was written.
    The theorems are about every database that obeys them, every failure, and
    every interleaving of other sessions while the lock is not held.

    An advisory lock is cooperative: [steady] holds because the methods of this
    package take it before they touch a row.  [Cleanup] does not: it deletes
    expired rows with the row locks of PostgreSQL, and so the laws are about runs
    in which it does not delete a row between the lock and the end of the
    transaction that holds it. *)

From S2P Require Import Prelude GoTime GoHash Errors Keys Policy Backend GoJson JsonFacts.
From S2P Require Import MemoryState PgState PgCodec PgWire PgStore.

Local Open Scope string_scope.
Local Open Scope Z_scope.

(** ** The database as a client sees it *)

Record row := mkRow { row_doc : string; row_expires : Time }.

Inductive write :=
| Put (key : list Z) (doc : string) (expires updated : Time)
| Del (key : list Z).

Definition applyWrite (k : list Z) (r : option row) (x : write) : option row :=
  match x with
  | Put k' doc expires _ => if bool_decide (k' = k) then Some (mkRow doc expires) else r
  | Del k' => if bool_decide (k' = k) then None else r
  end.

Definition applyWrites (k : list Z) (r : option row) (ws : list write) : option row :=
  foldl (applyWrite k) r ws.

(** A text that denotes the document that was stored. *)
Definition renders (doc t : string) : Prop := forall j rest,
  parse doc = Some (j, rest) -> skipSpace rest = EmptyString ->
  exists j' rest', parse t = Some (j', rest') /\ skipSpace rest' = EmptyString /\ same_json j j'.

(** What a strict select shows of a row: nothing, a document within the limit,
    or the note that it is too long. *)
Definition shows (r : option row) (seen : option (string * Time * bool)) : Prop :=
  match r, seen with
  | None, None => True
  | Some r, Some (t, expires, within) => expires = row_expires r /\ (within = true -> renders (row_doc r) t)
  | _, _ => False
  end.

(** The laws hold for the transactions the database hands out and for contexts
    that only report whether they ended. *)
Class PostgresLaws {W : Type} (db : Database W) (wallClock : W -> Time * W) := {
  genuine : Transaction W -> Prop;
  proper : Context W -> Prop;
  (** the lock an open transaction holds and the writes it has collected *)
  session : Transaction W -> W -> option (option Z * list write);
  (** the writes that were made visible for a transaction *)
  committed : Transaction W -> W -> list write;
  (** the visible rows *)
  rowAt : W -> list Z -> option row;

  steady tx w w' := session tx w' = session tx w /\ committed tx w' = committed tx w /\
    forall a p k, session tx w = Some (Some a, p) -> advisoryKey k = a -> rowAt w' k = rowAt w k;

  context_steady tx ctx w : genuine tx -> proper ctx -> steady tx w (ctxErr ctx w).2;
  clock_steady tx w : genuine tx -> steady tx w (wallClock w).2;
  begin_opens ctx w tx w' : proper ctx -> begin db ctx w = (Ret (Ok tx), w') ->
    genuine tx /\ session tx w' = Some (None, []) /\ committed tx w' = [];
  timeout_steady tx ctx t w : genuine tx -> proper ctx -> steady tx w (setLockTimeout tx ctx t w).2;
  lock_law tx ctx a w p : genuine tx -> proper ctx -> session tx w = Some (None, p) ->
    match lockAndTime tx ctx a w with
    | (Ret (Ok _), w') => session tx w' = Some (Some a, p) /\ committed tx w' = committed tx w
    | (_, w') => steady tx w w'
    end;
  select_steady tx ctx k limit w : genuine tx -> proper ctx -> steady tx w (selectStateStrict tx ctx k limit w).2;
  select_shows tx ctx k limit w seen w' : genuine tx -> proper ctx ->
    session tx w = Some (Some (advisoryKey k), []) ->
    selectStateStrict tx ctx k limit w = (Ret (Ok seen), w') -> shows (rowAt w k) seen;
  delete_law tx ctx k w l p : genuine tx -> proper ctx -> session tx w = Some (l, p) ->
    match deleteState tx ctx k w with
    | (Ret None, w') => session tx w' = Some (l, (p ++ [Del k])%list) /\ committed tx w' = committed tx w /\
        forall a k', l = Some a -> advisoryKey k' = a -> rowAt w' k' = rowAt w k'
    | (_, w') => steady tx w w'
    end;
  upsert_law tx ctx k doc expires updated w l p : genuine tx -> proper ctx -> session tx w = Some (l, p) ->
    match upsertState tx ctx k doc expires updated w with
    | (Ret None, w') => session tx w' = Some (l, (p ++ [Put k doc expires updated])%list) /\
        committed tx w' = committed tx w /\
        forall a k', l = Some a -> advisoryKey k' = a -> rowAt w' k' = rowAt w k'
    | (_, w') => steady tx w w'
    end;
  commit_law tx ctx w l p : genuine tx -> proper ctx -> session tx w = Some (l, p) -> committed tx w = [] ->
    match commit tx ctx w with
    | (Ret None, w') => committed tx w' = p /\
        forall a k, l = Some a -> advisoryKey k = a -> rowAt w' k = applyWrites k (rowAt w k) p
    | (_, w') => committed tx w' = [] \/ committed tx w' = p
    end;
  rollback_law tx ctx w : genuine tx -> proper ctx -> committed tx (rollback tx ctx w).2 = committed tx w
}.
Existing Class genuine.
Existing Class proper.

Section Outcomes.
Context {W : Type} {db : Database W} {wallClock : W -> Time * W}.
Context (withDeadline : Context W -> Time -> Context W) (withoutCancel : Context W -> Context W).
Context `{!PostgresLaws db wallClock}.

(** ** Computations that leave a transaction alone *)

#[global] Instance steady_refl tx : Reflexive (steady tx).
Proof. intros w. by split_and!. Qed.

#[global] Instance steady_trans tx : Transitive (steady tx).
Proof.
  intros w1 w2 w3 (S1 & C1 & R1) (S2 & C2 & R2). split_and!; [congruence..|].
  intros a p k Hs Hk. rewrite (R2 a p k) by (done || congruence). by apply (R1 a p).
Qed.

Definition steadily {A} (tx : Transaction W) (c : M W A) : Prop := forall w, steady tx w (c w).2.

Lemma steadily_ret {A} tx (a : A) : steadily tx (mret a).
Proof. intros w. reflexivity. Qed.

Lemma steadily_bind {A B} tx (c : M W A) (k : A -> M W B) :
  steadily tx c -> (forall a, steadily tx (k a)) -> steadily tx (c ≫= k).
Proof.
  intros Hc Hk w. rewrite bind_unfold. specialize (Hc w). destruct (c w) as [[a|] w']; [|done].
  etrans; [exact Hc|]. apply Hk.
Qed.

Lemma steadily_context tx ctx `{!genuine tx, !proper ctx} : steadily tx (lift (ctxErr ctx)).
Proof. intros w. unfold lift. pose proof (context_steady tx ctx w _ _) as H. by destruct (ctxErr ctx w). Qed.

Ltac steady_steps := repeat first [apply steadily_bind; intros | (apply steadily_context; assumption) | apply steadily_ret | case_match].

Lemma steadily_category tx ctx err `{!genuine tx, !proper ctx} : steadily tx (postgresPrecommitCategory ctx err).
Proof. unfold postgresPrecommitCategory, postgresStrictContext. steady_steps. Qed.

Lemma steadily_unknown tx ctx `{!genuine tx, !proper ctx} : steadily tx (unknownOutcome ctx).
Proof. unfold unknownOutcome. steady_steps. Qed.

(** Neither panics: only the context is read. *)
Lemma category_returns (ctx : Context W) err w : exists c w',
  postgresPrecommitCategory ctx err w = (Ret c, w') /\ (c = None <-> err = None).
Proof.
  unfold postgresPrecommitCategory, postgresStrictContext. destruct err as [e|]; [|by eexists _, _].
  assert (forall c w, exists c' w', (mret (Some c) : M W (option error)) w = (Ret c', w') /\
    (c' = None <-> Some e = None)) as Hret by (intros; by eexists _, _).
  assert (forall x, exists c w', (if x : bool then mret (Some e) else
     early ← (first ← lift (ctxErr ctx);
              if directError first CtxCanceled then mret (Some CanceledOutcome) else
              second ← lift (ctxErr ctx);
              if directError second CtxDeadlineExceeded then mret (Some DeadlineOutcome) else mret None);
     mret (Some (default (Sent ErrUnavailable) early))) w = (Ret c, w') /\ (c = None <-> Some e = None)) as Hother.
  { intros []; [apply Hret|]. rewrite !bind_unfold. unfold lift. destruct (ctxErr ctx w) as [first w1].
    destruct (directError first CtxCanceled); [apply Hret|]. rewrite bind_unfold.
    destruct (ctxErr ctx w1) as [second w2]. destruct (directError second CtxDeadlineExceeded); apply Hret. }
  destruct e; try apply Hother. apply Hret.
Qed.

Lemma unknown_returns (ctx : Context W) w : exists now w', unknownOutcome ctx w = (Ret (Some (UnknownOutcome now)), w').
Proof. unfold unknownOutcome. rewrite bind_unfold. unfold lift. destruct (ctxErr ctx w). by eexists _, _. Qed.

(** ** While the lock is held *)

(** The transaction holds the lock [a] and has collected [p]; nothing of it is
    visible, and the rows under the lock are still those of [f]. *)
Definition holding (tx : Transaction W) (a : Z) (f : list Z -> option row) (p : list write) (w : W) : Prop :=
  session tx w = Some (Some a, p) /\ committed tx w = [] /\ forall k, advisoryKey k = a -> rowAt w k = f k.

Lemma holding_steady tx a f p w w' : holding tx a f p w -> steady tx w w' -> holding tx a f p w'.
Proof.
  intros (Hs & Hc & Hr) (Ss & Sc & Sr). split_and!; [congruence..|]. intros k Hk. rewrite (Sr a p k) by done. by apply Hr.
Qed.

Lemma holding_steadily {A} tx a f p w (c : M W A) :
  holding tx a f p w -> steadily tx c -> holding tx a f p (c w).2.
Proof. intros Hh Hc. by apply (holding_steady _ _ _ _ w). Qed.

(** What the selected row means at a time. *)
Definition shownRow (now : Time) (seen : option (string * Time * bool)) : result error (option persistedState) :=
  match seen with
  | None => Ok None
  | Some (encoded, expiresAt, within) =>
      if negb within then Err (Sent ErrCorrupt) else
      if After expiresAt now then match decodeState encoded with Ok s => Ok (Some s) | Err err => Err err end
      else Ok None
  end.

Lemma loadStateStrict_spec ctx tx key now f w `{!genuine tx, !proper ctx} :
  holding tx (advisoryKey key) f [] w ->
  match loadStateStrict ctx tx key now w with
  | (Ret (Ok current), w') => exists seen p,
      shows (f key) seen /\ shownRow now seen = Ok current /\ p ⊆ [Del key] /\
      holding tx (advisoryKey key) f p w'
  | (Ret (Err _), w') => exists p, holding tx (advisoryKey key) f p w'
  | (Panic, _) => True
  end.
Proof.
  intros Hh. unfold loadStateStrict. rewrite bind_unfold.
  pose proof (select_steady tx ctx key maxEncodedStateBytes w _ _) as Hst.
  pose proof (select_shows tx ctx key maxEncodedStateBytes w) as Hsh.
  destruct (selectStateStrict tx ctx key maxEncodedStateBytes w) as [[[seen|err]|] w1]; simpl in Hst.
  - pose proof (holding_steady _ _ _ _ _ _ Hh Hst) as Hh1. destruct Hh as (Hs & _ & Hr).
    specialize (Hsh seen w1 _ _ Hs eq_refl). rewrite (Hr key eq_refl) in Hsh.
    destruct seen as [[[encoded expires] within]|]; [|exists None, []; split_and!; done || set_solver].
    destruct within; simpl; [|by exists []]. destruct (After expires now) eqn:Ha; simpl.
    + destruct (decodeState encoded) as [st|err] eqn:Ed; [|by exists []].
      exists (Some (encoded, expires, true)), []. simpl. rewrite Ha, Ed. split_and!; done || set_solver.
    + rewrite bind_unfold. pose proof (delete_law tx ctx key w1 _ _ _ _ (proj1 Hh1)) as Hd.
      destruct (deleteState tx ctx key w1) as [[[err|]|] w2]; simpl; [|..|done].
      * exists []. by apply (holding_steady _ _ _ _ w1).
      * destruct Hd as (Hs2 & Hc2 & Hr2). exists (Some (encoded, expires, true)), [Del key]. simpl. rewrite Ha.
        split_and!; try done. destruct Hh1 as (_ & Hc1 & Hr1). split_and!; [done|congruence|].
        intros k Hk. rewrite (Hr2 (advisoryKey key) k) by done. by apply Hr1.
  - exists []. by apply (holding_steady _ _ _ _ w).
  - done.
Qed.

(** A statement that adds [x] to what was collected, or fails. *)
Definition collects (tx : Transaction W) (a : Z) (f : list Z -> option row) (p : list write) (x : write)
    (write : M W (option error)) : Prop := forall w, holding tx a f p w ->
  match write w with
  | (Ret None, w') => holding tx a f (p ++ [x])%list w'
  | (_, w') => holding tx a f p w'
  end.

Lemma upsert_collects tx a f p ctx k doc expires updated `{!genuine tx, !proper ctx} :
  collects tx a f p (Put k doc expires updated) (upsertState tx ctx k doc expires updated).
Proof.
  intros w Hh. pose proof (upsert_law tx ctx k doc expires updated w _ _ _ _ (proj1 Hh)) as H.
  destruct (upsertState _ _ _ _ _ _ w) as [[[err|]|] w']; try (by apply (holding_steady _ _ _ _ w)).
  destruct H as (Hs & Hc & Hr). destruct Hh as (_ & Hc0 & Hr0). split_and!; [done|congruence|].
  intros k' Hk. rewrite (Hr a k') by done. by apply Hr0.
Qed.

Lemma delete_collects tx a f p ctx k `{!genuine tx, !proper ctx} : collects tx a f p (Del k) (deleteState tx ctx k).
Proof.
  intros w Hh. pose proof (delete_law tx ctx k w _ _ _ _ (proj1 Hh)) as H.
  destruct (deleteState _ _ _ w) as [[[err|]|] w']; try (by apply (holding_steady _ _ _ _ w)).
  destruct H as (Hs & Hc & Hr). destruct Hh as (_ & Hc0 & Hr0). split_and!; [done|congruence|].
  intros k' Hk. rewrite (Hr a k') by done. by apply Hr0.
Qed.

Definition isUnknown (err : option error) : Prop := exists now, err = Some (UnknownOutcome now).

Lemma writeAndCommit_spec ctx tx a f p x write w `{!genuine tx, !proper ctx} :
  collects tx a f p x write -> holding tx a f p w ->
  match writeAndCommit ctx tx write w with
  | (Ret None, w') => committed tx w' = (p ++ [x])%list /\
      forall k, advisoryKey k = a -> rowAt w' k = applyWrites k (f k) (p ++ [x])
  | (Ret (Some err), w') => err <> None /\
      (isUnknown err /\ (committed tx w' = [] \/ committed tx w' = (p ++ [x])%list) \/ holding tx a f p w')
  | (Panic, _) => True
  end.
Proof.
  intros Hw Hh. specialize (Hw w Hh). unfold writeAndCommit. rewrite bind_unfold.
  destruct (write w) as [[[err|]|] w1]; [|..|done].
  - rewrite bind_unfold. destruct (category_returns ctx (Some err) w1) as (c & w2 & E & Hc). 
    pose proof (holding_steadily _ _ _ _ _ _ Hw (steadily_category tx ctx (Some err))) as Hh2. rewrite E in *.
    split; [by intros Hn%Hc|by right].
  - rewrite bind_unfold. pose proof (commit_law tx ctx w1 _ _ _ _ (proj1 Hw) (proj1 (proj2 Hw))) as Hc.
    destruct (commit tx ctx w1) as [[[err|]|] w2]; [|..|done].
    + destruct (unknown_returns ctx w2) as (now & w3 & E). pose proof (steadily_unknown tx ctx w2) as (_ & Hk & _).
      rewrite bind_unfold, E in *. split; [done|]. left. split; [by exists now|]. simpl in Hk. by rewrite Hk.
    + destruct Hc as [Hc Hr]. split; [done|]. intros k Hk. rewrite (Hr a k) by done. f_equal.
      by apply Hw.
Qed.
End Outcomes.
