(* ===== verification/PgOutcomes.v ===== *)
(** * The outcomes of the strict PostgreSQL calls

    For every database that obeys [PostgresLaws], whatever fails and whatever
    other sessions do: a strict call returns an unknown outcome, or a failure of
    which nothing is visible, or the result of the algorithm on the row it found
    under its lock, with exactly that row's successor made visible.  The second
    part is independent of the database: no transaction is left open. *)

From S2P Require Import Prelude GoTime GoHash Errors Keys Policy Backend GoJson JsonFacts.
From S2P Require Import MemoryState PgState PgRows PgCodec PgWire PgStore PgLaws.

Local Open Scope string_scope.
Local Open Scope Z_scope.

(** ** What the algorithms return *)

(** A result is a refusal, or comes with a row and is granted or rejected. *)
Definition answered (next : option persistedState) (err : option error) : Prop :=
  failed err = true \/ exists row, next = Some row /\ (err = None \/ err = Some (Sent ErrRejected)).

Lemma strictChecks_failed current request err : strictChecks current request = Err err -> failed (Some err) = true.
Proof.
  unfold strictChecks, validateServerClockRange, validateSlidingPositions. intros H.
  repeat (case_match; simplify_eq; try done).
Qed.

Lemma mutateState_answered current request : 
  let '(next, _, err) := mutateState current request in answered next err.
Proof.
  unfold mutateState, mutateStateMode.
  match goal with |- context [if ?b then refused _ else _] => destruct b end; [by left|].
  destruct (loadedRow _ _ _) as [row|s] eqn:El.
  2:{ left. unfold loadedRow in El. repeat (case_match; simplify_eq; try done). }
  destruct (strictChecks _ _) as [row'|e] eqn:Es; [|left; by eapply strictChecks_failed].
  unfold mutateToken, mutateFixed, mutateSliding, mutateSlidingLegacy, consume.
  repeat (case_match; simplify_eq); right; eauto.
Qed.

Lemma validateConcurrencyState_failed row name err : validateConcurrencyState row name = Some err -> failed (Some err) = true.
Proof. unfold validateConcurrencyState. intros H. repeat (case_match; simplify_eq; try done). Qed.

Lemma mutateLease_answered current request digest :
  let '(next, _, _, err) := mutateLease current request digest in answered next err.
Proof.
  unfold mutateLease, mutateLeaseMode. destruct (loadedLeaseRow _ _ _) as [row|e] eqn:El.
  2:{ left. unfold loadedLeaseRow in El. repeat (case_match; simplify_eq; try done). by eapply validateConcurrencyState_failed. }
  destruct (validateServerClockRange _ _) as [e|] eqn:Ec.
  { left. unfold validateServerClockRange in Ec. repeat (case_match; simplify_eq; try done). }
  destruct (pruneLoop _ _ _ _) as [[use earliest]|]; [|by left].
  unfold decideLease. cbv zeta. destruct (_ !! digest) as [l|];
    match goal with |- context [if ?b then _ else _] => destruct b end; try (by left); right; eauto.
Qed.

Section Strict.
Context {W : Type} {db : Database W} {wallClock : W -> Time * W}.
Context (withDeadline : Context W -> Time -> Context W) (withoutCancel : Context W -> Context W).
Context `{!PostgresLaws db wallClock}.
(** The context of a rollback is a proper one. *)
Context `{detached : forall ctx deadline, proper ctx -> proper (withDeadline (withoutCancel ctx) deadline)}.

(** ** Opening a transaction *)

Lemma lockRow_spec tx ctx key timeout w `{!genuine tx, !proper ctx} :
  session tx w = Some (None, []) -> committed tx w = [] ->
  match lockRow tx ctx key timeout w with
  | (Ret (Ok _), w') => holding tx (advisoryKey key) (rowAt w') [] w'
  | (_, w') => committed tx w' = []
  end.
Proof.
  intros Hs Hc. unfold lockRow. rewrite bind_unfold.
  pose proof (timeout_steady tx ctx timeout w _ _) as (Ss & Sc & _).
  destruct (setLockTimeout tx ctx timeout w) as [[[err|]|] w1]; simpl in *; [congruence| |congruence].
  rewrite Hs in Ss. pose proof (lock_law tx ctx (advisoryKey key) w1 _ _ _ Ss) as Hl.
  destruct (lockAndTime tx ctx (advisoryKey key) w1) as [[[now|err]|] w2].
  - destruct Hl as [H1 H2]. split_and!; [done|congruence|done].
  - destruct Hl as (_ & H & _). congruence.
  - destruct Hl as (_ & H & _). congruence.
Qed.

Lemma beginLockedStrict_spec opts ctx key timeout w tx w1 `{!proper ctx} :
  begin db ctx w = (Ret (Ok tx), w1) ->
  match beginLockedStrict withDeadline withoutCancel wallClock db opts ctx key timeout w with
  | (Ret (owned, _, err), w') => (exists now, owned = Some (tx, now)) /\
      match err with
      | Some _ => committed tx w' = []
      | None => holding tx (advisoryKey key) (rowAt w') [] w'
      end
  | (Panic, w') => committed tx w' = []
  end.
Proof.
  intros Hb. destruct (begin_opens ctx w tx w1 _ Hb) as (Htx & Hs & Hc).
  unfold beginLockedStrict. rewrite bind_unfold, Hb, bind_unfold.
  pose proof (clock_steady tx w1 _) as (Ss & Sc & _). unfold lift. destruct (wallClock w1) as [started w2]; simpl in Ss, Sc.
  rewrite Hs in Ss. rewrite Hc in Sc. unfold onPanic. rewrite bind_unfold.
  pose proof (lockRow_spec tx ctx key (lockTextStrict (LockTimeout opts)) w2 Ss Sc) as Hl.
  destruct (lockRow _ _ _ _ w2) as [[[now|err]|] w3].
  - cbn. split; [by exists now|done].
  - rewrite bind_unfold. destruct (category_returns ctx (Some err) w3) as (c & w4 & E & Hcat).
    pose proof (steadily_category tx ctx (Some err) w3) as (_ & H & _). rewrite E in *. simpl in H.
    cbn. split; [by exists zeroTime|]. destruct c; [congruence|]. by discriminate (proj1 Hcat eq_refl).
  - unfold rollbackStrict. by rewrite (rollback_law tx _ _ _ _).
Qed.

(** ** A whole transaction *)

(** What a handler may do with a transaction that holds the lock: commit writes
    that [Done] allows, or stop with a refusal. *)
Definition handles {A} (fail : option error -> A) (Refused : A -> Prop)
    (Done : Time -> option row -> list write -> A -> Prop) (key : list Z)
    (body : Transaction W -> Time -> M W (bool * A)) : Prop := forall tx now f w,
  genuine tx -> holding tx (advisoryKey key) f [] w ->
  match body tx now w with
  | (Ret (true, a), w') => exists p, Done now (f key) p a /\ committed tx w' = p /\
      rowAt w' key = applyWrites key (f key) p
  | (Ret (false, a), w') =>
      (exists err, a = fail (Some (UnknownOutcome err))) /\
        (committed tx w' = [] \/ exists p lost, Done now (f key) p lost /\ committed tx w' = p) \/
      Refused a /\ committed tx w' = []
  | (Panic, _) => True
  end.

(** The call that starts in [w] gets the key's lock: its opening statements end
    in the world [wl], at the server's time [now]. *)
Definition locks_in (opts : Options) (ctx : Context W) (key : list Z) (timeout : Duration) (tx : Transaction W) (w : W)
    (now : Time) (wl : W) : Prop :=
  exists deadline, beginLockedStrict withDeadline withoutCancel wallClock db opts ctx key timeout w =
    (Ret (Some (tx, now), deadline, None), wl).

(** The outcome of a strict call that began the transaction [tx]: unknown, and
    then nothing is visible or all that [Done] says; or a refusal of which nothing
    is visible; or what [Done] says of the row that was there when the lock was
    taken, visible as a whole. *)
Definition outcome {A} (fail : option error -> A) (Refused : A -> Prop)
    (Done : Time -> option row -> list write -> A -> Prop) (key : list Z) (tx : Transaction W)
    (locked : Time -> W -> Prop) (a : A) (w' : W) : Prop :=
  ((exists err, a = fail (Some (UnknownOutcome err))) /\
     (committed tx w' = [] \/
      exists now wl p lost, locked now wl /\ Done now (rowAt wl key) p lost /\ committed tx w' = p)) \/
  (Refused a /\ committed tx w' = []) \/
  (exists now wl p, locked now wl /\ Done now (rowAt wl key) p a /\ committed tx w' = p /\
     rowAt w' key = applyWrites key (rowAt wl key) p).

Lemma strictTransaction_unbegun {A} opts ctx key timeout (fail : option error -> A) body w err w1 :
  begin db ctx w = (Ret (Err err), w1) ->
  exists now w', strictTransaction withDeadline withoutCancel wallClock db opts ctx key timeout fail body w
    = (Ret (fail (Some (UnknownOutcome now))), w').
Proof.
  intros Hb. unfold strictTransaction, beginLockedStrict. rewrite !bind_unfold, Hb, bind_unfold.
  destruct (unknown_returns ctx w1) as (now & w2 & ->). by exists now, w2.
Qed.

Lemma strictTransaction_spec {A} opts ctx key timeout (fail : option error -> A) Refused Done body w tx w1 `{!proper ctx} :
  (forall err, Refused (fail (Some err))) -> handles fail Refused Done key body ->
  begin db ctx w = (Ret (Ok tx), w1) ->
  match strictTransaction withDeadline withoutCancel wallClock db opts ctx key timeout fail body w with
  | (Ret a, w') => outcome fail Refused Done key tx (locks_in opts ctx key timeout tx w) a w'
  | (Panic, _) => True
  end.
Proof.
  intros Hfail Hbody Hb. destruct (begin_opens ctx w tx w1 _ Hb) as [Htx _]. unfold strictTransaction. rewrite bind_unfold.
  pose proof (beginLockedStrict_spec opts ctx key timeout w tx w1 Hb) as Hl.
  destruct (beginLockedStrict _ _ _ _ _ _ _ _ w) as [[[[owned deadline] err]|] w2] eqn:Elock; [|done].
  destruct Hl as [[now ->] Hl]. rewrite bind_unfold.
  match goal with |- context [deferred _ _ ?d] => set (D := d) end.
  assert (forall a w3,
    (exists err, a = fail (Some (UnknownOutcome err))) /\
      (committed tx w3 = [] \/ exists now wl p lost, locks_in opts ctx key timeout tx w now wl /\
         Done now (rowAt wl key) p lost /\ committed tx w3 = p) \/
    Refused a /\ committed tx w3 = [] ->
    match D (false, a) w3 with
    | (Ret r, w') => outcome fail Refused Done key tx (locks_in opts ctx key timeout tx w) r.2 w'
    | (Panic, _) => True
    end) as Hroll.
  { intros a w3 Ha. unfold D. cbn [fst]. rewrite bind_unfold. unfold rollbackStrict.
    pose proof (rollback_law tx (withDeadline (withoutCancel ctx) deadline) w3 _ _) as Hr.
    destruct (rollback tx _ w3) as [[[e|]|] w4]; [|..|done].
    - rewrite bind_unfold. pose proof (steadily_unknown tx ctx w4) as (_ & Hk & _).
      destruct (unknown_returns ctx w4) as (n & w5 & E5). rewrite E5 in *. simpl in Hk, Hr. left. split; [by exists n|].
      rewrite Hk, Hr. by destruct Ha as [[_ Ha]|[_ Ha]]; [|left].
    - simpl in Hr. unfold outcome. simpl. rewrite Hr. destruct Ha as [Ha|Ha]; [by left|right; by left]. }
  assert (forall a w3, D (true, a) w3 = (Ret (true, a), w3)) as Hdone by done. clearbody D.
  unfold deferred. destruct err as [err|].
  - specialize (Hroll (fail (Some err)) w2 (or_intror (conj (Hfail err) Hl))).
    cbn. by destruct (D _ w2) as [[r|] w'].
  - specialize (Hbody tx now _ w2 Htx Hl). destruct (body tx now w2) as [[[[] a]|] w3].
    + rewrite Hdone. destruct Hbody as (p & Hd & Hc & Hr). right. right.
      exists now, w2, p. split_and!; try done. by exists deadline.
    + assert (H3 := Hroll a w3). destruct (D _ w3) as [[r|] w']; [|done]. apply H3.
      destruct Hbody as [[Hu [Hc|(p & lost & Hd & Hc)]]|Hbody]; [left; by split; [|left]| |by right].
      left. split; [done|]. right. exists now, w2, p, lost. split_and!; try done. by exists deadline.
    + done.
Qed.

(** ** The handlers *)

(** A known failure: no decision and an error. *)
Definition refusal (a : Decision * option error) : Prop := a.1 = emptyDecision /\ a.2 <> None.

(** An admission was decided on the row [before] at the time [now], and [p]
    replaces that row by its successor. *)
Definition admitted (opts : Options) (key : list Z) (request : Request) (now : Time) (before : option row)
    (p : list write) (a : Decision * option error) : Prop :=
  exists request' seen current next cleared,
    atServerTime opts request now (period (req_Policy request)) = Ok request' /\
    shows before seen /\ shownRow (Now request') seen = Ok current /\
    mutateState current request' = (Some next, a.1, a.2) /\ (a.2 = None \/ a.2 = Some (Sent ErrRejected)) /\
    validateStrictDecisionTime a.1 (observedTime next) = None /\ cleared ⊆ [Del key] /\
    p = (cleared ++ [Put key (encodeState next)
          (Add (observedTime next) (postgresAdmissionTTL (req_Policy request'))) (observedTime next)])%list.

(** The writes of a successful commit leave exactly the successor. *)
Lemma applyWrites_last key before cleared doc expires updated :
  applyWrites key before (cleared ++ [Put key doc expires updated]) = Some (mkRow doc expires).
Proof. unfold applyWrites. rewrite foldl_snoc. simpl. by rewrite bool_decide_eq_true_2. Qed.

Lemma category_known (ctx : Context W) err w : (err = None \/ err = Some (Sent ErrRejected)) ->
  postgresPrecommitCategory ctx err w = (Ret err, w).
Proof. by intros [-> | ->]. Qed.

Lemma stopped_category (ctx : Context W) tx a f p err w `{!genuine tx, !proper ctx} :
  holding tx a f p w -> exists c w', postgresPrecommitCategory ctx (Some err) w = (Ret (Some c), w') /\
    committed tx w' = [].
Proof.
  intros Hh. destruct (category_returns ctx (Some err) w) as (c & w' & E & Hc).
  pose proof (steadily_category tx ctx (Some err) w) as (_ & H & _). rewrite E in H. simpl in H.
  destruct c as [c|]; [|by discriminate (proj1 Hc eq_refl)]. exists c, w'. split; [done|]. rewrite H. apply Hh.
Qed.

(** The category of a failure is a failure. *)
Lemma category_failed (ctx : Context W) err w c w' :
  failed err = true -> postgresPrecommitCategory ctx err w = (Ret c, w') -> failed c = true.
Proof.
  destruct err as [e|]; [|done]. intros Hf. unfold postgresPrecommitCategory, postgresStrictContext.
  assert (forall (b : bool) w, (if b then mret (Some e) else
     early ← (first ← lift (ctxErr ctx);
              if directError first CtxCanceled then mret (Some CanceledOutcome) else
              second ← lift (ctxErr ctx);
              if directError second CtxDeadlineExceeded then mret (Some DeadlineOutcome) else mret None);
     mret (Some (default (Sent ErrUnavailable) early))) w = (Ret c, w') -> failed c = true) as Hother.
  { clear w. intros [] w; [by intros [= <- <-]|]. rewrite !bind_unfold. unfold lift. destruct (ctxErr ctx w) as [first w1].
    destruct (directError first CtxCanceled); [by intros [= <- <-]|]. rewrite bind_unfold.
    destruct (ctxErr ctx w1) as [second w2]. destruct (directError second CtxDeadlineExceeded); by intros [= <- <-]. }
  destruct e; try apply Hother. by intros [= <- <-].
Qed.

Lemma failure_classified (ctx : Context W) err w :
  failed err = true -> exists c w', postgresPrecommitCategory ctx err w = (Ret c, w') /\ failed c = true.
Proof.
  intros Hf. destruct (category_returns ctx err w) as (c & w' & E & _). exists c, w'. split; [done|].
  by eapply category_failed.
Qed.

Lemma validateStrictDecisionTime_failed d t err : validateStrictDecisionTime d t = Some err -> failed (Some err) = true.
Proof. unfold validateStrictDecisionTime. case_match; by intros [= <-]. Qed.

Lemma validateStrictLeaseTime_failed l d t err : validateStrictLeaseTime l d t = Some err -> failed (Some err) = true.
Proof.
  unfold validateStrictLeaseTime. destruct (validateStrictDecisionTime d t) eqn:E.
  - intros [= <-]. by eapply validateStrictDecisionTime_failed.
  - case_match; by intros [= <-].
Qed.

(** Before it is written a result becomes a refusal, or passes the checks. *)
Lemma decision_checked (ctx : Context W) next d err w :
  answered next err -> exists d' err' w',
    strictPostgresDecisionResult ctx next d err w = (Ret (d', err'), w') /\
    (d' = emptyDecision /\ failed err' = true \/
     d' = d /\ err' = err /\ exists row, next = Some row /\ validateStrictDecisionTime d (observedTime row) = None /\
       (err = None \/ err = Some (Sent ErrRejected))).
Proof.
  intros Ha. unfold strictPostgresDecisionResult. destruct (failed err) eqn:Hf.
  - rewrite bind_unfold. destruct (failure_classified ctx err w Hf) as (c & w' & -> & Hc).
    exists emptyDecision, c, w'. split; [done|by left].
  - destruct Ha as [Ha|(row & -> & Hk)]; [congruence|].
    destruct (validateStrictDecisionTime d (observedTime row)) as [e|] eqn:Ev; eexists _, _, w; (split; [done|]).
    + left. split; [done|]. by eapply validateStrictDecisionTime_failed.
    + right. split_and!; [done..|]. by exists row.
Qed.

Lemma lease_checked (ctx : Context W) next l d err w :
  answered next err -> exists l' d' err' w',
    strictPostgresLeaseResult ctx next l d err w = (Ret (l', d', err'), w') /\
    (l' = zeroLease /\ d' = emptyDecision /\ failed err' = true \/
     l' = l /\ d' = d /\ err' = err /\ exists row, next = Some row /\ validateStrictLeaseTime l d (observedTime row) = None /\
       (err = None \/ err = Some (Sent ErrRejected))).
Proof.
  intros Ha. unfold strictPostgresLeaseResult. destruct (failed err) eqn:Hf.
  - rewrite bind_unfold. destruct (failure_classified ctx err w Hf) as (c & w' & -> & Hc).
    exists zeroLease, emptyDecision, c, w'. split; [done|by left].
  - destruct Ha as [Ha|(row & -> & Hk)]; [congruence|].
    destruct (validateStrictLeaseTime l d (observedTime row)) as [e|] eqn:Ev; eexists _, _, _, w; (split; [done|]).
    + left. split_and!; [done..|]. by eapply validateStrictLeaseTime_failed.
    + right. split_and!; [done..|]. by exists row.
Qed.

(** The checks leave the transaction alone. *)
Lemma steadily_decision tx ctx next d err `{!genuine tx, !proper ctx} :
  steadily tx (strictPostgresDecisionResult ctx next d err).
Proof.
  unfold strictPostgresDecisionResult. destruct (failed err).
  - apply steadily_bind; [by apply steadily_category|intros; apply steadily_ret].
  - destruct next; [case_match; apply steadily_ret|]. intros w. reflexivity.
Qed.

Lemma steadily_lease tx ctx next l d err `{!genuine tx, !proper ctx} :
  steadily tx (strictPostgresLeaseResult ctx next l d err).
Proof.
  unfold strictPostgresLeaseResult. destruct (failed err).
  - apply steadily_bind; [by apply steadily_category|intros; apply steadily_ret].
  - destruct next; [case_match; apply steadily_ret|]. intros w. reflexivity.
Qed.

Lemma admitBody_handles opts ctx key request `{!proper ctx} :
  handles (pair emptyDecision) refusal (admitted opts key request) key (admitBody opts ctx key request).
Proof.
  intros tx now f w Htx Hh. unfold admitBody.
  destruct (atServerTime _ _ _ _) as [request'|e] eqn:Eat; [|right; split; [done|apply Hh]].
  rewrite bind_unfold. pose proof (loadStateStrict_spec ctx tx key (Now request') f w Hh) as Hl.
  destruct (loadStateStrict ctx tx key (Now request') w) as [[[current|err]|] w1]; [|..|done].
  2:{ destruct Hl as [p Hl]. rewrite bind_unfold.
      destruct (stopped_category ctx tx _ _ _ err w1 Hl) as (c & w2 & -> & Hc). right. by split. }
  destruct Hl as (seen & p & Hsh & Hload & Hp & Hl).
  pose proof (mutateState_answered current request') as Hans.
  destruct (mutateState current request') as [[next d] err] eqn:Em. rewrite bind_unfold.
  pose proof (holding_steadily _ _ _ _ _ _ Hl (steadily_decision tx ctx next d err)) as Hh2.
  destruct (decision_checked ctx next d err w1 Hans) as (d' & err' & w2 & E & Hres). rewrite E in *. simpl in Hh2.
  destruct Hres as [[-> Hf]|(-> & -> & row & -> & Hv & Hk)].
  { rewrite Hf. right. split; [|apply Hh2]. split; [done|]. simpl. by intros ->. }
  assert (failed err = false) as -> by (by destruct Hk as [-> | ->]). rewrite bind_unfold.
  set (doc := encodeState row). set (at_ := observedTime row).
  pose proof (writeAndCommit_spec ctx tx _ f p _ _ w2
    (upsert_collects tx _ f p ctx key doc (Add at_ (postgresAdmissionTTL (req_Policy request'))) at_) Hh2) as Hw.
  assert (admitted opts key request now (f key)
    (p ++ [Put key doc (Add at_ (postgresAdmissionTTL (req_Policy request'))) at_])%list (d, err)) as Hdone.
  { exists request', seen, current, row, p. by split_and!. }
  destruct (writeAndCommit ctx tx _ w2) as [[[stop|]|] w3]; [|..|done].
  - destruct Hw as [Hne [[[n ->] Hc]|Hh3]]; [|right; split; [done|apply Hh3]]. left. split; [by exists n|].
    destruct Hc as [Hc|Hc]; [by left|]. right. eexists _, _. by split; [exact Hdone|].
  - rewrite bind_unfold, category_known by done. destruct Hw as [Hc Hr]. eexists. split; [exact Hdone|].
    split; [exact Hc|by apply Hr].
Qed.

(** A known failure of an acquisition. *)
Definition lease_refusal (a : Lease * Decision * option error) : Prop :=
  a.1 = (zeroLease, emptyDecision) /\ a.2 <> None.

Definition acquired (opts : Options) (key : list Z) (request : LeaseRequest) (digest : string) (now : Time)
    (before : option row) (p : list write) (a : Lease * Decision * option error) : Prop :=
  exists r seen current next cleared,
    atServerTime opts (lr_Request request) now (lease (req_Policy (lr_Request request))) = Ok r /\
    shows before seen /\ shownRow (Now r) seen = Ok current /\
    mutateLease current (mkLeaseRequest r (LeaseID request)) digest = (Some next, a.1.1, a.1.2, a.2) /\
    (a.2 = None \/ a.2 = Some (Sent ErrRejected)) /\
    validateStrictLeaseTime a.1.1 a.1.2 (observedTime next) = None /\ cleared ⊆ [Del key] /\
    p = (cleared ++ [Put key (encodeState next)
          (Add (observedTime next) (postgresStateTTL (lease (req_Policy (lr_Request request)))))
          (observedTime next)])%list.

Lemma acquireBody_handles opts ctx key request digest `{!proper ctx} :
  handles (pair (zeroLease, emptyDecision)) lease_refusal (acquired opts key request digest) key
    (acquireBody opts ctx key request digest).
Proof.
  intros tx now f w Htx Hh. unfold acquireBody.
  destruct (atServerTime _ _ _ _) as [r|e] eqn:Eat; [|right; split; [done|apply Hh]].
  rewrite bind_unfold. pose proof (loadStateStrict_spec ctx tx key (Now r) f w Hh) as Hl.
  destruct (loadStateStrict ctx tx key (Now r) w) as [[[current|err]|] w1]; [|..|done].
  2:{ destruct Hl as [p Hl]. rewrite bind_unfold.
      destruct (stopped_category ctx tx _ _ _ err w1 Hl) as (c & w2 & -> & Hc). right. by split. }
  destruct Hl as (seen & p & Hsh & Hload & Hp & Hl). set (request' := mkLeaseRequest r (LeaseID request)).
  pose proof (mutateLease_answered current request' digest) as Hans.
  destruct (mutateLease current request' digest) as [[[next l] d] err] eqn:Em. rewrite bind_unfold.
  pose proof (holding_steadily _ _ _ _ _ _ Hl (steadily_lease tx ctx next l d err)) as Hh2.
  destruct (lease_checked ctx next l d err w1 Hans) as (l' & d' & err' & w2 & E & Hres). rewrite E in *. simpl in Hh2.
  destruct Hres as [(-> & -> & Hf)|(-> & -> & -> & row & -> & Hv & Hk)].
  { rewrite Hf. right. split; [|apply Hh2]. split; [done|]. simpl. by intros ->. }
  assert (failed err = false) as -> by (by destruct Hk as [-> | ->]). rewrite bind_unfold.
  set (doc := encodeState row). set (at_ := observedTime row).
  pose proof (writeAndCommit_spec ctx tx _ f p _ _ w2
    (upsert_collects tx _ f p ctx key doc (Add at_ (postgresStateTTL (lease (req_Policy (lr_Request request))))) at_) Hh2) as Hw.
  assert (acquired opts key request digest now (f key)
    (p ++ [Put key doc (Add at_ (postgresStateTTL (lease (req_Policy (lr_Request request))))) at_])%list (l, d, err)) as Hdone.
  { exists r, seen, current, row, p. by split_and!. }
  destruct (writeAndCommit ctx tx _ w2) as [[[stop|]|] w3]; [|..|done].
  - destruct Hw as [Hne [[[n ->] Hc]|Hh3]]; [|right; split; [done|apply Hh3]]. left. split; [by exists n|].
    destruct Hc as [Hc|Hc]; [by left|]. right. eexists _, _. by split; [exact Hdone|].
  - rewrite bind_unfold, category_known by done. destruct Hw as [Hc Hr]. eexists. split; [exact Hdone|].
    split; [exact Hc|by apply Hr].
Qed.

(** What a release reads: the row, expired or not. *)
Definition storedRow (seen : option (string * Time * bool)) : result error (option persistedState) :=
  match seen with
  | None => Ok None
  | Some (encoded, _, within) =>
      if negb within then Err (Sent ErrCorrupt) else
      match decodeState encoded with Ok s => Ok (Some s) | Err err => Err err end
  end.

Definition released (key : list Z) (l : Lease) (digest : string) (now : Time) (before : option row)
    (p : list write) (err : option error) : Prop :=
  exists seen current remaining,
    shows before seen /\ storedRow seen = Ok (Some current) /\
    validateConcurrencyState current (lease_PolicyID l) = None /\
    ownedLease current digest l = Ok remaining /\ err = None /\
    p = [if bool_decide (remaining = ∅) then Del key
         else Put key (encodeState (setPersistedLeases current remaining)) (latestLeaseExpiry remaining) (toUTC now)].

Lemma loadStateForReleaseStrict_spec ctx tx key f w `{!genuine tx, !proper ctx} :
  holding tx (advisoryKey key) f [] w ->
  match loadStateForReleaseStrict ctx tx key w with
  | (Ret loaded, w') => holding tx (advisoryKey key) f [] w' /\
      match loaded with Ok current => exists seen, shows (f key) seen /\ storedRow seen = Ok current | Err _ => True end
  | (Panic, _) => True
  end.
Proof.
  intros Hh. unfold loadStateForReleaseStrict. rewrite bind_unfold.
  pose proof (select_steady tx ctx key maxEncodedStateBytes w _ _) as Hst.
  pose proof (select_shows tx ctx key maxEncodedStateBytes w) as Hsh.
  destruct (selectStateStrict tx ctx key maxEncodedStateBytes w) as [[[seen|err]|] w1]; simpl in Hst; [|..|done];
    pose proof (holding_steady _ _ _ _ _ _ Hh Hst) as Hh1; [|done].
  destruct Hh as (Hs & _ & Hr). specialize (Hsh seen w1 _ _ Hs eq_refl). rewrite (Hr key eq_refl) in Hsh.
  split; [done|].
  destruct (storedRow seen) as [current|e] eqn:E; destruct seen as [[[encoded expires] []]|]; simpl in E |- *;
    try destruct (decodeState encoded) eqn:Ed; simplify_eq; try done; eexists; (split; [exact Hsh|]); simpl; by rewrite ?Ed.
Qed.

Lemma released_collects tx ctx key f now current remaining `{!genuine tx, !proper ctx} :
  collects tx (advisoryKey key) f []
    (if bool_decide (remaining = ∅) then Del key
     else Put key (encodeState (setPersistedLeases current remaining)) (latestLeaseExpiry remaining) (toUTC now))
    (writeReleased ctx tx key now current remaining).
Proof. unfold writeReleased. case_bool_decide; [by apply delete_collects|by apply upsert_collects]. Qed.

Lemma releaseBody_handles ctx key l digest `{!proper ctx} :
  handles (fun err => err) (fun err => err <> None) (released key l digest) key (releaseBody ctx key l digest).
Proof.
  intros tx now f w Htx Hh. unfold releaseBody. rewrite bind_unfold.
  pose proof (loadStateForReleaseStrict_spec ctx tx key f w Hh) as Hl.
  destruct (loadStateForReleaseStrict ctx tx key w) as [[[[current|]|err]|] w1]; [| | |done]; destruct Hl as [Hh1 Hl].
  2:{ right. split; [done|apply Hh1]. }
  2:{ rewrite bind_unfold. destruct (stopped_category ctx tx _ _ _ err w1 Hh1) as (c & w2 & -> & Hc). by right. }
  destruct Hl as (seen & Hsh & Hs).
  destruct (validateConcurrencyState current (lease_PolicyID l)) as [e|] eqn:Ev; [right; split; [done|apply Hh1]|].
  destruct (ownedLease current digest l) as [remaining|e] eqn:Eo; [|right; split; [done|apply Hh1]].
  rewrite bind_unfold. pose proof (writeAndCommit_spec ctx tx _ f [] _ _ w1 (released_collects tx ctx key f now current remaining) Hh1) as Hw.
  assert (released key l digest now (f key)
    [if bool_decide (remaining = ∅) then Del key
     else Put key (encodeState (setPersistedLeases current remaining)) (latestLeaseExpiry remaining) (toUTC now)] None) as Hdone.
  { exists seen, current, remaining. by split_and!. }
  destruct (writeAndCommit ctx tx _ w1) as [[[stop|]|] w2]; [|..|done].
  - destruct Hw as [Hne [[[n ->] Hc]|Hh3]]; [|right; split; [done|apply Hh3]]. left. split; [by exists n|].
    destruct Hc as [Hc|Hc]; [by left|]. right. eexists _, _. by split; [exact Hdone|].
  - destruct Hw as [Hc Hr]. eexists. split; [exact Hdone|]. split; [exact Hc|by apply Hr].
Qed.

(** ** Calls return *)

(** No statement of the transaction panics. *)
Record calm (tx : Transaction W) : Prop := {
  calm_timeout ctx t : total (setLockTimeout tx ctx t);
  calm_lock ctx a : total (lockAndTime tx ctx a);
  calm_select ctx k limit : total (selectStateStrict tx ctx k limit);
  calm_delete ctx k : total (deleteState tx ctx k);
  calm_upsert ctx k doc expires updated : total (upsertState tx ctx k doc expires updated);
  calm_commit ctx : total (commit tx ctx);
  calm_rollback ctx : total (rollback tx ctx)
}.

Ltac total_steps := repeat first
  [ apply total_bind; intros | apply total_ret | apply total_lift | (eauto using calm_timeout, calm_lock, calm_select, calm_delete, calm_upsert, calm_commit, calm_rollback; fail) | case_match ].

Lemma total_category (ctx : Context W) err : total (postgresPrecommitCategory ctx err).
Proof. intros w. destruct (category_returns ctx err w) as (c & w' & E & _). by exists c, w'. Qed.

Lemma total_unknown_outcome (ctx : Context W) : total (unknownOutcome ctx).
Proof. intros w. destruct (unknown_returns ctx w) as (now & w' & E). by eexists _, w'. Qed.

#[local] Hint Resolve total_category total_unknown_outcome : core.

Lemma total_load ctx tx key now : calm tx -> total (loadStateStrict ctx tx key now).
Proof. intros Hc. unfold loadStateStrict. total_steps. Qed.

Lemma total_load_release ctx tx key : calm tx -> total (loadStateForReleaseStrict ctx tx key).
Proof. intros Hc. unfold loadStateForReleaseStrict. total_steps. Qed.

Lemma total_write ctx tx write : calm tx -> total write -> total (writeAndCommit ctx tx write).
Proof. intros Hc Hw. unfold writeAndCommit. total_steps. Qed.

Lemma total_admitBody opts ctx key request tx now : calm tx -> total (admitBody opts ctx key request tx now).
Proof.
  intros Hc. unfold admitBody. destruct (atServerTime _ _ _ _) as [r|]; [|apply total_ret].
  apply total_bind; [by apply total_load|]. intros [current|err]; [|total_steps].
  pose proof (mutateState_answered current r) as Hans. destruct (mutateState current r) as [[next d] err].
  apply total_no_panic. intros w. rewrite bind_unfold. destruct (decision_checked ctx next d err w Hans) as (d' & err' & w1 & -> & Hres).
  destruct (failed err') eqn:Hf; [done|]. destruct Hres as [[_ Hf']|(-> & -> & row & -> & _)]; [congruence|].
  revert w1. apply total_no_panic, total_bind; [by apply total_write, calm_upsert|]. intros. total_steps.
Qed.

Lemma total_acquireBody opts ctx key request digest tx now :
  calm tx -> total (acquireBody opts ctx key request digest tx now).
Proof.
  intros Hc. unfold acquireBody. destruct (atServerTime _ _ _ _) as [r|]; [|apply total_ret].
  apply total_bind; [by apply total_load|]. intros [current|err]; [|total_steps].
  set (request' := mkLeaseRequest r (LeaseID request)).
  pose proof (mutateLease_answered current request' digest) as Hans.
  destruct (mutateLease current request' digest) as [[[next l] d] err].
  apply total_no_panic. intros w. rewrite bind_unfold. destruct (lease_checked ctx next l d err w Hans) as (l' & d' & err' & w1 & -> & Hres).
  destruct (failed err') eqn:Hf; [done|].
  destruct Hres as [(_ & _ & Hf')|(-> & -> & -> & row & -> & _)]; [congruence|].
  revert w1. apply total_no_panic, total_bind; [by apply total_write, calm_upsert|]. intros. total_steps.
Qed.

Lemma total_releaseBody ctx key l digest tx now : calm tx -> total (releaseBody ctx key l digest tx now).
Proof.
  intros Hc. unfold releaseBody. apply total_bind; [by apply total_load_release|].
  intros [[current|]|err]; [|apply total_ret|total_steps]. case_match; [apply total_ret|].
  case_match; [|apply total_ret]. apply total_bind; [|intros []; apply total_ret].
  apply total_write; [done|]. unfold writeReleased. total_steps.
Qed.

Lemma total_onPanic {A} (body : M W A) handler : total body -> total (onPanic body handler).
Proof. intros Hb w. destruct (Hb w) as (a & w' & E). exists a, w'. unfold returns, onPanic in *. by rewrite E. Qed.

Lemma total_lockRow tx ctx key timeout : calm tx -> total (lockRow tx ctx key timeout).
Proof. intros Hc. unfold lockRow. total_steps. Qed.

Lemma strictTransaction_returns {A} opts ctx key timeout (fail : option error -> A) body :
  total (begin db ctx) -> (forall w tx w', begin db ctx w = (Ret (Ok tx), w') -> calm tx) ->
  (forall tx now, calm tx -> total (body tx now)) ->
  total (strictTransaction withDeadline withoutCancel wallClock db opts ctx key timeout fail body).
Proof.
  intros Hb Hcalm Hbody. apply total_no_panic. intros w. unfold strictTransaction. rewrite bind_unfold.
  assert (match beginLockedStrict withDeadline withoutCancel wallClock db opts ctx key timeout w with
    | (Ret (Some (tx, _), _, _), _) => calm tx | (Ret _, _) => True | (Panic, _) => False end) as Hbegun.
  { unfold beginLockedStrict. rewrite bind_unfold. specialize (Hcalm w). pose proof (proj1 (total_no_panic _) Hb w) as Hp.
    destruct (begin db ctx w) as [[[tx|err]|] w1]; [|..|done].
    - specialize (Hcalm tx w1 eq_refl). rewrite bind_unfold. unfold lift. destruct (wallClock w1) as [started w2].
      unfold onPanic. rewrite bind_unfold.
      pose proof (proj1 (total_no_panic _) (total_lockRow tx ctx key (lockTextStrict (LockTimeout opts)) Hcalm) w2) as Hl.
      destruct (lockRow _ _ _ _ w2) as [[[now|e]|] w3]; [done| |done].
      rewrite bind_unfold. by destruct (category_returns ctx (Some e) w3) as (? & ? & -> & _).
    - rewrite bind_unfold. by destruct (unknown_returns ctx w1) as (? & ? & ->). }
  destruct (beginLockedStrict _ _ _ _ _ _ _ _ w) as [[[[[[tx now]|] deadline] err]|] w1]; try done.
  revert w1. apply total_no_panic, total_bind; [|intros; apply total_ret].
  apply total_deferred; [destruct err; [apply total_ret|by apply Hbody]|].
  intros [[] a]; cbn [fst]; [apply total_ret|]. unfold rollbackStrict. total_steps.
Qed.

(** ** Atomicity *)

(** A strict call on a database whose statements do not panic returns, and what
    it returns is unknown, refused without trace, or done as a whole. *)
Definition atomically {A} (fail : option error -> A) (Refused : A -> Prop)
    (Done : Time -> option row -> list write -> A -> Prop) (opts : Options) (ctx : Context W) (key : list Z)
    (timeout : Duration) (call : M W A) (w : W) : Prop :=
  exists a w', call w = (Ret a, w') /\
    match begin db ctx w with
    | (Ret (Ok tx), _) => outcome fail Refused Done key tx (locks_in opts ctx key timeout tx w) a w'
    | _ => exists err, a = fail (Some (UnknownOutcome err))
    end.

Lemma strictTransaction_atomic {A} opts ctx key timeout (fail : option error -> A) Refused Done body w `{!proper ctx} :
  total (begin db ctx) -> (forall w tx w', begin db ctx w = (Ret (Ok tx), w') -> calm tx) ->
  (forall tx now, calm tx -> total (body tx now)) ->
  (forall err, Refused (fail (Some err))) -> handles fail Refused Done key body ->
  atomically fail Refused Done opts ctx key timeout
    (strictTransaction withDeadline withoutCancel wallClock db opts ctx key timeout fail body) w.
Proof.
  intros Hb Hcalm Hbody Hfail Hh.
  pose proof (proj1 (total_no_panic _) (strictTransaction_returns opts ctx key timeout fail body Hb Hcalm Hbody) w) as Hret.
  unfold atomically. pose proof (proj1 (total_no_panic _) Hb w) as Hp. destruct (begin db ctx w) as [[[tx|err]|] w1] eqn:E; [|..|done].
  - pose proof (strictTransaction_spec opts ctx key timeout fail Refused Done body w tx w1 Hfail Hh E) as Ho.
    destruct (strictTransaction _ _ _ _ _ _ _ _ _ _ w) as [[a|] w']; [by exists a, w'|done].
  - destruct (strictTransaction_unbegun opts ctx key timeout fail body w err w1 E) as (now & w' & ->). by eexists _, w'; eauto.
Qed.

(** C7: Whatever fails in the database and whatever other sessions do, a strict
    PostgreSQL call returns, and its result is an unknown outcome (nothing or all
    of what it decided is then visible), or a failure with no decision of which no
    write is visible, or the result of the algorithm
    on the row that was there when its own lock statement returned, at the server
    time of that statement, whose successor (and nothing else) has then become
    visible in one commit. *)
Theorem strict_calls_are_atomic opts ctx key timeout w :
  proper ctx -> total (begin db ctx) -> (forall w tx w', begin db ctx w = (Ret (Ok tx), w') -> calm tx) ->
  (forall request, atomically (pair emptyDecision) refusal (admitted opts key request) opts ctx key timeout
     (admitStrict withDeadline withoutCancel wallClock db opts ctx key request timeout) w) /\
  (forall request digest, atomically (pair (zeroLease, emptyDecision)) lease_refusal
     (acquired opts key request digest) opts ctx key timeout
     (acquireStrict withDeadline withoutCancel wallClock db opts ctx key request digest timeout) w) /\
  (forall l digest, atomically (fun err => err) (fun err => err <> None) (released key l digest) opts ctx key timeout
     (releaseStrict withDeadline withoutCancel wallClock db opts ctx key l digest timeout) w).
Proof.
  intros Hctx Hb Hcalm. split_and!; intros; apply strictTransaction_atomic; try done.
  - intros. by apply total_admitBody.
  - by apply admitBody_handles.
  - intros. by apply total_acquireBody.
  - by apply acquireBody_handles.
  - intros. by apply total_releaseBody.
  - by apply releaseBody_handles.
Qed.
End Strict.

(** ** Transactions end *)

Section Ends.
Context {W : Type} (db : Database W) (wallClock : W -> Time * W).
Context (withDeadline : Context W -> Time -> Context W) (withoutCancel : Context W -> Context W).
Context (ctx : Context W) (tx : Transaction W) (closed : W -> Prop).
(** The transaction is over once a commit succeeded or a rollback was tried, and
    reading the context does not reopen it. *)
Hypothesis commit_closes : forall w w', commit tx ctx w = (Ret None, w') -> closed w'.
Hypothesis rollback_closes : forall ctx' w, closed (rollback tx ctx' w).2.
Hypothesis context_keeps : forall w, closed w -> closed (ctxErr ctx w).2.

Definition keeps {A} (c : M W A) : Prop := forall w, closed w -> closed (c w).2.

Lemma keeps_bind {A B} (c : M W A) (k : A -> M W B) : keeps c -> (forall a, keeps (k a)) -> keeps (c ≫= k).
Proof.
  intros Hc Hk w Hw. rewrite bind_unfold. specialize (Hc w Hw). destruct (c w) as [[a|] w']; [by apply Hk|done].
Qed.

Lemma keeps_context : keeps (lift (ctxErr ctx)).
Proof. intros w Hw. unfold lift. specialize (context_keeps w Hw). by destruct (ctxErr ctx w). Qed.

Ltac keeps_steps := repeat first [apply keeps_bind; intros | apply keeps_context | case_match | by intros ? ?].

Lemma keeps_category err : keeps (postgresPrecommitCategory ctx err).
Proof. unfold postgresPrecommitCategory, postgresStrictContext. keeps_steps. Qed.

Lemma keeps_unknown : keeps (unknownOutcome ctx).
Proof. unfold unknownOutcome. keeps_steps. Qed.

(** A handler that says it committed has closed the transaction. *)
Definition commits {A} (c : M W (bool * A)) : Prop := forall w a w', c w = (Ret (true, a), w') -> closed w'.

Lemma commits_bind {A B} (c : M W A) (k : A -> M W (bool * B)) : (forall a, commits (k a)) -> commits (c ≫= k).
Proof. intros Hk w b w'. rewrite bind_unfold. destruct (c w) as [[a|] w1]; [apply Hk|done]. Qed.

Lemma commits_ret {A} (a : A) : commits (mret (false, a)).
Proof. by intros w b w'. Qed.

(** A commit is followed by statements that keep the transaction closed. *)
Lemma commits_write {A} write (k : option (option error) -> M W (bool * A)) :
  keeps (k None) -> (forall err, commits (k (Some err))) -> commits (writeAndCommit ctx tx write ≫= k).
Proof.
  intros Hn Hs w a w'. unfold writeAndCommit. rewrite !bind_unfold.
  destruct (write w) as [[[err|]|] w1]; [|..|done]; rewrite !bind_unfold.
  - destruct (postgresPrecommitCategory ctx (Some err) w1) as [[c|] w2]; [apply Hs|done].
  - destruct (commit tx ctx w1) as [[[err|]|] w2] eqn:E; [|..|done].
    + rewrite bind_unfold. destruct (unknownOutcome ctx w2) as [[c|] w3]; [apply Hs|done].
    + cbn. intros Ek. specialize (Hn w2 (commit_closes _ _ E)). by rewrite Ek in Hn.
Qed.

Ltac commits_steps := repeat first
  [ apply commits_write; [keeps_steps; apply keeps_category | intros] | apply commits_bind; intros
  | apply commits_ret | case_match | by intros ? ? ? ].

Lemma admitBody_commits opts key request now : commits (admitBody opts ctx key request tx now).
Proof. unfold admitBody. commits_steps. Qed.

Lemma acquireBody_commits opts key request digest now : commits (acquireBody opts ctx key request digest tx now).
Proof. unfold acquireBody. commits_steps. Qed.

Lemma releaseBody_commits key l digest now : commits (releaseBody ctx key l digest tx now).
Proof. unfold releaseBody. commits_steps. Qed.

Section Begun.
Context (opts : Options) (key : list Z) (w w1 : W).
Hypothesis Hbegin : begin db ctx w = (Ret (Ok tx), w1).

(** The panic of a statement that opens the transaction rolls it back. *)
Lemma begun_owns timeout :
  match beginLockedStrict withDeadline withoutCancel wallClock db opts ctx key timeout w with
  | (Ret (owned, _, _), _) => exists now, owned = Some (tx, now)
  | (Panic, w') => closed w'
  end.
Proof.
  unfold beginLockedStrict. rewrite bind_unfold, Hbegin, bind_unfold. unfold lift.
  destruct (wallClock w1) as [started w2]. unfold onPanic. rewrite bind_unfold.
  destruct (lockRow _ _ _ _ w2) as [[[now|err]|] w3]; [by exists now| |apply rollback_closes].
  rewrite bind_unfold. destruct (postgresPrecommitCategory _ _ w3) as [[c|] w4]; [by exists zeroTime|apply rollback_closes].
Qed.

Lemma strictTransaction_ends {A} timeout (fail : option error -> A) body :
  (forall now, commits (body tx now)) ->
  closed (strictTransaction withDeadline withoutCancel wallClock db opts ctx key timeout fail body w).2.
Proof.
  intros Hbody. unfold strictTransaction. rewrite bind_unfold. pose proof (begun_owns timeout) as Hown.
  destruct (beginLockedStrict _ _ _ _ _ _ _ _ w) as [[[[owned deadline] err]|] w2]; [|done].
  destruct Hown as [now ->]. rewrite bind_unfold.
  match goal with |- context [deferred _ ?b ?d] => set (run := b); set (D := d) end.
  assert (commits run) as Hrun by (unfold run; destruct err; [apply commits_ret|apply Hbody]).
  assert (forall a w3, closed (D (false, a) w3).2) as Hroll.
  { intros a w3. unfold D. cbn [fst]. rewrite bind_unfold. unfold rollbackStrict.
    pose proof (rollback_closes (withDeadline (withoutCancel ctx) deadline) w3) as Hc.
    destruct (rollback tx _ w3) as [[[e|]|] w4]; try done. rewrite bind_unfold.
    pose proof (keeps_unknown w4 Hc) as Hk. by destruct (unknownOutcome ctx w4) as [[]]. }
  assert (forall a w3, D (true, a) w3 = (Ret (true, a), w3)) as Hdone by done. clearbody D run. unfold deferred.
  destruct (run w2) as [[[[] a]|] w3] eqn:E.
  - rewrite Hdone. by apply (Hrun _ _ _ E).
  - specialize (Hroll a w3). by destruct (D _ w3) as [[]].
  - apply Hroll.
Qed.

Lemma releasedTransaction_ends {A} (fail : error -> A) body locked w2 :
  lockRow tx ctx key (lockText (LockTimeout opts)) w1 = (Ret locked, w2) ->
  closed (releasedTransaction withoutCancel db opts ctx key fail body w).2.
Proof.
  intros Hlock. unfold releasedTransaction, beginLocked, discard. rewrite !bind_unfold, Hbegin, bind_unfold, Hlock.
  assert (forall w3, closed (rollback tx (withoutCancel ctx) w3).2) as Hc by (intros; apply rollback_closes).
  destruct locked as [now|err].
  - unfold deferred. cbn. destruct (body tx now w2) as [[r|] w3]; rewrite !bind_unfold;
      specialize (Hc w3); by destruct (rollback tx _ w3) as [[e|] w4].
  - rewrite !bind_unfold. specialize (Hc w2). by destruct (rollback tx _ w2) as [[e|] w4].
Qed.
End Begun.

(** C21: No transaction is left open.  Whatever a strict call's statements do,
    return an error or panic, the transaction it began was committed or rolled
    back when the call ends.  The same holds of a released call whose opening
    statements (the lock timeout and the lock) return, with or without an error:
    what follows may panic too. *)
Theorem transactions_end opts key w w1 :
  begin db ctx w = (Ret (Ok tx), w1) ->
  (forall request timeout, closed (admitStrict withDeadline withoutCancel wallClock db opts ctx key request timeout w).2) /\
  (forall request digest timeout,
     closed (acquireStrict withDeadline withoutCancel wallClock db opts ctx key request digest timeout w).2) /\
  (forall l digest timeout,
     closed (releaseStrict withDeadline withoutCancel wallClock db opts ctx key l digest timeout w).2) /\
  (forall locked w2, lockRow tx ctx key (lockText (LockTimeout opts)) w1 = (Ret locked, w2) ->
     (forall request, closed (admitNative withoutCancel db opts ctx key request w).2) /\
     (forall request digest, closed (acquire withoutCancel db opts ctx key request digest w).2) /\
     (forall l digest, closed (release withoutCancel db opts ctx key l digest w).2)).
Proof.
  intros Hb. split_and!; [| | |intros locked w2 Hlock; split_and!]; intros.
  - apply (strictTransaction_ends opts key w w1 Hb). intros. apply admitBody_commits.
  - apply (strictTransaction_ends opts key w w1 Hb). intros. apply acquireBody_commits.
  - apply (strictTransaction_ends opts key w w1 Hb). intros. apply releaseBody_commits.
  - by eapply (releasedTransaction_ends opts key w w1 Hb).
  - by eapply (releasedTransaction_ends opts key w w1 Hb).
  - by eapply (releasedTransaction_ends opts key w w1 Hb).
Qed.
End Ends.

(** ** A database with one connection *)

Module DemoDatabase.
Record world := mkWorld {
  rows : list Z -> option row;
  open : option (option Z * list write);
  visible : list write;
  server : Z;
  lostCommit : bool
}.

Definition opened (w : world) (s : option (option Z * list write)) : world :=
  mkWorld (rows w) s (visible w) (server w) (lostCommit w).
Definition refused {A} : M world (result error A) := mret (Err (Sent ErrUnavailable)).

Definition collect (x : write) : M world (option error) := fun w =>
  match open w with
  | Some (l, p) => (Ret None, opened w (Some (l, (p ++ [x])%list)))
  | None => (Ret (Some (Sent ErrUnavailable)), w)
  end.

Definition tx : Transaction world := mkTransaction
  (fun _ _ => mret None)
  (fun _ a w => match open w with
                | Some (None, p) => (Ret (Ok (toUTC (ofUnixMicro (server w)))), opened w (Some (Some a, p)))
                | _ => refused w
                end)
  (fun _ k w => (Ret (Ok (option_map (fun r => (row_doc r, row_expires r)) (rows w k))), w))
  (fun _ k limit w => (Ret (Ok (option_map (fun r => (row_doc r, row_expires r,
     Z.of_nat (String.length (row_doc r)) <=? limit)) (rows w k))), w))
  (fun _ k => collect (Del k))
  (fun _ k doc expires updated => collect (Put k doc expires updated))
  (fun _ w => match open w with
              | Some (_, p) =>
                  (Ret (if lostCommit w then Some (Sent ErrUnavailable) else None),
                   mkWorld (fun k => applyWrites k (rows w k) p) None p (server w) (lostCommit w))
              | None => (Ret (Some (Sent ErrUnavailable)), w)
              end)
  (fun _ w => (Ret None, opened w None)).

Definition db : Database world := mkDatabase
  (fun _ w => (Ret (Ok tx), mkWorld (rows w) (Some (None, [])) [] (server w) (lostCommit w)))
  (fun _ => mret (Ok (Some "rate_limit_states"))) (fun _ _ => mret (Ok 0)).

Definition clock (w : world) : Time * world := (toUTC (ofUnixMicro (server w)), w).
Definition background : Context world := mkContext (fun w => (None, w)).
Definition derived (c : Context world) (_ : Time) : Context world := c.
Definition detached (c : Context world) : Context world := c.
Definition at_ (m : Z) (lost : bool) : world := mkWorld (fun _ => None) None [] m lost.
Definition opts : Options := mkOptions 1000000000 250000000 ServerClock.
End DemoDatabase.

Lemma renders_refl doc : renders doc doc.
Proof. intros j rest Hj Hr. exists j, rest. split_and!; [done..|]. apply same_json_refl. Qed.

#[global] Program Instance demo_laws : PostgresLaws DemoDatabase.db DemoDatabase.clock := {|
  genuine t := t = DemoDatabase.tx;
  proper ctx := forall w, (ctxErr ctx w).2 = w;
  session _ w := DemoDatabase.open w;
  committed _ w := DemoDatabase.visible w;
  rowAt w := DemoDatabase.rows w
|}.
Next Obligation. intros t ctx w _ Hp. by rewrite Hp. Qed.
Next Obligation. done. Qed.
Next Obligation. intros ctx w t w' _ [= <- <-]. done. Qed.
Next Obligation. by intros t ctx s w -> _. Qed.
Next Obligation.
  intros t ctx a w p -> _ Hs. simpl. by rewrite Hs.
Qed.
Next Obligation. by intros t ctx k limit w -> _. Qed.
Next Obligation.
  intros t ctx k limit w seen w' -> _ _ [= <- <-]. destruct (DemoDatabase.rows w k) as [r|]; simpl; [|done].
  split; [done|]. intros _. apply renders_refl.
Qed.
Next Obligation. intros t ctx k w l p -> _ Hs. simpl. unfold DemoDatabase.collect. by rewrite Hs. Qed.
Next Obligation. intros t ctx k doc e u w l p -> _ Hs. simpl. unfold DemoDatabase.collect. by rewrite Hs. Qed.
Next Obligation.
  intros t ctx w l p -> _ Hs Hc. simpl. rewrite Hs. destruct (DemoDatabase.lostCommit w); simpl; [by right|done].
Qed.
Next Obligation. by intros t ctx w -> _. Qed.

Lemma demo_calm : calm DemoDatabase.tx.
Proof.
  split; intros; apply total_no_panic; intros w; simpl; unfold DemoDatabase.collect, DemoDatabase.refused; try done; repeat case_match; done.
Qed.

(** A token bucket on the demo database, and a commit whose answer is lost. *)
Lemma strict_calls_are_atomic_witness :
  let request := DemoRows.at_ TokenBucket "v1" 1700000000000000 3 in
  let call lost := admitStrict DemoDatabase.derived DemoDatabase.detached DemoDatabase.clock DemoDatabase.db
    DemoDatabase.opts DemoDatabase.background (requestKey request) request 1000000000
    (DemoDatabase.at_ 1700000000000000 lost) in
  (forall lost, exists a w', call lost = (Ret a, w') /\
    outcome (pair emptyDecision) refusal (admitted DemoDatabase.opts (requestKey request) request)
      (requestKey request) DemoDatabase.tx
      (locks_in (wallClock := DemoDatabase.clock) (db := DemoDatabase.db) DemoDatabase.derived DemoDatabase.detached DemoDatabase.opts
         DemoDatabase.background (requestKey request) 1000000000 DemoDatabase.tx (DemoDatabase.at_ 1700000000000000 lost)) a w') /\
  match call false with
  | (Ret (d, None), w') => Allowed d = true /\ bool_decide (is_Some (DemoDatabase.rows w' (requestKey request))) = true
  | _ => False
  end /\
  (call true).1 = Ret (emptyDecision, Some (UnknownOutcome None)).
Proof.
  cbv zeta. split_and!.
  - intros lost. apply (strict_calls_are_atomic (db := DemoDatabase.db) (wallClock := DemoDatabase.clock)
      DemoDatabase.derived DemoDatabase.detached (detached := fun ctx _ H => H)
      DemoDatabase.opts DemoDatabase.background _ _ _); [done|by apply total_no_panic|].
    intros w tx w' [= <- <-]. apply demo_calm.
  - vm_compute. by split.
  - vm_compute. reflexivity.
Defined.

Lemma transactions_end_witness :
  let request := DemoRows.at_ TokenBucket "v1" 1700000000000000 3 in
  DemoDatabase.open (admitStrict DemoDatabase.derived DemoDatabase.detached DemoDatabase.clock DemoDatabase.db
    DemoDatabase.opts DemoDatabase.background (requestKey request) request 1000000000
    (DemoDatabase.at_ 1700000000000000 true)).2 = None.
Proof.
  refine (proj1 (transactions_end DemoDatabase.db DemoDatabase.clock DemoDatabase.derived DemoDatabase.detached
    DemoDatabase.background DemoDatabase.tx (fun w => DemoDatabase.open w = None) _ _ _
    DemoDatabase.opts _ _ _ eq_refl) _ _).
  - intros w w'. simpl. destruct (DemoDatabase.open w) as [[l p]|]; [|done]. by intros [= _ <-].
  - done.
  - done.
Defined.
