(* ===== verification/PgHistory.v ===== *)
(** * A PostgreSQL history is an in-memory history

    The rows a key goes through are linked by strict admissions, each decided on
    what a select shows of the document the previous one stored.  Reading back,
    expiring and deleting rows are invisible: the decisions are those of the
    in-memory backend on the same requests. *)

From S2P Require Import Prelude GoTime GoHash Errors Keys Policy Backend GoJson JsonFacts.
From S2P Require Import MemoryState TokenBucket Windows SlidingWindow PgState PgTokens PgRows PgAgree.
From S2P Require Import PgCodec PgWire PgStore PgLaws PgOutcomes.

Local Open Scope string_scope.
Local Open Scope Z_scope.

(** ** Identifiers are UTF-8 *)

Lemma identifier_utf8 s : identifier s -> validUtf8 s = true.
Proof.
  intros [_ H]. induction s as [|c s IH]; [done|]. cbn [bytes_of] in H.
  apply Forall_cons in H as [Hc H]. simpl.
  assert (byte_of c < 128) as Hlt.
  { unfold identifierByte, in_range in Hc. repeat rewrite ?orb_true_iff, ?andb_true_iff, ?Z.leb_le, ?Z.eqb_eq in Hc. lia. }
  apply Z.ltb_lt in Hlt as ->. auto.
Qed.

Lemma u64_zero : is_u64 0.
Proof. unfold is_u64; lia. Qed.

Lemma liveUsage_typed o segs : forall use e, is_u64 use -> is_u64 (liveUsage o segs use e).1.
Proof. induction segs as [|g segs IH]; intros use e Hu; simpl; [done|]. case_match; apply IH; [apply u64_range|done]. Qed.

(** ** Histories of a key *)

(** The rows of a key, linked by strict admissions: each is decided on the row
    the previous one made visible.  The log holds the requests at the time that
    decided them, and the answers. *)
Inductive history (opts : Options) (key : list Z) : option row -> list (Request * (Decision * option error)) -> Prop :=
| history_end before : history opts key before []
| history_admitted before request request' now writes answer log :
    admitted opts key request now before writes answer ->
    atServerTime opts request now (period (req_Policy request)) = Ok request' ->
    history opts key (applyWrites key before writes) log ->
    history opts key before ((request', answer) :: log).

(** ** Rows of the same meaning *)

Section History.
Context (p : Policy).
Hypothesis Hwf : wf_policy p.
Hypothesis Hw : windowed (algorithm p).
Hypothesis Hid : identifier (id p).
Hypothesis Hrev : identifier (revision p).

Abbreviation P := (period_micros p).
Abbreviation sound := (sound_row (revisions p) (id p) (algorithm p) P).
Abbreviation valid_at := (row_request (revisions p) (algorithm p) P).
Let Hline : lineage (revisions p) (id p) (algorithm p) P := revisions_lineage p Hwf Hw.

(** The fields an algorithm decides on. *)
Record same_payload (row row' : persistedState) : Prop := {
  pay_observed : ps_ObservedMicros row' = ps_ObservedMicros row;
  pay_revision : ps_Revision row' = ps_Revision row;
  pay_token : algorithm p = TokenBucket ->
    ps_Tokens row' = ps_Tokens row /\ ps_Remainder row' = ps_Remainder row /\ ps_LastMicros row' = ps_LastMicros row;
  pay_fixed : algorithm p = FixedWindow -> ps_Window row' = ps_Window row /\ ps_Used row' = ps_Used row;
  pay_sliding : algorithm p = SlidingWindow -> ps_Segments row' = ps_Segments row
}.

Lemma payload_agree s row row' : same_payload row row' -> agree p s row -> agree p s row'.
Proof.
  intros [Eo Er Et Ef Es] [As Ar At Af Asl]. split.
  - by rewrite Eo.
  - by rewrite Er.
  - intros E. destruct (Et E) as (-> & -> & ->). by apply At.
  - intros E. destruct (Ef E) as (-> & ->). by apply Af.
  - intros E. rewrite (Es E). by apply Asl.
Qed.

(** What a row of the algorithm's own making satisfies besides [sound]: a fixed
    window is that of the last admission and no segment is in the future. *)
Definition fresh_slot (m : Z) (g : persistedSegment) : Prop := g = emptySegment \/ ps_Index g <= seg_at P m.
Record current_row (row : persistedState) : Prop := {
  current_window : algorithm p = FixedWindow -> ps_Window row = ps_ObservedMicros row / P * P;
  current_slots : algorithm p = SlidingWindow -> Forall (fresh_slot (ps_ObservedMicros row)) (ps_Segments row)
}.

(** ** Admissions keep rows storable *)

(** What an admission does to the other fields. *)
Record framed (row row' : persistedState) : Prop := {
  frame_leases : ps_Leases row' = ps_Leases row;
  frame_token : algorithm p = TokenBucket -> ps_Window row' = ps_Window row /\ ps_Used row' = ps_Used row /\
    ps_Segments row' = ps_Segments row /\ ps_PeriodMicros row' = ps_PeriodMicros row /\ ps_Carried row' = ps_Carried row;
  frame_window : algorithm p <> TokenBucket -> ps_Tokens row' = ps_Tokens row /\
    ps_Remainder row' = ps_Remainder row /\ ps_LastMicros row' = ps_LastMicros row /\ is_u64 (ps_Used row');
  frame_fixed : algorithm p = FixedWindow -> ps_Segments row' = ps_Segments row;
  frame_sliding : algorithm p = SlidingWindow -> ps_Window row' = ps_Window row
}.

(** The row a window algorithm works on. *)
Lemma prepared_window row m :
  algorithm p <> TokenBucket ->
  prepared (revisions p) (algorithm p) row (revision p) m = setSeen (setPeriod row P) (revision p) m.
Proof.
  intros Hne. unfold prepared, revised, recordWindowPeriod. rewrite (bool_decide_eq_false_2 (algorithm p = TokenBucket)) by done.
  cbn [andb]. destruct (line_facts _ _ _ _ Hline (revision p)) as (_ & _ & _ & -> & _).
  rewrite (line_algorithm _ _ _ _ Hline). unfold usesWindowMetadata.
  destruct Hw as [E|[E|E]]; [done|rewrite E; done..].
Qed.

Lemma consume_usage row r reset : exists u,
  (consume row r reset).1.1 = setUsage row (ps_Window row) u (ps_Carried row) /\ (is_u64 (ps_Used row) -> is_u64 u).
Proof.
  unfold consume. case_match.
  - exists (ps_Used row). split; [by destruct row|done].
  - eexists. split; [done|]. intros _. apply u64_range.
Qed.

(** A window admission, in terms of the row it starts from. *)
Lemma window_mutation row r m :
  algorithm p <> TokenBucket -> sound row -> valid_at r m -> req_Policy r = p ->
  let m' := effective row m in
  let row0 := setSeen (setPeriod row P) (revision p) m' in
  exact_micros m' /\ ps_ObservedMicros row <= m' /\
  mutateState (Some row) r =
    let '(row', d, err) := if bool_decide (algorithm p = FixedWindow)
                           then mutateFixed row0 (at_micros r m')
                           else mutateSliding row0 (at_micros r m') in (Some row', d, err).
Proof.
  intros Hne Hrow Hr Hp m' row0. pose proof (row_observed _ _ _ _ _ Hrow) as Ho.
  destruct (period_of_p p Hwf Hw) as (_ & _ & HP). pose proof Hr as (_ & _ & _ & Hm & _).
  split_and!; [unfold exact_micros, m', effective; lia|unfold m', effective; lia|].
  rewrite (mutateState_eq _ _ _ _ Hline row r m Hrow Hr). cbv zeta. fold m'. rewrite Hp, prepared_window by done.
  unfold mutateRow. by rewrite (bool_decide_eq_false_2 (algorithm p = TokenBucket)) by done.
Qed.

Lemma fixed_step_framed row r m next d err :
  algorithm p = FixedWindow -> sound row -> valid_at r m -> req_Policy r = p ->
  mutateState (Some row) r = (Some next, d, err) -> framed row next /\ current_row next.
Proof.
  intros Hal Hrow Hr Hp. assert (algorithm p <> TokenBucket) as Hne by (by rewrite Hal).
  destruct (window_mutation row r m Hne Hrow Hr Hp) as (Hm' & _ & ->).
  rewrite (bool_decide_eq_true_2 (algorithm p = FixedWindow)) by done.
  rewrite (mutateFixed_micros p Hwf Hw _ r _ Hp Hm'). cbv zeta.
  set (m' := effective row m) in *. set (row0 := if negb _ then _ else _).
  destruct (consume_usage row0 (at_micros r m') (ofUnixMicro (m' / P * P + P))) as (u & Eu & Hu).
  destruct (consume row0 _ _) as [[row' d'] err']. simpl in Eu. subst row'. intros [= <- _ _].
  pose proof (row_fixed _ _ _ _ _ Hrow Hal) as [_ Hused _].
  assert (is_u64 (ps_Used row0)) as Hu0.
  { unfold row0. case_match; simpl; unfold is_u64; lia. }
  assert (ps_Window row0 = m' / P * P /\ ps_ObservedMicros row0 = m' /\ ps_Leases row0 = ps_Leases row /\
    ps_Segments row0 = ps_Segments row /\ ps_Tokens row0 = ps_Tokens row /\ ps_Remainder row0 = ps_Remainder row /\
    ps_LastMicros row0 = ps_LastMicros row) as (E1 & E2 & E3 & E4 & E5 & E6 & E7).
  { unfold row0. simpl. destruct (Z.eqb_spec (ps_Window row) (m' / P * P)); by split_and!. }
  split; split; simpl; try (rewrite Hal; done); try done; try congruence.
  intros _. split_and!; try done. by apply Hu.
Qed.

Lemma token_step_framed row r m next d err :
  algorithm p = TokenBucket -> sound row -> valid_at r m -> req_Policy r = p ->
  ps_Revision row = revision p ->
  mutateState (Some row) r = (Some next, d, err) -> framed row next /\ current_row next.
Proof.
  intros Hal Hrow Hr Hp Hv.
  destruct (token_admission _ _ _ _ Hline row r m Hal Hrow Hr) as (tok & rem & E & _); [by rewrite Hp|].
  cbv zeta in E. rewrite E. intros [= <- _ _]. by split; split; simpl; try (rewrite Hal; done).
Qed.

(** The ring keeps out the future. *)
Lemma seg_at_mono m m' : m <= m' -> seg_at P m <= seg_at P m'.
Proof.
  intros Hm. destruct (line_facts _ _ _ _ Hline (revision p)) as (HP & _ & _ & _ & _ & _ & Hwid).
  unfold seg_at. apply Z.div_le_mono; lia.
Qed.

Lemma clear_fresh m m' o segs :
  m <= m' -> Forall (fresh_slot m) segs -> Forall (fresh_slot m') (clearExpired o segs).
Proof.
  intros Hm H. pose proof (seg_at_mono m m' Hm). unfold clearExpired. apply Forall_fmap.
  eapply Forall_impl; [exact H|]. intros g [-> |Hg]; simpl.
  - case_match; by left.
  - case_match; [by left|right; lia].
Qed.

Lemma claim_fresh m j segs : Forall (fresh_slot m) segs -> Forall (fresh_slot m) (claimSlot j (seg_at P m) segs).
Proof.
  intros H. unfold claimSlot. case_match; [|done]. case_match; [|done]. apply Forall_insert; [done|]. by right.
Qed.

Lemma grant_fresh m j c segs :
  Forall (fresh_slot m) segs -> Forall (fresh_slot m) (addToSlot j c (claimSlot j (seg_at P m) segs)).
Proof.
  intros H. pose proof (claim_fresh m j segs H) as H'. unfold addToSlot.
  destruct (claimSlot j (seg_at P m) segs !! j) as [g|] eqn:Eg; [|done]. apply Forall_insert; [done|]. right. simpl.
  unfold claimSlot in Eg. destruct (segs !! j) as [x|] eqn:Ex; [|congruence].
  destruct (Z.eqb_spec (ps_Index x) (seg_at P m)); simpl in Eg; [rewrite Ex in Eg; simplify_eq; lia|].
  rewrite list_lookup_insert_eq in Eg by (by eapply lookup_lt_Some). by simplify_eq.
Qed.

(** [mutateSliding] at a microsecond, without assumptions on the ring. *)
Lemma mutateSliding_micros row r m :
  req_Policy r = p -> exact_micros m ->
  let '(use, earliest) := liveUsage (old_at P m) (ps_Segments row) 0 MaxInt64 in
  let j := slot_at P m in
  let segs := claimSlot j (seg_at P m) (clearExpired (old_at P m) (ps_Segments row)) in
  let row0 := setPersistedSegments (setUsage row (ps_Window row) use (usageExceedsLimit use (Limit p))) segs in
  mutateSliding row (at_micros r m) =
    let '(row', d, err) := consume row0 (at_micros r m) (slidingReset (at_micros r m) earliest) in
    match err with
    | None => (setPersistedSegments row' (addToSlot j (Cost r) (ps_Segments row')), d, err)
    | Some _ => (row', d, err)
    end.
Proof.
  intros Hp Hm. pose proof Hm as Hm'. unfold exact_micros in Hm'.
  unfold mutateSliding. rewrite (oldestSegment_eq _ _ _ _ Hline) by (done || by rewrite Hp, revisions_self).
  simpl. rewrite Hp. unfold toUTC, ofUnixMicro; simpl.
  pose proof (segmentAt_eq _ _ _ _ Hline (revision p) m UTC ltac:(lia)) as Eseg. rewrite revisions_self in Eseg. rewrite Eseg.
  unfold stateSegments. rewrite positiveRemainder_mod. fold (slot_at P m).
  by destruct (liveUsage _ _ _ _) as [use e].
Qed.

Lemma sliding_step_framed row r m next d err :
  algorithm p = SlidingWindow -> sound row -> Forall (fresh_slot (ps_ObservedMicros row)) (ps_Segments row) ->
  valid_at r m -> req_Policy r = p ->
  mutateState (Some row) r = (Some next, d, err) -> framed row next /\ current_row next.
Proof.
  intros Hal Hrow Hfresh Hr Hp. assert (algorithm p <> TokenBucket) as Hne by (by rewrite Hal).
  destruct (window_mutation row r m Hne Hrow Hr Hp) as (Hm' & Hle & ->).
  rewrite (bool_decide_eq_false_2 (algorithm p = FixedWindow)) by (by rewrite Hal).
  set (m' := effective row m) in *. set (row0 := setSeen _ _ _).
  pose proof (mutateSliding_micros row0 r m' Hp Hm') as E. cbn zeta in E.
  assert (is_u64 (liveUsage (old_at P m') (ps_Segments row0) 0 MaxInt64).1) as Huse by apply liveUsage_typed, u64_zero.
  destruct (liveUsage _ _ _ _) as [use e]. rewrite E.
  pose proof (clear_fresh _ _ (old_at P m') _ Hle Hfresh) as Hcf.
  set (row1 := setPersistedSegments _ _).
  destruct (consume_usage row1 (at_micros r m') (slidingReset (at_micros r m') e)) as (u & Eu & Hu).
  destruct (consume row1 _ _) as [[row' d'] err']. simpl in Eu, Huse. subst row'.
  destruct err'; intros [= <- _ _]; split; split; simpl; try (rewrite Hal; done); try done.
  all: try (intros _; split_and!; try done; by apply Hu).
  - intros _. by apply claim_fresh.
  - intros _. by apply grant_fresh.
Qed.

(** One admission under one policy. *)
Lemma step_framed row r m next d err :
  sound row -> ps_Revision row = revision p ->
  (algorithm p = SlidingWindow -> Forall (fresh_slot (ps_ObservedMicros row)) (ps_Segments row)) ->
  valid_at r m -> req_Policy r = p ->
  mutateState (Some row) r = (Some next, d, err) -> framed row next /\ current_row next.
Proof.
  intros Hrow Hv Hfresh Hr Hp. pose proof Hw as [Hal|[Hal|Hal]].
  - by apply (token_step_framed row r m).
  - by apply (fixed_step_framed row r m).
  - apply (sliding_step_framed row r m); auto.
Qed.

(** ** Rows that survive the column *)

Lemma algorithm_typed : algorithm p <> EmptyString /\ validUtf8 (algorithm p) = true.
Proof. pose proof Hw as [-> |[-> | ->]]; by split. Qed.

Lemma typed_step row next :
  typed_row row -> ps_Algorithm row = algorithm p -> sound next -> framed row next -> ps_Revision next = revision p -> typed_row next.
Proof.
  intros [_ _ _ _ (T1 & T2 & T3) (T4 & T5 & T6) T7 T8 T9] Ha [S1 S2 S3 S4 S5 S6 S7 S8] [F1 F2 F3 F4 F5] Hv.
  destruct (line_facts _ _ _ _ Hline (revision p)) as (HP & HL & _). rewrite revisions_self in HL.
  rewrite Hv, revisions_self in *.
  split.
  - done.
  - rewrite S2. split; [apply (wf_id _ Hwf)|by apply identifier_utf8].
  - rewrite Hv. by apply identifier_utf8.
  - rewrite S3. apply algorithm_typed.
  - pose proof Hw as [Hal|Hal].
    + destruct (S6 Hal) as [K1 K2 _ K4]. unfold is_u64, is_i64. lia.
    + destruct F3 as (-> & -> & -> & _); [|done]. by destruct Hal as [-> | ->].
  - split; [unfold is_i64; lia|]. pose proof Hw as [Hal|[Hal|Hal]].
    + by destruct (F2 Hal) as (-> & -> & _).
    + destruct (S7 Hal) as [K1 K2 _]. unfold is_u64, is_i64, exact_micros in *. lia.
    + rewrite (F5 Hal). split; [done|]. apply F3. by rewrite Hal.
  - pose proof Hw as [Hal|[Hal|Hal]].
    + by destruct (F2 Hal) as (_ & _ & -> & _).
    + by rewrite (F4 Hal).
    + destruct (S8 Hal) as [K1 K2 _ _]. split; [done|]. apply Forall_lookup. intros j g Hj.
      destruct (K2 j g Hj) as (H1 & H2 & _). unfold typed_segment, is_u64, is_i64, exact_micros in *. lia.
  - by rewrite F1.
  - rewrite S3. destruct (usesWindowMetadata (algorithm p)) eqn:Hu.
    + rewrite (S5 eq_refl). lia.
    + pose proof Hw as [Hal|[Hal|Hal]]; [|rewrite Hal in Hu; done..].
      destruct (F2 Hal) as (_ & _ & _ & -> & ->). by rewrite Ha, Hu in T9.
Qed.

Lemma first_row_typed r m : valid_at r m -> req_Policy r = p -> typed_row (first_row r).
Proof.
  intros Hr Hp. destruct (line_facts _ _ _ _ Hline (revision p)) as (HP & HL & _ & HPm & _).
  rewrite revisions_self in HL, HPm. pose proof Hr as (_ & _ & Hn & Hm & _).
  assert (UnixMicro (Now r) = m) as Hnow by (rewrite Hn; apply UnixMicro_utc; unfold is_i64; lia).
  unfold first_row, recordWindowPeriod, freshRow. rewrite Hp, Hnow, HPm.
  pose proof algorithm_typed as Ha. pose proof (wf_id _ Hwf) as Hne.
  pose proof (identifier_utf8 _ Hid) as Hi. pose proof (identifier_utf8 _ Hrev) as Hv.
  pose proof Hw as [Hal|[Hal|Hal]]; rewrite Hal in *; unfold usesWindowMetadata; eval_algorithms; cbn -[replicate];
    (split; cbn -[replicate]; unfold is_u64, is_i64; try done; try lia).
  all: try (split; [done|]; repeat constructor; unfold is_u64, is_i64; simpl; lia).
  all: unfold usesWindowMetadata; eval_algorithms; cbn [orb]; lia.
Qed.

(** What is read back satisfies what was written. *)
Lemma stored_payload st : sound st -> same_payload st (stored st).
Proof.
  intros Hrow. pose proof (row_algorithm _ _ _ _ _ Hrow) as Ha. unfold stored, wireState. rewrite Ha.
  split; try (by repeat case_match). intros E. rewrite E. done.
Qed.

Lemma stored_sound st : sound st -> sound (stored st).
Proof.
  intros Hrow. destruct (stored_payload st Hrow) as [Eo Er Et Ef Es].
  destruct Hrow as [S1 S2 S3 S4 S5 S6 S7 S8]. 
  assert (ps_Schema (stored st) = ps_Schema st /\ ps_PolicyID (stored st) = ps_PolicyID st /\
    ps_Algorithm (stored st) = ps_Algorithm st /\ ps_PeriodMicros (stored st) = ps_PeriodMicros st /\
    ps_Carried (stored st) = ps_Carried st) as (E1 & E2 & E3 & E4 & E5) by (unfold stored, wireState; by repeat case_match).
  split; rewrite ?E1, ?E2, ?E3, ?E4, ?Eo, ?Er; try done.
  - intros E. destruct (Et E) as (Q1 & Q2 & Q3), (S6 E) as [K1 K2 K3 K4]. split; by rewrite ?Q1, ?Q2, ?Q3, ?Eo.
  - intros E. destruct (Ef E) as (Q1 & Q2), (S7 E) as [K1 K2 K3]. split; by rewrite ?Q1, ?Q2, ?E5.
  - intros E. pose proof (Es E) as Q. destruct (S8 E) as [K1 K2 K3 K4].
    split; unfold live_sum; rewrite ?Q, ?Eo, ?E5; done.
Qed.

Lemma stored_typed st : typed_row st -> typed_row (stored st).
Proof.
  intros Ht. pose proof (wire_typed st Ht) as [(N1 & N2 & N3 & N4 & N5 & N6 & N7) [L1 L2] _].
  destruct Ht as [T1 T2 T3 T4 T5 T6 T7 T8 T9].
  assert (ps_Leases (wireState st) = ps_Leases st /\ ps_PolicyID (wireState st) = ps_PolicyID st /\
    ps_Schema (wireState st) = ps_Schema st /\ ps_PeriodMicros (wireState st) = ps_PeriodMicros st /\
    ps_Carried (wireState st) = ps_Carried st /\
    ps_Revision (wireState st) = ps_Revision st /\ ps_Algorithm (wireState st) = ps_Algorithm st)
    as (E1 & E2 & E3 & E4 & E5 & E6 & E7) by (unfold wireState; by repeat case_match).
  split; simpl; rewrite ?E1, ?E2, ?E3, ?E4, ?E5, ?E6, ?E7; try done.
  - intros ls. destruct (ps_Leases st) as [ls'|] eqn:El; [|done]. case_bool_decide; [done|].
    intros [= <-]. by apply T8.
  - destruct (usesWindowMetadata (ps_Algorithm st)) eqn:Hu; [|done]. destruct T9 as [H1 H2]. split; [done|].
    intros E. unfold wireState. rewrite Hu, E. simpl. by apply H2.
Qed.

Lemma stored_current st : sound st -> current_row st -> current_row (stored st).
Proof.
  intros Hrow [C1 C2]. destruct (stored_payload st Hrow) as [Eo Er Et Ef Es]. split; rewrite Eo.
  - intros E. destruct (Ef E) as [-> _]. by apply C1.
  - intros E. rewrite (Es E). by apply C2.
Qed.

(** ** An expired row is as good as none *)

(** The row has been idle until [m]: a bucket is full, a window is over. *)
Definition idle (row : persistedState) (m : Z) : Prop :=
  if bool_decide (algorithm p = TokenBucket)
  then full_level p <= (m - ps_LastMicros row) * capacity p /\ (m - ps_LastMicros row) * 1000 <= MaxInt64
  else ps_ObservedMicros row + P <= m.

(** A bucket that is full by [m]. *)
Lemma full_token row r m :
  algorithm p = TokenBucket -> sound row -> ps_Revision row = revision p -> valid_at r m -> req_Policy r = p ->
  ps_ObservedMicros row <= m -> (m - ps_LastMicros row) * 1000 <= MaxInt64 ->
  full_level p <= row_level P row + (m - ps_LastMicros row) * capacity p ->
  mutateState (Some row) r =
    (let rejected := Limit p <? Cost r in
     let left := if rejected then Limit p else Limit p - Cost r in
     (Some (setTokens (setSeen row (revision p) m) left 0 m),
      decision (negb rejected) (Limit p) left (Add (toUTC (ofUnixMicro m)) (refillDuration (Limit p - left) 0 p))
        (if rejected then refillDuration (Cost r - Limit p) 0 p else 0)
        (if rejected then ReasonLimited else ReasonAllowed),
      if rejected then Some (Sent ErrRejected) else None)).
Proof.
  intros Hal Hrow Hv Hr Hp Hle Hsat Hfull.
  destruct (token_admission _ _ _ _ Hline row r m Hal Hrow Hr) as (tok & rem & E & Hrem & Hlev); [by rewrite Hp|].
  cbv zeta in E. assert (effective row m = m) as Em by (unfold effective; lia). rewrite Em, Hp, Hv in *.
  specialize (Hlev Hsat).
  assert (tok * P + rem = full_level p) as Hl.
  { rewrite Hlev. unfold ideal_refill. lia. }
  unfold full_level in Hl. destruct (level_unique p tok rem (Limit p) 0) as [-> ->]; [lia|lia|lia|].
  exact E.
Qed.

Lemma first_row_facts r m : valid_at r m -> req_Policy r = p ->
  sound (first_row r) /\ ps_ObservedMicros (first_row r) = m /\ ps_Revision (first_row r) = revision p /\
  ps_LastMicros (first_row r) = m /\ ps_Tokens (first_row r) = Limit p /\ ps_Window (first_row r) = 0 /\
  ps_Used (first_row r) = 0 /\ ps_Segments (first_row r) = replicate 16 emptySegment.
Proof.
  intros Hr Hp. destruct (first_row_sound _ _ _ _ Hline r m Hr) as [Hrow Hobs].
  destruct (period_of_p p Hwf Hw) as (_ & _ & HP).
  pose proof Hr as (_ & _ & Hn & Hm & _).
  assert (UnixMicro (Now r) = m) as Hnow by (rewrite Hn; apply UnixMicro_utc; unfold is_i64; lia).
  split; [done|]. split; [done|]. unfold first_row, recordWindowPeriod, freshRow. rewrite Hp, Hnow.
  by case_match.
Qed.

Lemma setUsage_id x w u : ps_Window x = w -> ps_Used x = u -> setUsage x w u (ps_Carried x) = x.
Proof. destruct x; simpl. by intros -> ->. Qed.

(** Two rows without usage are charged alike. *)
Lemma consume_alike row0 row1 r reset : ps_Used row0 = ps_Used row1 ->
  exists u d err, consume row0 r reset = (setUsage row0 (ps_Window row0) u (ps_Carried row0), d, err) /\
    consume row1 r reset = (setUsage row1 (ps_Window row1) u (ps_Carried row1), d, err).
Proof.
  intros E. unfold consume. rewrite E. case_match.
  - exists (ps_Used row1). eexists _, _. by rewrite (setUsage_id row0), (setUsage_id row1).
  - by eexists _, _, _.
Qed.

Lemma idle_fixed row r m reset :
  algorithm p = FixedWindow -> current_row row -> ps_ObservedMicros row + P <= m ->
  let w := m / P * P in
  let opened x := if negb (ps_Window x =? w) then setUsage x w 0 (ps_Carried x) else x in
  let row0 := opened (setSeen (setPeriod row P) (revision p) m) in
  let row1 := opened (setSeen (setPeriod (first_row r) P) (revision p) m) in
  req_Policy r = p -> valid_at r m ->
  exists u d err, consume row0 (at_micros r m) reset = (setUsage row0 w u (ps_Carried row0), d, err) /\
    consume row1 (at_micros r m) reset = (setUsage row1 w u (ps_Carried row1), d, err).
Proof.
  intros Hal [Hwin _] Hidle w opened row0 row1 Hp Hr.
  destruct (first_row_facts r m Hr Hp) as (_ & _ & _ & _ & _ & Fw & Fu & _).
  destruct (period_of_p p Hwf Hw) as (_ & _ & HP).
  assert (ps_Window row0 = w /\ ps_Used row0 = 0) as [W0 U0].
  { unfold row0, opened; simpl. rewrite (Hwin Hal).
    assert (ps_ObservedMicros row / P * P <> w); [unfold w; zlia|].
    by rewrite (proj2 (Z.eqb_neq _ _)) by done. }
  assert (ps_Window row1 = w /\ ps_Used row1 = 0) as [W1 U1].
  { unfold row1, opened. cbn [setSeen setPeriod ps_Window]. rewrite Fw.
    destruct (Z.eqb_spec 0 w) as [E|E]; cbn [negb]; [|done]. by rewrite <- E. }
  destruct (consume_alike row0 row1 (at_micros r m) reset) as (u & d & err & E0 & E1); [congruence|].
  rewrite W0 in E0. rewrite W1 in E1. by exists u, d, err.
Qed.

(** A ring whose segments are all over counts nothing and is cleared. *)
Lemma liveUsage_over o segs : forall use e,
  Forall (fun g => g = emptySegment \/ ps_Index g <= o) segs -> is_u64 use -> liveUsage o segs use e = (use, e).
Proof.
  induction segs as [|g segs IH]; intros use e H Hu; [done|]. apply Forall_cons in H as [Hg H]. cbn [liveUsage].
  destruct (Z.ltb_spec o (ps_Index g)); [|by apply IH]. destruct Hg as [-> |Hg]; [|lia]. simpl.
  rewrite Z.add_0_r, u64_id by done. by apply IH.
Qed.

Lemma clear_over o segs :
  Forall (fun g => g = emptySegment \/ ps_Index g <= o) segs -> clearExpired o segs = replicate (length segs) emptySegment.
Proof.
  induction 1 as [|g segs Hg _ IH]; [done|]. unfold clearExpired in *. cbn [map length replicate]. rewrite IH. f_equal.
  destruct Hg as [-> |Hg]; [by case_match|]. by apply Z.leb_le in Hg as ->.
Qed.

Lemma idle_over row m :
  algorithm p = SlidingWindow -> current_row row -> ps_ObservedMicros row + P <= m ->
  Forall (fun g => g = emptySegment \/ ps_Index g <= old_at P m) (ps_Segments row).
Proof.
  intros Hal [_ Hs] Hm. eapply Forall_impl; [by apply Hs|]. intros g [-> |Hg]; [by left|right].
  pose proof (seg_at_mono (ps_ObservedMicros row) (m - P) ltac:(lia)). unfold seg_at, old_at in *. lia.
Qed.

Lemma empty_over o n : Forall (fun g => g = emptySegment \/ ps_Index g <= o) (replicate n emptySegment).
Proof. apply Forall_replicate. by left. Qed.

Lemma idle_sliding row r m :
  length (ps_Segments row) = 16%nat ->
  Forall (fun g => g = emptySegment \/ ps_Index g <= old_at P m) (ps_Segments row) ->
  exact_micros m -> req_Policy r = p ->
  forall fresh, ps_Segments fresh = replicate 16 emptySegment ->
  exists segs u d err c c',
    mutateSliding row (at_micros r m) =
      (setPersistedSegments (setUsage row (ps_Window row) u c) segs, d, err) /\
    mutateSliding fresh (at_micros r m) =
      (setPersistedSegments (setUsage fresh (ps_Window fresh) u c') segs, d, err).
Proof.
  intros Hlen Hover Hm Hp fresh Hf.
  pose proof (mutateSliding_micros row r m Hp Hm) as E0. pose proof (mutateSliding_micros fresh r m Hp Hm) as E1.
  rewrite (liveUsage_over _ _ 0 MaxInt64 Hover u64_zero) in E0. rewrite Hf in E1.
  rewrite (liveUsage_over _ _ 0 MaxInt64 (empty_over _ 16) u64_zero) in E1. cbv zeta in E0, E1.
  rewrite (clear_over _ _ Hover), Hlen in E0. rewrite (clear_over _ _ (empty_over _ 16)), length_replicate in E1.
  set (segs := claimSlot _ _ _) in *. set (c := usageExceedsLimit 0 (Limit p)) in *.
  destruct (consume_alike (setPersistedSegments (setUsage row (ps_Window row) 0 c) segs)
    (setPersistedSegments (setUsage fresh (ps_Window fresh) 0 c) segs) (at_micros r m)
    (slidingReset (at_micros r m) MaxInt64) eq_refl) as (u & d & err & C0 & C1).
  rewrite C0 in E0. rewrite C1 in E1. rewrite E0, E1.
  destruct err; simpl; eexists _, u, d, _, c, c; (split; reflexivity).
Qed.

(** An admission on a row that has been idle is the admission on no row. *)
Lemma idle_fresh row r m :
  sound row -> current_row row -> ps_Revision row = revision p -> valid_at r m -> req_Policy r = p ->
  ps_ObservedMicros row <= m -> idle row m ->
  exists next fresh d err, mutateState (Some row) r = (Some next, d, err) /\
    mutateState None r = (Some fresh, d, err) /\ same_payload next fresh.
Proof.
  intros Hrow Hcur Hv Hr Hp Hle Hidle. rewrite (first_admission _ _ _ _ Hline r m Hr).
  destruct (first_row_facts r m Hr Hp) as (F1 & F2 & F3 & F4 & F5 & F6 & F7 & F8).
  destruct (bool_decide_reflect (algorithm p = TokenBucket)) as [Hal|Hne].
  - unfold idle in Hidle. rewrite bool_decide_eq_true_2 in Hidle by done. destruct Hidle as [Hfull Hsat].
    pose proof (row_token _ _ _ _ _ Hrow Hal) as [K1 K2 _ _]. pose proof (row_token _ _ _ _ _ F1 Hal) as [_ K3 _ _].
    destruct (period_of_p p Hwf Hw) as (_ & _ & HP).
    rewrite (full_token row r m), (full_token (first_row r) r m); try done; try lia.
    + cbv zeta. eexists _, _, _, _. split; [reflexivity|]. split; [reflexivity|]. by split; simpl; try (rewrite Hal; done).
    + rewrite F4. unfold row_level, full_level. rewrite F5. lia.
    + unfold row_level. nia.
  - unfold idle in Hidle. rewrite bool_decide_eq_false_2 in Hidle by done.
    destruct (window_mutation row r m Hne Hrow Hr Hp) as (Hm & _ & ->).
    destruct (window_mutation (first_row r) r m Hne F1 Hr Hp) as (_ & _ & ->).
    assert (effective row m = m /\ effective (first_row r) m = m) as [E1 E2] by (unfold effective; lia).
    rewrite E1, E2 in *. pose proof Hw as [Hal|[Hal|Hal]]; [done|..].
    + rewrite (bool_decide_eq_true_2 (algorithm p = FixedWindow)) by done.
      rewrite !(mutateFixed_micros p Hwf Hw _ r _ Hp Hm). cbv zeta.
      destruct (idle_fixed row r m (ofUnixMicro (m / P * P + P)) Hal Hcur Hidle Hp Hr) as (u & d & err & -> & ->).
      eexists _, _, _, _. split; [reflexivity|]. split; [reflexivity|].
      split; simpl; repeat case_match; try (rewrite Hal; done); done.
    + rewrite (bool_decide_eq_false_2 (algorithm p = FixedWindow)) by (by rewrite Hal).
      destruct (idle_sliding (setSeen (setPeriod row P) (revision p) m) r m
        (row_length _ _ _ (row_sliding _ _ _ _ _ Hrow Hal)) (idle_over row m Hal Hcur Hidle) Hm Hp
        (setSeen (setPeriod (first_row r) P) (revision p) m) F8) as (segs & u & d & err & c & c' & -> & ->).
      eexists _, _, _, _. split; [reflexivity|]. split; [reflexivity|]. split; try done; rewrite Hal; done.
Qed.

(** ** Documents *)

Lemma renders_decodes st t : typed_row st -> renders (encodeState st) t -> decodeState t = Ok (stored st).
Proof.
  intros Ht Hr. destruct (wire_document st Ht) as [Hpr Hh]. pose proof (parse_print _ EmptyString Hpr Hh I) as E.
  rewrite string_app_nil in E. destruct (Hr _ _ E eq_refl) as (j & rest & Ej & Erest & Hsame).
  by apply (decodeState_same st t j rest).
Qed.

(** ** Time to live *)

Lemma ttl_period : period p <= postgresAdmissionTTL p.
Proof.
  destruct (period_of_p p Hwf Hw) as (Hper & _ & HP). pose proof (wf_period_typed _ Hwf) as Ht.
  assert (period p <= postgresStateTTL (period p)) as H.
  { unfold postgresStateTTL. destruct (Z.ltb_spec (MaxInt64 ÷ 2) (period p)) as [|Hle]; [unfold is_i64 in Ht; lia|].
    change (MaxInt64 ÷ 2) with 4611686018427387903 in Hle. rewrite i64_id by (unfold is_i64; lia). lia. }
  unfold postgresAdmissionTTL. case_bool_decide; lia.
Qed.

Lemma ttl_full dt : algorithm p = TokenBucket -> postgresAdmissionTTL p <= dt * 1000 -> full_level p <= dt * capacity p.
Proof.
  intros Hal H. unfold postgresAdmissionTTL in H. rewrite bool_decide_eq_true_2, tokenDuration_eq in H by done.
  destruct (period_of_p p Hwf Hw) as (_ & _ & HP).
  destruct (line_facts _ _ _ _ Hline (revision p)) as (_ & HL & _). rewrite revisions_self in HL.
  destruct (refillDuration_exact p Hwf Hal (Limit p) 0) as (us & Eus & _ & Hus); [lia|lia|lia|].
  rewrite Eus in H. unfold full_level. specialize (Hus dt). lia.
Qed.

Section Served.
Context (base span : Z).
Hypothesis Hspan : algorithm p = TokenBucket ->
  span * 1000 <= MaxInt64 /\ span * capacity p + P <= (two64 - Limit p) * P.
Hypothesis Hsixteen : algorithm p = SlidingWindow -> P mod 16 = 0.
Abbreviation paired := (PgAgree.paired p base span).
Abbreviation comparable := (PgAgree.comparable p base span).

(** A row that is not shown any more has been idle. *)
Lemma expired_idle s row m :
  paired s row -> in_span p base span m ->
  instant (Add (observedTime row) (postgresAdmissionTTL p)) <= m * 1000 -> ps_ObservedMicros row <= m /\ idle row m.
Proof.
  intros [Hrow _ [Ho _] Hlast] [Hm _] Hexp. cbn in Hexp. pose proof ttl_period as Httl.
  destruct (period_of_p p Hwf Hw) as (Hper & _ & HP). split; [lia|]. unfold idle. case_bool_decide as Hal; [|lia].
  specialize (Hlast Hal). destruct (Hspan Hal) as [Hsat _]. split; [|lia].
  pose proof (row_token _ _ _ _ _ Hrow Hal) as [_ _ _ Hl]. apply ttl_full; [done|lia].
Qed.

(** One admission on a row that is paired with a memory state. *)
Lemma admission_step s row r :
  paired s row -> typed_row row ->
  (algorithm p = SlidingWindow -> Forall (fresh_slot (ps_ObservedMicros row)) (ps_Segments row)) -> comparable r ->
  exists next d err s', admitState s r = (d, err, s') /\ mutateState (Some row) r = (Some next, d, err) /\
    paired s' next /\ typed_row next /\ current_row next.
Proof.
  intros Hpair Ht Hf Hr. destruct (paired_step p Hwf Hw base span Hspan Hsixteen s row r Hpair Hr) as (next & d & err & s' & E1 & E2 & Hp').
  exists next, d, err, s'. destruct Hr as (Hp & m & Hr & _). destruct Hpair as [Hrow Hag _ _].
  destruct (step_framed row r m next d err) as [Hfr Hc]; [done|apply Hag|done..|].
  split_and!; try done. destruct Hp' as [Hs' Ha' _ _].
  eapply typed_step; [done|apply Hrow|done|done|apply Ha'].
Qed.

(** The visible row and the in-memory state of the key. *)
Definition mirrors (s : state) (before : option row) : Prop := exists st,
  before = Some (mkRow (encodeState st) (Add (observedTime st) (postgresAdmissionTTL p))) /\
  paired s st /\ typed_row st /\ current_row st.

(** The answer of an admission and the row it leaves. *)
Lemma admitted_inv opts key request now before writes answer request' :
  admitted opts key request now before writes answer ->
  atServerTime opts request now (period (req_Policy request)) = Ok request' -> req_Policy request' = p ->
  exists seen current next, shows before seen /\ shownRow (Now request') seen = Ok current /\
    mutateState current request' = (Some next, answer.1, answer.2) /\
    applyWrites key before writes = Some (mkRow (encodeState next) (Add (observedTime next) (postgresAdmissionTTL p))).
Proof.
  intros (r & seen & current & next & cleared & Er & Hs & Hl & Hm & _ & _ & _ & ->) E Hp.
  rewrite E in Er. injection Er as <-. rewrite Hp in *. exists seen, current, next. split_and!; try done.
  apply applyWrites_last.
Qed.

(** The first admission of a key. *)
Lemma first_mirrors r : comparable r -> exists next d err s',
  admitState (newState r) r = (d, err, s') /\ mutateState None r = (Some next, d, err) /\
  paired s' next /\ typed_row next /\ current_row next.
Proof.
  intros Hr. pose proof (paired_fresh p Hwf Hw base span r Hr) as Hpair. pose proof Hr as (Hp & m & Hv & _).
  rewrite (first_admission _ _ _ _ Hline r m Hv). apply admission_step; try done; [by eapply first_row_typed|].
  intros _. destruct (first_row_facts r m Hv Hp) as (_ & _ & _ & _ & _ & _ & _ & ->).
  apply Forall_replicate. by left.
Qed.

Lemma mirrors_step s before r seen current next d err :
  mirrors s before -> comparable r -> shows before seen -> shownRow (Now r) seen = Ok current ->
  mutateState current r = (Some next, d, err) ->
  exists s', admitState s r = (d, err, s') /\ paired s' next /\ typed_row next /\ current_row next.
Proof.
  intros (st & -> & Hpair & Ht & Hc) Hr Hs Hl Hm. destruct seen as [[[t expires] within]|]; [|done].
  destruct Hs as [-> Hdoc]. cbn [row_expires] in Hl. simpl in Hl. destruct within; [|done]. cbn [negb] in Hl.
  destruct (After _ (Now r)) eqn:Ha.
  - rewrite (renders_decodes st t Ht (Hdoc eq_refl)) in Hl. injection Hl as <-.
    assert (paired s (stored st)) as Hpair'.
    { destruct Hpair as [P1 P2 P3 P4]. pose proof (stored_payload st P1) as Hpay. split.
      - by apply stored_sound.
      - by eapply payload_agree.
      - by rewrite (pay_observed _ _ Hpay).
      - intros E. destruct (pay_token _ _ Hpay E) as (_ & _ & ->). by apply P4. }
    destruct (admission_step s (stored st) r) as (next' & d' & err' & s' & E1 & E2 & H); try done.
    + by apply stored_typed.
    + apply stored_current; [apply Hpair|done].
    + rewrite Hm in E2. injection E2 as <- <- <-. by exists s'.
  - injection Hl as <-. pose proof Hr as (Hp & m & Hv & Hin). pose proof Hv as (_ & _ & Hn & _).
    assert (instant (Add (observedTime st) (postgresAdmissionTTL p)) <= m * 1000) as Hexp.
    { unfold After in Ha. apply Z.ltb_ge in Ha. rewrite Hn in Ha. exact Ha. }
    destruct (expired_idle s st m Hpair Hin Hexp) as [Hle Hidle].
    destruct (idle_fresh st r m (paired_sound _ _ _ _ _ Hpair) Hc (agree_revision _ _ _ (paired_agree _ _ _ _ _ Hpair)) Hv Hp Hle Hidle)
      as (old & fresh & d' & err' & E1 & E2 & Hpay).
    rewrite Hm in E2. injection E2 as <- <- <-.
    destruct (admission_step s st r Hpair Ht (current_slots _ Hc) Hr) as (x & y & z & s' & A1 & A2 & A3 & _).
    rewrite E1 in A2. injection A2 as <- <- <-. exists s'. split; [done|].
    destruct (first_mirrors r Hr) as (x' & y' & z' & s2 & _ & B2 & [B3 _ B5 B6] & B7). rewrite Hm in B2. injection B2 as <- <- <-.
    split; [|done]. split; try done. eapply payload_agree; [exact Hpay|apply A3].
Qed.

Lemma mirrors_run opts key before log : history opts key before log -> forall s,
  mirrors s before -> Forall comparable log.*1 -> log.*2 = decisionsOf s log.*1.
Proof.
  induction 1 as [|before request request' now writes answer log Had Hat _ IH]; intros s Hmir Hall; [done|].
  simpl in Hall. apply Forall_cons in Hall as [Hr Hall].
  destruct (admitted_inv _ _ _ _ _ _ _ _ Had Hat (proj1 Hr)) as (seen & current & next & Hs & Hl & Hm & Ew).
  destruct (mirrors_step s before request' seen current next _ _ Hmir Hr Hs Hl Hm) as (s' & E & H).
  simpl. rewrite E. f_equal; [by destruct answer|]. apply IH; [|done]. rewrite Ew. by exists next.
Qed.

(** C6: A PostgreSQL history is an in-memory history.  Take any key and any
    sequence of strict admissions on it under one policy, each decided on what a
    select shows of the row the previous one made visible (in whatever order the
    members of the document come back, and whether or not the row had expired and
    was deleted).  The decisions and errors, field by field, are those of the
    in-memory backend on the same requests, when all times lie in a span in which
    the in-memory arithmetic does not wrap ([Hspan] for the refill of a token
    bucket, [in_span] for a window) and the period of a sliding window is a
    multiple of 16 microseconds (otherwise the two backends cut segments of
    different widths). *)
Theorem postgres_history_is_memory opts key r a log :
  history opts key None ((r, a) :: log) -> Forall comparable ((r, a) :: log).*1 ->
  ((r, a) :: log).*2 = decisionsOf (newState r) ((r, a) :: log).*1.
Proof.
  intros Hh Hall. simpl in Hall. apply Forall_cons in Hall as [Hr Hlog].
  inversion Hh as [|before request request' now writes answer log' Had Hat Hrest]; subst.
  destruct (admitted_inv _ _ _ _ _ _ _ _ Had Hat (proj1 Hr)) as (seen & current & next & Hs & Hl & Hm & Ew).
  destruct seen as [|]; [done|]. injection Hl as <-.
  destruct (first_mirrors r Hr) as (next' & d & err & s' & E1 & E2 & Hp & Ht & Hc).
  rewrite Hm in E2. injection E2 as <- <- <-. simpl. rewrite E1. f_equal; [by destruct a|].
  rewrite Ew in Hrest. assert (mirrors s' (Some (mkRow (encodeState next) (Add (observedTime next) (postgresAdmissionTTL p))))) as Hmir
    by (by exists next).
  exact (mirrors_run opts key _ log Hrest s' Hmir Hlog).
Qed.
End Served.
End History.

(** Three admissions on a key; the last one finds an expired row. *)
Module DemoHistory.
Definition p : Policy := DemoRows.pol TokenBucket "v1".
Definition opts : Options := mkOptions 1000000000 250000000 ClientClock.
Definition key : list Z := [1; 2; 3; 4; 5; 6; 7; 8].
Definition r1 : Request := DemoRows.at_ TokenBucket "v1" 1000 3.
Definition r2 : Request := DemoRows.at_ TokenBucket "v1" 1010 2.
Definition r3 : Request := DemoRows.at_ TokenBucket "v1" 2000000 3.

Definition shown (r : option row) : option (string * Time * bool) :=
  option_map (fun r => (row_doc r, row_expires r, true)) r.
Definition run (before : option row) (r : Request) : mutation :=
  match shownRow (Now r) (shown before) with Ok current => mutateState current r | Err _ => refused ErrCorrupt end.
Definition after (m : mutation) : option row :=
  option_map (fun st => mkRow (encodeState st) (Add (observedTime st) (postgresAdmissionTTL p))) m.1.1.
Definition answer (m : mutation) : Decision * option error := (m.1.2, m.2).

Definition m1 : mutation := run None r1.
Definition m2 : mutation := run (after m1) r2.
Definition m3 : mutation := run (after m2) r3.
Definition log : list (Request * (Decision * option error)) := [(r1, answer m1); (r2, answer m2); (r3, answer m3)].
End DemoHistory.

Lemma demo_shown r : shows r (DemoHistory.shown r).
Proof. destruct r; simpl; [|done]. split; [done|]. intros _. apply renders_refl. Qed.

(** A step of the demo is an admission. *)
Lemma demo_history_step before r log :
  req_Policy r = DemoHistory.p ->
  (exists current next d err, shownRow (Now r) (DemoHistory.shown before) = Ok current /\
    mutateState current r = (Some next, d, err) /\ (err = None \/ err = Some (Sent ErrRejected)) /\
    validateStrictDecisionTime d (observedTime next) = None) ->
  history DemoHistory.opts DemoHistory.key (DemoHistory.after (DemoHistory.run before r)) log ->
  history DemoHistory.opts DemoHistory.key before ((r, DemoHistory.answer (DemoHistory.run before r)) :: log).
Proof.
  intros Hp (current & next & d & err & Hl & Hm & He & Hv) Hrest. unfold DemoHistory.run in *. rewrite Hl, Hm in *.
  refine (history_admitted DemoHistory.opts DemoHistory.key before r r zeroTime
    [Put DemoHistory.key (encodeState next) (Add (observedTime next) (postgresAdmissionTTL DemoHistory.p)) (observedTime next)]
    _ _ _ eq_refl _).
  - exists r, (DemoHistory.shown before), current, next, []. rewrite Hp. split_and!; try done; [apply demo_shown|set_solver].
  - exact Hrest.
Qed.

Lemma postgres_history_is_memory_witness :
  DemoHistory.log.*2 = decisionsOf (newState DemoHistory.r1) [DemoHistory.r1; DemoHistory.r2; DemoHistory.r3] /\
  map (fun a => Remaining a.1) DemoHistory.log.*2 = [2; 0; 2].
Proof.
  assert (windowed TokenBucket) as Hw by (by left).
  pose proof (line_wf _ _ _ _ (demo_lineage TokenBucket Hw) "v1"%string) as Hwf.
  assert (forall m cost, 1 <= cost <= 3 -> 900 <= m <= 2000900 ->
    comparable DemoHistory.p 900 2000000 (DemoRows.at_ TokenBucket "v1" m cost)) as Hc.
  { intros m cost Hcost Hm. split; [done|]. exists m. split; [|split; [lia|done]].
    change (period_micros DemoHistory.p) with 160. split_and!; try done; simpl; try lia. }
  split; [|vm_compute; reflexivity].
  apply (postgres_history_is_memory DemoHistory.p Hwf Hw) with (base := 900) (span := 2000000) (opts := DemoHistory.opts)
    (key := DemoHistory.key) (r := DemoHistory.r1).
  - split; [done|]. repeat constructor.
  - split; [done|]. repeat constructor.
  - intros _. by vm_compute.
  - intros [=].
  - repeat (apply demo_history_step; [done|eexists _, _, _, _; split; [vm_compute; reflexivity|];
      split; [vm_compute; reflexivity|]; split; [auto|vm_compute; reflexivity]|]). constructor.
  - repeat constructor; apply Hc; lia.
Defined.
