(* ===== verification/Rfc3339.v ===== *)
(** * Times as JSON

    [Time.MarshalJSON] and [Time.UnmarshalJSON]: the Gregorian calendar, the
    format RFC3339Nano with its checks of year and zone, and the parser, which
    accepts more than the format (an hour of one digit, a comma before the
    fraction, zones up to 24:60).  A time in UTC between the years 0 and 9999 is
    read back as it was written. *)

From S2P Require Import Prelude GoTime GoHash Errors Keys GoJson JsonFacts.

Local Open Scope string_scope.
Local Open Scope Z_scope.

(** ** The calendar *)

(** Days since 1 January 1970.  Years are counted from March, so that the leap
    day is the last; 400 years have 146097 days. *)
Definition daysFromCivil (year month day : Z) : Z :=
  let y := if month <=? 2 then year - 1 else year in
  let doy := (153 * ((month + 9) mod 12) + 2) / 5 + day - 1 in
  let yoe := y mod 400 in
  y / 400 * 146097 + (yoe * 365 + yoe / 4 - yoe / 100 + doy) - 719468.

Definition civilFromDays (days : Z) : Z * Z * Z :=
  let z := days + 719468 in
  let doe := z mod 146097 in
  let c := Z.min 3 (doe / 36524) in
  let doc := doe - 36524 * c in
  let q := doc / 1461 in
  let doq := doc - 1461 * q in
  let y := Z.min 3 (doq / 365) in
  let doy := doq - 365 * y in
  let mp := (5 * doy + 2) / 153 in
  let month := if mp <? 10 then mp + 3 else mp - 9 in
  let year := z / 146097 * 400 + 100 * c + 4 * q + y in
  (if month <=? 2 then year + 1 else year, month, doy - (153 * mp + 2) / 5 + 1).

Definition isLeap (year : Z) : bool :=
  (year mod 4 =? 0) && (negb (year mod 100 =? 0) || (year mod 400 =? 0)).

Definition daysIn (month year : Z) : Z :=
  if month =? 2 then (if isLeap year then 29 else 28) else
  if (month =? 4) || (month =? 6) || (month =? 9) || (month =? 11) then 30 else 31.

(** ** Formatting *)

(** [appendInt] of a number that fits the width. *)
Fixpoint padded (width : nat) (n : Z) : string :=
  match width with
  | O => EmptyString
  | S width => padded width (n / 10) +:+ text (digit (n mod 10))
  end.

Fixpoint trimZeros (s : string) : string :=
  match s with
  | EmptyString => EmptyString
  | String c rest =>
      match trimZeros rest with
      | EmptyString => if at_byte 48 c then EmptyString else text c
      | kept => String c kept
      end
  end.

(** [appendNano] with up to nine digits. *)
Definition fraction (nanos : Z) : string :=
  if nanos =? 0 then EmptyString else "." +:+ trimZeros (padded 9 nanos).

Definition dateTime (seconds nanos : Z) : string :=
  let '(year, month, day) := civilFromDays (seconds / 86400) in
  let clock := seconds mod 86400 in
  padded 4 year +:+ "-" +:+ padded 2 month +:+ "-" +:+ padded 2 day +:+ "T" +:+
  padded 2 (clock / 3600) +:+ ":" +:+ padded 2 (clock / 60 mod 60) +:+ ":" +:+ padded 2 (clock mod 60) +:+ fraction nanos.

Section Zones.
(** The offsets of the locations that are not UTC, in seconds east, and the
    location that [Parse] gives to a time with an offset: the local one when it
    has that offset, or a fixed zone. *)
Context (zoneOffset : Location -> Z -> Z) (located : Z -> Z -> Location).

Definition offsetOf (t : Time) : Z :=
  match location t with UTC => 0 | place => zoneOffset place (instant t) end.

(** The text between the quotes; [None] for a year outside 0..9999 or a zone of
    24 hours or more. *)
Definition marshalTime (t : Time) : option string :=
  let offset := offsetOf t in
  let seconds := instant t / Second + offset in
  let year := (civilFromDays (seconds / 86400)).1.1 in
  if (year <? 0) || (9999 <? year) then None else
  let head := dateTime seconds (instant t mod Second) in
  if offset =? 0 then Some (head +:+ "Z") else
  let zone := Z.abs (offset ÷ 60) in
  if 24 <=? zone / 60 then None else
  Some (head +:+ (if offset ÷ 60 <? 0 then "-" else "+") +:+ padded 2 (zone / 60) +:+ ":" +:+ padded 2 (zone mod 60)).

(** ** Parsing *)

(** [getnum]: two digits, or one when that is allowed. *)
Definition getnum (fixed : bool) (s : string) : option (Z * string) :=
  match s with
  | String a rest =>
      if negb (isDigit a) then None else
      match rest with
      | String b rest' =>
          if isDigit b then Some (10 * (byte_of a - 48) + (byte_of b - 48), rest')
          else if fixed then None else Some (byte_of a - 48, rest)
      | EmptyString => if fixed then None else Some (byte_of a - 48, rest)
      end
  | EmptyString => None
  end.

Definition getYear (s : string) : option (Z * string) :=
  match s with
  | String a (String b (String c (String d rest))) =>
      let digits := String a (String b (String c (text d))) in
      if allDigits digits then Some (digitsValue 0 digits, rest) else None
  | _ => None
  end.

Definition expect (z : Z) (s : string) : option string :=
  match s with
  | String c rest => if at_byte z c then Some rest else None
  | EmptyString => None
  end.

(** The fraction that may follow the seconds: nine digits count. *)
Definition getNanos (s : string) : Z * string :=
  match s with
  | String p (String d rest) =>
      if (at_byte 46 p || at_byte 44 p) && isDigit d then
        let '(ds, rest') := spanDigits (String d rest) in
        let used := String.substring 0 9 ds in
        (digitsValue 0 used * 10 ^ Z.of_nat (9 - String.length used), rest')
      else (0, s)
  | _ => (0, s)
  end.

(** "Z" (no offset) or a sign, hours and minutes. *)
Definition getZone (s : string) : option (option Z) :=
  match s with
  | String z EmptyString => if at_byte 90 z then Some None else None
  | String sign (String h1 (String h2 (String colon (String m1 (String m2 EmptyString))))) =>
      match getnum true (String h1 (text h2)), getnum true (String m1 (text m2)) with
      | Some (hr, _), Some (mm, _) =>
          let offset := (hr * 60 + mm) * 60 in
          if negb (at_byte 58 colon) || (24 <? hr) || (60 <? mm) then None else
          if at_byte 43 sign then Some (Some offset) else
          if at_byte 45 sign then Some (Some (- offset)) else None
      | _, _ => None
      end
  | _ => None
  end.

Definition unmarshalTime (s : string) : option Time :=
  '(year, s) ← getYear s; s ← expect 45 s;
  '(month, s) ← getnum true s; if (month <=? 0) || (12 <? month) then None else
  s ← expect 45 s;
  '(day, s) ← getnum true s; s ← expect 84 s;
  '(hour, s) ← getnum false s; if 24 <=? hour then None else
  s ← expect 58 s;
  '(minute, s) ← getnum true s; if 60 <=? minute then None else
  s ← expect 58 s;
  '(second, s) ← getnum true s; if 60 <=? second then None else
  let '(nanos, s) := getNanos s in
  zone ← getZone s;
  if (day <? 1) || (daysIn month year <? day) then None else
  let seconds := daysFromCivil year month day * 86400 + hour * 3600 + minute * 60 + second in
  match zone with
  | None => Some (mkTime (seconds * Second + nanos) UTC)
  | Some offset =>
      let ns := (seconds - offset) * Second + nanos in Some (mkTime ns (located offset ns))
  end.
End Zones.

(** ** The calendar is a bijection *)

(** The day [doy] of a year that starts in March. *)
Lemma month_parts doy :
  0 <= doy <= 365 ->
  let mp := (5 * doy + 2) / 153 in
  let month := if mp <? 10 then mp + 3 else mp - 9 in
  let day := doy - (153 * mp + 2) / 5 + 1 in
  1 <= month <= 12 /\ (month + 9) mod 12 = mp /\ 1 <= day /\
  (month = 2 -> day <= 28 \/ day = 29 /\ doy = 365) /\ (month <> 2 -> day <= daysIn month 1).
Proof.
  intros Hdoy mp month day. assert (0 <= mp <= 11) as Hmp by (unfold mp; zlia).
  assert (153 * mp <= 5 * doy + 2 < 153 * mp + 153) as Hdiv by (unfold mp; zlia).
  subst month day. clearbody mp.
  assert (mp = 0 \/ mp = 1 \/ mp = 2 \/ mp = 3 \/ mp = 4 \/ mp = 5 \/ mp = 6 \/ mp = 7 \/ mp = 8 \/ mp = 9 \/ mp = 10 \/ mp = 11) as Hcases by lia.
  repeat destruct Hcases as [-> | Hcases]; try subst mp;
    (match goal with |- context [?a / 5] => let v := eval vm_compute in (a / 5) in change (a / 5) with v end);
    cbn; split_and!; intros; try done; unfold daysIn; simpl; lia.
Qed.

(** The year, the month and the day of its parts. *)
Lemma civil_of_parts era c q y doy :
  0 <= c <= 3 -> 0 <= q <= 24 -> 0 <= y <= 3 -> 0 <= doy <= 365 -> (doy = 365 -> y = 3 /\ (q = 24 -> c = 3)) ->
  let mp := (5 * doy + 2) / 153 in
  let month := if mp <? 10 then mp + 3 else mp - 9 in
  let day := doy - (153 * mp + 2) / 5 + 1 in
  let start := era * 400 + 100 * c + 4 * q + y in
  let year := if month <=? 2 then start + 1 else start in
  daysFromCivil year month day = era * 146097 + 36524 * c + 1461 * q + 365 * y + doy - 719468 /\
  1 <= month <= 12 /\ 1 <= day <= daysIn month year.
Proof.
  intros Hc Hq Hy Hdoy Hleap mp month day start year.
  destruct (month_parts doy Hdoy) as (Hm & Hmp & H1 & H2 & H3). fold mp in Hm, Hmp, H1, H2, H3. fold month in Hm, Hmp, H2, H3. fold day in H1, H2, H3.
  split_and!; try lia.
  - unfold daysFromCivil. rewrite Hmp.
    replace (if month <=? 2 then year - 1 else year) with start by (unfold year; destruct (month <=? 2); lia).
    assert (start mod 400 = 100 * c + 4 * q + y) as -> by (unfold start; zlia).
    replace (start / 400) with era by (unfold start; zlia).
    replace ((100 * c + 4 * q + y) / 4) with (25 * c + q) by zlia. replace ((100 * c + 4 * q + y) / 100) with c by zlia.
    unfold day. lia.
  - destruct (Z.eq_dec month 2) as [E|E].
    + unfold daysIn. rewrite E. simpl. destruct (H2 E) as [?|[-> Hlast]]; [destruct (isLeap year); lia|].
      destruct (Hleap Hlast) as [-> Hcq]. replace (isLeap year) with true; [lia|]. symmetry.
      unfold isLeap, year. rewrite E. simpl. unfold start. apply andb_true_iff. split; [apply Z.eqb_eq; zlia|].
      apply orb_true_iff. destruct (Z.eq_dec q 24) as [->|]; [right; rewrite Hcq by done; apply Z.eqb_eq; zlia|].
      left. apply negb_true_iff, Z.eqb_neq. clear - Hq n Hc. replace (_ + 3 + 1) with ((4 * era + c) * 100 + (4 * q + 4)) by lia. rewrite Z.add_comm, Z_mod_plus_full, Z.mod_small by lia. lia.
    + specialize (H3 E). unfold daysIn in *. destruct (Z.eqb_spec month 2); [done|]. exact H3.
Qed.

(** A day splits into the parts of its 400 years. *)
Lemma civil_parts days :
  let '(year, month, day) := civilFromDays days in
  daysFromCivil year month day = days /\ 1 <= month <= 12 /\ 1 <= day <= daysIn month year.
Proof.
  unfold civilFromDays. set (z := days + 719468). set (era := z / 146097). set (doe := z mod 146097).
  assert (0 <= doe < 146097) as Hdoe by (apply Z.mod_pos_bound; lia).
  assert (z = era * 146097 + doe) as Hz by (unfold era, doe; rewrite (Z.div_mod z 146097) at 1 by lia; lia).
  set (c := Z.min 3 (doe / 36524)). set (doc := doe - 36524 * c).
  assert (0 <= c <= 3 /\ 0 <= doc <= 36524 /\ (c < 3 -> doc < 36524)) as (Hc & Hdoc & Hdoc') by (unfold doc, c; zlia).
  set (q := doc / 1461). set (doq := doc - 1461 * q).
  assert (0 <= q <= 24 /\ 0 <= doq <= 1460 /\ (q = 24 -> c < 3 -> doq < 1460)) as (Hq & Hdoq & Hdoq') by (unfold doq, q; zlia).
  set (y := Z.min 3 (doq / 365)). set (doy := doq - 365 * y).
  assert (0 <= y <= 3 /\ 0 <= doy <= 365 /\ (y < 3 -> doy < 365) /\ (y = 3 -> q = 24 -> c < 3 -> doy < 365)) as (Hy & Hdoy & Hd1 & Hd2)
    by (unfold doy, y; zlia).
  pose proof (civil_of_parts era c q y doy Hc Hq Hy Hdoy ltac:(lia)) as H. cbv zeta in H. cbv zeta. destruct H as (E & Hm & Hday).
  split_and!; try done; try lia.
Qed.

(** ** A time is read back *)

#[local] Arguments String.append !_ _ / : simpl nomatch.

Lemma in_range_true lo hi z : lo <= z <= hi -> in_range lo hi z = true.
Proof. intros H. unfold in_range. by rewrite (proj2 (Z.leb_le _ _)), (proj2 (Z.leb_le _ _)) by lia. Qed.

Lemma padded_spec width : forall n, 0 <= n < 10 ^ Z.of_nat width ->
  len (padded width n) = width /\ all_bytes (in_range 48 57) (padded width n) = true /\ digitsValue 0 (padded width n) = n.
Proof.
  induction width as [|width IH]; intros n Hn; [simpl in *; split_and!; try done; lia|].
  rewrite Nat2Z.inj_succ, Z.pow_succ_r in Hn by lia. destruct (IH (n / 10)) as (Hl & Ha & Hv); [zlia|].
  assert (0 <= n mod 10 < 10) by (apply Z.mod_pos_bound; lia). cbn [padded].
  rewrite length_string_app, Hl, all_bytes_app, Ha, digitsValue_app, Hv. cbn [len text all_bytes digitsValue].
  rewrite byte_of_digit by lia. split_and!; [lia| |zlia]. cbn. rewrite andb_true_r. apply in_range_true. lia.
Qed.

Lemma getnum_padded fixed n rest : 0 <= n < 100 -> getnum fixed (padded 2 n +:+ rest) = Some (n, rest).
Proof.
  intros Hn. cbn [padded String.append text]. unfold getnum.
  assert (isDigit (digit (n / 10 mod 10)) = true /\ isDigit (digit (n mod 10)) = true) as [-> ->].
  { split; apply in_range_true; rewrite byte_of_digit; zlia. }
  cbn [negb]. rewrite !byte_of_digit by zlia. do 2 f_equal. zlia.
Qed.

Lemma getYear_padded n rest : 0 <= n <= 9999 -> getYear (padded 4 n +:+ rest) = Some (n, rest).
Proof.
  intros Hn. destruct (padded_spec 4 n ltac:(simpl; lia)) as (_ & Ha & Hv). cbn [padded String.append text] in *.
  unfold getYear, allDigits, text in *. by rewrite Ha, Hv.
Qed.

Lemma expect_char z c rest : byte_of c = z -> expect z (String c EmptyString +:+ rest) = Some rest.
Proof. intros <-. unfold expect, at_byte. simpl. by rewrite Z.eqb_refl. Qed.

Lemma trimZeros_spec s : forall acc,
  (len (trimZeros s) <= len s)%nat /\
  digitsValue acc (trimZeros s) * 10 ^ Z.of_nat (len s - len (trimZeros s)) = digitsValue acc s /\
  (all_bytes (in_range 48 57) s = true -> all_bytes (in_range 48 57) (trimZeros s) = true).
Proof.
  induction s as [|c s IH]; intros acc; [simpl; split_and!; done || lia|]. cbn [trimZeros digitsValue all_bytes].
  destruct (IH (acc * 10 + (byte_of c - 48))) as (Hl & Hv & Ha). destruct (trimZeros s) as [|d t] eqn:E.
  - unfold at_byte. destruct (Z.eqb_spec (byte_of c) 48) as [E48|E48].
    + rewrite E48 in *. simpl len in *. split_and!; [lia| |done]. rewrite <- Hv. cbn [digitsValue].
      rewrite !Nat.sub_0_r, Nat2Z.inj_succ, Z.pow_succ_r by lia. ring.
    + cbn [text len digitsValue] in *. split_and!; [lia| |intros [Hc _]%andb_true_iff; cbn [all_bytes text]; by rewrite Hc]. rewrite <- Hv. by do 2 f_equal.
  - cbn [len] in *. split_and!; [lia| |intros [Hc Hs]%andb_true_iff; cbn [all_bytes]; rewrite Hc; by apply Ha].
    rewrite <- Hv. done.
Qed.

Lemma getNanos_fraction nanos rest :
  0 <= nanos < Second -> delimits rest -> (forall c t, rest = String c t -> at_byte 44 c = false) ->
  getNanos (fraction nanos +:+ rest) = (nanos, rest).
Proof.
  intros Hn Hr H44. unfold fraction. destruct (Z.eqb_spec nanos 0) as [->|Hne].
  { destruct rest as [|c [|d t]]; try done. destruct Hr as (_ & H46 & _). simpl. by rewrite H46, (H44 c (String d t)). }
  destruct (padded_spec 9 nanos) as (Hl & Ha & Hv); [simpl; lia|].
  destruct (trimZeros_spec (padded 9 nanos) 0) as (Hl' & Hv' & Ha'). specialize (Ha' Ha). rewrite Hl, Hv in *.
  destruct (trimZeros (padded 9 nanos)) as [|d t]; [simpl in Hv'; lia|].
  pose proof (spanDigits_app (String d t) rest Ha' Hr) as Hspan. cbn [all_bytes] in Ha'. apply andb_true_iff in Ha' as [Hd _].
  rewrite <- string_app_assoc. cbn [String.append] in *. unfold getNanos.
  change (at_byte 46 _ || _) with true. unfold isDigit. rewrite Hd, Hspan. cbn [andb].
  assert (String.substring 0 9 (String d t) = String d t) as ->.
  { pose proof (substring_app (String d t) EmptyString) as Hs. rewrite string_app_nil in Hs. rewrite <- Hs at 2.
    clear - Hl'. revert Hl'. generalize (String d t) as u, 9%nat as k. induction u as [|c u IH]; intros [|k] Hk; simpl in *; try done; try lia.
    f_equal. apply IH. lia. }
  by rewrite Hv'.
Qed.

(** The year of an instant, in UTC. *)
Definition yearOf (t : Time) : Z := (civilFromDays (instant t / Second / 86400)).1.1.

Lemma marshal_utc zoneOffset t :
  location t = UTC -> 0 <= yearOf t <= 9999 ->
  marshalTime zoneOffset t = Some (dateTime (instant t / Second) (instant t mod Second) +:+ "Z").
Proof.
  intros Hu Hy. unfold marshalTime, offsetOf, yearOf in *. rewrite Hu, Z.add_0_r.
  rewrite (proj2 (Z.ltb_ge _ 0)), (proj2 (Z.ltb_ge 9999 _)) by lia. done.
Qed.

Ltac read_char := rewrite expect_char by done; cbn [mbind option_bind].
Ltac read_number := rewrite getnum_padded by zlia; cbn [mbind option_bind].

Lemma time_round_trip zoneOffset located t :
  location t = UTC -> 0 <= yearOf t <= 9999 -> marshalTime zoneOffset t ≫= unmarshalTime located = Some t.
Proof.
  intros Hu Hy. rewrite marshal_utc by done. cbn [mbind option_bind]. unfold dateTime, yearOf in *.
  pose proof (civil_parts (instant t / Second / 86400)) as Hparts.
  destruct (civilFromDays (instant t / Second / 86400)) as [[year month] day]. simpl in Hy.
  destruct Hparts as (Hdays & Hm & Hd). set (clock := instant t / Second mod 86400).
  assert (0 <= clock < 86400) as Hclock by (apply Z.mod_pos_bound; lia).
  assert (daysIn month year <= 31) as H31 by (unfold daysIn; repeat case_match; lia).
  rewrite <- !string_app_assoc. unfold unmarshalTime.
  rewrite getYear_padded by lia. cbn [mbind option_bind]. read_char.
  read_number. rewrite (proj2 (Z.leb_gt month 0)), (proj2 (Z.ltb_ge 12 month)) by lia. cbn [orb]. read_char.
  read_number. read_char.
  read_number. rewrite (proj2 (Z.leb_gt 24 _)) by zlia. read_char.
  read_number. rewrite (proj2 (Z.leb_gt 60 _)) by zlia. read_char.
  read_number. rewrite (proj2 (Z.leb_gt 60 _)) by zlia.
  rewrite getNanos_fraction by (try (apply Z.mod_pos_bound; lia); try done; by intros c u [= <- _]).
  cbn. rewrite (proj2 (Z.ltb_ge day 1)), (proj2 (Z.ltb_ge _ day)) by lia. cbn [orb]. rewrite Hdays.
  destruct t as [ns place]. simpl in *. subst place. do 2 f_equal. unfold clock. zlia.
Qed.

(** ** The text needs no escapes *)

(** A byte that a JSON string shows as it is. *)
Definition plainByte (b : Z) : bool :=
  in_range 32 126 b && negb (b =? 34) && negb (b =? 92) && negb (b =? 60) && negb (b =? 62) && negb (b =? 38).

Lemma plain_quote s : all_bytes plainByte s = true -> quoteChars s = s /\ validUtf8 s = true.
Proof.
  induction s as [|c s IH]; [done|]. cbn [all_bytes]. intros [Hc Hs]%andb_true_iff. destruct (IH Hs) as [E Hv].
  cbn [quoteChars validUtf8]. rewrite E, Hv.
  destruct c as [[] [] [] [] [] [] [] []]; vm_compute in Hc; try discriminate; done.
Qed.

Lemma plain_digit s : all_bytes (in_range 48 57) s = true -> all_bytes plainByte s = true.
Proof.
  induction s as [|c s IH]; [done|]. cbn [all_bytes]. intros [Hc Hs]%andb_true_iff. rewrite (IH Hs), andb_true_r.
  destruct c as [[] [] [] [] [] [] [] []]; vm_compute in Hc; try discriminate; done.
Qed.

Lemma padded_digits width n : all_bytes (in_range 48 57) (padded width n) = true /\ len (padded width n) = width.
Proof.
  revert n. induction width as [|width IH]; intros n; [done|]. cbn [padded]. destruct (IH (n / 10)) as [Ha Hl].
  assert (0 <= n mod 10 < 10) by (apply Z.mod_pos_bound; lia).
  rewrite all_bytes_app, Ha, length_string_app, Hl. cbn [text all_bytes len]. rewrite byte_of_digit by lia.
  split; [|lia]. cbn. rewrite andb_true_r. apply in_range_true. lia.
Qed.

Lemma padded_plain width n : all_bytes plainByte (padded width n) = true.
Proof. apply plain_digit, padded_digits. Qed.

Lemma fraction_plain n : all_bytes plainByte (fraction n) = true /\ (len (fraction n) <= 10)%nat.
Proof.
  unfold fraction. destruct (n =? 0); [split; [done|simpl; lia]|].
  destruct (trimZeros_spec (padded 9 n) 0) as (Hl & _ & Ha). destruct (padded_digits 9 n) as [Hp Hn]. rewrite Hn in Hl.
  rewrite all_bytes_app, (plain_digit _ (Ha Hp)), length_string_app. split; [done|]. cbn [len]. lia.
Qed.

Lemma dateTime_plain seconds nanos :
  all_bytes plainByte (dateTime seconds nanos +:+ "Z") = true /\ (len (dateTime seconds nanos +:+ "Z") <= 30)%nat.
Proof.
  unfold dateTime. destruct (civilFromDays _) as [[year month] day]. destruct (fraction_plain nanos) as [Hf Hl].
  rewrite !all_bytes_app, !padded_plain, Hf, !length_string_app.
  rewrite !(proj2 (padded_digits _ _)). split; [done|]. simpl len. lia.
Qed.
