(* ===== verification/PgAtomic.v ===== *)
(** * Atomic batches in PostgreSQL (postgres/atomic.go, migration.go)

    One transaction admits every bucket of a command or none, and stores the
    decision as a receipt under the digest of the command, so that a retry returns
    the original decision.  The statements that only atomic batches send are a
    record of their own for each transaction; the offsets of time zones are
    parameters. *)

From S2P Require Import Prelude GoTime GoHash Errors Keys Policy Backend GoJson JsonFacts Rfc3339.
From S2P Require Import MemoryState PgState PgCodec PgStore AtomicBatch.

Local Open Scope string_scope.
Local Open Scope Z_scope.

Definition maxAtomicReceiptBytes : Z := 16 * 1024.

(** ** Migrations *)

Record Migration := mkMigration { mig_Version : Z; mig_Name : string; Up : string; Down : string }.

Definition SchemaMigration : Migration := mkMigration 1 "create_rate_limit_states"
"CREATE TABLE rate_limit_states (
    state_key bytea PRIMARY KEY,
    state jsonb NOT NULL,
    expires_at timestamptz NOT NULL,
    updated_at timestamptz NOT NULL
);
CREATE INDEX rate_limit_states_expires_at_idx
    ON rate_limit_states (expires_at);" "DROP TABLE rate_limit_states;".

Definition AtomicSchemaMigration : Migration := mkMigration 2 "create_rate_limit_atomic_commands"
"CREATE TABLE rate_limit_atomic_commands (
    command_digest bytea PRIMARY KEY CHECK (octet_length(command_digest) = 32),
    intent_digest bytea NOT NULL CHECK (octet_length(intent_digest) = 32),
    receipt bytea NOT NULL CHECK (octet_length(receipt) <= 16384)
);" "DROP TABLE rate_limit_atomic_commands;".

(** [migrations.NewMigration] and its transaction modes are a library's. *)
Definition GoMigration {Mode Result} (TransactionModeDefault : Mode)
    (NewMigration : Z -> string -> Mode -> string -> string -> Result) : Result :=
  let migration := SchemaMigration in
  NewMigration (mig_Version migration) (mig_Name migration) TransactionModeDefault (Up migration) (Down migration).

(** ** The intent of a command *)

(** [base64.StdEncoding], in which JSON shows bytes. *)
Definition base64Char (n : Z) : Ascii.ascii :=
  chr (if n <? 26 then 65 + n else if n <? 52 then 71 + n else if n <? 62 then n - 4 else if n =? 62 then 43 else 47).

Fixpoint base64 (bs : list Z) : string :=
  match bs with
  | [] => EmptyString
  | [a] => String (base64Char (a / 4)) (String (base64Char (a mod 4 * 16)) "==")
  | [a; b] =>
      String (base64Char (a / 4)) (String (base64Char (a mod 4 * 16 + b / 16)) (String (base64Char (b mod 16 * 4)) "="))
  | a :: b :: c :: rest =>
      String (base64Char (a / 4)) (String (base64Char (a mod 4 * 16 + b / 16))
        (String (base64Char (b mod 16 * 4 + c / 64)) (String (base64Char (c mod 64)) (base64 rest))))
  end.

Record atomicIntentEntry := mkIntentEntry {
  ie_Policy : PolicySpec;
  ie_Key : list Z;
  ie_Kind : string;
  ie_Cost : Z
}.

Definition intentEntry (r : Request) : atomicIntentEntry :=
  let p := req_Policy r in
  mkIntentEntry
    (mkPolicySpec (id p) (revision p) (algorithm p) (capacity p) (period p) (burst p) (maxCost p) (failureMode p)
       (consistency p) (lease p))
    (bytes_of (key_value (req_Key r))) (subjectKind (req_Key r)) (Cost r).

Definition specJson (s : PolicySpec) : json :=
  JObject [("ID", JString (spec_ID s)); ("Revision", JString (spec_Revision s)); ("Algorithm", JString (spec_Algorithm s));
           ("Capacity", jsonInt (spec_Capacity s)); ("Period", jsonInt (spec_Period s)); ("Burst", jsonInt (spec_Burst s));
           ("MaxCost", jsonInt (spec_MaxCost s)); ("FailureMode", jsonInt (spec_FailureMode s));
           ("Consistency", JString (spec_Consistency s)); ("Lease", jsonInt (spec_Lease s))].

Definition intentEntryJson (e : atomicIntentEntry) : json :=
  JObject [("Policy", specJson (ie_Policy e)); ("Key", JString (base64 (ie_Key e))); ("Kind", JString (ie_Kind e));
           ("Cost", jsonInt (ie_Cost e))].

Definition clockNumber (clock : ClockPolicy) : Z :=
  match clock with ClientClock => 0 | ServerClock => 1 | UnknownClock n => n end.

Definition intentJson (request : AtomicBatchRequest) (clock : ClockPolicy) : json :=
  JObject [("Version", jsonInt 1); ("Clock", jsonInt (clockNumber clock));
           ("Entries", JArray (map (fun r => intentEntryJson (intentEntry r)) (abr_Requests request)))].

Definition atomicIntent (request : AtomicBatchRequest) (clock : ClockPolicy) : list Z :=
  sha256 (printJson (intentJson request clock)).

(** ** Receipts *)

Section Receipts.
Context (zoneOffset : Location -> Z -> Z) (located : Z -> Z -> Location).

Definition decisionJson (d : Decision) : option json :=
  reset ← marshalTime zoneOffset (Reset d);
  Some (JObject [("Allowed", JBool (Allowed d)); ("Remaining", jsonInt (Remaining d)); ("Limit", jsonInt (dec_Limit d));
                 ("Reset", JString reset); ("RetryAfter", jsonInt (RetryAfter d)); ("Reason", JString (dec_Reason d));
                 ("Backend", JString (dec_Backend d)); ("PolicyRevision", JString (dec_PolicyRevision d))]).

(** [json.Marshal(saved)] *)
Definition marshalReceipt (saved : AtomicBatchDecision) : option string :=
  decisions ← mapM decisionJson (abd_Decisions saved);
  Some (printJson (JObject [("CommandID", JString (abd_CommandID saved)); ("Allowed", JBool (abd_Allowed saved));
                            ("Decisions", JArray decisions)])).

(** A string of a document that was read with [rawChars]. *)
Definition decodeRawString (old : string) (j : json) : option string :=
  match j with
  | JNull => Some old
  | JString raw => match parseChars (raw +:+ text (chr 34)) with Some (s, _) => Some s | None => None end
  | _ => None
  end.

Definition decodeBool (old : bool) (j : json) : option bool :=
  match j with JNull => Some old | JBool b => Some b | _ => None end.

(** [Time.UnmarshalJSON] is handed the literal. *)
Definition decodeTime (old : Time) (j : json) : option Time :=
  match j with JNull => Some old | JString raw => unmarshalTime located raw | _ => None end.

Definition decisionFields : list string :=
  ["Allowed"; "Remaining"; "Limit"; "Reset"; "RetryAfter"; "Reason"; "Backend"; "PolicyRevision"].

Definition storeDecision (f : string) (j : json) (d : Decision) : option Decision :=
  let 'mkDecision allowed remaining limit reset retry reason backend revision := d in
  if bool_decide (f = "Allowed") then
    v ← decodeBool allowed j; Some (mkDecision v remaining limit reset retry reason backend revision) else
  if bool_decide (f = "Remaining") then
    v ← decodeUint64 remaining j; Some (mkDecision allowed v limit reset retry reason backend revision) else
  if bool_decide (f = "Limit") then
    v ← decodeUint64 limit j; Some (mkDecision allowed remaining v reset retry reason backend revision) else
  if bool_decide (f = "Reset") then
    v ← decodeTime reset j; Some (mkDecision allowed remaining limit v retry reason backend revision) else
  if bool_decide (f = "RetryAfter") then
    v ← decodeInt64 retry j; Some (mkDecision allowed remaining limit reset v reason backend revision) else
  if bool_decide (f = "Reason") then
    v ← decodeRawString reason j; Some (mkDecision allowed remaining limit reset retry v backend revision) else
  if bool_decide (f = "Backend") then
    v ← decodeRawString backend j; Some (mkDecision allowed remaining limit reset retry reason v revision) else
  v ← decodeRawString revision j; Some (mkDecision allowed remaining limit reset retry reason backend v).

(** A slice with what its array holds behind its length.  An element is decoded
    into what the array holds at its place. *)
Record slice A := mkSlice { backing : list A; slen : nat }.
Arguments mkSlice {A} _ _.
Arguments backing {A} _.
Arguments slen {A} _.

Fixpoint decodeElements (es : list json) (old : list Decision) : option (list Decision) :=
  match es with
  | [] => Some old
  | e :: es =>
      d ← decodeStruct decisionFields true storeDecision (default emptyDecision (head old)) e;
      ds ← decodeElements es (tail old);
      Some (d :: ds)
  end.

Definition decodeSlice (old : slice Decision) (j : json) : option (slice Decision) :=
  match j with
  | JNull | JArray [] => Some (mkSlice [] 0)
  | JArray es => ds ← decodeElements es (backing old); Some (mkSlice ds (length es))
  | _ => None
  end.

(** An [AtomicBatchDecision] while it is decoded. *)
Record receiptState := mkReceiptState { rs_CommandID : string; rs_Allowed : bool; rs_Decisions : slice Decision }.

Definition receiptFields : list string := ["CommandID"; "Allowed"; "Decisions"].

Definition storeReceipt (f : string) (j : json) (r : receiptState) : option receiptState :=
  if bool_decide (f = "CommandID") then
    v ← decodeRawString (rs_CommandID r) j; Some (mkReceiptState v (rs_Allowed r) (rs_Decisions r)) else
  if bool_decide (f = "Allowed") then
    v ← decodeBool (rs_Allowed r) j; Some (mkReceiptState (rs_CommandID r) v (rs_Decisions r)) else
  v ← decodeSlice (rs_Decisions r) j; Some (mkReceiptState (rs_CommandID r) (rs_Allowed r) v).

(** [decoder.Decode(&out)] with [DisallowUnknownFields], and the end of the
    input after it. *)
Definition unmarshalReceipt (encoded : string) : option AtomicBatchDecision :=
  j ← parseAllWith rawChars encoded;
  r ← decodeStruct receiptFields true storeReceipt (mkReceiptState EmptyString false (mkSlice [] 0)) j;
  Some (mkAtomicBatchDecision (rs_CommandID r) (rs_Allowed r) (take (slen (rs_Decisions r)) (backing (rs_Decisions r)))).

(** What a receipt must say of one bucket; [Some limited] when it does. *)
Definition checkReceiptItem (allowed : bool) (d : Decision) (r : Request) : option bool :=
  let p := req_Policy r in
  if negb (dec_Limit d =? Limit p) || (dec_Limit d <? Remaining d) || negb (bool_decide (dec_Backend d = "postgres")) ||
     negb (bool_decide (dec_PolicyRevision d = revision p)) || IsZero (Reset d)
  then None else
  if allowed then
    if negb (Allowed d) || negb (bool_decide (dec_Reason d = ReasonAllowed)) || negb (RetryAfter d =? 0) ||
       (dec_Limit d -u Cost r <? Remaining d)
    then None else Some false
  else
    if Allowed d then None else
    if bool_decide (dec_Reason d = ReasonLimited) then
      if (Cost r <=? Remaining d) || (RetryAfter d <=? 0) || (tokenDuration (Cost r) 0 p <? RetryAfter d)
      then None else Some true
    else if bool_decide (dec_Reason d = ReasonAtomicRejected) then
      if (Remaining d <? Cost r) || negb (RetryAfter d =? 0) then None else Some false
    else None.

Fixpoint checkReceiptItems (allowed : bool) (ds : list Decision) (rs : list Request) (limited : bool) : option bool :=
  match ds, rs with
  | d :: ds, r :: rs =>
      match checkReceiptItem allowed d r with
      | None => None
      | Some l => checkReceiptItems allowed ds rs (limited || l)
      end
  | _, _ => Some limited
  end.

Definition decodeAtomicReceipt (encoded : string) (request : AtomicBatchRequest) : AtomicBatchDecision * option error :=
  let corrupt := (emptyAtomicBatchDecision, Some (Sent ErrCorrupt)) in
  if (strlen encoded =? 0) || (maxAtomicReceiptBytes <? strlen encoded) then corrupt else
  match unmarshalReceipt encoded with
  | None => corrupt
  | Some out =>
      if negb (bool_decide (abd_CommandID out = EmptyString)) ||
         negb (length (abd_Decisions out) =? length (abr_Requests request))%nat then corrupt else
      match checkReceiptItems (abd_Allowed out) (abd_Decisions out) (abr_Requests request) false with
      | None => corrupt
      | Some limited =>
          let out := mkAtomicBatchDecision (CommandID request) (abd_Allowed out) (abd_Decisions out) in
          if negb (abd_Allowed out)
          then (if limited then (out, Some (Sent ErrRejected)) else corrupt)
          else (out, None)
      end
  end.
End Receipts.

(** ** The transaction *)

(** The statements of a transaction that only atomic batches send. *)
Record AtomicStatements (W : Type) := mkAtomicStatements {
  (** pg_advisory_xact_lock of two 32-bit numbers *)
  lockCommand : Context W -> Z -> Z -> M W (option error);
  (** the intent digest of a command, and its receipt when it is within the limit *)
  selectCommand : Context W -> list Z -> Z -> M W (result error (option (list Z * option string)));
  (** pg_advisory_xact_lock of a 64-bit number *)
  lockBucket : Context W -> Z -> M W (option error);
  clockTimestamp : Context W -> M W (result error Time);
  (** the digests of the command and of its intent, and the receipt *)
  insertCommand : Context W -> list Z -> list Z -> string -> M W (option error)
}.
Arguments mkAtomicStatements {W} _ _ _ _ _.
Arguments lockCommand {W} _ _ _ _.
Arguments selectCommand {W} _ _ _ _.
Arguments lockBucket {W} _ _ _.
Arguments clockTimestamp {W} _ _.
Arguments insertCommand {W} _ _ _ _ _.

(** [int32] reinterpretation of four big-endian bytes. *)
Definition i32 (z : Z) : Z := (z + 2147483648) mod 4294967296 - 2147483648.
Definition commandLock (command : list Z) : Z * Z :=
  let word bs := i32 (foldl (fun acc b => acc * 256 + b) 0 bs) in
  (word (take 4 command), word (take 4 (drop 4 command))).

Definition microTime (t : Time) : Time := toUTC (ofUnixMicro (UnixMicro t)).

(** The latest time that the buckets have observed. *)
Definition effectiveNow (now : Time) (states : list (option persistedState)) : Time :=
  foldl (fun now s =>
    match s with
    | Some s => if UnixMicro now <? ps_ObservedMicros s then toUTC (ofUnixMicro (ps_ObservedMicros s)) else now
    | None => now
    end) now states.

Definition stampPostgres (d : Decision) (r : Request) : Decision :=
  mkDecision (Allowed d) (Remaining d) (dec_Limit d) (Reset d) (RetryAfter d) (dec_Reason d) "postgres"
    (revision (req_Policy r)).

(** A bucket with capacity in a rejected command gets its debit back. *)
Definition restoreDebit (now : Time) (state : persistedState) (d : Decision) (r : Request) : Decision :=
  if negb (Allowed d) then d else
  let tokens := ps_Tokens state +u Cost r in
  mkDecision false tokens (dec_Limit d)
    (Add now (tokenDuration (Limit (req_Policy r) -u tokens) (ps_Remainder state) (req_Policy r)))
    (RetryAfter d) ReasonAtomicRejected (dec_Backend d) (dec_PolicyRevision d).

Fixpoint restoreDebits (now : Time) (states : list persistedState) (ds : list Decision) (rs : list Request)
    : list Decision :=
  match states, ds, rs with
  | s :: states, d :: ds, r :: rs => restoreDebit now s d r :: restoreDebits now states ds rs
  | _, _, _ => []
  end.

Section Transaction.
Context {W : Type}.
Context (withTimeout : Context W -> Duration -> Context W).
Context (withDeadline : Context W -> Time -> Context W) (withoutCancel : Context W -> Context W).
Context (wallClock : W -> Time * W).
Context (zoneOffset : Location -> Z -> Z) (located : Z -> Z -> Location).
Context (atomic : Transaction W -> AtomicStatements W).

Definition failAtomic (err : option error) : bool * (AtomicBatchDecision * option error) :=
  (false, (emptyAtomicBatchDecision, err)).

(** An error of a statement before the commit. *)
Definition precommitFailure (ctx : Context W) (err : error) : M W (bool * (AtomicBatchDecision * option error)) :=
  category ← postgresPrecommitCategory ctx (Some err); mret (failAtomic category).

(** The commit, and the decision it makes known. *)
Definition commitAtomic (ctx : Context W) (tx : Transaction W) (out : AtomicBatchDecision) (resultErr : option error)
    : M W (bool * (AtomicBatchDecision * option error)) :=
  err ← commit tx ctx;
  match err with
  | Some _ => err ← unknownOutcome ctx; mret (failAtomic err)
  | None => mret (true, (out, resultErr))
  end.

(** A command that has a receipt. *)
Definition replayCommand (ctx : Context W) (tx : Transaction W) (request : AtomicBatchRequest) (intent savedIntent : list Z)
    (receipt : option string) : M W (bool * (AtomicBatchDecision * option error)) :=
  if negb (bool_decide (savedIntent = intent)) then mret (failAtomic (Some (Sent ErrInvalidRequest))) else
  let '(out, resultErr) := decodeAtomicReceipt located (default EmptyString receipt) request in
  if failed resultErr then mret (failAtomic resultErr) else commitAtomic ctx tx out resultErr.

(** The locks of the buckets, in order and once each. *)
Fixpoint lockBuckets (ctx : Context W) (tx : Transaction W) (previous : option Z) (locks : list Z) : M W (option error) :=
  match locks with
  | [] => mret None
  | key :: rest =>
      if bool_decide (previous = Some key) then lockBuckets ctx tx (Some key) rest else
      err ← lockBucket (atomic tx) ctx key;
      match err with
      | Some err => mret (Some err)
      | None => lockBuckets ctx tx (Some key) rest
      end
  end.

Fixpoint loadBuckets (ctx : Context W) (tx : Transaction W) (now : Time) (keys : list (list Z))
    : M W (result error (list (option persistedState))) :=
  match keys with
  | [] => mret (Ok [])
  | key :: rest =>
      loaded ← loadStateStrict ctx tx key now;
      match loaded with
      | Err err => mret (Err err)
      | Ok current =>
          others ← loadBuckets ctx tx now rest;
          mret match others with Err err => Err err | Ok states => Ok (current :: states) end
      end
  end.

(** Every bucket decides at the same time; the first failure ends the batch. *)
Fixpoint decideBuckets (ctx : Context W) (now : Time) (states : list (option persistedState)) (rs : list Request)
    : M W (result (option error) (list (persistedState * Decision * bool))) :=
  match states, rs with
  | state :: states, r :: rs =>
      let '(next, d, err) := mutateState state (withNow r now) in
      result ← strictPostgresDecisionResult ctx next d err;
      let '(d, err) := result : Decision * option error in
      if failed err then mret (Err err) else
      match next with
      | None => panic
      | Some next =>
          others ← decideBuckets ctx now states rs;
          mret match others with
               | Err err => Err err
               | Ok ds => Ok ((next, stampPostgres d r, match err with None => true | Some _ => false end) :: ds)
               end
      end
  | _, _ => mret (Ok [])
  end.

Fixpoint writeBuckets (ctx : Context W) (tx : Transaction W) (states : list persistedState) (rs : list Request)
    : M W (option error) :=
  match states, rs with
  | s :: states, r :: rs =>
      let effective := observedTime s in
      err ← upsertState tx ctx (requestKey r) (encodeState s) (Add effective (postgresAdmissionTTL (req_Policy r))) effective;
      match err with
      | Some err => mret (Some err)
      | None => writeBuckets ctx tx states rs
      end
  | _, _ => mret None
  end.

(** The receipt is stored without the command's identifier, and the transaction
    committed. *)
Definition recordCommand (ctx : Context W) (tx : Transaction W) (command intent : list Z) (out : AtomicBatchDecision)
    (resultErr : option error) : M W (bool * (AtomicBatchDecision * option error)) :=
  match marshalReceipt zoneOffset (mkAtomicBatchDecision EmptyString (abd_Allowed out) (abd_Decisions out)) with
  | None => mret (failAtomic (Some (Sent ErrCorrupt)))
  | Some encoded =>
      if maxAtomicReceiptBytes <? strlen encoded then mret (failAtomic (Some (Sent ErrCorrupt))) else
      err ← insertCommand (atomic tx) ctx command intent encoded;
      match err with
      | Some err => precommitFailure ctx err
      | None => commitAtomic ctx tx out resultErr
      end
  end.

(** The batch at its effective time. *)
Definition admitBuckets (ctx : Context W) (tx : Transaction W) (request : AtomicBatchRequest) (command intent : list Z)
    (now : Time) (states : list (option persistedState)) : M W (bool * (AtomicBatchDecision * option error)) :=
  let rs := abr_Requests request in
  decided ← decideBuckets ctx now states rs;
  match decided with
  | Err err => mret (failAtomic err)
  | Ok decided =>
      let next := map (fun x => x.1.1) decided in
      let ds := map (fun x => x.1.2) decided in
      if forallb (fun x => x.2) decided then
        err ← writeBuckets ctx tx next rs;
        match err with
        | Some err => precommitFailure ctx err
        | None => recordCommand ctx tx command intent (mkAtomicBatchDecision (CommandID request) true ds) None
        end
      else
        recordCommand ctx tx command intent
          (mkAtomicBatchDecision (CommandID request) false (restoreDebits now next ds rs)) (Some (Sent ErrRejected))
  end.

(** The time of the batch: the server's clock, read after the locks, or the one
    reading of the requests. *)
Definition batchTime (opts : Options) (ctx : Context W) (tx : Transaction W) (first : Request) : M W (result error Time) :=
  if bool_decide (opt_Clock opts = ServerClock) then
    now ← clockTimestamp (atomic tx) ctx;
    mret match now with Err err => Err err | Ok now => Ok (microTime now) end
  else mret (Ok (microTime (Now first))).

(** A command that is new. *)
Definition freshCommand (opts : Options) (ctx : Context W) (tx : Transaction W) (request : AtomicBatchRequest)
    (command intent : list Z) : M W (bool * (AtomicBatchDecision * option error)) :=
  let keys := map requestKey (abr_Requests request) in
  err ← lockBuckets ctx tx None (merge_sort Z.le (map advisoryKey keys));
  match err with
  | Some err => precommitFailure ctx err
  | None =>
      match abr_Requests request with
      | [] => panic
      | first :: _ =>
          now ← batchTime opts ctx tx first;
          match now with
          | Err err => precommitFailure ctx err
          | Ok now =>
              loaded ← loadBuckets ctx tx now keys;
              match loaded with
              | Err err => precommitFailure ctx err
              | Ok states => admitBuckets ctx tx request command intent (effectiveNow now states) states
              end
          end
      end
  end.

Definition atomicBody (opts : Options) (ctx : Context W) (request : AtomicBatchRequest) (tx : Transaction W)
    : M W (bool * (AtomicBatchDecision * option error)) :=
  let command := sha256 (CommandID request) in
  let intent := atomicIntent request (opt_Clock opts) in
  err ← setLockTimeout tx ctx (lockTextStrict (LockTimeout opts));
  match err with
  | Some err => precommitFailure ctx err
  | None =>
      let '(hi, lo) := commandLock command in
      err ← lockCommand (atomic tx) ctx hi lo;
      match err with
      | Some err => precommitFailure ctx err
      | None =>
          saved ← selectCommand (atomic tx) ctx command maxAtomicReceiptBytes;
          match saved with
          | Err err => precommitFailure ctx err
          | Ok (Some (savedIntent, receipt)) => replayCommand ctx tx request intent savedIntent receipt
          | Ok None => freshCommand opts ctx tx request command intent
          end
      end
  end.

Definition admitAtomic (db : Database W) (opts : Options) (ctx : Context W) (request : AtomicBatchRequest)
    (rollbackTimeout : Duration) : M W (AtomicBatchDecision * option error) :=
  begun ← begin db ctx;
  match begun with
  | Err _ => err ← unknownOutcome ctx; mret (emptyAtomicBatchDecision, err)
  | Ok tx =>
      started ← lift wallClock;
      let deadline := Add started rollbackTimeout in
      result ← deferred (failAtomic None) (atomicBody opts ctx request tx)
        (fun result : bool * (AtomicBatchDecision * option error) =>
           if result.1 then mret result else
           failure ← rollbackStrict withDeadline withoutCancel ctx tx deadline;
           match failure with
           | None => mret result
           | Some _ => err ← unknownOutcome ctx; mret (failAtomic err)
           end);
      mret (result : bool * (AtomicBatchDecision * option error)).2
  end.

Definition AdmitAtomicStrict (store : option Store) (ctx : iface (Context W)) (request : AtomicBatchRequest)
    : M W (AtomicBatchDecision * option error) :=
  let fail err := (emptyAtomicBatchDecision, Some err) in
  match strictReady store ctx with
  | Err err => mret (fail err)
  | Ok (store, ctx) =>
      match AtomicBatchRequest_Validate request with
      | Some err => mret (fail err)
      | None =>
          early ← postgresStrictContext ctx;
          match early with
          | Some err => mret (fail err)
          | None =>
              match st_executor store with
              | otherExecutor _ _ => mret (fail (Sent ErrInvalidPolicy))
              | nativeExecutor db opts =>
                  admitAtomic db opts (withTimeout ctx (Timeout (st_options store))) request (rollbackTimeout store)
              end
          end
      end
  end.
End Transaction.
