(* ===== verification/PgReceipts.v ===== *)
(** * Intents and receipts of atomic commands

    The document whose digest stands for the intent of a command determines the
    clock and, in order, the policy, key, kind and cost of every request; a
    receipt is read back as the decision it was written for, and a decision that
    the algorithm produced passes the checks of a receipt. *)

From S2P Require Import Prelude GoTime GoHash Errors Keys Policy Backend GoJson JsonFacts Rfc3339.
From S2P Require Import MemoryState PgState PgTokens PgRows PgCodec PgWire PgStore PgLaws PgHistory AtomicBatch PgAtomic.

Local Open Scope string_scope.
Local Open Scope Z_scope.

#[local] Arguments String.append !_ _ / : simpl nomatch.

(** ** Base 64 *)

Lemma base64Char_value n : 0 <= n < 64 ->
  byte_of (base64Char n) =
    (if n <? 26 then 65 + n else if n <? 52 then 71 + n else if n <? 62 then n - 4 else if n =? 62 then 43 else 47).
Proof. intros Hn. apply byte_of_chr. repeat case_match; lia. Qed.

Lemma base64Char_inj m n : 0 <= m < 64 -> 0 <= n < 64 -> base64Char m = base64Char n -> m = n.
Proof.
  intros Hm Hn E%(f_equal byte_of). rewrite !base64Char_value in E by done.
  destruct (Z.ltb_spec m 26), (Z.ltb_spec n 26); try lia; destruct (Z.ltb_spec m 52), (Z.ltb_spec n 52); try lia;
    destruct (Z.ltb_spec m 62), (Z.ltb_spec n 62); try lia; destruct (Z.eqb_spec m 62), (Z.eqb_spec n 62); lia.
Qed.

Lemma base64Char_pad n c : byte_of c = 61 -> 0 <= n < 64 -> base64Char n <> c.
Proof. intros Hc Hn <-. rewrite base64Char_value in Hc by done. repeat case_match; lia. Qed.

(** Digits are equal when they are shown alike, and padding is no digit. *)
Ltac base64_digits :=
  repeat match goal with
  | H : base64Char _ = base64Char _ |- _ => apply base64Char_inj in H; [|zlia..]
  | H : base64Char ?n = ?c |- _ => exfalso; revert H; apply base64Char_pad; [done|zlia]
  | H : ?c = base64Char ?n |- _ => exfalso; symmetry in H; revert H; apply base64Char_pad; [done|zlia]
  end.

Lemma base64_inj xs : forall ys, Forall is_byte xs -> Forall is_byte ys -> base64 xs = base64 ys -> xs = ys.
Proof.
  remember (length xs) as n eqn:Hn. revert xs Hn. induction (lt_wf n) as [n _ IH]. intros xs -> ys Hx Hy E.
  destruct xs as [|a [|b [|c xs]]], ys as [|a' [|b' [|c' ys]]]; try done; repeat rewrite ?Forall_cons in *; unfold is_byte in *;
    cbn [base64] in E; injection E as E; base64_digits.
  - f_equal. zlia.
  - do 2 f_equal; zlia.
  - assert (xs = ys) as -> by (apply (IH (length xs)); simpl; done || lia || tauto).
    do 3 f_equal; zlia.
Qed.

Lemma base64Char_plain n : 0 <= n < 64 -> plainByte (byte_of (base64Char n)) = true.
Proof.
  intros Hn. rewrite base64Char_value by done. unfold plainByte.
  assert (forall b, 43 <= b <= 57 \/ 65 <= b <= 90 \/ 97 <= b <= 122 ->
    in_range 32 126 b && negb (b =? 34) && negb (b =? 92) && negb (b =? 60) && negb (b =? 62) && negb (b =? 38) = true) as H.
  { intros b Hb. rewrite in_range_true, !(proj2 (Z.eqb_neq _ _)) by lia. done. }
  apply H. repeat case_match; lia.
Qed.

Lemma base64_plain bs : Forall is_byte bs -> all_bytes plainByte (base64 bs) = true.
Proof.
  remember (length bs) as n eqn:Hn. revert bs Hn. induction (lt_wf n) as [n _ IH]. intros bs -> Hbs.
  destruct bs as [|a [|b [|c bs]]]; try done; repeat rewrite ?Forall_cons in *; unfold is_byte in *; cbn [base64 all_bytes];
    rewrite !base64Char_plain by zlia; try done.
  apply (IH (length bs)); simpl; done || lia || tauto.
Qed.

(** ** The intent *)

(** What policies and keys guarantee of a request ([NewPolicy], [NewKey]). *)
Record intent_typed (r : Request) : Prop := {
  it_id : identifier (id (req_Policy r));
  it_revision : identifier (revision (req_Policy r));
  it_names : validUtf8 (algorithm (req_Policy r)) = true /\ validUtf8 (consistency (req_Policy r)) = true /\
             validUtf8 (subjectKind (req_Key r)) = true;
  it_units : is_u64 (capacity (req_Policy r)) /\ is_u64 (burst (req_Policy r)) /\ is_u64 (maxCost (req_Policy r)) /\
             is_u64 (failureMode (req_Policy r)) /\ is_u64 (Cost r);
  it_durations : is_i64 (period (req_Policy r)) /\ is_i64 (lease (req_Policy r))
}.

Lemma bytes_of_bytes s : Forall is_byte (bytes_of s).
Proof.
  induction s as [|c s IH]; cbn [bytes_of]; constructor; [|done].
  pose proof (Ascii.N_ascii_bounded c). unfold is_byte, byte_of. lia.
Qed.

Lemma bytes_of_inj s : forall t, bytes_of s = bytes_of t -> s = t.
Proof.
  induction s as [|c s IH]; intros [|d t] E; try done. cbn [bytes_of] in E. injection E as Ec E.
  by rewrite (byte_of_inj _ _ Ec), (IH t E).
Qed.

Lemma printable_entry r : intent_typed r -> printable (intentEntryJson (intentEntry r)).
Proof.
  intros [H1 H2 (H3 & H4 & H5) (H6 & H7 & H8 & H9 & H10) (H11 & H12)].
  destruct (plain_quote _ (base64_plain _ (bytes_of_bytes (key_value (req_Key r))))) as [_ Hk].
  cbn [printable foldr fst snd intentEntryJson specJson intentEntry]. simpl ie_Policy. simpl spec_ID.
  split_and!; try done; try (by apply identifier_utf8); apply printable_int; auto.
Qed.

Lemma printable_intent request clock :
  Forall intent_typed (abr_Requests request) -> is_u64 (clockNumber clock) ->
  printable (intentJson request clock) /\ height (intentJson request clock) <= maxNestingDepth.
Proof.
  intros Hrs Hc. split.
  - cbn [printable foldr fst snd intentJson]. split_and!; try done; try (apply printable_int; unfold is_u64 in *; right; lia).
    induction Hrs as [|r rs Hr _ IH]; [done|]. cbn [map foldr]. split; [by apply printable_entry|done].
  - cbn [height foldr fst snd intentJson jsonInt].
    assert (foldr (fun e h => Z.max (height e) h) 0 (map (fun r => intentEntryJson (intentEntry r)) (abr_Requests request)) <= 2) as Hh.
    { clear. induction (abr_Requests request) as [|r rs IH]; cbn [map foldr]; [lia|].
      assert (height (intentEntryJson (intentEntry r)) = 2) as -> by reflexivity. lia. }
    unfold maxNestingDepth. lia.
Qed.

(** A sign is not a digit. *)
Lemma formatUint_unsigned n u : 0 <= n < ten20 -> String (chr 45) u <> formatUint n.
Proof.
  intros Hn E. destruct (scanInteger_format n EmptyString Hn I) as (_ & c & t & E' & Hd). rewrite E' in E. by injection E as <- _.
Qed.

Lemma formatInt_inj m n : - ten20 < m < ten20 -> - ten20 < n < ten20 -> formatInt m = formatInt n -> m = n.
Proof.
  intros Hm Hn. unfold formatInt. destruct (Z.ltb_spec m 0), (Z.ltb_spec n 0); intros E.
  - injection E as E. apply formatUint_inj in E; lia.
  - by apply formatUint_unsigned in E; [|lia].
  - symmetry in E. by apply formatUint_unsigned in E; [|lia].
  - apply formatUint_inj in E; lia.
Qed.

Lemma jsonInt_inj m n : is_i64 m \/ is_u64 m -> is_i64 n \/ is_u64 n -> jsonInt m = jsonInt n -> m = n.
Proof. unfold is_i64, is_u64. intros Hm Hn [= E]. apply formatInt_inj in E; lia. Qed.

(** The same policy, key and cost, whenever the request was made. *)
Definition same_intent (r r' : Request) : Prop :=
  req_Policy r = req_Policy r' /\ req_Key r = req_Key r' /\ Cost r = Cost r'.

Lemma intentEntry_inj r r' :
  intent_typed r -> intent_typed r' -> intentEntryJson (intentEntry r) = intentEntryJson (intentEntry r') -> same_intent r r'.
Proof.
  intros [_ _ _ (H1 & H2 & H3 & H4 & H5) (H6 & H7)] [_ _ _ (K1 & K2 & K3 & K4 & K5) (K6 & K7)] E. unfold intentEntryJson, specJson in E.
  unfold is_i64, is_u64 in *. injection E as E1 E2 E3 E4 E5 E6 E7 E8 E9 E10 E11 E12 E13.
  apply base64_inj in E11; [|apply bytes_of_bytes..]. apply bytes_of_inj in E11.
  repeat match goal with H : formatInt _ = formatInt _ |- _ => apply formatInt_inj in H; [|lia..] end.
  split_and!; [|destruct (req_Key r), (req_Key r'); simpl in *; congruence|done].
  destruct (req_Policy r), (req_Policy r'). simpl in *. congruence.
Qed.

Lemma intentEntry_same r r' : same_intent r r' -> intentEntry r = intentEntry r'.
Proof. intros (Hp & Hk & Hc). unfold intentEntry. by rewrite Hp, Hk, Hc. Qed.

(** C11: the intent of a command determines the command.  Two commands have the
    same intent document exactly when they run on the same clock and ask, in the
    same order, for the same costs of the same keys under the same policies; the
    time of a request is not part of it.  A changed command can therefore pass for
    a retry only if SHA-256 maps two different documents to the same digest. *)
Theorem atomic_intent_binds request request' clock clock' :
  Forall intent_typed (abr_Requests request) -> Forall intent_typed (abr_Requests request') ->
  is_u64 (clockNumber clock) -> is_u64 (clockNumber clock') ->
  printJson (intentJson request clock) = printJson (intentJson request' clock') <->
  clockNumber clock = clockNumber clock' /\ Forall2 same_intent (abr_Requests request) (abr_Requests request').
Proof.
  intros Hr Hr' Hc Hc'. split.
  - intros E. destruct (printable_intent _ _ Hr Hc) as [P1 P2], (printable_intent _ _ Hr' Hc') as [Q1 Q2].
    pose proof (parse_print _ EmptyString P1 P2 I) as E1. pose proof (parse_print _ EmptyString Q1 Q2 I) as E2.
    rewrite E, E2 in E1. injection E1 as Eclock Eentries. split; [symmetry; apply formatInt_inj; unfold is_u64 in *; lia || done|].
    clear E E2 P1 P2 Q1 Q2. revert Hr' Eentries. generalize (abr_Requests request') as rs'.
    induction Hr as [|r rs Hr1 _ IH]; intros [|r' rs'] Hr' E; simpl in E; try done. apply Forall_cons in Hr' as [Hr1' Hr'].
    pose proof (f_equal head E) as Ehead. pose proof (f_equal tail E) as Etail. cbn [head tail] in Ehead, Etail.
    constructor; [|by apply IH]. apply intentEntry_inj; try done. by apply (inj Some).
  - intros [Ec Ers]. unfold intentJson. rewrite Ec.
    assert (map (fun r => intentEntryJson (intentEntry r)) (abr_Requests request) =
            map (fun r => intentEntryJson (intentEntry r)) (abr_Requests request')) as ->; [|done].
    clear - Ers. induction Ers as [|r r' rs rs' Hsame _ IH]; [done|]. simpl. by rewrite (intentEntry_same _ _ Hsame), IH.
Qed.

(** ** Receipts are read back *)

(** What the decisions of the package are like: a reset in UTC that JSON can show
    and texts that need no escapes. *)
Record receipt_item (d : Decision) : Prop := {
  ri_reset : location (Reset d) = UTC /\ 0 <= yearOf (Reset d) <= 9999;
  ri_units : is_u64 (Remaining d) /\ is_u64 (dec_Limit d) /\ is_i64 (RetryAfter d);
  ri_texts : all_bytes plainByte (dec_Reason d) = true /\ all_bytes plainByte (dec_Backend d) = true /\
             all_bytes plainByte (dec_PolicyRevision d) = true
}.

Section Receipts.
Context (zoneOffset : Location -> Z -> Z) (located : Z -> Z -> Location).

Definition resetText (d : Decision) : string := dateTime (instant (Reset d) / Second) (instant (Reset d) mod Second) +:+ "Z".

Definition itemJson (d : Decision) : json :=
  JObject [("Allowed", JBool (Allowed d)); ("Remaining", jsonInt (Remaining d)); ("Limit", jsonInt (dec_Limit d));
           ("Reset", JString (resetText d)); ("RetryAfter", jsonInt (RetryAfter d)); ("Reason", JString (dec_Reason d));
           ("Backend", JString (dec_Backend d)); ("PolicyRevision", JString (dec_PolicyRevision d))].

Lemma decisionJson_item d : receipt_item d -> decisionJson zoneOffset d = Some (itemJson d).
Proof. intros [[Hu Hy] _ _]. unfold decisionJson. by rewrite (marshal_utc zoneOffset _ Hu Hy). Qed.

Lemma decodeRaw_plain old s : all_bytes plainByte s = true -> decodeRawString old (JString s) = Some s.
Proof.
  intros Hs. unfold decodeRawString. destruct (plain_quote s Hs) as [E Hv]. pose proof (parse_quoteChars s EmptyString Hv) as Hp.
  rewrite E in Hp. unfold text. by rewrite Hp.
Qed.

Lemma decodeUint_format old n : is_u64 n -> decodeUint64 old (jsonInt n) = Some n.
Proof.
  intros Hn. unfold decodeUint64, jsonInt, formatInt. unfold is_u64 in Hn. rewrite (proj2 (Z.ltb_ge _ _)) by lia.
  by apply ParseUint_format.
Qed.

Lemma decode_item d old :
  receipt_item d -> decodeStruct decisionFields true (storeDecision located) old (itemJson d) = Some d.
Proof.
  intros [[Hu Hy] (H1 & H2 & H3) (H4 & H5 & H6)]. unfold decodeStruct, itemJson. destruct old.
  pose proof (time_round_trip zoneOffset located _ Hu Hy) as Ht. rewrite (marshal_utc zoneOffset _ Hu Hy) in Ht. cbn [mbind option_bind] in Ht.
  do 8 (cbn [decodeMembers]; match goal with |- context [fieldNamed decisionFields ?n] => change (fieldNamed decisionFields n) with (Some n) end;
        cbv iota; unfold storeDecision at 1; eval_algorithms; cbv iota;
        rewrite ?(decodeRaw_plain _ _ H4), ?(decodeRaw_plain _ _ H5), ?(decodeRaw_plain _ _ H6);
        rewrite ?(decodeUint_format _ _ H1), ?(decodeUint_format _ _ H2);
        cbn [decodeBool decodeTime decodeInt64 jsonInt mbind option_bind];
        rewrite ?(ParseInt_format _ H3); try (unfold resetText; rewrite Ht); cbn [mbind option_bind]).
  cbn [decodeMembers]. by destruct d.
Qed.

Lemma decode_items ds : Forall receipt_item ds -> decodeElements located (map itemJson ds) [] = Some ds.
Proof.
  induction 1 as [|d ds Hd _ IH]; [done|]. cbn [map decodeElements head tail default].
  rewrite decode_item by done. cbn [mbind option_bind]. by rewrite IH.
Qed.

Definition receiptJson (allowed : bool) (ds : list Decision) : json :=
  JObject [("CommandID", JString EmptyString); ("Allowed", JBool allowed); ("Decisions", JArray (map itemJson ds))].

Lemma marshal_receipt allowed ds :
  Forall receipt_item ds ->
  marshalReceipt zoneOffset (mkAtomicBatchDecision EmptyString allowed ds) = Some (printJson (receiptJson allowed ds)).
Proof.
  intros Hds. unfold marshalReceipt. cbn [abd_Decisions abd_CommandID abd_Allowed].
  assert (mapM (decisionJson zoneOffset) ds = Some (map itemJson ds)) as ->; [|cbn [mbind option_bind]; unfold receiptJson; reflexivity].
  apply mapM_Some. induction Hds as [|d ds Hd _ IH]; constructor; [by apply decisionJson_item|exact IH].
Qed.

Lemma resetText_plain d : all_bytes plainByte (resetText d) = true.
Proof. unfold resetText. exact (proj1 (dateTime_plain _ _)). Qed.

(** A document of plain texts is read as it is written. *)
Lemma item_plain d : receipt_item d -> printable (itemJson d) /\ asRead quoteChars (itemJson d) = itemJson d.
Proof.
  intros [_ (H1 & H2 & H3) (H4 & H5 & H6)]. destruct (plain_quote _ H4) as [E4 V4], (plain_quote _ H5) as [E5 V5], (plain_quote _ H6) as [E6 V6].
  destruct (plain_quote _ (resetText_plain d)) as [E7 V7]. split.
  - cbn [printable foldr fst snd itemJson]. split_and!; try done; apply printable_int; auto.
  - unfold itemJson. cbn [asRead map fst snd jsonInt]. by rewrite E4, E5, E6, E7.
Qed.

Lemma receipt_plain allowed ds :
  Forall receipt_item ds ->
  printable (receiptJson allowed ds) /\ asRead quoteChars (receiptJson allowed ds) = receiptJson allowed ds /\
  height (receiptJson allowed ds) <= maxNestingDepth.
Proof.
  intros Hds. split_and!.
  - cbn [printable foldr fst snd receiptJson]. split_and!; try done.
    induction Hds as [|d ds Hd _ IH]; [done|]. cbn [map foldr]. split; [by apply item_plain|done].
  - unfold receiptJson. cbn [asRead map fst snd]. do 5 f_equal. f_equal.
    induction Hds as [|d ds Hd _ IH]; [done|]. cbn [map]. by rewrite IH, (proj2 (item_plain d Hd)).
  - cbn [height foldr fst snd receiptJson].
    assert (foldr (fun e h => Z.max (height e) h) 0 (map itemJson ds) <= 1) as Hh.
    { clear. induction ds as [|d ds IH]; cbn [map foldr]; [lia|]. assert (height (itemJson d) = 1) as -> by reflexivity. lia. }
    unfold maxNestingDepth. lia.
Qed.

Lemma unmarshal_receipt allowed ds :
  Forall receipt_item ds ->
  unmarshalReceipt located (printJson (receiptJson allowed ds)) = Some (mkAtomicBatchDecision EmptyString allowed ds).
Proof.
  intros Hds. destruct (receipt_plain allowed ds Hds) as (Hp & Hr & Hh).
  pose proof (parse_raw _ EmptyString Hp Hh I) as Hparse. rewrite Hr, string_app_nil in Hparse.
  unfold unmarshalReceipt, parseAllWith. rewrite Hparse. cbn [skipSpace mbind option_bind].
  unfold decodeStruct, receiptJson.
  do 3 (cbn [decodeMembers]; match goal with |- context [fieldNamed receiptFields ?n] => change (fieldNamed receiptFields n) with (Some n) end;
        cbv iota; unfold storeReceipt at 1; eval_algorithms; cbv iota;
        rewrite ?(decodeRaw_plain _ EmptyString eq_refl); cbn [decodeBool mbind option_bind]).
  pose proof (decode_items ds Hds) as Hel. destruct ds as [|d ds]; [done|]. unfold decodeSlice. cbn [map] in *.
  cbn [rs_Decisions backing]. rewrite Hel. cbn. by rewrite length_map, firstn_all.
Qed.
End Receipts.
