(* ===== verification/PgBatch.v ===== *)
(** * The outcome of an atomic batch

    On buckets that hold sound rows the batch decides every bucket at one time,
    and the receipt of what it decided fits its column and is read back, on a
    retry, as the same decision. *)

From S2P Require Import Prelude GoTime GoHash Errors Keys Policy Backend GoJson JsonFacts Rfc3339.
From S2P Require Import MemoryState TokenBucket MemoryContract PgState PgTokens PgRows PgCodec PgWire PgStore PgLaws PgHistory AtomicBatch PgAtomic PgReceipts.

Local Open Scope string_scope.
Local Open Scope Z_scope.

#[local] Arguments String.append !_ _ / : simpl nomatch.

(** ** The size of a receipt *)

Lemma decimalDigits_size f : forall n, (len (decimalDigits f n) <= f)%nat.
Proof.
  induction f as [|f IH]; intros n; [done|]. cbn [decimalDigits]. case_match; [simpl; lia|].
  rewrite length_string_app. specialize (IH (n / 10)). cbn [len text]. lia.
Qed.

Lemma formatInt_length n : (len (formatInt n) <= 21)%nat.
Proof.
  unfold formatInt, formatUint. pose proof (decimalDigits_size 20 n). pose proof (decimalDigits_size 20 (- n)).
  destruct (n <? 0); cbn [len]; lia.
Qed.

Lemma quote_length s : all_bytes plainByte s = true -> len (quote s) = (len s + 2)%nat.
Proof.
  intros Hs. unfold quote. rewrite (proj1 (plain_quote s Hs)). cbn [len]. rewrite length_string_app. cbn [len text]. lia.
Qed.

Lemma item_size d :
  receipt_item d -> (len (dec_Reason d) <= 64)%nat -> (len (dec_Backend d) <= 64)%nat -> (len (dec_PolicyRevision d) <= 64)%nat ->
  (len (printJson (itemJson d)) <= 500)%nat.
Proof.
  intros [_ _ (H4 & H5 & H6)] L1 L2 L3. unfold itemJson.
  pose proof (formatInt_length (Remaining d)). pose proof (formatInt_length (dec_Limit d)). pose proof (formatInt_length (RetryAfter d)).
  pose proof (proj2 (dateTime_plain (instant (Reset d) / Second) (instant (Reset d) mod Second))) as L4. fold (resetText d) in L4.
  cbn [printJson jsonInt map fst snd]. cbn [String.concat]. rewrite !length_string_app.
  rewrite (quote_length _ H4), (quote_length _ H5), (quote_length _ H6), (quote_length _ (resetText_plain d)).
  repeat match goal with |- context [len (quote ?s)] => let v := eval vm_compute in (len (quote s)) in change (len (quote s)) with v end.
  cbn [len]. assert (len (if Allowed d then "true" else "false") <= 5)%nat by (destruct (Allowed d); simpl; lia). lia.
Qed.

Lemma concat_size xs k : Forall (fun x => len x <= k)%nat xs -> (len (String.concat "," xs) <= (k + 1) * length xs)%nat.
Proof.
  induction 1 as [|x xs Hx Hxs IH]; [simpl; lia|]. destruct xs as [|y xs]; [simpl; lia|].
  rewrite concat_cons, !length_string_app. cbn [len length] in *. lia.
Qed.

(** The texts of a decision are short. *)
Definition short_item (d : Decision) : Prop :=
  receipt_item d /\ (len (dec_Reason d) <= 64)%nat /\ (len (dec_Backend d) <= 64)%nat /\ (len (dec_PolicyRevision d) <= 64)%nat.

Lemma receipt_size allowed ds :
  Forall short_item ds -> (length ds <= MaxAtomicBatchSize)%nat ->
  0 < strlen (printJson (receiptJson allowed ds)) <= maxAtomicReceiptBytes.
Proof.
  intros Hds Hn. unfold receiptJson, strlen. cbn [printJson map fst snd]. cbn [String.concat]. rewrite !length_string_app.
  assert (len (String.concat "," (map printJson (map itemJson ds))) <= 501 * length ds)%nat as Hc.
  { replace (length ds) with (length (map printJson (map itemJson ds))) by (by rewrite !length_map).
    apply (concat_size _ 500). induction Hds as [|d ds (Hi & L1 & L2 & L3) _ IH]; constructor; [by apply item_size|apply IH].
    simpl in Hn. lia. }
  repeat match goal with |- context [len (quote ?s)] => let v := eval vm_compute in (len (quote s)) in change (len (quote s)) with v end.
  cbn [len]. assert (len (if allowed then "true" else "false") <= 5)%nat by (destruct allowed; simpl; lia).
  unfold MaxAtomicBatchSize, maxAtomicReceiptBytes in *. lia.
Qed.

(** ** One bucket *)

(** The bucket of a request at microsecond [m]: a row of an earlier revision of
    its policy, last seen before [m], or no row. *)
Definition bucket_ready (m : Z) (state : option persistedState) (r : Request) : Prop :=
  exists pol P, lineage pol (id (req_Policy r)) TokenBucket P /\ row_request pol TokenBucket P (at_micros r m) m /\
    identifier (revision (req_Policy r)) /\
    match state with
    | None => True
    | Some row => sound_row pol (id (req_Policy r)) TokenBucket P row /\ ps_ObservedMicros row <= m
    end.

(** What the bucket decides: [tok] tokens and the remainder [rem] were there. *)
Record decides (m : Z) (r : Request) (tok rem : Z) (next : persistedState) (d : Decision) (err : option error) : Prop := {
  de_tokens : 0 <= tok <= Limit (req_Policy r);
  de_remainder : 0 <= rem < period_micros (req_Policy r) /\ (tok = Limit (req_Policy r) -> rem = 0);
  de_next : ps_Tokens next = (if tok <? Cost r then tok else tok - Cost r) /\ ps_Remainder next = rem /\ ps_ObservedMicros next = m;
  de_decision : d =
    decision (negb (tok <? Cost r)) (Limit (req_Policy r)) (ps_Tokens next)
      (Add (toUTC (ofUnixMicro m)) (refillDuration (Limit (req_Policy r) - ps_Tokens next) rem (req_Policy r)))
      (if tok <? Cost r then refillDuration (Cost r - tok) rem (req_Policy r) else 0)
      (if tok <? Cost r then ReasonLimited else ReasonAllowed);
  de_error : err = if tok <? Cost r then Some (Sent ErrRejected) else None
}.

Lemma bucket_decides m state r :
  bucket_ready m state r ->
  exists tok rem next d err, mutateState state (at_micros r m) = (Some next, d, err) /\ decides m r tok rem next d err.
Proof.
  intros (pol & P & Hline & Hreq & _ & Hstate).
  assert (exists row, mutateState state (at_micros r m) = mutateState (Some row) (at_micros r m) /\
    sound_row pol (id (req_Policy r)) TokenBucket P row /\ ps_ObservedMicros row <= m) as (row & -> & Hrow & Hle).
  { destruct state as [row|]; [by exists row|]. destruct (first_row_sound _ _ _ _ Hline _ m Hreq) as [Hrow Hobs].
    exists (first_row (at_micros r m)). rewrite Hobs. split_and!; [by apply (first_admission _ _ _ _ Hline _ m)|done|lia]. }
  rewrite (mutateState_eq _ _ _ _ Hline row _ m Hrow Hreq). destruct Hreq as (Hp & Hc & _ & Hm & _). simpl in Hp, Hc.
  change (revision (req_Policy (at_micros r m))) with (revision (req_Policy r)) in *. set (v := revision (req_Policy r)) in *.
  unfold effective. rewrite Z.max_l by lia.
  destruct (line_facts _ _ _ _ Hline v) as (HP & _). pose proof (line_period_micros _ _ _ _ Hline v) as HPm.
  assert (token_row (pol v) P (prepared pol TokenBucket row v m)) as Hrow0.
  { pose proof (prepared_token _ _ _ _ Hline row v m eq_refl Hrow) as Hpt. unfold effective in Hpt. rewrite Z.max_l in Hpt by lia. apply Hpt. lia. }
  destruct (prepared_identity _ _ _ _ Hline row v m) as (_ & _ & _ & _ & I5 & _).
  destruct (mutateToken_spec (pol v) (line_wf _ _ _ _ Hline v) (line_algorithm _ _ _ _ Hline v) (prepared pol TokenBucket row v m) (at_micros r m))
    as (tok & rem & Hmut & [T1 T2 T3 T4] & [U1 U2 U3 U4] & _).
  { by rewrite HPm. }
  { done. }
  { by rewrite I5. }
  { rewrite I5. unfold is_i64. lia. }
  { by rewrite <- Hp. }
  unfold mutateRow. eval_algorithms. cbv iota.
  change (at_micros (at_micros r m) m) with (at_micros r m). rewrite Hmut.
  exists tok, rem. eexists _, _, _. split; [reflexivity|]. rewrite <- Hp in *. simpl in *.
  split; simpl; done.
Qed.

(** ** Receipts of decided buckets *)

Lemma year_range t : location t = UTC -> - maxExactMicros * 1000 <= instant t <= 2 * maxExactMicros * 1000 -> 0 <= yearOf t <= 9999.
Proof.
  intros _ Ht. unfold yearOf, civilFromDays. set (z := instant t / Second / 86400 + 719468).
  assert (600000 <= z <= 1000000) as Hz by (unfold z; zlia).
  set (doe := z mod 146097). assert (0 <= doe < 146097) by (apply Z.mod_pos_bound; lia).
  set (c := Z.min 3 (doe / 36524)). assert (0 <= c <= 3 /\ 0 <= doe - 36524 * c <= 36524) as [Hc Hdoc] by (unfold c; zlia).
  set (q := (doe - 36524 * c) / 1461). assert (0 <= q <= 24) as Hq by (unfold q; zlia).
  set (y := Z.min 3 _). assert (y <= 3 /\ -1 <= y) as Hy by (unfold y, q; zlia).
  assert (4 <= z / 146097 <= 6) as He by zlia. simpl. repeat case_match; lia.
Qed.

Section Item.
Context (m : Z) (r : Request).
Abbreviation p := (req_Policy r).
Hypothesis Hwf : wf_policy p.
Hypothesis Hal : algorithm p = TokenBucket.
Hypothesis Hcost : 1 <= Cost r <= maxCost p.
Hypothesis Hm : - maxExactMicros <= m <= maxExactMicros.
Hypothesis Hrev : identifier (revision p).

Lemma revision_plain : all_bytes plainByte (revision p) = true /\ (len (revision p) <= 64)%nat.
Proof.
  destruct Hrev as [Hl Hb]. split; [|unfold strlen in Hl; lia]. clear - Hb. induction (revision p) as [|c s IH]; [done|].
  cbn [bytes_of] in Hb. apply Forall_cons in Hb as [Hc Hb]. cbn [all_bytes]. rewrite (IH Hb), andb_true_r.
  destruct c as [[] [] [] [] [] [] [] []]; vm_compute in Hc; try discriminate; done.
Qed.

(** A decision of the package about [r] with these figures. *)
Lemma short_figures allowed remaining reset retry reason :
  0 <= remaining <= Limit p -> 0 <= reset <= maxExactMicros * 1000 -> is_i64 retry ->
  all_bytes plainByte reason = true -> (len reason <= 64)%nat ->
  short_item (mkDecision allowed remaining (Limit p) (Add (toUTC (ofUnixMicro m)) reset) retry reason "postgres" (revision p)).
Proof.
  intros Hr Hreset Hretry Hp Hl. destruct revision_plain as [Hv1 Hv2].
  destruct (token_policy p Hwf Hal) as (_ & _ & _ & HL & _).
  split_and!; simpl; try done; [|lia]. split; simpl; [|split_and!; unfold is_u64; lia || done|done].
  split; [done|]. apply year_range; [done|]. simpl. lia.
Qed.

Context (tok rem : Z) (next : persistedState) (d : Decision) (err : option error).
Hypothesis Hd : decides m r tok rem next d err.

(** The waiting times of a bucket are whole microseconds in range. *)
Lemma waits n k :
  0 <= n <= Limit p -> (n = 0 -> k = 0) -> 0 <= k < period_micros p ->
  0 <= refillDuration n k p <= maxExactMicros * 1000 /\ (1 <= n -> 0 < refillDuration n k p) /\
  refillDuration n k p <= refillDuration n 0 p.
Proof.
  intros Hn Hz Hk. destruct (token_policy p Hwf Hal) as (Hc & _ & _ & _ & HP & _).
  destruct (refillDuration_exact p Hwf Hal n k Hn Hk Hz) as (us & -> & Hus & Hiff).
  destruct (refillDuration_exact p Hwf Hal n 0 Hn ltac:(lia) ltac:(lia)) as (us0 & -> & Hus0 & Hiff0).
  split_and!; try lia.
  - intros H1. assert (us <> 0); [|lia]. intros ->. pose proof (proj1 (Hiff 0) ltac:(lia)). nia.
  - assert (us <= us0); [|lia]. apply Hiff. pose proof (proj1 (Hiff0 us0) ltac:(lia)). lia.
Qed.

(** The checks that every entry of a receipt passes. *)
Lemma check_common allowed granted remaining reset retry reason :
  0 <= remaining <= Limit p -> 0 <= reset ->
  let x := mkDecision granted remaining (Limit p) (Add (toUTC (ofUnixMicro m)) reset) retry reason "postgres" (revision p) in
  checkReceiptItem allowed x r =
    if allowed then
      if negb granted || negb (bool_decide (reason = ReasonAllowed)) || negb (retry =? 0) || (Limit p -u Cost r <? remaining)
      then None else Some false
    else
      if granted then None else
      if bool_decide (reason = ReasonLimited) then
        if (Cost r <=? remaining) || (retry <=? 0) || (tokenDuration (Cost r) 0 p <? retry) then None else Some true
      else if bool_decide (reason = ReasonAtomicRejected) then
        if (remaining <? Cost r) || negb (retry =? 0) then None else Some false
      else None.
Proof.
  intros Hr Hreset x. unfold checkReceiptItem, x, IsZero. cbn [dec_Limit Remaining dec_Backend dec_PolicyRevision Reset Add instant toUTC ofUnixMicro].
  rewrite Z.eqb_refl, (proj2 (Z.ltb_ge (Limit p) remaining)), !bool_decide_eq_true_2, (proj2 (Z.eqb_neq _ zero_instant)) by (done || lia).
  done.
Qed.

Definition stamped_decision : Decision := stampPostgres d r.

Lemma stamped_eq :
  stamped_decision =
    mkDecision (negb (tok <? Cost r)) (ps_Tokens next) (Limit p)
      (Add (toUTC (ofUnixMicro m)) (refillDuration (Limit p - ps_Tokens next) rem p))
      (if tok <? Cost r then refillDuration (Cost r - tok) rem p else 0)
      (if tok <? Cost r then ReasonLimited else ReasonAllowed) "postgres" (revision p).
Proof. unfold stamped_decision. by rewrite (de_decision _ _ _ _ _ _ _ Hd). Qed.

Lemma granted_item :
  Cost r <= tok -> Allowed stamped_decision = true /\ short_item stamped_decision /\ checkReceiptItem true stamped_decision r = Some false.
Proof.
  intros Hfit. pose proof Hd as [Ht [Hrem Hfull] (Hn & _) _ _]. rewrite stamped_eq, Hn, !(proj2 (Z.ltb_ge tok (Cost r))) by lia.
  destruct (token_policy p Hwf Hal) as (_ & _ & _ & HL & _ & _ & _ & _ & Hmax).
  destruct (waits (Limit p - (tok - Cost r)) rem) as (Hw & _ & _); [lia|lia|done|]. split; [done|]. split.
  - apply short_figures; try done; [lia|vm_compute; lia].
  - rewrite check_common, (u64_id (Limit p - Cost r)), (proj2 (Z.ltb_ge _ _)) by (unfold is_u64; lia). done.
Qed.

Lemma limited_item :
  tok < Cost r -> Allowed stamped_decision = false /\ short_item stamped_decision /\ checkReceiptItem false stamped_decision r = Some true.
Proof.
  intros Hover. pose proof Hd as [Ht [Hrem Hfull] (Hn & _) _ _]. rewrite stamped_eq, Hn, !(proj2 (Z.ltb_lt tok (Cost r))) by lia.
  destruct (token_policy p Hwf Hal) as (_ & _ & _ & HL & HP & _ & _ & _ & Hmax).
  destruct (waits (Limit p - tok) rem) as (Hw & _ & _); [lia|lia|done|].
  destruct (waits (Cost r - tok) rem) as (Hw' & Hpos & Hle); [lia|lia|done|]. split; [done|].
  assert (refillDuration (Cost r - tok) rem p <= tokenDuration (Cost r) 0 p) as Hbound.
  { rewrite tokenDuration_eq. etrans; [exact Hle|].
    destruct (refillDuration_exact p Hwf Hal (Cost r - tok) 0) as (us & -> & _ & Hiff); [lia|lia|done|].
    destruct (refillDuration_exact p Hwf Hal (Cost r) 0) as (us' & -> & _ & Hiff'); [lia|lia|done|].
    assert (us <= us'); [|lia]. apply Hiff. pose proof (proj1 (Hiff' us') ltac:(lia)). nia. }
  split.
  - apply short_figures; try done; [unfold is_i64; lia|vm_compute; lia].
  - rewrite check_common by lia. eval_algorithms. cbv iota. cbn [negb].
    rewrite (proj2 (Z.leb_gt _ tok)), (proj2 (Z.leb_gt _ 0)), (proj2 (Z.ltb_ge _ _)) by lia. done.
Qed.

Lemma restored_item :
  Cost r <= tok -> let d' := restoreDebit (toUTC (ofUnixMicro m)) next stamped_decision r in
  Allowed d' = false /\ Remaining d' = tok /\ short_item d' /\ checkReceiptItem false d' r = Some false.
Proof.
  intros Hfit d'. pose proof Hd as [Ht [Hrem Hfull] (Hn & Hnr & _) _ _].
  destruct (token_policy p Hwf Hal) as (_ & _ & _ & HL & _ & _ & _ & _ & Hmax).
  unfold d', restoreDebit. rewrite stamped_eq, Hn, Hnr, !(proj2 (Z.ltb_ge tok (Cost r))) by lia. cbn [Allowed negb].
  replace (tok - Cost r + Cost r) with tok by lia. rewrite (u64_id tok), (u64_id (Limit p - tok)), tokenDuration_eq by (unfold is_u64; lia).
  cbn [dec_Limit RetryAfter dec_Backend dec_PolicyRevision Allowed Remaining].
  destruct (waits (Limit p - tok) rem) as (Hw & _ & _); [lia|lia|done|]. split; [done|]. split; [done|]. split.
  - apply short_figures; try done; vm_compute; lia.
  - rewrite check_common by lia. eval_algorithms. cbv iota. cbn [negb].
    rewrite (proj2 (Z.ltb_ge _ _)) by lia. done.
Qed.
End Item.

(** ** The batch *)

(** What is known of the request of a bucket that is ready. *)
Record batch_request (m : Z) (r : Request) : Prop := {
  br_policy : wf_policy (req_Policy r);
  br_algorithm : algorithm (req_Policy r) = TokenBucket;
  br_cost : 1 <= Cost r <= maxCost (req_Policy r);
  br_time : - maxExactMicros <= m <= maxExactMicros;
  br_revision : identifier (revision (req_Policy r))
}.

Lemma ready_request m state r : bucket_ready m state r -> batch_request m r.
Proof.
  intros (pol & P & Hline & (Hp & Hc & _ & Hm & _) & Hrev & _). simpl in Hp, Hc.
  destruct (line_facts _ _ _ _ Hline (revision (req_Policy r))) as (HP & _).
  split; try done; [rewrite Hp; apply Hline|rewrite Hp; apply Hline|lia].
Qed.

(** One entry of the result of [decideBuckets]. *)
Definition decided_as (m : Z) (r : Request) (x : persistedState * Decision * bool) : Prop :=
  batch_request m r /\
  exists tok rem d err, decides m r tok rem x.1.1 d err /\ x.1.2 = stampPostgres d r /\ x.2 = negb (tok <? Cost r).

Lemma decides_in_time m r tok rem next d err :
  batch_request m r -> decides m r tok rem next d err -> validateStrictDecisionTime d (observedTime next) = None.
Proof.
  intros [Hwf Hal Hc Hm _] [Ht [Hr _] (_ & _ & Ho) -> _]. unfold validateStrictDecisionTime, observedTime, Before. rewrite Ho. simpl.
  destruct (token_policy _ Hwf Hal) as (Hcap & _).
  pose proof (MemoryContract.refillDuration_nonneg (Limit (req_Policy r) - ps_Tokens next) rem _ Hcap).
  rewrite (proj2 (Z.ltb_ge _ _)) by lia. by rewrite andb_false_r.
Qed.

Section Batch.
Context {W : Type} (ctx : Context W).

(** No check refuses a bucket that is ready: the batch decides all of them. *)
Lemma decideBuckets_ready m states rs w :
  Forall2 (bucket_ready m) states rs ->
  exists decided, decideBuckets ctx (toUTC (ofUnixMicro m)) states rs w = (Ret (Ok decided), w) /\ Forall2 (decided_as m) rs decided.
Proof.
  induction 1 as [|state r states rs Hready _ IH]; [by exists []|]. cbn [decideBuckets].
  change (withNow r (toUTC (ofUnixMicro m))) with (at_micros r m).
  destruct (bucket_decides m state r Hready) as (tok & rem & next & d & err & -> & Hd). pose proof (ready_request _ _ _ Hready) as Hreq.
  destruct IH as (decided & IH & Hall). pose proof (decides_in_time _ _ _ _ _ _ _ Hreq Hd) as Htime. pose proof (de_error _ _ _ _ _ _ _ Hd) as Herr.
  assert (failed err = false) as Hok by (rewrite Herr; by destruct (tok <? Cost r)).
  rewrite bind_unfold. unfold strictPostgresDecisionResult. rewrite Hok, Htime. cbn. rewrite Hok, bind_unfold, IH. cbn.
  exists ((next, stampPostgres d r, match err with None => true | Some _ => false end) :: decided). split; [done|]. constructor; [|done].
  split; [done|]. exists tok, rem, d, err. simpl. split_and!; try done. rewrite Herr. by destruct (tok <? Cost r).
Qed.

(** What the transaction returns for the decided buckets. *)
Definition batchResult (request : AtomicBatchRequest) (now : Time) (decided : list (persistedState * Decision * bool))
    : AtomicBatchDecision * option error :=
  let ds := map (fun x => x.1.2) decided in
  if forallb (fun x => x.2) decided then (mkAtomicBatchDecision (CommandID request) true ds, None) else
  (mkAtomicBatchDecision (CommandID request) false
     (restoreDebits now (map (fun x => x.1.1) decided) ds (abr_Requests request)), Some (Sent ErrRejected)).

(** The entries of an admitted batch. *)
Lemma admitted_items m rs decided :
  Forall2 (decided_as m) rs decided -> forallb (fun x => x.2) decided = true ->
  Forall short_item (map (fun x => x.1.2) decided) /\
  (forall limited, checkReceiptItems true (map (fun x => x.1.2) decided) rs limited = Some limited) /\
  Forall2 (fun r x => Allowed x.1.2 = true) rs decided.
Proof.
  induction 1 as [|r [[next d'] ok] rs decided (Hreq & tok & rem & d & err & Hd & E & Eok) _ IH]; cbn [forallb map fst snd].
  { intros _. by split_and!. }
  simpl in *. intros [Hok Hall]%andb_true_iff. destruct (IH Hall) as (Hs & Hc & Ha). rewrite Eok in Hok. apply negb_true_iff, Z.ltb_ge in Hok.
  destruct Hreq as [Q1 Q2 Q3 Q4 Q5].
  destruct (granted_item m r Q1 Q2 Q3 Q4 Q5 tok rem next d err Hd Hok) as (Hallowed & Hshort & Hcheck). unfold stamped_decision in *.
  rewrite E in *. split_and!; [by constructor| |by constructor]. intros limited. by rewrite Hcheck, orb_false_r.
Qed.

(** The entries of a rejected batch: none is allowed, one is limited, and the
    others show what was there before. *)
Lemma rejected_items m rs decided :
  Forall2 (decided_as m) rs decided ->
  let ds := restoreDebits (toUTC (ofUnixMicro m)) (map (fun x => x.1.1) decided) (map (fun x => x.1.2) decided) rs in
  length ds = length rs /\ Forall short_item ds /\
  forall limited, checkReceiptItems false ds rs limited = Some (limited || negb (forallb (fun x => x.2) decided)).
Proof.
  induction 1 as [|r [[next d'] ok] rs decided (Hreq & tok & rem & d & err & Hd & E & Eok) _ IH]; cbn [forallb map fst snd restoreDebits].
  { split_and!; try done. intros limited. by rewrite orb_false_r. }
  simpl in *. destruct IH as (Hl & Hs & Hc). destruct Hreq as [Q1 Q2 Q3 Q4 Q5]. subst d' ok.
  destruct (Z.ltb_spec tok (Cost r)) as [Hover|Hfit]; cbn [negb andb].
  - destruct (limited_item m r Q1 Q2 Q3 Q4 Q5 tok rem next d err Hd Hover) as (Hallowed & Hshort & Hcheck). unfold stamped_decision in *.
    unfold restoreDebit. rewrite Hallowed. cbn [negb]. split_and!; [lia|by constructor|]. intros limited. rewrite Hcheck, Hc.
    by rewrite orb_true_r.
  - destruct (restored_item m r Q1 Q2 Q3 Q4 Q5 tok rem next d err Hd Hfit) as (Hallowed & _ & Hshort & Hcheck). unfold stamped_decision in *.
    split_and!; [lia|by constructor|]. intros limited. by rewrite Hcheck, Hc, orb_false_r.
Qed.

(** The checks read only the policy and the cost of a request. *)
Lemma check_same_intent allowed ds rs rs' :
  Forall2 same_intent rs rs' -> forall limited, checkReceiptItems allowed ds rs limited = checkReceiptItems allowed ds rs' limited.
Proof.
  intros H. revert ds. induction H as [|r r' rs rs' (Hp & _ & Hc) _ IH]; intros [|d ds] limited; try done. cbn [checkReceiptItems].
  assert (checkReceiptItem allowed d r = checkReceiptItem allowed d r') as -> by (unfold checkReceiptItem; by rewrite Hp, Hc).
  destruct (checkReceiptItem allowed d r'); [apply IH|done].
Qed.

Context (zoneOffset : Location -> Z -> Z) (located : Z -> Z -> Location).

(** A receipt whose entries pass is decoded to the decision it was written for,
    whenever the same intent is submitted. *)
Lemma receipt_decodes request allowed ds limited :
  Forall short_item ds -> (length ds <= MaxAtomicBatchSize)%nat -> length ds = length (abr_Requests request) ->
  checkReceiptItems allowed ds (abr_Requests request) false = Some limited -> (allowed = false -> limited = true) ->
  exists receipt, marshalReceipt zoneOffset (mkAtomicBatchDecision EmptyString allowed ds) = Some receipt /\
    0 < strlen receipt <= maxAtomicReceiptBytes /\
    forall retry, CommandID retry = CommandID request -> Forall2 same_intent (abr_Requests request) (abr_Requests retry) ->
      decodeAtomicReceipt located receipt retry =
        (mkAtomicBatchDecision (CommandID request) allowed ds, if allowed then None else Some (Sent ErrRejected)).
Proof.
  intros Hs Hn Hl Hc Hlim.
  assert (Forall receipt_item ds) as Hi by (eapply Forall_impl; [exact Hs|]; by intros d [? _]).
  pose proof (receipt_size allowed ds Hs Hn) as Hsize. exists (printJson (receiptJson allowed ds)). split_and!; [by apply marshal_receipt|lia..|].
  intros retry Hid Hsame. pose proof (Forall2_length _ _ _ Hsame) as Hl'. rewrite (check_same_intent _ _ _ _ Hsame) in Hc.
  unfold decodeAtomicReceipt. rewrite (proj2 (Z.eqb_neq _ 0)), (proj2 (Z.ltb_ge _ _)) by lia. cbn [orb].
  rewrite (unmarshal_receipt zoneOffset located allowed ds Hi). cbn [abd_CommandID abd_Decisions abd_Allowed].
  rewrite bool_decide_eq_true_2, Hl, Hl', Nat.eqb_refl, Hc, Hid by done. cbn [negb orb]. destruct allowed; cbn [negb]; [done|]. by rewrite Hlim.
Qed.

(** The receipt of decided buckets replays. *)
Lemma batch_replays request m decided :
  Forall2 (decided_as m) (abr_Requests request) decided -> (length (abr_Requests request) <= MaxAtomicBatchSize)%nat ->
  exists receipt, let '(out, err) := batchResult request (toUTC (ofUnixMicro m)) decided in
    marshalReceipt zoneOffset (mkAtomicBatchDecision EmptyString (abd_Allowed out) (abd_Decisions out)) = Some receipt /\
    0 < strlen receipt <= maxAtomicReceiptBytes /\
    forall retry, CommandID retry = CommandID request -> Forall2 same_intent (abr_Requests request) (abr_Requests retry) ->
      decodeAtomicReceipt located receipt retry = (out, err).
Proof.
  intros Hall Hn. pose proof (Forall2_length _ _ _ Hall) as Hlen. unfold batchResult. destruct (forallb (fun x => x.2) decided) eqn:Hok.
  - destruct (admitted_items m _ _ Hall Hok) as (Hs & Hc & _).
    destruct (receipt_decodes request true (map (fun x => x.1.2) decided) false) as (receipt & Hreceipt);
      rewrite ?length_map; try done; [lia|]. by exists receipt.
  - destruct (rejected_items m _ _ Hall) as (Hl & Hs & Hc). rewrite Hok in Hc.
    destruct (receipt_decodes request false _ true Hs ltac:(lia) Hl (Hc false) ltac:(done)) as (receipt & Hreceipt). by exists receipt.
Qed.

(** C10: a retry of an atomic command gets the original answer.  When every bucket
    of a command holds a sound row or none, the batch decides all of them at one
    time; the receipt of the answer always fits the 16 KiB of its column; and
    whenever the same intent is submitted again, at any time, the receipt passes
    every check and is decoded to the same decision and error: admitted with the
    debits, or rejected with one bucket exhausted and the capacity that the others
    had. *)
Theorem atomic_receipt_replays request m states w :
  Forall2 (bucket_ready m) states (abr_Requests request) -> (length (abr_Requests request) <= MaxAtomicBatchSize)%nat ->
  exists decided receipt,
    decideBuckets ctx (toUTC (ofUnixMicro m)) states (abr_Requests request) w = (Ret (Ok decided), w) /\
    let '(out, err) := batchResult request (toUTC (ofUnixMicro m)) decided in
    marshalReceipt zoneOffset (mkAtomicBatchDecision EmptyString (abd_Allowed out) (abd_Decisions out)) = Some receipt /\
    0 < strlen receipt <= maxAtomicReceiptBytes /\
    forall retry, CommandID retry = CommandID request -> Forall2 same_intent (abr_Requests request) (abr_Requests retry) ->
      decodeAtomicReceipt located receipt retry = (out, err).
Proof.
  intros Hready Hn. destruct (decideBuckets_ready m states (abr_Requests request) w Hready) as (decided & Hdec & Hall).
  destruct (batch_replays request m decided Hall Hn) as (receipt & Hreceipt). by exists decided, receipt.
Qed.
End Batch.

(** ** A command over two buckets *)

Module DemoBatch.
Definition m : Z := 1700000000000000.
(** The first bucket has 2 of its 5 tokens and is asked for 3; the second is new. *)
Definition first : Request := DemoRows.at_ TokenBucket "v1" m 3.
Definition second : Request :=
  mkRequest (DemoRows.pol TokenBucket "v2") (mkKey "http:v1:principal:y" "principal") 1 (toUTC (ofUnixMicro m)).
Definition command : AtomicBatchRequest := mkAtomicBatchRequest "order-17" [first; second].
Definition states : list (option persistedState) := [Some DemoRows.row; None].
(** The same command an hour later. *)
Definition retry : AtomicBatchRequest :=
  mkAtomicBatchRequest "order-17" [withNow first (toUTC (ofUnixMicro 1700003600000000)); withNow second (toUTC (ofUnixMicro 1700003600000000))].
End DemoBatch.

Lemma demo_version s : s = "v1" \/ s = "v2" \/ s = "window" -> identifier s.
Proof. intros [-> | [-> | ->]]; (split; [vm_compute; split; discriminate|]); repeat constructor. Qed.

Lemma demo_buckets : Forall2 (bucket_ready DemoBatch.m) DemoBatch.states (abr_Requests DemoBatch.command).
Proof.
  assert (windowed TokenBucket) as Hw by by left.
  repeat constructor; exists (DemoRows.pol TokenBucket), 160; (split; [by apply demo_lineage|]).
  - split; [by apply (demo_row_request TokenBucket "v1" DemoBatch.m 3); unfold DemoBatch.m; lia|].
    split; [apply demo_version; auto|]. split; [exact demo_row_sound|done].
  - split; [|split; [apply demo_version; auto|done]].
    pose proof (demo_row_request TokenBucket "v2" DemoBatch.m 1 ltac:(lia) ltac:(unfold DemoBatch.m; lia)) as H. exact H.
Qed.

Lemma demo_typed : Forall intent_typed (abr_Requests DemoBatch.command) /\ Forall intent_typed (abr_Requests DemoBatch.retry).
Proof.
  split; repeat apply Forall_cons_2; try apply Forall_nil_2; split; try (apply demo_version; by auto);
    vm_compute; repeat split; discriminate || reflexivity.
Qed.

Lemma atomic_intent_binds_witness :
  printJson (intentJson DemoBatch.command ServerClock) = printJson (intentJson DemoBatch.retry ServerClock).
Proof.
  apply (atomic_intent_binds DemoBatch.command DemoBatch.retry ServerClock ServerClock (proj1 demo_typed) (proj2 demo_typed)).
  - vm_compute; split; [discriminate|reflexivity].
  - vm_compute; split; [discriminate|reflexivity].
  - split; [reflexivity|]. repeat constructor.
Defined.

Lemma atomic_receipt_replays_witness :
  exists decided receipt,
    decideBuckets (mkContext (fun w : unit => (None, w))) (toUTC (ofUnixMicro DemoBatch.m)) DemoBatch.states
      (abr_Requests DemoBatch.command) tt = (Ret (Ok decided), tt) /\
    (batchResult DemoBatch.command (toUTC (ofUnixMicro DemoBatch.m)) decided).2 = Some (Sent ErrRejected) /\
    decodeAtomicReceipt (fun _ _ => Local) receipt DemoBatch.retry = batchResult DemoBatch.command (toUTC (ofUnixMicro DemoBatch.m)) decided.
Proof.
  destruct (atomic_receipt_replays (mkContext (fun w : unit => (None, w))) (fun _ _ => 0) (fun _ _ => Local) DemoBatch.command DemoBatch.m
    DemoBatch.states tt demo_buckets ltac:(vm_compute; repeat constructor)) as (decided & receipt & Hdec & Hres).
  exists decided, receipt. split; [exact Hdec|].
  assert (forallb (fun x => x.2) decided = false) as Hrej.
  { vm_compute in Hdec. injection Hdec as <-. reflexivity. }
  destruct (batchResult DemoBatch.command (toUTC (ofUnixMicro DemoBatch.m)) decided) as [out err] eqn:E. destruct Hres as (_ & _ & Hretry). split.
  - unfold batchResult in E. rewrite Hrej in E. by injection E as _ <-.
  - apply Hretry; [reflexivity|repeat constructor].
Defined.
