(* ===== verification/PgCommands.v ===== *)
(** * Atomic commands through the database

    [CommandLaws] states what an atomic batch relies on in PostgreSQL: a
    transaction may hold the lock of a command and the locks of several buckets,
    collects writes and command records that nobody sees, and publishes all or
    none of them; it sees its own writes; rows and records do not change while
    their advisory locks are held (with the reading of [PgLaws]: all methods but
    [Cleanup] take them); and a record of a command is never removed.  For every such database a batch returns, and publishes nothing or
    everything it decided; a command that has a record never debits again. *)

From S2P Require Import Prelude GoTime GoHash Errors Keys Policy Backend GoJson JsonFacts Rfc3339.
From S2P Require Import MemoryState TokenBucket PgState PgTokens PgRows PgCodec PgWire PgStore PgLaws PgOutcomes PgHistory AtomicBatch PgAtomic PgReceipts PgBatch.

Local Open Scope string_scope.
Local Open Scope list_scope.
Local Open Scope Z_scope.

(** ** Computations that return *)

(** The computation returns, and its result and world satisfy [Q]. *)
Definition ensures {W A} (c : M W A) (w : W) (Q : A -> W -> Prop) : Prop :=
  match c w with (Ret a, w') => Q a w' | (Panic, _) => False end.

Lemma ensures_bind {W A B} (c : M W A) (k : A -> M W B) w P Q :
  ensures c w P -> (forall a w', P a w' -> ensures (k a) w' Q) -> ensures (c ≫= k) w Q.
Proof. unfold ensures. rewrite bind_unfold. destruct (c w) as [[a|] w']; [|done]. intros HP Hk. exact (Hk a w' HP). Qed.

Lemma ensures_ret {W A} (a : A) (w : W) (Q : A -> W -> Prop) : Q a w -> ensures (mret a) w Q.
Proof. done. Qed.

Lemma ensures_mono {W A} (c : M W A) w (P Q : A -> W -> Prop) :
  ensures c w P -> (forall a w', P a w' -> Q a w') -> ensures c w Q.
Proof. unfold ensures. destruct (c w) as [[a|] w']; eauto. Qed.

Lemma ensures_returns {W A} (c : M W A) w (Q : A -> W -> Prop) :
  ensures c w Q -> exists a w', c w = (Ret a, w') /\ Q a w'.
Proof. unfold ensures. destruct (c w) as [[a|] w']; [eauto|done]. Qed.

(** ** The database as an atomic batch sees it *)

(** The writes and the command records of a transaction. *)
Record effects := mkEffects { ef_rows : list write; ef_commands : list (list Z * (list Z * string)) }.
Definition noEffects : effects := mkEffects [] [].

(** A record of a command stays; the first one counts. *)
Definition recorded (c : list Z) (g : option (list Z * string)) (cs : list (list Z * (list Z * string)))
    : option (list Z * string) :=
  foldl (fun g x => match g with Some _ => g | None => if bool_decide (x.1 = c) then Some x.2 else None end) g cs.

(** The locks an open transaction holds and what it has collected. *)
Record hold := mkHold { h_command : option (Z * Z); h_buckets : list Z; h_effects : effects }.

Definition lockedCommand (h : hold) (c : Z * Z) : hold := mkHold (Some c) (h_buckets h) (h_effects h).
Definition lockedBucket (h : hold) (a : Z) : hold := mkHold (h_command h) (a :: h_buckets h) (h_effects h).
Definition wrote (h : hold) (x : write) : hold :=
  mkHold (h_command h) (h_buckets h) (mkEffects (ef_rows (h_effects h) ++ [x]) (ef_commands (h_effects h))).
Definition noted (h : hold) (x : list Z * (list Z * string)) : hold :=
  mkHold (h_command h) (h_buckets h) (mkEffects (ef_rows (h_effects h)) (ef_commands (h_effects h) ++ [x])).

(** What a select shows of the record of a command. *)
Definition showsCommand (limit : Z) (g : option (list Z * string)) (seen : option (list Z * option string)) : Prop :=
  seen = option_map (fun x => (x.1, if strlen x.2 <=? limit then Some x.2 else None)) g.

Class CommandLaws {W : Type} (db : Database W) (atomic : Transaction W -> AtomicStatements W) (wallClock : W -> Time * W) := {
  ours : Transaction W -> Prop;
  plain : Context W -> Prop;
  custody : Transaction W -> W -> option hold;
  (** what was made visible for a transaction *)
  published : Transaction W -> W -> effects;
  bucketAt : W -> list Z -> option row;
  commandAt : W -> list Z -> option (list Z * string);

  (** records of commands are kept *)
  lasting w w' := forall c x, commandAt w c = Some x -> commandAt w' c = Some x;
  (** other sessions stay away from what is locked *)
  kept h w w' := (forall k, advisoryKey k ∈ h_buckets h -> bucketAt w' k = bucketAt w k) /\
                 (forall c, h_command h = Some (commandLock c) -> commandAt w' c = commandAt w c);
  goes tx h h' w w' := custody tx w' = Some h' /\ published tx w' = published tx w /\ kept h w w' /\ lasting w w';
  still tx w w' := published tx w' = published tx w /\ lasting w w' /\
                   forall h, custody tx w = Some h -> custody tx w' = Some h /\ kept h w w';
  (** a statement that takes [h] to [h'], or fails *)
  leads tx h h' w (err : option error) w' :=
    match err with None => goes tx h h' w w' | Some _ => still tx w w' end;

  cl_context tx ctx w : ours tx -> plain ctx -> still tx w (ctxErr ctx w).2;
  cl_clock tx w : ours tx -> still tx w (wallClock w).2;
  cl_begin ctx w tx w' : plain ctx -> begin db ctx w = (Ret (Ok tx), w') ->
    ours tx /\ custody tx w' = Some (mkHold None [] noEffects) /\ published tx w' = noEffects /\ lasting w w';
  cl_timeout tx ctx t w : ours tx -> plain ctx -> ensures (setLockTimeout tx ctx t) w (fun _ w' => still tx w w');
  cl_lockCommand tx ctx hi lo w h : ours tx -> plain ctx -> custody tx w = Some h -> h_command h = None ->
    ensures (lockCommand (atomic tx) ctx hi lo) w (leads tx h (lockedCommand h (hi, lo)) w);
  cl_selectCommand tx ctx c limit w h : ours tx -> plain ctx -> custody tx w = Some h ->
    h_command h = Some (commandLock c) -> ef_commands (h_effects h) = [] ->
    ensures (selectCommand (atomic tx) ctx c limit) w (fun seen w' => still tx w w' /\
      match seen with Ok seen => showsCommand limit (commandAt w c) seen | Err _ => True end);
  cl_lockBucket tx ctx a w h : ours tx -> plain ctx -> custody tx w = Some h ->
    ensures (lockBucket (atomic tx) ctx a) w (leads tx h (lockedBucket h a) w);
  cl_timestamp tx ctx w : ours tx -> plain ctx -> ensures (clockTimestamp (atomic tx) ctx) w (fun _ w' => still tx w w');
  cl_select tx ctx k limit w h : ours tx -> plain ctx -> custody tx w = Some h -> advisoryKey k ∈ h_buckets h ->
    ensures (selectStateStrict tx ctx k limit) w (fun seen w' => still tx w w' /\
      match seen with Ok seen => shows (applyWrites k (bucketAt w k) (ef_rows (h_effects h))) seen | Err _ => True end);
  cl_delete tx ctx k w h : ours tx -> plain ctx -> custody tx w = Some h ->
    ensures (deleteState tx ctx k) w (leads tx h (wrote h (Del k)) w);
  cl_upsert tx ctx k doc expires updated w h : ours tx -> plain ctx -> custody tx w = Some h ->
    ensures (upsertState tx ctx k doc expires updated) w (leads tx h (wrote h (Put k doc expires updated)) w);
  cl_insert tx ctx c intent receipt w h : ours tx -> plain ctx -> custody tx w = Some h ->
    ensures (insertCommand (atomic tx) ctx c intent receipt) w (leads tx h (noted h (c, (intent, receipt))) w);
  cl_commit tx ctx w h : ours tx -> plain ctx -> custody tx w = Some h -> published tx w = noEffects ->
    ensures (commit tx ctx) w (fun err w' => lasting w w' /\
      match err with
      | None => published tx w' = h_effects h /\
          (forall k, advisoryKey k ∈ h_buckets h -> bucketAt w' k = applyWrites k (bucketAt w k) (ef_rows (h_effects h))) /\
          (forall c, h_command h = Some (commandLock c) -> commandAt w' c = recorded c (commandAt w c) (ef_commands (h_effects h)))
      | Some _ => published tx w' = noEffects \/ published tx w' = h_effects h
      end);
  cl_rollback tx ctx w : ours tx -> plain ctx ->
    ensures (rollback tx ctx) w (fun _ w' => published tx w' = published tx w /\ lasting w w')
}.
Existing Class ours.
Existing Class plain.

(** ** The outcome of a command *)

(** A row shows a state, or none, to a strict select at a time. *)
Definition stands (now : Time) (r : option row) (s : option persistedState) : Prop :=
  exists seen, shows r seen /\ shownRow now seen = Ok s.

(** One entry of the result of [decideBuckets]. *)
Definition bucket_decided (now : Time) (s : option persistedState) (r : Request) (x : persistedState * Decision * bool) : Prop :=
  exists next d err, mutateState s (withNow r now) = (Some next, d, err) /\ (err = None \/ err = Some (Sent ErrRejected)) /\
    validateStrictDecisionTime d (observedTime next) = None /\
    x = (next, stampPostgres d r, match err with None => true | Some _ => false end).

(** The writes of the decided buckets. *)
Definition putBucket (x : persistedState * Decision * bool) (r : Request) : write :=
  Put (requestKey r) (encodeState x.1.1) (Add (observedTime x.1.1) (postgresAdmissionTTL (req_Policy r))) (observedTime x.1.1).

Section Commands.
Context {W : Type} {db : Database W} {atomic : Transaction W -> AtomicStatements W} {wallClock : W -> Time * W}.
Context (withDeadline : Context W -> Time -> Context W) (withoutCancel : Context W -> Context W).
Context (zoneOffset : Location -> Z -> Z) (located : Z -> Z -> Location).

(** The command was performed on the rows [f]: every bucket was decided at one
    effective time on what its row showed; the answer and its receipt follow; all
    rows are replaced if every bucket granted, and none otherwise (rows that had
    expired are cleared). *)
Definition performed (opts : Options) (request : AtomicBatchRequest) (f : list Z -> option row) (eff : effects)
    (ans : AtomicBatchDecision * option error) : Prop :=
  exists t states decided cleared receipt,
    let rs := abr_Requests request in
    let now := effectiveNow (microTime t) states in
    (opt_Clock opts <> ServerClock -> exists first, head rs = Some first /\ t = Now first) /\
    Forall2 (fun r s => stands (microTime t) (f (requestKey r)) s) rs states /\
    Forall3 (bucket_decided now) states rs decided /\
    Forall (fun k => k ∈ map requestKey rs /\ stands (microTime t) (f k) None) cleared /\
    ans = batchResult request now decided /\
    marshalReceipt zoneOffset (mkAtomicBatchDecision EmptyString (abd_Allowed ans.1) (abd_Decisions ans.1)) = Some receipt /\
    strlen receipt <= maxAtomicReceiptBytes /\
    eff = mkEffects (map Del cleared ++ if abd_Allowed ans.1 then zip_with putBucket decided rs else [])
            [(sha256 (CommandID request), (atomicIntent request (opt_Clock opts), receipt))].

(** What a command does when its record is [g]. *)
Inductive command_done (opts : Options) (request : AtomicBatchRequest) (f : list Z -> option row)
    : option (list Z * string) -> effects -> AtomicBatchDecision * option error -> Prop :=
| replays receipt ans :
    strlen receipt <= maxAtomicReceiptBytes -> decodeAtomicReceipt located receipt request = ans -> failed ans.2 = false ->
    command_done opts request f (Some (atomicIntent request (opt_Clock opts), receipt)) noEffects ans
| performs eff ans : performed opts request f eff ans -> command_done opts request f None eff ans.

(** No decision and an error. *)
Definition refused_batch (a : AtomicBatchDecision * option error) : Prop := a.1 = emptyAtomicBatchDecision /\ a.2 <> None.

Context `{!CommandLaws db atomic wallClock}.
Context `{detached : forall ctx deadline, plain ctx -> plain (withDeadline (withoutCancel ctx) deadline)}.

(** The outcome of a call that began [tx] in the world [w]: refused (or unknown)
    and nothing is published; or done, with its effects published and visible; or
    done, and the caller knows only that the outcome is unknown.  A record that
    was there before the call is the one that the command finds. *)
Definition batch_outcome (opts : Options) (request : AtomicBatchRequest) (tx : Transaction W) (w : W)
    (a : AtomicBatchDecision * option error) (w' : W) : Prop :=
  let command := sha256 (CommandID request) in
  (refused_batch a /\ published tx w' = noEffects) \/
  exists f g eff ans, command_done opts request f g eff ans /\ published tx w' = eff /\
    (forall x, commandAt w command = Some x -> g = Some x) /\
    (a = (emptyAtomicBatchDecision, a.2) /\ isUnknown a.2 \/
     a = ans /\ commandAt w' command = recorded command g (ef_commands eff) /\
     (g = None -> forall r, r ∈ abr_Requests request ->
        bucketAt w' (requestKey r) = applyWrites (requestKey r) (f (requestKey r)) (ef_rows eff))).

(** ** Computations that leave the transaction alone *)

#[global] Instance lasting_trans : Transitive lasting.
Proof. intros w1 w2 w3 H1 H2 c x E. by apply H2, H1. Qed.

Lemma kept_trans h w1 w2 w3 : kept h w1 w2 -> kept h w2 w3 -> kept h w1 w3.
Proof. intros [A1 B1] [A2 B2]. split; intros x Hx; [rewrite A2 by done; by apply A1|rewrite B2 by done; by apply B1]. Qed.

#[global] Instance still_refl tx : Reflexive (still tx).
Proof. intros w. split; [done|split; [by intros c x|]]. intros h Hh. by split; [|split]. Qed.

#[global] Instance still_trans tx : Transitive (still tx).
Proof.
  intros w1 w2 w3 (P1 & L1 & C1) (P2 & L2 & C2). split; [congruence|split; [by etrans|]]. intros h Hh.
  destruct (C1 h Hh) as [Hh2 K1], (C2 h Hh2) as [Hh3 K2]. split; [done|]. by eapply kept_trans.
Qed.

Definition quietly {A} (tx : Transaction W) (c : M W A) : Prop := forall w, still tx w (c w).2.

Lemma quietly_ret {A} tx (a : A) : quietly tx (mret a).
Proof. intros w. reflexivity. Qed.

Lemma quietly_bind {A B} tx (c : M W A) (k : A -> M W B) : quietly tx c -> (forall a, quietly tx (k a)) -> quietly tx (c ≫= k).
Proof.
  intros Hc Hk w. rewrite bind_unfold. specialize (Hc w). destruct (c w) as [[a|] w']; [|done]. etrans; [exact Hc|]. apply Hk.
Qed.

Lemma quietly_context tx ctx `{!ours tx, !plain ctx} : quietly tx (lift (ctxErr ctx)).
Proof. intros w. unfold lift. pose proof (cl_context tx ctx w _ _) as H. by destruct (ctxErr ctx w). Qed.

Ltac quiet_steps := repeat first [apply quietly_bind; intros | (apply quietly_context; assumption) | apply quietly_ret | case_match].

Lemma quietly_category tx ctx err `{!ours tx, !plain ctx} : quietly tx (postgresPrecommitCategory ctx err).
Proof. unfold postgresPrecommitCategory, postgresStrictContext. quiet_steps. Qed.

Lemma quietly_unknown tx ctx `{!ours tx, !plain ctx} : quietly tx (unknownOutcome ctx).
Proof. unfold unknownOutcome. quiet_steps. Qed.

Lemma quietly_decision tx ctx next d err `{!ours tx, !plain ctx} : quietly tx (strictPostgresDecisionResult ctx next d err).
Proof.
  unfold strictPostgresDecisionResult. destruct (failed err).
  - apply quietly_bind; [by apply quietly_category|intros; apply quietly_ret].
  - destruct next; [case_match; apply quietly_ret|]. intros w. reflexivity.
Qed.

Lemma unknown_ensured tx ctx w `{!ours tx, !plain ctx} :
  ensures (unknownOutcome ctx) w (fun err w' => isUnknown err /\ still tx w w').
Proof.
  pose proof (quietly_unknown tx ctx w) as H. destruct (unknown_returns ctx w) as (now & w' & E). unfold ensures. rewrite E in *.
  split; [by exists now|done].
Qed.

Lemma decision_ensured tx ctx next d err w `{!ours tx, !plain ctx} :
  answered next err ->
  ensures (strictPostgresDecisionResult ctx next d err) w (fun r w' => still tx w w' /\
    (failed r.2 = true \/ r = (d, err) /\ exists row, next = Some row /\
       validateStrictDecisionTime d (observedTime row) = None /\ (err = None \/ err = Some (Sent ErrRejected)))).
Proof.
  intros Ha. pose proof (quietly_decision tx ctx next d err w) as H.
  destruct (decision_checked ctx next d err w Ha) as (d' & err' & w' & E & Hres). unfold ensures. rewrite E in *. split; [done|].
  destruct Hres as [[_ Hf]|(-> & -> & Hrow)]; [by left|by right].
Qed.

(** ** Stopping *)

(** The result of a transaction that published nothing. *)
Definition stopped (tx : Transaction W) (a : bool * (AtomicBatchDecision * option error)) (w' : W) : Prop :=
  a.1 = false /\ refused_batch a.2 /\ published tx w' = noEffects.

Lemma precommitFailure_stops tx ctx err w `{!ours tx, !plain ctx} :
  published tx w = noEffects -> ensures (precommitFailure ctx err) w (stopped tx).
Proof.
  intros Hp. unfold precommitFailure. pose proof (quietly_category tx ctx (Some err) w) as H.
  destruct (category_returns ctx (Some err) w) as (c & w' & E & Hc). unfold ensures. rewrite bind_unfold, E in *.
  destruct H as (Hp' & _). split_and!; [done| |simpl in *; congruence]. split; [done|]. by intros Hn%Hc.
Qed.

(** ** While locks are held *)

(** The transaction holds [h]; nothing of it is visible; the rows under its locks
    are those of [f] and the record under its command lock is that of [g]. *)
Definition holds (tx : Transaction W) (h : hold) (f : list Z -> option row) (g : list Z -> option (list Z * string)) (w : W) : Prop :=
  custody tx w = Some h /\ published tx w = noEffects /\
  (forall k, advisoryKey k ∈ h_buckets h -> bucketAt w k = f k) /\
  (forall c, h_command h = Some (commandLock c) -> commandAt w c = g c).

Lemma holds_unpublished tx h f g w : holds tx h f g w -> published tx w = noEffects.
Proof. by intros (_ & H & _). Qed.

Lemma holds_goes tx h h' f g w w' :
  holds tx h f g w -> goes tx h h' w w' -> h_buckets h' = h_buckets h -> h_command h' = h_command h -> holds tx h' f g w'.
Proof.
  intros (Hs & Hp & Hf & Hg) (Hs' & Hp' & [Kf Kg] & _) Eb Ec. split_and!; [done|congruence|..].
  - intros k. rewrite Eb. intros Hk. rewrite Kf by done. by apply Hf.
  - intros c. rewrite Ec. intros Hc. rewrite Kg by done. by apply Hg.
Qed.

Lemma holds_still tx h f g w w' : holds tx h f g w -> still tx w w' -> holds tx h f g w'.
Proof.
  intros Hh (Hp & Hl & Hc). destruct (Hc h (proj1 Hh)) as [Hs Hk]. by apply (holds_goes tx h h f g w w').
Qed.

(** A statement that collects something. *)
Lemma holds_leads tx h h' f g w err w' :
  holds tx h f g w -> leads tx h h' w err w' -> h_buckets h' = h_buckets h -> h_command h' = h_command h ->
  match err with None => holds tx h' f g w' | Some _ => published tx w' = noEffects end.
Proof.
  intros Hh Hl Eb Ec. destruct err as [err|]; simpl in Hl; [|by eapply holds_goes].
  by eapply holds_unpublished, holds_still.
Qed.

Lemma lock_ensured tx ctx a h f g w `{!ours tx, !plain ctx} :
  holds tx h f g w ->
  ensures (lockBucket (atomic tx) ctx a) w (fun err w' =>
    match err with None => holds tx (lockedBucket h a) (bucketAt w') g w' | Some _ => published tx w' = noEffects end).
Proof.
  intros (Hs & Hp & Hf & Hg). eapply ensures_mono; [by apply cl_lockBucket|]. intros [err|] w' Hl; simpl in Hl.
  - destruct Hl as (Hp' & _). congruence.
  - destruct Hl as (Hs' & Hp' & [_ Kg] & _). split_and!; [done|congruence|done|]. intros c Hc. rewrite Kg by done. by apply Hg.
Qed.

Lemma holds_refresh tx h f g w : holds tx h f g w -> holds tx h (bucketAt w) g w.
Proof. by intros (Hs & Hp & _ & Hg). Qed.

Lemma lockBuckets_ensured tx ctx c e g locks `{!ours tx, !plain ctx} : forall previous bs f w,
  holds tx (mkHold c bs e) f g w -> (forall a, previous = Some a -> a ∈ bs) ->
  ensures (lockBuckets atomic ctx tx previous locks) w (fun err w' =>
    match err with
    | None => exists bs', holds tx (mkHold c bs' e) (bucketAt w') g w' /\ bs ⊆ bs' /\ locks ⊆ bs'
    | Some _ => published tx w' = noEffects
    end).
Proof.
  induction locks as [|a locks IH]; intros previous bs f w Hh Hprev; cbn [lockBuckets].
  { apply ensures_ret. exists bs. split_and!; [by eapply holds_refresh|done|set_solver]. }
  case_bool_decide as Ha.
  - eapply ensures_mono; [by apply (IH (Some a) bs f); [|intros ? [= <-]; apply Hprev]|].
    intros [err|] w' H; [done|]. destruct H as (bs' & H & H1 & H2). exists bs'. pose proof (Hprev a Ha). set_solver.
  - eapply ensures_bind; [by eapply lock_ensured|]. intros [err|] w1 H1; [by apply ensures_ret|].
    eapply ensures_mono; [apply (IH (Some a) (a :: bs) _ w1 H1); intros ? [= <-]; set_solver|].
    intros [err|] w' H; [done|]. destruct H as (bs' & H & H2 & H3). exists bs'. set_solver.
Qed.

(** ** Loading *)

(** A transaction that has only cleared expired rows. *)
Definition clearing (c : option (Z * Z)) (bs : list Z) (cleared : list (list Z)) : hold :=
  mkHold c bs (mkEffects (map Del cleared) []).

Lemma applyWrites_cleared k r cleared : applyWrites k r (map Del cleared) = if bool_decide (k ∈ cleared) then None else r.
Proof.
  revert r. induction cleared as [|x cleared IH]; intros r; [done|]. cbn [map]. unfold applyWrites in *. cbn [foldl applyWrite].
  rewrite IH. repeat case_bool_decide; try done; set_solver.
Qed.

(** A row that has gone shows no state, and so did the row that was cleared. *)
Lemma stands_cleared now r k cleared s :
  Forall (fun k => stands now (r k) None) cleared -> stands now (applyWrites k (r k) (map Del cleared)) s -> stands now (r k) s.
Proof.
  rewrite applyWrites_cleared. case_bool_decide as Hk; [|done]. intros Hall (seen & Hs & E). destruct seen; [done|].
  simpl in E. injection E as <-. rewrite Forall_forall in Hall. by apply Hall.
Qed.

Lemma load_ensured tx ctx c bs cleared f g now key w `{!ours tx, !plain ctx} :
  holds tx (clearing c bs cleared) f g w -> advisoryKey key ∈ bs -> Forall (fun k => stands now (f k) None) cleared ->
  ensures (loadStateStrict ctx tx key now) w (fun loaded w' =>
    match loaded with
    | Ok s => stands now (f key) s /\ exists cleared', holds tx (clearing c bs cleared') f g w' /\
        (cleared' = cleared \/ cleared' = cleared ++ [key] /\ s = None)
    | Err _ => published tx w' = noEffects
    end).
Proof.
  intros Hh Hkey Hcl. unfold loadStateStrict. eapply ensures_bind; [by apply (cl_select tx ctx key maxEncodedStateBytes w _ _ _ (proj1 Hh))|].
  intros [seen|err] w1 [Hst Hseen]; pose proof (holds_still _ _ _ _ _ _ Hh Hst) as Hh1; [|by apply ensures_ret; eapply holds_unpublished].
  destruct Hh as (_ & _ & Hf & _). rewrite (Hf key Hkey) in Hseen.
  assert (forall s, shownRow now seen = Ok s -> stands now (f key) s) as Hstands.
  { intros s E. apply (stands_cleared now f key cleared); [done|]. by exists seen. }
  destruct seen as [[[encoded expires] within]|]; [|apply ensures_ret; split; [by apply Hstands|]; exists cleared; auto].
  cbn [shownRow] in Hstands. destruct within; cbn [negb] in *; [|by apply ensures_ret; eapply holds_unpublished].
  destruct (After expires now) eqn:Ha.
  - apply ensures_ret. destruct (decodeState encoded) as [st|err] eqn:Ed; [|by eapply holds_unpublished].
    split; [by apply Hstands|]. exists cleared. auto.
  - eapply ensures_bind; [by apply (cl_delete tx ctx key w1 _ _ _ (proj1 Hh1))|]. intros err w2 Hl. apply ensures_ret.
    pose proof (holds_leads _ _ _ f g _ _ _ Hh1 Hl eq_refl eq_refl) as Hh2. destruct err as [err|]; [done|].
    split; [by apply Hstands|]. exists (cleared ++ [key]). split; [|by right].
    unfold clearing. rewrite map_app. exact Hh2.
Qed.

Lemma loadBuckets_ensured tx ctx c bs f g now keys `{!ours tx, !plain ctx} : forall cleared w,
  holds tx (clearing c bs cleared) f g w -> Forall (fun k => advisoryKey k ∈ bs) keys ->
  Forall (fun k => stands now (f k) None) cleared ->
  ensures (loadBuckets ctx tx now keys) w (fun loaded w' =>
    match loaded with
    | Ok states => Forall2 (fun k s => stands now (f k) s) keys states /\ exists cleared',
        holds tx (clearing c bs cleared') f g w' /\ Forall (fun k => k ∈ cleared ++ keys /\ stands now (f k) None) cleared'
    | Err _ => published tx w' = noEffects
    end).
Proof.
  induction keys as [|key keys IH]; intros cleared w Hh Hkeys Hcl; cbn [loadBuckets].
  { apply ensures_ret. split; [constructor|]. exists cleared. split; [done|]. rewrite Forall_forall in Hcl |- *.
    intros k Hk. split; [set_solver|by apply Hcl]. }
  apply Forall_cons in Hkeys as [Hkey Hkeys]. eapply ensures_bind; [by eapply load_ensured|].
  intros [s|err] w1 H1; [|by apply ensures_ret]. destruct H1 as (Hs & cleared1 & Hh1 & Hcl1).
  assert (Forall (fun k => stands now (f k) None) cleared1) as Hall.
  { destruct Hcl1 as [-> |[-> ->]]; [done|]. apply Forall_app. by repeat constructor. }
  eapply ensures_bind; [by apply (IH cleared1 w1)|]. intros [states|err] w2 H2; apply ensures_ret; [|done].
  destruct H2 as (Hstates & cleared' & Hh2 & Hcl2). split; [by constructor|]. exists cleared'. split; [done|].
  eapply Forall_impl; [exact Hcl2|]. intros k [Hk Hst]. split; [|done]. destruct Hcl1 as [-> |[-> _]]; set_solver.
Qed.

(** ** Deciding *)

Lemma decideBuckets_ensured tx ctx now `{!ours tx, !plain ctx} : forall states rs w,
  length states = length rs ->
  ensures (decideBuckets ctx now states rs) w (fun res w' => still tx w w' /\
    match res with
    | Ok decided => Forall3 (bucket_decided now) states rs decided
    | Err err => failed err = true
    end).
Proof.
  induction states as [|s states IH]; intros [|r rs] w Hl; try done; cbn [decideBuckets].
  { apply ensures_ret. split; [reflexivity|constructor]. }
  pose proof (mutateState_answered s (withNow r now)) as Hans. destruct (mutateState s (withNow r now)) as [[next d] err] eqn:Em.
  eapply ensures_bind; [by apply (decision_ensured tx)|]. intros [d' err'] w1 [Hst Hres].
  destruct (failed err') eqn:Hf; [by apply ensures_ret|]. destruct Hres as [Hf'|(E & row & -> & Hv & Hk)]; [simpl in Hf'; congruence|].
  injection E as -> ->. eapply ensures_bind; [apply (IH rs w1); simpl in Hl; lia|]. intros res w2 [Hst2 Hdec]. apply ensures_ret.
  split; [by etrans|]. destruct res as [decided|e]; [|done]. constructor; [|done]. by exists row, d, err.
Qed.

(** ** Writing *)

Lemma writeBuckets_ensured tx ctx c bs f g cs `{!ours tx, !plain ctx} : forall (decided : list (persistedState * Decision * bool)) rs p w,
  holds tx (mkHold c bs (mkEffects p cs)) f g w ->
  ensures (writeBuckets ctx tx (map (fun x => x.1.1) decided) rs) w (fun err w' =>
    match err with
    | None => holds tx (mkHold c bs (mkEffects (p ++ zip_with putBucket decided rs) cs)) f g w'
    | Some _ => published tx w' = noEffects
    end).
Proof.
  induction decided as [|x decided IH]; intros [|r rs] p w Hh; cbn [map writeBuckets zip_with];
    try (apply ensures_ret; by rewrite app_nil_r).
  eapply ensures_bind; [by apply (cl_upsert _ _ _ _ _ _ _ _ _ _ (proj1 Hh))|]. intros err w1 Hl.
  pose proof (holds_leads _ _ _ f g _ _ _ Hh Hl eq_refl eq_refl) as Hh1. destruct err as [err|]; [by apply ensures_ret|].
  eapply ensures_mono; [exact (IH rs _ w1 Hh1)|]. intros [err|] w2 H; [done|]. simpl in H. by rewrite <- app_assoc in H.
Qed.

(** ** The transaction *)

Section Body.
Context (opts : Options) (request : AtomicBatchRequest) (tx : Transaction W) (ctx : Context W) (w0 : W).
Context `{!ours tx, !plain ctx}.
Abbreviation rs := (abr_Requests request).
Abbreviation command := (sha256 (CommandID request)).
Abbreviation intent := (atomicIntent request (opt_Clock opts)).
(** The record that was there when the call began. *)
Definition finds (g : option (list Z * string)) : Prop := forall x, commandAt w0 command = Some x -> g = Some x.

(** What the body of a transaction leaves to its deferred rollback. *)
Definition body_post (a : bool * (AtomicBatchDecision * option error)) (w' : W) : Prop :=
  stopped tx a w' \/
  exists f g eff ans, command_done opts request f g eff ans /\ published tx w' = eff /\ finds g /\
    (a.1 = false /\ a.2 = (emptyAtomicBatchDecision, a.2.2) /\ isUnknown a.2.2 \/
     a = (true, ans) /\ commandAt w' command = recorded command g (ef_commands eff) /\
     (g = None -> forall r, r ∈ rs ->
        bucketAt w' (requestKey r) = applyWrites (requestKey r) (f (requestKey r)) (ef_rows eff))).

Lemma fails_post err w : published tx w = noEffects -> ensures (precommitFailure ctx err) w body_post.
Proof. intros Hp. eapply ensures_mono; [by apply (precommitFailure_stops tx)|]. intros a w' H. by left. Qed.

Lemma stops_post err w : published tx w = noEffects -> err <> None -> ensures (mret (failAtomic err)) w body_post.
Proof. intros Hp He. apply ensures_ret. left. by split_and!. Qed.

(** The commit of a command that is decided. *)
Lemma commit_post h f g w out err :
  holds tx h f g w -> h_command h = Some (commandLock command) ->
  command_done opts request f (g command) (h_effects h) (out, err) ->
  (g command = None -> forall r, r ∈ rs -> advisoryKey (requestKey r) ∈ h_buckets h) -> finds (g command) ->
  ensures (commitAtomic ctx tx out err) w body_post.
Proof.
  intros (Hs & Hp & Hf & Hg) Hc Hdone Hlocked Hfinds. unfold commitAtomic. eapply ensures_bind; [by apply (cl_commit tx ctx w h _ _ Hs)|].
  intros [failure|] w1 [_ Hcommit].
  - eapply ensures_bind; [by apply (unknown_ensured tx)|]. intros e w2 [Hu (Hp2 & _)]. apply ensures_ret.
    destruct Hcommit as [H1|H1]; [left; split_and!; [done| |by rewrite Hp2]|].
    { split; [done|]. simpl. destruct Hu as [? ->]. done. }
    right. exists f, (g command), (h_effects h), (out, err). split_and!; [done|congruence|done|]. by left.
  - apply ensures_ret. destruct Hcommit as (H1 & H2 & H3). right. exists f, (g command), (h_effects h), (out, err).
    split_and!; [done|done|done|]. right. split_and!; [done|by rewrite H3, Hg by done|].
    intros Hn r Hr. rewrite H2, Hf by (by apply Hlocked). done.
Qed.

Lemma replay_post h f g w saved receipt :
  holds tx h f g w -> h_command h = Some (commandLock command) -> h_effects h = noEffects ->
  showsCommand maxAtomicReceiptBytes (g command) (Some (saved, receipt)) -> finds (g command) ->
  ensures (replayCommand located ctx tx request intent saved receipt) w body_post.
Proof.
  intros Hh Hc He Hshow Hfinds. unfold replayCommand. case_bool_decide as Hi; cbn [negb]; [|apply stops_post; [by eapply holds_unpublished|done]].
  subst saved. destruct (decodeAtomicReceipt located (default EmptyString receipt) request) as [out err] eqn:Ed.
  destruct (failed err) eqn:Hf; [apply stops_post; [by eapply holds_unpublished|by intros ->]|].
  unfold showsCommand in Hshow. destruct (g command) as [[intent' receipt']|] eqn:Hg; [|done]. injection Hshow as <- ->.
  destruct (Z.leb_spec (strlen receipt') maxAtomicReceiptBytes) as [Hle|]; [|by injection Ed as <- <-].
  apply (commit_post h f g); [done..| | |]; rewrite Hg; [|done|done]. rewrite He. by constructor.
Qed.

Abbreviation owned bs e := (mkHold (Some (commandLock command)) bs e).

Lemma record_post bs p f g w out err :
  holds tx (owned bs (mkEffects p [])) f g w -> g command = None -> finds None ->
  (forall r, r ∈ rs -> advisoryKey (requestKey r) ∈ bs) ->
  (forall receipt,
     marshalReceipt zoneOffset (mkAtomicBatchDecision EmptyString (abd_Allowed out) (abd_Decisions out)) = Some receipt ->
     strlen receipt <= maxAtomicReceiptBytes -> performed opts request f (mkEffects p [(command, (intent, receipt))]) (out, err)) ->
  ensures (recordCommand zoneOffset atomic ctx tx command intent out err) w body_post.
Proof.
  intros Hh Hnew Hfinds Hlocked Hdone. pose proof (holds_unpublished _ _ _ _ _ Hh) as Hp. unfold recordCommand.
  destruct (marshalReceipt _ _) as [receipt|]; [|by apply stops_post].
  destruct (Z.ltb_spec maxAtomicReceiptBytes (strlen receipt)) as [|Hle]; [by apply stops_post|].
  eapply ensures_bind; [by apply (cl_insert _ _ _ _ _ _ _ _ _ (proj1 Hh))|]. intros e w1 Hl.
  pose proof (holds_leads _ _ _ f g _ _ _ Hh Hl eq_refl eq_refl) as Hh1. destruct e as [e|]; [by apply fails_post|].
  apply (commit_post _ f g w1 out err Hh1); [done| |done|by rewrite Hnew]. rewrite Hnew. constructor. by apply Hdone.
Qed.

Lemma admit_post bs cleared f g w t states :
  holds tx (clearing (Some (commandLock command)) bs cleared) f g w -> g command = None -> finds None ->
  (forall r, r ∈ rs -> advisoryKey (requestKey r) ∈ bs) ->
  (opt_Clock opts <> ServerClock -> exists first, head rs = Some first /\ t = Now first) ->
  Forall2 (fun r s => stands (microTime t) (f (requestKey r)) s) rs states ->
  Forall (fun k => k ∈ map requestKey rs /\ stands (microTime t) (f k) None) cleared ->
  ensures (admitBuckets zoneOffset atomic ctx tx request command intent (effectiveNow (microTime t) states) states) w body_post.
Proof.
  intros Hh Hnew Hfinds Hlocked Ht Hst Hcl. unfold admitBuckets. set (now := effectiveNow (microTime t) states).
  eapply ensures_bind; [apply (decideBuckets_ensured tx ctx now states rs w); symmetry; by eapply Forall2_length|].
  intros [decided|e] w1 [Hs Hdec]; pose proof (holds_still _ _ _ _ _ _ Hh Hs) as Hh1;
    [|apply stops_post; [by eapply holds_unpublished|by intros ->]].
  assert (forall receipt p, let ans := batchResult request now decided in
    p = map Del cleared ++ (if abd_Allowed ans.1 then zip_with putBucket decided rs else []) ->
    marshalReceipt zoneOffset (mkAtomicBatchDecision EmptyString (abd_Allowed ans.1) (abd_Decisions ans.1)) = Some receipt ->
    strlen receipt <= maxAtomicReceiptBytes ->
    performed opts request f (mkEffects p [(command, (intent, receipt))]) ans) as Hdone.
  { intros receipt p ans -> Hm Hsize. exists t, states, decided, cleared, receipt. by split_and!. }
  unfold batchResult in Hdone. destruct (forallb (fun x => x.2) decided); cbn [fst abd_Allowed abd_Decisions] in Hdone.
  - eapply ensures_bind; [exact (writeBuckets_ensured tx ctx _ _ _ _ _ decided rs _ w1 Hh1)|]. intros [e|] w2 H2; [by apply fails_post|].
    eapply record_post; [exact H2|done..|]. intros receipt Hm Hsize. by apply Hdone.
  - eapply record_post; [exact Hh1|done..|]. intros receipt Hm Hsize. apply Hdone; [by rewrite app_nil_r|done|done].
Qed.

Lemma time_ensured h f g w first rest :
  rs = first :: rest -> holds tx h f g w ->
  ensures (batchTime atomic opts ctx tx first) w (fun now w' =>
    match now with
    | Ok now => holds tx h f g w' /\ exists t, now = microTime t /\
        (opt_Clock opts <> ServerClock -> exists first, head rs = Some first /\ t = Now first)
    | Err _ => published tx w' = noEffects
    end).
Proof.
  intros Hrs Hh. unfold batchTime. case_bool_decide as Hclock.
  - eapply ensures_bind; [by apply (cl_timestamp tx ctx w)|]. intros [t|e] w1 Hs; apply ensures_ret.
    + split; [by eapply holds_still|]. by exists t.
    + by eapply holds_unpublished, holds_still.
  - apply ensures_ret. split; [done|]. exists (Now first). split; [done|]. intros _. exists first. by rewrite Hrs.
Qed.

Lemma fresh_post f g w :
  holds tx (owned [] noEffects) f g w -> g command = None -> finds None -> rs <> [] ->
  ensures (freshCommand zoneOffset atomic opts ctx tx request command intent) w body_post.
Proof.
  intros Hh Hnew Hfinds Hne. unfold freshCommand. eapply ensures_bind; [by apply (lockBuckets_ensured tx ctx _ _ g _ None [] f w Hh)|].
  intros [e|] w1 H1; [by apply fails_post|]. destruct H1 as (bs & Hh1 & _ & Hlocks).
  assert (forall r, r ∈ rs -> advisoryKey (requestKey r) ∈ bs) as Hlocked.
  { intros r Hr. apply Hlocks. rewrite merge_sort_Permutation. by apply list_elem_of_In, in_map, in_map, list_elem_of_In. }
  destruct rs as [|first rest] eqn:Hrs; [done|]. rewrite <- Hrs in *.
  eapply ensures_bind; [by apply (time_ensured _ _ _ w1 first rest Hrs Hh1)|].
  intros [now|e] w2 H2; [|by apply fails_post]. destruct H2 as (Hh2 & t & -> & Ht).
  eapply ensures_bind; [apply (loadBuckets_ensured tx ctx _ _ _ _ (microTime t) _ [] w2 Hh2); [|done]|].
  { apply Forall_map, Forall_forall. intros r Hr. by apply Hlocked. }
  intros [states|e] w3 H3; [|by apply fails_post]. destruct H3 as (Hst & cleared & Hh3 & Hcl).
  eapply admit_post; [exact Hh3|done..| |exact Hcl]. by rewrite Forall2_fmap_l in Hst.
Qed.

Lemma body_ensured (f : list Z -> option row) (g : list Z -> option (list Z * string)) w :
  custody tx w = Some (mkHold None [] noEffects) -> published tx w = noEffects -> lasting w0 w -> rs <> [] ->
  ensures (atomicBody zoneOffset located atomic opts ctx request tx) w body_post.
Proof.
  intros Hs Hp Hlast Hne. assert (holds tx (mkHold None [] noEffects) f g w) as Hh by (split_and!; [done..| |]; set_solver).
  unfold atomicBody. eapply ensures_bind; [by apply (cl_timeout tx ctx _ w)|]. intros e w1 Hst1.
  pose proof (holds_still _ _ _ _ _ _ Hh Hst1) as Hh1. destruct e as [e|]; [apply fails_post; by eapply holds_unpublished|].
  destruct (commandLock command) as [hi lo] eqn:Hlock.
  eapply ensures_bind; [by apply (cl_lockCommand tx ctx hi lo w1 _ _ _ (proj1 Hh1))|].
  intros [e|] w2 H2; simpl in H2; [apply fails_post; by eapply holds_unpublished, holds_still|].
  assert (finds (commandAt w2 command)) as Hfinds.
  { intros x Hx. destruct H2 as (_ & _ & _ & L2), Hst1 as (_ & L1 & _). by apply L2, L1, Hlast. }
  assert (holds tx (owned [] noEffects) f (commandAt w2) w2) as Hh2.
  { rewrite Hlock. destruct H2 as (H2 & Hp2 & _). split_and!; [done|rewrite Hp2; by eapply holds_unpublished|set_solver|done]. }
  eapply ensures_bind; [by apply (cl_selectCommand tx ctx command maxAtomicReceiptBytes w2 _ _ _ (proj1 Hh2))|].
  intros saved w3 [Hst3 Hseen]. pose proof (holds_still _ _ _ _ _ _ Hh2 Hst3) as Hh3.
  destruct saved as [[[saved receipt]|]|e]; [by eapply replay_post| |apply fails_post; by eapply holds_unpublished].
  assert (commandAt w2 command = None) as Hnew by (unfold showsCommand in Hseen; by destruct (commandAt w2 command)).
  eapply fresh_post; [exact Hh3|done|by rewrite <- Hnew|done].
Qed.
End Body.

(** ** The call *)

(** The deferred rollback publishes nothing and hides nothing. *)
Lemma rollback_post opts request tx ctx w0 deadline a w `{!ours tx, !plain ctx} :
  body_post opts request tx w0 a w ->
  ensures (if a.1 then mret a else
           failure ← rollbackStrict withDeadline withoutCancel ctx tx deadline;
           match failure with
           | None => mret a
           | Some _ => err ← unknownOutcome ctx; mret (failAtomic err)
           end) w (fun a w' => batch_outcome opts request tx w0 a.2 w').
Proof.
  intros Hpost. destruct a as [[] a]; cbn [fst].
  { apply ensures_ret. destruct Hpost as [[? _]|(f & g & eff & ans & Hd & Hp & Hk & [[? _]|(E & Hv)])]; [done..|].
    injection E as ->. right. exists f, g, eff, ans. split_and!; [done..|]. by right. }
  eapply ensures_bind; [apply (cl_rollback tx _ w); [done|by apply detached]|]. intros failure w1 [Hr _].
  assert (forall a' w', refused_batch a' -> (isUnknown a'.2 \/ a' = a) -> published tx w' = published tx w1 ->
    batch_outcome opts request tx w0 a' w') as Hout.
  { intros a' w' Href Hwhy Hp'. destruct Hpost as [(_ & _ & Hp)|(f & g & eff & ans & Hd & Hp & Hk & [(_ & Ha & Hu)|[E _]])].
    - left. split; [done|congruence].
    - right. exists f, g, eff, ans. split_and!; [done|congruence|done|]. left. destruct Href as [Hempty _].
      split; [by destruct a' as [? ?]; simpl in *; subst|]. by destruct Hwhy as [H| ->].
    - done. }
  destruct failure as [failure|].
  - eapply ensures_bind; [by apply (unknown_ensured tx)|]. intros err w2 [Hu (Hp2 & _)]. apply ensures_ret.
    apply Hout; [|by left|done]. split; [done|]. by destruct Hu as [? ->].
  - apply ensures_ret. apply Hout; [|by right|done].
    destruct Hpost as [(_ & H & _)|(f & g & eff & ans & Hd & Hp & Hk & [(_ & Ha & Hu)|[E _]])]; [done| |done].
    simpl in *. rewrite Ha. split; [done|]. by destruct Hu as [? ->].
Qed.

Lemma ensures_deferred {A} zero (body : M W A) d w P Q :
  ensures body w P -> (forall a w', P a w' -> ensures (d a) w' Q) -> ensures (deferred zero body d) w Q.
Proof. unfold ensures, deferred. destruct (body w) as [[a|] w']; [|done]. intros HP Hd. exact (Hd a w' HP). Qed.

Lemma admitAtomic_ensured opts request ctx timeout w tx w1 `{!plain ctx} :
  begin db ctx w = (Ret (Ok tx), w1) -> abr_Requests request <> [] ->
  ensures (admitAtomic withDeadline withoutCancel wallClock zoneOffset located atomic db opts ctx request timeout) w
    (batch_outcome opts request tx w).
Proof.
  intros Hb Hne. destruct (cl_begin ctx w tx w1 _ Hb) as (Htx & Hs & Hp & Hl). unfold admitAtomic.
  apply (ensures_bind _ _ _ (fun r w' => r = Ok tx /\ w' = w1)); [unfold ensures; by rewrite Hb|]. intros ? ? [-> ->].
  apply (ensures_bind _ _ _ (fun _ w' => still tx w1 w')).
  { unfold ensures, lift. pose proof (cl_clock tx w1 _) as H. by destruct (wallClock w1). }
  intros started w2 (Hp2 & Hl2 & Hc2). destruct (Hc2 _ Hs) as [Hs2 _]. rewrite Hp in Hp2.
  eapply ensures_bind; [|intros a w' H; apply ensures_ret; exact H].
  eapply ensures_deferred; [apply (body_ensured opts request tx ctx w (fun _ => None) (fun _ => None) w2); [done..|by etrans|done]|].
  intros a w3 Hpost. by apply rollback_post.
Qed.
End Commands.
