(* ===== verification/PgRetries.v ===== *)
(** * Atomic commands happen once

    A batch through a lawful database publishes all of a command or nothing of
    it, and a command that was performed on sound rows is answered by its receipt
    from then on. *)

From S2P Require Import Prelude GoTime GoHash Errors Keys Policy Backend GoJson JsonFacts Rfc3339.
From S2P Require Import MemoryState TokenBucket PgState PgTokens PgRows PgCodec PgWire PgStore PgLaws PgOutcomes PgHistory AtomicBatch PgAtomic PgReceipts PgBatch PgCommands.

Local Open Scope string_scope.
Local Open Scope list_scope.
Local Open Scope Z_scope.

(** ** Rows of the package *)

(** The row of a bucket is absent, or a document of the package that holds a
    sound row of an earlier revision of the policy. *)
Definition sound_bucket (r : Request) (x : option row) : Prop :=
  exists pol P, lineage pol (id (req_Policy r)) TokenBucket P /\ req_Policy r = pol (revision (req_Policy r)) /\
    1 <= Cost r <= maxCost (req_Policy r) /\ identifier (revision (req_Policy r)) /\
    match x with
    | None => True
    | Some x => exists st, row_doc x = encodeState st /\ typed_row st /\ sound_row pol (id (req_Policy r)) TokenBucket P st
    end.

Lemma stored_token_sound pol name P st : sound_row pol name TokenBucket P st -> sound_row pol name TokenBucket P (stored st).
Proof.
  intros Hrow. pose proof (row_algorithm _ _ _ _ _ Hrow) as Ha. destruct Hrow as [S1 S2 S3 S4 S5 S6 S7 S8].
  unfold stored, wireState, usesWindowMetadata. rewrite Ha. eval_algorithms. cbn [orb].
  split; simpl; try done. intros E. destruct (S6 E) as [K1 K2 K3 K4]. by split.
Qed.

(** What such a row shows is sound. *)
Lemma stands_sound now pol name P x st s :
  row_doc x = encodeState st -> typed_row st -> sound_row pol name TokenBucket P st -> stands now (Some x) (Some s) ->
  sound_row pol name TokenBucket P s.
Proof.
  intros Hdoc Hty Hrow (seen & Hs & E). destruct seen as [[[t expires] within]|]; [|done]. destruct Hs as [-> Hr].
  destruct within; [|done]. simpl in E. destruct (After _ now); [|done]. rewrite Hdoc in Hr.
  rewrite (renders_decodes st t Hty (Hr eq_refl)) in E. injection E as <-. by apply stored_token_sound.
Qed.

(** ** The effective time *)

Lemma effectiveNow_micros states : forall m, is_i64 m ->
  (forall s, Some s ∈ states -> is_i64 (ps_ObservedMicros s)) ->
  exists m', effectiveNow (toUTC (ofUnixMicro m)) states = toUTC (ofUnixMicro m') /\ is_i64 m' /\ m <= m' /\
    forall s, Some s ∈ states -> ps_ObservedMicros s <= m'.
Proof.
  induction states as [|s states IH]; intros m Hm Hall; [by exists m; split_and!; [..|set_solver]|].
  unfold effectiveNow. cbn [foldl]. fold (effectiveNow).
  assert (exists n, (match s with
    | Some s => if UnixMicro (toUTC (ofUnixMicro m)) <? ps_ObservedMicros s then toUTC (ofUnixMicro (ps_ObservedMicros s)) else toUTC (ofUnixMicro m)
    | None => toUTC (ofUnixMicro m) end) = toUTC (ofUnixMicro n) /\ is_i64 n /\ m <= n /\
    (forall s', s = Some s' -> ps_ObservedMicros s' <= n)) as (n & -> & Hn & Hle & Hs).
  { destruct s as [s|]; [|by exists m]. rewrite (UnixMicro_at m UTC Hm : UnixMicro (toUTC (ofUnixMicro m)) = m). destruct (Z.ltb_spec m (ps_ObservedMicros s)).
    - exists (ps_ObservedMicros s). split_and!; [done|apply Hall; set_solver|lia|]. by intros ? [= <-].
    - exists m. split_and!; try done. by intros ? [= <-]. }
  destruct (IH n Hn) as (m' & E & Hm' & Hle' & Hs'); [set_solver|]. exists m'. split_and!; [exact E|done|lia|].
  intros s' [H|H]%elem_of_cons; [|by apply Hs']. specialize (Hs s' (eq_sym H)). lia.
Qed.

(** A bucket that was decided passed the check of the clock. *)
Lemma decided_in_range s r m next d err :
  is_i64 m -> (forall row, s = Some row -> ps_ObservedMicros row <= m) ->
  mutateState s (at_micros r m) = (Some next, d, err) ->
  validateServerClockRange (toUTC (ofUnixMicro m)) (period (req_Policy r)) = None.
Proof.
  intros Hm Hs. unfold mutateState, mutateStateMode. rewrite (UnixMicro_at m UTC Hm : UnixMicro (Now (at_micros r m)) = m).
  match goal with |- context [if ?b then refused _ else _] => destruct b end; [done|].
  destruct (loadedRow s (at_micros r m) true) as [row|e] eqn:El; [|done].
  assert (Z.max m (ps_ObservedMicros row) = m) as ->.
  { unfold loadedRow in El. destruct s as [row'|]; [repeat (case_match; simplify_eq; try done); specialize (Hs row eq_refl); lia|].
    injection El as <-. unfold recordWindowPeriod. case_match; cbn [ps_ObservedMicros setPeriod freshRow]; rewrite ?(UnixMicro_at m UTC Hm : UnixMicro (Now (at_micros r m)) = m); lia. }
  rewrite Z.eqb_refl. cbn [negb]. unfold strictChecks. cbn [Now at_micros withNow req_Policy].
  by destruct (validateServerClockRange _ _).
Qed.

(** ** Decided buckets *)

Lemma clock_in_range m P :
  is_i64 m -> 1 <= P <= maxExactMicros -> validateServerClockRange (toUTC (ofUnixMicro m)) (P * 1000) = None ->
  - maxExactMicros <= m <= maxExactMicros - P.
Proof.
  intros Hm HP. unfold validateServerClockRange. rewrite (UnixMicro_at m UTC Hm : UnixMicro (toUTC (ofUnixMicro m)) = m).
  assert (Microseconds (P * 1000) = P) as -> by (unfold Microseconds; rewrite Z.quot_mul; lia).
  rewrite i64_id by (unfold is_i64; lia).
  destruct (Z.ltb_spec m (- maxExactMicros)), (Z.leb_spec P 0), (Z.ltb_spec (maxExactMicros - P) m); try done; lia.
Qed.

Lemma decided_ready now m r x s next d err :
  sound_bucket r x -> stands now x s -> is_i64 m -> (forall row, s = Some row -> ps_ObservedMicros row <= m) ->
  mutateState s (at_micros r m) = (Some next, d, err) -> bucket_ready m s r.
Proof.
  intros (pol & P & Hline & Hp & Hc & Hrev & Hx) Hst Hm Hobs Hmut. exists pol, P. split; [done|].
  pose proof (decided_in_range _ _ _ _ _ _ Hm Hobs Hmut) as Hrange. destruct (line_facts _ _ _ _ Hline (revision (req_Policy r))) as (HP & _).
  assert (period (req_Policy r) = P * 1000) as HPer by (rewrite Hp; apply Hline). rewrite HPer in Hrange.
  split_and!; [|done|].
  - pose proof (clock_in_range m P Hm HP Hrange). unfold row_request. split_and!; try done; (simpl; lia) || apply Hc.
  - destruct s as [s|]; [|done]. split; [|by apply Hobs]. destruct x as [x|]; [|by destruct Hst as ([] & ? & ?)].
    destruct Hx as (st & Hdoc & Hty & Hrow). by eapply stands_sound.
Qed.

Lemma decided_buckets now f m states rs decided :
  is_i64 m -> Forall3 (bucket_decided (toUTC (ofUnixMicro m))) states rs decided ->
  Forall2 (fun r s => stands now (f (requestKey r)) s) rs states -> Forall (fun r => sound_bucket r (f (requestKey r))) rs ->
  (forall s, Some s ∈ states -> ps_ObservedMicros s <= m) -> Forall2 (decided_as m) rs decided.
Proof.
  intros Hm. induction 1 as [|s r x states rs decided (next & d & err & Hmut & Herr & Hv & ->) _ IH]; intros Hst Hsound Hobs; [constructor|].
  apply Forall2_cons in Hst as [Hs Hst]. apply Forall_cons in Hsound as [Hr Hsound].
  constructor; [|apply IH; [done..|]; intros s' Hs'; apply Hobs; set_solver].
  assert (bucket_ready m s r) as Hready.
  { eapply decided_ready; [exact Hr|exact Hs|done| |exact Hmut]. intros row ->. apply Hobs. set_solver. }
  split; [by eapply ready_request|]. destruct (bucket_decides m s r Hready) as (tok & rem & next' & d' & err' & E & Hd).
  change (withNow r (toUTC (ofUnixMicro m))) with (at_micros r m) in Hmut. rewrite Hmut in E. injection E as <- <- <-.
  exists tok, rem, d, err. split_and!; [done|done|]. simpl. rewrite (de_error _ _ _ _ _ _ _ Hd). by destruct (tok <? Cost r).
Qed.

Section Retries.
Context {W : Type} {db : Database W} {atomic : Transaction W -> AtomicStatements W} {wallClock : W -> Time * W}.
Context (withDeadline : Context W -> Time -> Context W) (withoutCancel : Context W -> Context W).
Context (zoneOffset : Location -> Z -> Z) (located : Z -> Z -> Location).

(** A command that was performed on sound rows has a receipt that gives a retry
    its answer. *)
Lemma performed_replays opts request f eff ans :
  performed zoneOffset opts request f eff ans -> Forall (fun r => sound_bucket r (f (requestKey r))) (abr_Requests request) ->
  (length (abr_Requests request) <= MaxAtomicBatchSize)%nat ->
  exists receipt, ef_commands eff = [(sha256 (CommandID request), (atomicIntent request (opt_Clock opts), receipt))] /\
    forall retry, CommandID retry = CommandID request -> Forall2 same_intent (abr_Requests request) (abr_Requests retry) ->
      decodeAtomicReceipt located receipt retry = ans.
Proof.
  intros (t & states & decided & cleared & receipt & _ & Hst & Hdec & _ & Hans & Hmar & _ & ->) Hsound Hn. exists receipt. split; [done|].
  destruct (effectiveNow_micros states (UnixMicro t)) as (m & E & Hm & _ & Hobs); [apply i64_range| |].
  { intros s Hs. rewrite list_elem_of_lookup in Hs. destruct Hs as [i Hi].
    destruct (Forall2_lookup_r _ _ _ _ _ Hst Hi) as (r & Hr & Hshow). pose proof (Forall_lookup_1 _ _ _ _ Hsound Hr) as (pol & P & Hline & _ & _ & _ & Hx).
    destruct (f (requestKey r)) as [x|]; [|by destruct Hshow as ([] & ? & ?)]. destruct Hx as (st & Hdoc & Hty & Hrow).
    pose proof (row_observed _ _ _ _ _ (stands_sound _ _ _ _ _ _ _ Hdoc Hty Hrow Hshow)).
    destruct (line_facts _ _ _ _ Hline EmptyString) as (HP & _). unfold is_i64. lia. }
  change (toUTC (ofUnixMicro (UnixMicro t))) with (microTime t) in E. rewrite E in Hdec, Hans.
  pose proof (decided_buckets _ f m _ _ _ Hm Hdec Hst Hsound Hobs) as Hall.
  destruct (batch_replays zoneOffset located request m decided Hall Hn) as (receipt' & Hrep). rewrite <- Hans in Hrep.
  destruct ans as [out err]. destruct Hrep as (Hmar' & _ & Hretry). simpl in Hmar. rewrite Hmar in Hmar'. by injection Hmar' as <-.
Qed.

Context `{!CommandLaws db atomic wallClock}.
(** The context of a rollback is a plain one. *)
Context `{detached : forall ctx deadline, plain ctx -> plain (withDeadline (withoutCancel ctx) deadline)}.
Abbreviation call opts ctx request timeout :=
  (admitAtomic withDeadline withoutCancel wallClock zoneOffset located atomic db opts ctx request timeout).

(** C8: an atomic batch is all or nothing, whatever fails in the database and
    whatever other sessions do.  The call returns.  Either it refuses and nothing
    is published; or a receipt of the same intent answers it and nothing is
    published; or every bucket was decided at one time on its row found under the
    locks, and one commit published the record of the command together with the
    successors of all rows (when all buckets granted) or of none.  When the answer
    of that commit is lost the caller is told that the outcome is unknown. *)
Theorem atomic_batch_all_or_nothing opts request ctx timeout w :
  plain ctx -> total (begin db ctx) -> abr_Requests request <> [] ->
  exists a w', call opts ctx request timeout w = (Ret a, w') /\
    match begin db ctx w with
    | (Ret (Ok tx), _) => batch_outcome zoneOffset located opts request tx w a w'
    | _ => a.1 = emptyAtomicBatchDecision /\ isUnknown a.2
    end.
Proof.
  intros Hctx Hb Hne. pose proof (proj1 (total_no_panic _) Hb w) as Hp.
  destruct (begin db ctx w) as [[[tx|err]|] w1] eqn:E; [| |done].
  - apply ensures_returns. by eapply admitAtomic_ensured.
  - unfold admitAtomic. rewrite bind_unfold, E, bind_unfold. destruct (unknown_returns ctx w1) as (now & w2 & ->).
    exists (emptyAtomicBatchDecision, Some (UnknownOutcome now)), w2. split; [done|]. split; [done|by exists now].
Qed.

(** C9: a command takes effect once.  When a command was performed on sound rows
    and its record is there, any later call with the same identifier and intent
    returns and publishes nothing, and answers as the first one did, granted or
    rejected, or with an error and no decision. *)
Theorem atomic_command_runs_once opts request retry ctx timeout f eff ans w tx w1 :
  plain ctx -> begin db ctx w = (Ret (Ok tx), w1) ->
  performed zoneOffset opts request f eff ans -> Forall (fun r => sound_bucket r (f (requestKey r))) (abr_Requests request) ->
  (1 <= length (abr_Requests request) <= MaxAtomicBatchSize)%nat ->
  CommandID retry = CommandID request -> Forall2 same_intent (abr_Requests request) (abr_Requests retry) ->
  commandAt w (sha256 (CommandID request)) = recorded (sha256 (CommandID request)) None (ef_commands eff) ->
  exists a w', call opts ctx retry timeout w = (Ret a, w') /\ published tx w' = noEffects /\ (a = ans \/ refused_batch a).
Proof.
  intros Hctx Hb Hperf Hsound Hn Hid Hsame Hrec. destruct (performed_replays _ _ _ _ _ Hperf Hsound ltac:(lia)) as (receipt & Hcmd & Hreplay).
  rewrite Hcmd in Hrec. unfold recorded in Hrec. cbn [foldl fst snd] in Hrec. rewrite bool_decide_eq_true_2 in Hrec by done.
  pose proof (Forall2_length _ _ _ Hsame) as Hlen.
  assert (abr_Requests retry <> []) as Hne by (intros E; rewrite E in Hlen; simpl in Hlen; lia).
  destruct (ensures_returns _ _ _ (admitAtomic_ensured (detached:=detached) withDeadline withoutCancel zoneOffset located opts retry ctx timeout w tx w1 Hb Hne))
    as (a & w' & E & Hout). exists a, w'. split; [done|].
  destruct Hout as [[Href Hp]|(f' & g & eff' & ans' & Hd & Hp & Hfind & Hcase)]; [by split; [|right]|].
  rewrite Hid in Hfind. rewrite (Hfind _ Hrec) in Hd. inversion Hd as [receipt' ans'' _ Hdec _|]; subst.
  split; [done|]. destruct Hcase as [[Ha Hu]|[-> _]].
  - right. rewrite Ha. split; [done|]. simpl. by destruct Hu as [? ->].
  - left. by apply Hreplay.
Qed.
End Retries.

(** ** A database with one connection and a table of commands *)

Module DemoCommands.
Record world := mkWorld {
  rows : list Z -> option row;
  commands : list Z -> option (list Z * string);
  open : option hold;
  visible : effects;
  server : Z;
  lostCommit : bool
}.

Definition opened (w : world) (s : option hold) : world :=
  mkWorld (rows w) (commands w) s (visible w) (server w) (lostCommit w).
Definition down : error := Sent ErrUnavailable.

(** A statement of the open transaction. *)
Definition statement (step : hold -> option hold) : M world (option error) := fun w =>
  match open w with
  | Some h => match step h with Some h' => (Ret None, opened w (Some h')) | None => (Ret (Some down), w) end
  | None => (Ret (Some down), w)
  end.

Definition tx : Transaction world := mkTransaction
  (fun _ _ => mret None)
  (fun _ _ => mret (Err down))
  (fun _ _ => mret (Err down))
  (fun _ k limit w => (Ret (match open w with
     | Some h => Ok (option_map (fun r => (row_doc r, row_expires r, Z.of_nat (String.length (row_doc r)) <=? limit))
                       (applyWrites k (rows w k) (ef_rows (h_effects h))))
     | None => Err down
     end), w))
  (fun _ k => statement (fun h => Some (wrote h (Del k))))
  (fun _ k doc expires updated => statement (fun h => Some (wrote h (Put k doc expires updated))))
  (fun _ w => match open w with
              | Some h =>
                  (Ret (if lostCommit w then Some down else None),
                   mkWorld (fun k => applyWrites k (rows w k) (ef_rows (h_effects h)))
                     (fun c => recorded c (commands w c) (ef_commands (h_effects h))) None (h_effects h) (server w) (lostCommit w))
              | None => (Ret (Some down), w)
              end)
  (fun _ w => (Ret None, opened w None)).

Definition statements (_ : Transaction world) : AtomicStatements world := mkAtomicStatements
  (fun _ hi lo => statement (fun h => match h_command h with None => Some (lockedCommand h (hi, lo)) | Some _ => None end))
  (fun _ c limit w => (Ret (Ok (option_map (fun x => (x.1, if strlen x.2 <=? limit then Some x.2 else None)) (commands w c))), w))
  (fun _ a => statement (fun h => Some (lockedBucket h a)))
  (fun _ w => (Ret (Ok (toUTC (ofUnixMicro (server w)))), w))
  (fun _ c intent receipt w =>
     match commands w c with Some _ => (Ret (Some down), w) | None => statement (fun h => Some (noted h (c, (intent, receipt)))) w end).

Definition db : Database world := mkDatabase
  (fun _ w => (Ret (Ok tx), mkWorld (rows w) (commands w) (Some (mkHold None [] noEffects)) noEffects (server w) (lostCommit w)))
  (fun _ => mret (Ok (Some "rate_limit_states"))) (fun _ _ => mret (Ok 0)).

Definition clock (w : world) : Time * world := (toUTC (ofUnixMicro (server w)), w).
Definition background : Context world := mkContext (fun w => (None, w)).
Definition derived (c : Context world) (_ : Time) : Context world := c.
Definition detached (c : Context world) : Context world := c.
Definition offset (_ : Location) (_ : Z) : Z := 0.
Definition located (_ _ : Z) : Location := Local.
Definition at_ (m : Z) (lost : bool) : world := mkWorld (fun _ => None) (fun _ => None) None noEffects m lost.
Definition opts : Options := mkOptions 1000000000 250000000 ServerClock.
Definition call (request : AtomicBatchRequest) : M world (AtomicBatchDecision * option error) :=
  admitAtomic derived detached clock offset located statements db opts background request 1000000000.
End DemoCommands.

Ltac demo_law Hs := unfold ensures; simpl; unfold DemoCommands.statement; rewrite ?Hs; simpl.

Lemma recorded_stays c x cs : recorded c (Some x) cs = Some x.
Proof. unfold recorded. by induction cs as [|y cs IH]. Qed.

#[global] Program Instance demo_command_laws : CommandLaws DemoCommands.db DemoCommands.statements DemoCommands.clock := {|
  ours t := t = DemoCommands.tx;
  plain ctx := forall w, (ctxErr ctx w).2 = w;
  custody _ w := DemoCommands.open w;
  published _ w := DemoCommands.visible w;
  bucketAt w := DemoCommands.rows w;
  commandAt w := DemoCommands.commands w
|}.
Next Obligation. intros t ctx w -> Hp. rewrite Hp. by split_and!. Qed.
Next Obligation. intros t w ->. by split_and!. Qed.
Next Obligation. intros ctx w t w' _ [= <- <-]. by split_and!. Qed.
Next Obligation. intros t ctx s w -> _. by split_and!. Qed.
Next Obligation. intros t ctx hi lo w h -> _ Hs Hc. demo_law Hs. rewrite Hc. by split_and!. Qed.
Next Obligation. intros t ctx c limit w h -> _ Hs _ _. demo_law Hs. by split_and!. Qed.
Next Obligation. intros t ctx a w h -> _ Hs. demo_law Hs. by split_and!. Qed.
Next Obligation. intros t ctx w -> _. by split_and!. Qed.
Next Obligation.
  intros t ctx k limit w h -> _ Hs _. demo_law Hs. split; [by split_and!|].
  destruct (applyWrites k _ _) as [r|]; simpl; [|done]. split; [done|]. intros _. apply renders_refl.
Qed.
Next Obligation. intros t ctx k w h -> _ Hs. demo_law Hs. by split_and!. Qed.
Next Obligation. intros t ctx k doc e u w h -> _ Hs. demo_law Hs. by split_and!. Qed.
Next Obligation.
  intros t ctx c intent receipt w h -> _ Hs. demo_law Hs. destruct (DemoCommands.commands w c) eqn:E; cbv beta iota; [split; [done|split; [done|by intros h0 [= <-]; split_and!]]|].
  demo_law Hs. by split_and!.
Qed.
Next Obligation.
  intros t ctx w h -> _ Hs Hp. demo_law Hs. split; [intros c x E; simpl; rewrite E; by apply recorded_stays|].
  destruct (DemoCommands.lostCommit w); [by right|by split_and!].
Qed.
Next Obligation. intros t ctx w -> _. by split_and!. Qed.

Lemma atomic_batch_all_or_nothing_witness :
  (forall lost, exists a w', DemoCommands.call DemoBatch.command (DemoCommands.at_ DemoBatch.m lost) = (Ret a, w') /\
     batch_outcome DemoCommands.offset DemoCommands.located DemoCommands.opts DemoBatch.command DemoCommands.tx
       (DemoCommands.at_ DemoBatch.m lost) a w') /\
  match DemoCommands.call DemoBatch.command (DemoCommands.at_ DemoBatch.m false) with
  | (Ret (out, None), w') => abd_Allowed out = true /\ length (ef_rows (DemoCommands.visible w')) = 2%nat
  | _ => False
  end.
Proof.
  split; [|vm_compute; split; reflexivity]. intros lost.
  apply (atomic_batch_all_or_nothing (db := DemoCommands.db) (atomic := DemoCommands.statements) (wallClock := DemoCommands.clock) (detached := fun c _ H => H) DemoCommands.derived DemoCommands.detached DemoCommands.offset DemoCommands.located
    DemoCommands.opts DemoBatch.command DemoCommands.background 1000000000 (DemoCommands.at_ DemoBatch.m lost)).
  - by intros w.
  - apply total_no_panic. discriminate.
  - discriminate.
Defined.

(** The command on empty buckets, and what it leaves. *)
Module DemoPerformed.
Definition now : Time := toUTC (ofUnixMicro DemoBatch.m).
Definition decided : list (persistedState * Decision * bool) :=
  omap (fun r => match mutateState None (withNow r now) with
                 | (Some next, d, err) => Some (next, stampPostgres d r, match err with None => true | Some _ => false end)
                 | _ => None
                 end) (abr_Requests DemoBatch.command).
Definition ans : AtomicBatchDecision * option error := batchResult DemoBatch.command now decided.
Definition receipt : string :=
  default EmptyString (marshalReceipt DemoCommands.offset (mkAtomicBatchDecision EmptyString (abd_Allowed ans.1) (abd_Decisions ans.1))).
Definition eff : effects := mkEffects (zip_with putBucket decided (abr_Requests DemoBatch.command))
  [(sha256 (CommandID DemoBatch.command), (atomicIntent DemoBatch.command ServerClock, receipt))].
Definition after : DemoCommands.world := (DemoCommands.call DemoBatch.command (DemoCommands.at_ DemoBatch.m false)).2.
End DemoPerformed.

Lemma demo_performed :
  performed DemoCommands.offset DemoCommands.opts DemoBatch.command (fun _ => None) DemoPerformed.eff DemoPerformed.ans.
Proof.
  exists DemoPerformed.now, [None; None], DemoPerformed.decided, [], DemoPerformed.receipt. split_and!.
  - intros H. by destruct H.
  - repeat constructor; by exists None.
  - let v := eval vm_compute in DemoPerformed.decided in change DemoPerformed.decided with v.
    constructor; [|constructor; [|constructor]]; eexists _, _, _; (split; [vm_compute; reflexivity|]); (split; [by left|]); split; vm_compute; reflexivity.
  - constructor.
  - reflexivity.
  - vm_compute. reflexivity.
  - vm_compute. discriminate.
  - vm_compute. reflexivity.
Qed.

Lemma demo_sound_buckets : Forall (fun r => sound_bucket r None) (abr_Requests DemoBatch.command).
Proof.
  repeat constructor; exists (DemoRows.pol TokenBucket), 160; (split; [apply demo_lineage; by left|]);
    (split; [reflexivity|]); (split; [vm_compute; split; discriminate|]); split; (apply demo_version; by auto) || done.
Qed.

Lemma atomic_command_runs_once_witness :
  exists a w', DemoCommands.call DemoBatch.retry DemoPerformed.after = (Ret a, w') /\
    published (CommandLaws := demo_command_laws) DemoCommands.tx w' = noEffects /\ (a = DemoPerformed.ans \/ refused_batch a).
Proof.
  unfold DemoCommands.call. eapply (atomic_command_runs_once (db := DemoCommands.db) (atomic := DemoCommands.statements) (wallClock := DemoCommands.clock) (detached := fun c _ H => H)
    DemoCommands.derived DemoCommands.detached DemoCommands.offset DemoCommands.located).
  - by intros w.
  - reflexivity.
  - exact demo_performed.
  - exact demo_sound_buckets.
  - vm_compute. split; repeat constructor.
  - reflexivity.
  - repeat constructor.
  - vm_compute. reflexivity.
Defined.
