(* ===== verification/Reference.v ===== *)
(** * The reference model of the test kit (ratelimittest/reference.go, strict.go)

    [Reference] is the oracle the conformance tests compare backends with: a map
    of keys without bound, and a token bucket over [math/big] rationals.  A
    [*big.Rat] is a [Q]; [Num] and [Denom] read the lowest terms.  An operation
    that mutates a [*referenceState] is a computation over it; it panics where
    [math/big] does (a zero denominator) and where Go writes to a nil map. *)

From Stdlib Require Import QArith.
From S2P Require Import Prelude GoTime GoHash Errors Keys Policy Backend.

Local Open Scope string_scope.
Local Open Scope Z_scope.

Record referenceSegment := mkReferenceSegment { rg_index : Z; rg_used : Z }.
Definition zeroReferenceSegment : referenceSegment := mkReferenceSegment 0 0.

Record referenceLease := mkReferenceLease { rl_cost : Z; rl_expiresAt : Time }.

Record referenceState := mkReferenceState {
  rs_algorithm : Algorithm;
  rs_revision : string;
  rs_observed : Time;
  rs_tokens : Q;
  rs_last : Time;
  rs_window : Z;
  rs_period : Duration;
  rs_used : Z;
  rs_segments : list referenceSegment;
  rs_leases : gmap string referenceLease
}.

(** The zero [Reference] has a nil map of states. *)
Record Reference := mkReference { rf_states : option (gmap string referenceState) }.

Definition NewReference : Reference := mkReference (Some ∅).

(** Assignments to the fields of a state. *)
Definition setObserved (s : referenceState) (t : Time) : referenceState :=
  mkReferenceState (rs_algorithm s) (rs_revision s) t (rs_tokens s) (rs_last s) (rs_window s)
                   (rs_period s) (rs_used s) (rs_segments s) (rs_leases s).
Definition setReferenceRevision (s : referenceState) (r : string) : referenceState :=
  mkReferenceState (rs_algorithm s) r (rs_observed s) (rs_tokens s) (rs_last s) (rs_window s)
                   (rs_period s) (rs_used s) (rs_segments s) (rs_leases s).
Definition setRat (s : referenceState) (q : Q) (t : Time) : referenceState :=
  mkReferenceState (rs_algorithm s) (rs_revision s) (rs_observed s) q t (rs_window s)
                   (rs_period s) (rs_used s) (rs_segments s) (rs_leases s).
Definition setReferenceWindow (s : referenceState) (w use : Z) : referenceState :=
  mkReferenceState (rs_algorithm s) (rs_revision s) (rs_observed s) (rs_tokens s) (rs_last s) w
                   (rs_period s) use (rs_segments s) (rs_leases s).
Definition setReferenceSegments (s : referenceState) (segs : list referenceSegment) : referenceState :=
  mkReferenceState (rs_algorithm s) (rs_revision s) (rs_observed s) (rs_tokens s) (rs_last s)
                   (rs_window s) (rs_period s) (rs_used s) segs (rs_leases s).
Definition setReferenceLeases (s : referenceState) (ls : gmap string referenceLease) : referenceState :=
  mkReferenceState (rs_algorithm s) (rs_revision s) (rs_observed s) (rs_tokens s) (rs_last s)
                   (rs_window s) (rs_period s) (rs_used s) (rs_segments s) ls.

(** ** [math/big] *)

Section Big.
Context {S : Type}.

(** [SetFrac] and [Quo] panic when the divisor is zero. *)
Definition SetFrac (a b : Z) : M S Q :=
  if b =? 0 then panic else mret (inject_Z a / inject_Z b)%Q.
Definition RatQuo (a b : Q) : M S Q :=
  if Z.sgn (Qnum b) =? 0 then panic else mret (a / b)%Q.

Definition get : M S S := fun s => (Ret s, s).
Definition put (s : S) : M S unit := fun _ => (Ret tt, s).
End Big.

Definition Num (q : Q) : Z := Qnum (Qred q).
Definition Denom (q : Q) : Z := Z.pos (Qden (Qred q)).
Definition Sign (q : Q) : Z := Z.sgn (Qnum q).

(** [x.Cmp(y) > 0] and [x.Cmp(y) >= 0]. *)
Definition exceeds (x y : Q) : bool := bool_decide (Qcompare x y = Gt).
Definition reaches (x y : Q) : bool := negb (bool_decide (Qcompare x y = Lt)).

(** [Int.Uint64] and [Int.Int64] keep the low 64 bits. *)
Definition floorRat (value : Q) : Z := u64 (Num value ÷ Denom value).

Definition referenceRefillDuration {S} (tok : Q) (policy : Policy) : M S Duration :=
  if Sign tok <=? 0 then mret 0 else
  value ← RatQuo (tok * inject_Z (Microseconds (period policy)))%Q (inject_Z (capacity policy));
  let quotient := Num value ÷ Denom value in
  let quotient := if negb (Num value mod Denom value =? 0) then quotient + 1 else quotient in
  mret (i64 quotient *i Microsecond).

Definition clampTime (now observed : Time) : Time := if Before now observed then observed else now.

Definition floorBoundary (value size : Z) : Z :=
  let quotient := value ÷ size in
  let quotient := if (value <? 0) && negb (Z.rem value size =? 0) then quotient -i 1 else quotient in
  quotient *i size.

(** ** The algorithms *)

Definition referenceDecision (allowed : bool) (limit remaining : Z) (reset : Time) (retry : Duration)
    (reason : Reason) : Decision :=
  mkDecision allowed remaining limit reset retry reason EmptyString EmptyString.

(** The refill at the top of [referenceToken]. *)
Definition referenceRefill (request : Request) : M referenceState unit :=
  current ← get;
  if negb (After (Now request) (rs_last current)) then mret tt else
  let policy := req_Policy request in
  elapsed ← SetFrac (Microseconds (Sub (Now request) (rs_last current))) (Microseconds (period policy));
  let tok := (rs_tokens current + elapsed * inject_Z (capacity policy))%Q in
  let limit := inject_Z (Limit policy) in
  put (setRat current (if exceeds tok limit then limit else tok) (Now request)).

Definition referenceToken (request : Request) : M referenceState (Decision * option error) :=
  let policy := req_Policy request in
  _ ← referenceRefill request;
  current ← get;
  let cost := inject_Z (Cost request) in
  let allowed := reaches (rs_tokens current) cost in
  let tok := if allowed then (rs_tokens current - cost)%Q else rs_tokens current in
  _ ← put (setRat current tok (rs_last current));
  wait ← referenceRefillDuration (inject_Z (Limit policy) - tok)%Q policy;
  let reset := Add (Now request) wait in
  if (allowed : bool)
  then mret (referenceDecision true (Limit policy) (floorRat tok) reset 0 ReasonAllowed, None)
  else retry ← referenceRefillDuration (cost - tok)%Q policy;
       mret (referenceDecision false (Limit policy) (floorRat tok) reset retry ReasonLimited,
             Some (Sent ErrRejected)).

Definition referenceConsume (current : referenceState) (request : Request) (reset : Time)
    : Decision * option error * referenceState :=
  let limit := Limit (req_Policy request) in
  let remaining := limit -u Z.min (rs_used current) limit in
  if remaining <? Cost request then
    (referenceDecision false limit remaining reset (Z.max (Sub reset (Now request)) 0) ReasonLimited,
     Some (Sent ErrRejected), current)
  else
    let current := setReferenceWindow current (rs_window current) (rs_used current +u Cost request) in
    (referenceDecision true limit (limit -u rs_used current) reset 0 ReasonAllowed, None, current).

Definition referenceFixed (current : referenceState) (request : Request)
    : Decision * option error * referenceState :=
  let period := period (req_Policy request) in
  let window := floorBoundary (UnixNano (Now request)) period in
  let current := if negb (rs_window current =? window) then setReferenceWindow current window 0
                 else current in
  referenceConsume current request (ofUnixNano (window +i period)).

(** The loop over the segments: an expired one is cleared, the others are
    summed, and [earliest] is the least live index, 0 standing for none. *)
Fixpoint scanReference (oldestIndex : Z) (segs : list referenceSegment) (use earliest : Z)
    : list referenceSegment * Z * Z :=
  match segs with
  | [] => ([], use, earliest)
  | g :: rest =>
      if rg_index g <=? oldestIndex then
        let '(rest, use, earliest) := scanReference oldestIndex rest use earliest in
        (zeroReferenceSegment :: rest, use, earliest)
      else
        let earliest' := if (0 <? rg_used g) && ((earliest =? 0) || (rg_index g <? earliest))
                         then rg_index g else earliest in
        let '(rest, use, earliest) := scanReference oldestIndex rest (use +u rg_used g) earliest' in
        (g :: rest, use, earliest)
  end.

Definition referenceSliding (current : referenceState) (request : Request)
    : Decision * option error * referenceState :=
  let policy := req_Policy request in
  let width := (period policy +i 15) ÷ 16 in
  let index := floorBoundary (UnixNano (Now request)) width ÷ width in
  let oldestIndex := floorBoundary (UnixNano (Add (Now request) (i64 (- period policy)))) width ÷ width in
  let '(segs, use, earliest) := scanReference oldestIndex (rs_segments current) 0 0 in
  let slot := Z.rem index 16 in
  let slot := Z.to_nat (if slot <? 0 then slot + 16 else slot) in
  let segs := match segs !! slot with
              | Some g => if negb (rg_index g =? index) then <[slot := mkReferenceSegment index 0]> segs
                          else segs
              | None => segs
              end in
  let current := setReferenceWindow (setReferenceSegments current segs) (rs_window current) use in
  let reset := if negb (earliest =? 0)
               then Add (ofUnixNano ((earliest +i 1) *i width)) (period policy)
               else Add (Now request) (period policy) in
  let '(d, err, current) := referenceConsume current request reset in
  match err, rs_segments current !! slot with
  | None, Some g =>
      (d, err, setReferenceSegments current
                 (<[slot := mkReferenceSegment (rg_index g) (rg_used g +u Cost request)]>
                    (rs_segments current)))
  | _, _ => (d, err, current)
  end.

Definition referenceLeaseValue (request : LeaseRequest) (expiresAt : Time) : Lease :=
  let r := lr_Request request in
  mkLease (LeaseID request) (req_Key r) (id (req_Policy r)) (revision (req_Policy r)) (Cost r)
          expiresAt "reference".

(** ** Below the lock *)

Definition newReferenceState (request : Request) : referenceState :=
  let policy := req_Policy request in
  {| rs_algorithm := algorithm policy; rs_revision := revision policy; rs_observed := Now request;
     rs_tokens := inject_Z (Limit policy); rs_last := Now request; rs_window := 0;
     rs_period := period policy; rs_used := 0;
     rs_segments := replicate 16 zeroReferenceSegment; rs_leases := ∅ |}.

Definition referenceKey (request : Request) : string :=
  id (req_Policy request) +:+ NUL +:+ key_value (req_Key request).

(** [state]: find or create the state of a request, and run [body] on it. *)
Definition onState {A} (request : Request) (body : M referenceState A) : M Reference A := fun ref =>
  match rf_states ref with
  | None => (Panic, ref)
  | Some m =>
      let '(out, current) := body (default (newReferenceState request) (m !! referenceKey request)) in
      (out, mkReference (Some (<[referenceKey request := current]> m)))
  end.

(** The strict checks of [admitLocked] on a token bucket: a level out of range
    is corrupt, and a new revision keeps the whole tokens under its limit. *)
Definition strictBucket (request : Request) (current : referenceState) : option referenceState :=
  let limit := inject_Z (Limit (req_Policy request)) in
  let same := bool_decide (rs_revision current = revision (req_Policy request)) in
  if (Sign (rs_tokens current) <? 0) || same && exceeds (rs_tokens current) limit then None else
  if same then Some current else
  let tok := if exceeds (rs_tokens current) limit then limit else rs_tokens current in
  Some (setRat current (inject_Z (floorRat tok)) (clampTime (Now request) (rs_last current))).

Definition runPure {A} (f : referenceState -> A * referenceState) : M referenceState A := lift f.

(** The switch over the algorithm. *)
Definition referenceSwitch (request : Request) : M referenceState (Decision * option error) :=
  let algorithm := algorithm (req_Policy request) in
  if bool_decide (algorithm = TokenBucket) then referenceToken request else
  if bool_decide (algorithm = FixedWindow) then runPure (fun s => referenceFixed s request) else
  if bool_decide (algorithm = SlidingWindow) then runPure (fun s => referenceSliding s request) else
  mret (emptyDecision, Some (Sent ErrUnsupported)).

(** The clamp of the time before it. *)
Definition admitReference (request : Request) : M referenceState (Decision * option error) :=
  current ← get;
  let request := withNow request (clampTime (Now request) (rs_observed current)) in
  _ ← put (setObserved current (Now request));
  referenceSwitch request.

Definition admitLocked (request : Request) (strict : bool) : M Reference (Decision * option error) :=
  onState request (
    current ← get;
    if strict && negb (bool_decide (rs_algorithm current = algorithm (req_Policy request)))
    then mret (emptyDecision, Some (Sent ErrCorrupt)) else
    match (if strict && bool_decide (rs_algorithm current = TokenBucket)
           then strictBucket request current else Some current) with
    | None => mret (emptyDecision, Some (Sent ErrCorrupt))
    | Some current =>
        _ ← put (if strict then setReferenceRevision current (revision (req_Policy request)) else current);
        admitReference request
    end).

(** The loop of [acquireLocked]: drop what has expired, and sum the rest. *)
Definition liveReference (now : Time) (ls : gmap string referenceLease) : gmap string referenceLease :=
  filter (fun kl => After (rl_expiresAt kl.2) now = true) ls.

Definition usedReference (ls : gmap string referenceLease) : Z :=
  map_fold (fun _ l use => use +u rl_cost l) 0 ls.

Definition resetReference (ls : gmap string referenceLease) : Time :=
  map_fold (fun _ l reset => if IsZero reset || Before (rl_expiresAt l) reset then rl_expiresAt l else reset)
           zeroTime ls.

Definition acquireReference (request : LeaseRequest) (current : referenceState)
    : Lease * Decision * option error * referenceState :=
  let r := withNow (lr_Request request) (clampTime (Now (lr_Request request)) (rs_observed current)) in
  let request := mkLeaseRequest r (LeaseID request) in
  let current := setObserved current (Now r) in
  let live := liveReference (Now r) (rs_leases current) in
  let current := setReferenceLeases current live in
  let limit := Limit (req_Policy r) in
  let remaining := limit -u Z.min (usedReference live) limit in
  match live !! LeaseID request with
  | Some existing =>
      if negb (rl_cost existing =? Cost r)
      then (zeroLease, emptyDecision, Some (Sent ErrLeaseNotOwned), current)
      else (referenceLeaseValue request (rl_expiresAt existing),
            referenceDecision true limit remaining (rl_expiresAt existing) 0 ReasonAllowed, None, current)
  | None =>
      if remaining <? Cost r then
        let reset := resetReference live in
        (zeroLease,
         referenceDecision false limit remaining reset (Z.max (Sub reset (Now r)) 0) ReasonLimited,
         Some (Sent ErrRejected), current)
      else
        let expiresAt := Add (Now r) (lease (req_Policy r)) in
        (referenceLeaseValue request expiresAt,
         referenceDecision true limit (remaining -u Cost r) expiresAt 0 ReasonAllowed, None,
         setReferenceLeases current (<[LeaseID request := mkReferenceLease (Cost r) expiresAt]> live))
  end.

Definition acquireLocked (request : LeaseRequest) (strict : bool)
    : M Reference (Lease * Decision * option error) :=
  onState (lr_Request request) (
    current ← get;
    if strict && negb (bool_decide (rs_algorithm current = Concurrency))
    then mret (zeroLease, emptyDecision, Some (Sent ErrCorrupt)) else
    _ ← put (if strict then setReferenceRevision current (revision (req_Policy (lr_Request request)))
             else current);
    runPure (acquireReference request)).

(** Reading a nil map finds nothing. *)
Definition statesOf (ref : Reference) : gmap string referenceState := default ∅ (rf_states ref).

Definition releaseLocked (l : Lease) : M Reference (option error) := fun ref =>
  let key := lease_PolicyID l +:+ NUL +:+ key_value (lease_Key l) in
  match statesOf ref !! key with
  | None => (Ret (Some (Sent ErrLeaseNotFound)), ref)
  | Some current =>
      match rs_leases current !! lease_ID l with
      | None => (Ret (Some (Sent ErrLeaseNotFound)), ref)
      | Some existing =>
          if negb (rl_cost existing =? lease_Cost l) ||
             negb (Equal (rl_expiresAt existing) (ExpiresAt l))
          then (Ret (Some (Sent ErrLeaseNotOwned)), ref)
          else (Ret None, mkReference (Some (<[key := setReferenceLeases current
                                                 (delete (lease_ID l) (rs_leases current))]>
                                               (statesOf ref))))
      end
  end.

(** ** The strict operations below the lock (strict.go) *)

Definition validateStrictDecisionTime (d : Decision) (effective : Time) : option error :=
  if negb (IsZero (Reset d)) && Before (Reset d) effective then Some (Sent ErrCorrupt) else None.

Definition validateStrictEffectiveRange (effective : Time) (duration : Duration) : option error :=
  let maximumExactMicros := 9007199254740991 in
  let micros := UnixMicro effective in
  let durationMicros := Microseconds duration in
  if (micros <? - maximumExactMicros) || (durationMicros <=? 0) ||
     (maximumExactMicros -i durationMicros <? micros)
  then Some (Sent ErrOverflow) else None.

Definition validateStrictLeaseTime (l : Lease) (d : Decision) (effective : Time) : option error :=
  match validateStrictDecisionTime d effective with
  | Some err => Some err
  | None =>
      if negb (IsZero (ExpiresAt l)) &&
         (negb (After (ExpiresAt l) effective) || negb (Equal (ExpiresAt l) (Reset d)))
      then Some (Sent ErrCorrupt) else None
  end.

Definition strictDecisionResult (d : Decision) (err : option error) (effective : Time)
    : Decision * option error :=
  match validateStrictDecisionTime d effective with
  | Some timeErr => (emptyDecision, Some timeErr)
  | None => (d, err)
  end.

Definition strictLeaseResult (l : Lease) (d : Decision) (err : option error) (effective : Time)
    : Lease * Decision * option error :=
  match validateStrictLeaseTime l d effective with
  | Some timeErr => (zeroLease, emptyDecision, Some timeErr)
  | None => (l, d, err)
  end.

(** [reference.states[key]] *)
Definition lookupState (key : string) : M Reference (option referenceState) := fun ref =>
  (Ret (statesOf ref !! key), ref).

Definition laterObserved (now : Time) (found : option referenceState) : Time :=
  match found with
  | Some current => if After (rs_observed current) now then rs_observed current else now
  | None => now
  end.

Definition observedOr (effective : Time) (found : option referenceState) : Time :=
  match found with Some current => rs_observed current | None => effective end.

Definition referencePeriodChanged (found : option referenceState) (request : Request) : bool :=
  match found with
  | Some current =>
      (bool_decide (algorithm (req_Policy request) = FixedWindow) ||
       bool_decide (algorithm (req_Policy request) = SlidingWindow)) &&
      negb (rs_period current =? 0) && negb (rs_period current =? period (req_Policy request))
  | None => false
  end.

(** [AdmitStrict] once it holds the lock; the time is already truncated. *)
Definition admitStrictLocked (request : Request) : M Reference (Decision * option error) :=
  let key := referenceKey request in
  found ← lookupState key;
  if referencePeriodChanged found request then mret (emptyDecision, Some (Sent ErrCorrupt)) else
  let effective := laterObserved (Now request) found in
  match validateStrictEffectiveRange effective (period (req_Policy request)) with
  | Some err => mret (emptyDecision, Some err)
  | None =>
      result ← admitLocked request true;
      found ← lookupState key;
      let '(d, err) := result : Decision * option error in
      mret (strictDecisionResult d err (observedOr effective found))
  end.

Definition acquireStrictLocked (request : LeaseRequest) : M Reference (Lease * Decision * option error) :=
  let r := lr_Request request in
  let key := referenceKey r in
  found ← lookupState key;
  let effective := laterObserved (Now r) found in
  match validateStrictEffectiveRange effective (lease (req_Policy r)) with
  | Some err => mret (zeroLease, emptyDecision, Some err)
  | None =>
      result ← acquireLocked request true;
      found ← lookupState key;
      let '(l, d, err) := result : Lease * Decision * option error in
      mret (strictLeaseResult l d err (observedOr effective found))
  end.

(** ** The operations *)

(** A world that holds a reference model. *)
Class HasReference (W : Type) := {
  theReference : W -> Reference;
  withReference : Reference -> W -> W;
  theReference_with r w : theReference (withReference r w) = r
}.

Section ReferenceOps.
Context {W : Type} `{HasReference W}.

(** What other goroutines do while this one waits for the channel of
    [contextMutex]; [LockContext] also says whether it won the lock. *)
Context (waitReference : W -> W).
Context (lockReference : Context W -> W -> bool * W).

Definition underLock {A} (body : M Reference A) : M W A := fun w =>
  let '(out, ref) := body (theReference w) in (out, withReference ref w).

Definition lockedReference {A} (body : M Reference A) : M W A := fun w =>
  underLock body (waitReference w).

Definition LockContext (ctx : Context W) : M W (option error) :=
  acquired ← lift (lockReference ctx);
  if (acquired : bool) then mret None else lift (ctxErr ctx).

Definition microRequest (request : Request) : Request :=
  withNow request (toUTC (ofUnixMicro (UnixMicro (Now request)))).

Definition Admit (ctx : Context W) (request : Request) : M W (Decision * option error) :=
  done ← lift (ctxErr ctx);
  match done with
  | Some err => mret (emptyDecision, Some err)
  | None =>
      match Validate request with
      | Some err => mret (emptyDecision, Some err)
      | None => lockedReference (admitLocked (microRequest request) false)
      end
  end.

Definition Acquire (ctx : Context W) (request : LeaseRequest) : M W (Lease * Decision * option error) :=
  done ← lift (ctxErr ctx);
  match done with
  | Some err => mret (zeroLease, emptyDecision, Some err)
  | None =>
      match LeaseRequest_Validate request with
      | Some err => mret (zeroLease, emptyDecision, Some err)
      | None => lockedReference (acquireLocked (mkLeaseRequest (microRequest (lr_Request request))
                                                               (LeaseID request)) false)
      end
  end.

Definition Release (ctx : Context W) (l : Lease) : M W (option error) :=
  done ← lift (ctxErr ctx);
  match done with
  | Some err => mret (Some err)
  | None => lockedReference (releaseLocked l)
  end.

Definition Name : string := "reference".

Definition referenceStrictContext (ctx : Context W) : M W (option error) :=
  first ← lift (ctxErr ctx);
  if directError first CtxCanceled then mret (Some CanceledOutcome) else
  second ← lift (ctxErr ctx);
  if directError second CtxDeadlineExceeded then mret (Some DeadlineOutcome) else
  mret None.

(** [errors.Is(err, target) || ctx.Err() == target] *)
Definition matchesContext (ctx : Context W) (err : error) (target : Sentinel) : M W bool :=
  if errorsIsAt err target then mret true else
  late ← lift (ctxErr ctx); mret (directError late target).

Definition referenceStrictError (ctx : Context W) (err : error) : M W error :=
  canceled ← matchesContext ctx err CtxCanceled;
  if (canceled : bool) then mret CanceledOutcome else
  expired ← matchesContext ctx err CtxDeadlineExceeded;
  if (expired : bool) then mret DeadlineOutcome else mret err.

Definition uninitialized : M W bool := fun w =>
  (Ret (match rf_states (theReference w) with None => true | Some _ => false end), w).

Definition truncated (request : Request) : Request :=
  withNow request (toUTC (TruncateMicro (Now request))).

(** Lock with the context, re-check it, run the body and unlock. *)
Definition strictReference {A} (ctx : Context W) (fail : error -> A) (body : M Reference A) : M W A :=
  locked ← LockContext ctx;
  match locked with
  | Some err => normalized ← referenceStrictError ctx err; mret (fail normalized)
  | None =>
      done ← lift (ctxErr ctx);
      match done with
      | Some err => normalized ← referenceStrictError ctx err; mret (fail normalized)
      | None => underLock body
      end
  end.

Definition nilReference : option error :=
  Some (errorf ErrInvalidPolicy "backend is nil or uninitialized").

Definition AdmitStrict (ctx : iface (Context W)) (request : Request) : M W (Decision * option error) :=
  empty ← uninitialized;
  if (empty : bool) then mret (emptyDecision, nilReference) else
  match ctx with
  | nil_iface | typed_nil _ => mret (emptyDecision, invalidRequest "context is required")
  | iface_of ctx =>
      match Validate request with
      | Some err => mret (emptyDecision, Some err)
      | None =>
          early ← referenceStrictContext ctx;
          match early with
          | Some err => mret (emptyDecision, Some err)
          | None =>
              if bool_decide (algorithm (req_Policy request) = Concurrency)
              then mret (emptyDecision, Some (Sent ErrUnsupported)) else
              strictReference ctx (fun err => (emptyDecision, Some err))
                              (admitStrictLocked (truncated request))
          end
      end
  end.

(** Unlike [AdmitStrict], the context is first read with the lock held. *)
Definition AcquireStrict (ctx : iface (Context W)) (request : LeaseRequest)
    : M W (Lease * Decision * option error) :=
  empty ← uninitialized;
  if (empty : bool) then mret (zeroLease, emptyDecision, nilReference) else
  match ctx with
  | nil_iface | typed_nil _ => mret (zeroLease, emptyDecision, invalidRequest "context is required")
  | iface_of ctx =>
      match LeaseRequest_Validate request with
      | Some err => mret (zeroLease, emptyDecision, Some err)
      | None =>
          strictReference ctx (fun err => (zeroLease, emptyDecision, Some err))
            (acquireStrictLocked (mkLeaseRequest (truncated (lr_Request request)) (LeaseID request)))
      end
  end.

Definition ReleaseStrict (ctx : iface (Context W)) (l : Lease) : M W (option error) :=
  empty ← uninitialized;
  if (empty : bool) then mret nilReference else
  match ctx with
  | nil_iface | typed_nil _ => mret (invalidRequest "context is required")
  | iface_of ctx =>
      if bool_decide (lease_ID l = EmptyString) || bool_decide (lease_PolicyID l = EmptyString) ||
         bool_decide (key_value (lease_Key l) = EmptyString) || (lease_Cost l =? 0) ||
         IsZero (ExpiresAt l)
      then mret (Some (Sent ErrInvalidRequest)) else
      early ← referenceStrictContext ctx;
      match early with
      | Some err => mret (Some err)
      | None => strictReference ctx Some (releaseLocked l)
      end
  end.

(** [*Reference] as a [Backend] and as a [StrictBackend]. *)
Definition referenceBackend : Backend W :=
  mkBackend Name Admit (Some (mkLeaseBackend Acquire Release)).

Definition referenceStrictBackend : StrictBackend W :=
  mkStrictBackend Name (fun ctx => AdmitStrict (iface_of ctx))
    (Some (mkStrictLeaseBackend (fun ctx => AcquireStrict (iface_of ctx))
                                (fun ctx => ReleaseStrict (iface_of ctx)))) None.
End ReferenceOps.

(** ** The test clock (clock.go) *)

Record Clock := mkClock { clock_now : Time }.

Definition NewClock (now : Time) : Clock := mkClock now.
Definition ClockNow (clock : Clock) : Time := clock_now clock.
Definition ClockSet (clock : Clock) (now : Time) : Clock := mkClock now.
Definition ClockAdvance (clock : Clock) (duration : Duration) : Clock :=
  mkClock (Add (clock_now clock) duration).
