(* ===== verification/ReferenceFacts.v ===== *)
(** * The in-memory backend implements the reference model

    A simulation between the states of the in-memory backend (MemoryState) and
    those of the rational reference model (Reference): on every history of
    strict operations over any keys, policies and revisions the two return the
    same decisions, leases and errors. *)

From Stdlib Require Import QArith Qround.
From S2P Require Import Prelude GoTime GoHash Errors Keys Policy Backend Reference.
From S2P Require Import MemoryState TokenBucket Windows SlidingWindow MemoryStore MemoryStrict.

Local Open Scope string_scope.
Local Open Scope Z_scope.

(** ** Rationals over a common denominator *)

Definition frac (v d : Z) : Q := v # (Z.to_pos d).

Lemma frac_floor q v d : (q == frac v d)%Q -> 0 < d -> Qfloor q = v / d.
Proof. intros -> Hd. unfold frac, Qfloor. by rewrite Z2Pos.id. Qed.

Lemma Num_Denom_floor q : Reference.Num q / Reference.Denom q = Qfloor q.
Proof. rewrite <- (Qred_correct q) at 3. unfold Reference.Num, Reference.Denom. by destruct (Qred q). Qed.

Lemma frac_sign q v d : (q == frac v d)%Q -> 0 < d -> Reference.Sign q = Z.sgn v.
Proof.
  intros Hq Hd. unfold Reference.Sign. unfold Qeq, frac in Hq. simpl in Hq.
  rewrite Z2Pos.id in Hq by done. destruct (Z.sgn_spec (Qnum q)) as [[? ->]|[[? ->]|[? ->]]];
    symmetry; [apply Z.sgn_pos|apply Z.sgn_null|apply Z.sgn_neg]; nia.
Qed.

Lemma frac_Num_nonneg q v d : (q == frac v d)%Q -> 0 < d -> 0 <= v -> 0 <= Reference.Num q.
Proof.
  intros Hq Hd Hv. assert (Reference.Sign (Qred q) = Z.sgn v) as Hs
    by (apply (frac_sign _ _ d); [by rewrite Qred_correct|done]).
  unfold Reference.Sign in Hs. unfold Reference.Num. destruct (Z.sgn_spec v) as [[? E]|[[? E]|[? E]]]; lia.
Qed.

Lemma frac_quotient q v d :
  (q == frac v d)%Q -> 0 < d -> 0 <= v -> Reference.Num q ÷ Reference.Denom q = v / d.
Proof.
  intros Hq Hd Hv. rewrite quot_nonneg, Num_Denom_floor; [by apply frac_floor| |unfold Reference.Denom; lia].
  by apply (frac_Num_nonneg q v d).
Qed.

Lemma frac_whole q v d :
  (q == frac v d)%Q -> 0 < d -> (Reference.Num q mod Reference.Denom q =? 0) = (v mod d =? 0).
Proof.
  intros Hq Hd. rewrite <- (Qred_correct q) in Hq. unfold Reference.Num, Reference.Denom.
  destruct (Qred q) as [n e]. unfold Qeq, frac in Hq. simpl in *. rewrite Z2Pos.id in Hq by done.
  assert (forall a b a' b', 0 < b -> 0 < b' -> a * b' = a' * b -> a mod b = 0 -> a' mod b' = 0) as Hw.
  { intros a b a' b' ? ? E [k ->]%Z.mod_divide; [|lia]. apply Z.mod_divide; [lia|]. exists k.
    apply (Z.mul_reg_r _ _ b); lia. }
  destruct (Z.eqb_spec (n mod Z.pos e) 0) as [E|E], (Z.eqb_spec (v mod d) 0) as [E'|E']; try done;
    exfalso; [apply E', (Hw n (Z.pos e))|apply E, (Hw v d)]; lia.
Qed.

Lemma frac_compare q v d n : (q == frac v d)%Q -> 0 < d -> Qcompare q (inject_Z n) = (v ?= n * d).
Proof. intros -> Hd. unfold Qcompare, frac, inject_Z. simpl. rewrite Z2Pos.id by done. by rewrite Z.mul_1_r. Qed.

Lemma frac_exceeds q v d n : (q == frac v d)%Q -> 0 < d -> Reference.exceeds q (inject_Z n) = (n * d <? v).
Proof.
  intros Hq Hd. unfold Reference.exceeds. rewrite (frac_compare q v d n) by done.
  case_bool_decide; destruct (Z.compare_spec v (n * d)), (Z.ltb_spec (n * d) v); try done; lia.
Qed.

Lemma frac_reaches q v d n : (q == frac v d)%Q -> 0 < d -> Reference.reaches q (inject_Z n) = (n * d <=? v).
Proof.
  intros Hq Hd. unfold Reference.reaches. rewrite (frac_compare q v d n) by done.
  case_bool_decide; destruct (Z.compare_spec v (n * d)), (Z.leb_spec (n * d) v); try done; lia.
Qed.

Lemma frac_plus v w d : 0 < d -> (frac v d + frac w d == frac (v + w) d)%Q.
Proof. intros Hd. unfold frac, Qplus, Qeq. simpl. rewrite Pos2Z.inj_mul, Z2Pos.id by done. ring. Qed.

Lemma frac_opp v d : 0 < d -> (- frac v d == frac (- v) d)%Q.
Proof. done. Qed.

Lemma frac_inject n d : 0 < d -> (inject_Z n == frac (n * d) d)%Q.
Proof. intros Hd. unfold frac, inject_Z, Qeq. simpl. rewrite Z2Pos.id by done. lia. Qed.

Lemma frac_div a b : 0 < b -> (inject_Z a / inject_Z b == frac a b)%Q.
Proof.
  intros Hb. unfold frac, inject_Z, Qdiv, Qmult, Qinv, Qeq. destruct b; simpl; try lia.
Qed.

Lemma frac_scale v d n : 0 < d -> (frac v d * inject_Z n == frac (v * n) d)%Q.
Proof. intros Hd. unfold frac, Qmult, Qeq, inject_Z. simpl. rewrite Pos.mul_1_r. ring. Qed.

Lemma frac_unscale v d n : 0 < d -> 0 < n -> (frac v d * inject_Z d / inject_Z n == frac v n)%Q.
Proof.
  intros Hd Hn. rewrite frac_scale by done. unfold frac, Qdiv, Qmult, Qinv, inject_Z, Qeq.
  destruct n, d; simpl; try lia.
Qed.

(** The level as a rational refines the pair of the production code. *)
Lemma frac_minus q v n d :
  0 < d -> (q == frac v d)%Q -> (inject_Z n - q == frac (n * d - v) d)%Q /\ (q - inject_Z n == frac (v - n * d) d)%Q.
Proof.
  intros Hd Hq. unfold Qminus. rewrite Hq, (frac_inject n d) by done.
  rewrite !frac_opp, !frac_plus by done. split; reflexivity.
Qed.

(** Rounding down a level gives its whole tokens. *)
Lemma floorRat_level q tok rem d :
  (q == frac (tok * d + rem) d)%Q -> 0 <= tok < two64 -> 0 <= rem < d -> Reference.floorRat q = tok.
Proof.
  intros Hq Ht Hr. unfold Reference.floorRat. rewrite (frac_quotient _ _ d Hq) by nia.
  rewrite Z.div_add_l, (Z.div_small rem), Z.add_0_r by lia. by apply u64_id.
Qed.

(** ** The token bucket *)

Section Bucket.
Context (p : Policy).
Hypothesis Hwf : wf_policy p.
Hypothesis Hal : algorithm p = TokenBucket.
Abbreviation P := (period_micros p).

(** The waiting time of the reference model is the production waiting time. *)
Lemma refillDuration_agrees {S} (tok rem : Z) (q : Q) (s : S) :
  0 <= tok <= Limit p -> 0 <= rem < P -> (tok = 0 -> rem = 0) ->
  (q == frac (tok * P - rem) P)%Q ->
  Reference.referenceRefillDuration q p s = (Ret (refillDuration tok rem p), s).
Proof.
  intros Ht Hr Hz Hq. destruct (token_policy p Hwf Hal) as (Hc & _ & _ & Hlim & HP & Hper & Hfull & Hi & _).
  destruct (refillDuration_exact p Hwf Hal tok rem Ht Hr Hz) as (us & -> & Hus & Hdt).
  unfold Reference.referenceRefillDuration. rewrite (frac_sign q _ P Hq) by lia.
  set (v := tok * P - rem) in *. destruct (Z.leb_spec (Z.sgn v) 0) as [Hv|Hv].
  { assert (v <= 0) by (destruct (Z.sgn_spec v); lia). assert (us <= 0) by (apply Hdt; lia).
    by replace us with 0 by lia. }
  assert (1 <= v) as Hv1 by (destruct (Z.sgn_spec v); lia). unfold Reference.RatQuo. simpl Qnum.
  destruct (Z.eqb_spec (Z.sgn (capacity p)) 0) as [E|_]; [rewrite Z.sgn_null_iff in E; lia|].
  assert (Microseconds (period p) = P) as HPm by (rewrite Microseconds_nonneg by lia; done).
  rewrite HPm, bind_ret_l. set (value := (_ / _)%Q).
  assert (value == frac v (capacity p))%Q as Hval.
  { unfold value. rewrite Hq. apply frac_unscale; lia. }
  rewrite (frac_quotient value v (capacity p)), (frac_whole value v (capacity p)) by (done || lia).
  assert ((if negb (v mod capacity p =? 0) then v / capacity p + 1 else v / capacity p) = us) as ->.
  { pose proof (Hdt us) as [Hd1 _]. specialize (Hd1 ltac:(lia)).
    assert (~ v <= (us - 1) * capacity p) by (intros H%Hdt; lia).
    pose proof (Z.div_mod v (capacity p) ltac:(lia)) as Hdm.
    pose proof (Z.mod_pos_bound v (capacity p) ltac:(lia)) as Hmb.
    destruct (Z.eqb_spec (v mod capacity p) 0); simpl; nia. }
  rewrite (i64_id us), i64_id by (unfold is_i64; lia). done.
Qed.

(** A rate under which the sum of a refill never leaves [uint64], whatever time
    has passed: about two thousand tokens per microsecond. *)
Definition modest : Prop := MaxInt64 / 1000 * capacity p + P <= (two64 - Limit p) * P.

Lemma refill_elapsed s r :
  modest -> wf_bucket p s -> req_Policy r = p -> instant (lastRefill s) < instant (Now r) ->
  level p (refill s r) = ideal_refill p (level p s) (elapsed s (Now r)) /\
  lastRefill (refill s r) = Now r.
Proof.
  intros Hmod Hs Hp Hlt. pose proof (wf_level p Hwf Hal s Hs) as Hlev. pose proof Hs as [Ht Hr Hf _ _].
  destruct (token_policy p Hwf Hal) as (Hc & _ & _ & Hlim & HP & _).
  destruct (elapsed_bounds s (Now r) Hlt) as (He & _ & _).
  destruct (Z.eq_dec (tokens s) (Limit p)) as [El|El].
  { unfold refill, After. rewrite (proj2 (Z.ltb_lt _ _) Hlt), Hp, El, Z.eqb_refl. simpl. split; [|done].
    pose proof (Hf El). unfold level, ideal_refill, full_level in *. simpl. nia. }
  rewrite (refill_eq p Hwf Hal s r) by done.
  pose proof (refilled_spec p Hwf Hal s (Now r) Hs El ltac:(lia)) as Hsp.
  destruct (refilled p s (Now r)) as [tok rest]. destruct Hsp as (_ & _ & Heq). split; [|done].
  unfold level; simpl. apply Heq.
  assert (elapsed s (Now r) <= MaxInt64 / 1000).
  { unfold elapsed, Sub. rewrite Microseconds_nonneg by lia. rewrite u64_id by (unfold is_u64; zlia). zlia. }
  unfold modest in Hmod. nia.
Qed.

(** The part of a reference state that the token bucket leaves alone. *)
Definition rerated (q : referenceState) (tok : Q) (t : Time) (q' : referenceState) : Prop :=
  q' = setRat q (rs_tokens q') (rs_last q') /\ (rs_tokens q' == tok)%Q /\ instant (rs_last q') = instant t.

Lemma referenceRefill_agrees s q r :
  modest -> wf_bucket p s -> req_Policy r = p -> aligned (Now r) ->
  instant (lastSeen s) = instant (Now r) ->
  (rs_tokens q == frac (level p s) P)%Q -> instant (rs_last q) = instant (lastRefill s) ->
  exists q', Reference.referenceRefill r q = (Ret tt, q') /\
    rerated q (frac (level p (refill s r)) P) (lastRefill (refill s r)) q'.
Proof.
  intros Hmod Hs Hp Ha Hseen Hq Hl. destruct (token_policy p Hwf Hal) as (Hc & _ & _ & Hlim & HP & Hper & _).
  unfold Reference.referenceRefill. rewrite bind_unfold. simpl. unfold After. rewrite Hl.
  destruct (Z.ltb_spec (instant (lastRefill s)) (instant (Now r))) as [Hlt|Hge]; simpl.
  2:{ exists q. unfold refill, After. rewrite (proj2 (Z.ltb_ge _ _)) by done. simpl.
      split; [done|]. split_and!; [by destruct q|done|done]. }
  assert (Microseconds (period p) = P) as HPm by (rewrite Microseconds_nonneg by lia; done).
  destruct (elapsed_bounds s (Now r) Hlt) as (He & _ & _).
  destruct (refill_elapsed s r Hmod Hs Hp Hlt) as [-> ->].
  assert (Microseconds (Sub (Now r) (rs_last q)) = elapsed s (Now r)) as ->.
  { unfold elapsed, Sub in *. rewrite Hl, u64_id; [done|].
    rewrite Microseconds_nonneg by lia. unfold is_u64. zlia. }
  unfold Reference.SetFrac. rewrite Hp, HPm. destruct (Z.eqb_spec P 0); [lia|]. rewrite bind_ret_l.
  eexists. split; [reflexivity|]. split_and!; [done| |done]. simpl.
  set (tok := (_ + _)%Q). set (e := elapsed s (Now r)) in *.
  assert (tok == frac (level p s + e * capacity p) P)%Q as Htok.
  { unfold tok. rewrite Hq, frac_div, frac_scale, frac_plus by lia. reflexivity. }
  rewrite (frac_exceeds tok _ P (Limit p) Htok) by lia. unfold ideal_refill, full_level.
  destruct (Z.ltb_spec (Limit p * P) (level p s + e * capacity p)).
  - rewrite Z.min_r by lia. apply frac_inject. lia.
  - by rewrite Z.min_l by lia.
Qed.

(** A bucket and its rational level. *)
Record same_bucket (s : state) (q : referenceState) : Prop := {
  sb_wf : wf_bucket p s;
  sb_level : (rs_tokens q == frac (level p s) P)%Q;
  sb_last : instant (rs_last q) = instant (lastRefill s)
}.

Lemma setRat_setRat q t u t' u' : setRat (setRat q t u) t' u' = setRat q t' u'.
Proof. done. Qed.

Lemma admitState_present s r :
  lastSeen s = Now r -> clampNow s r = r /\ setLastSeen s (Now r) = s.
Proof.
  intros H. unfold clampNow, Before. rewrite H, Z.ltb_irrefl. split; [done|]. rewrite <- H. by destruct s.
Qed.

Lemma refill_bucket s r :
  exists tok rem t, refill s r = setBucket s tok rem t.
Proof.
  unfold refill. repeat case_match; eauto. all: exists (tokens s), (remainder s), (lastRefill s); by destruct s.
Qed.

(** One admission of the reference bucket, decided as the production bucket
    decides it and leaving the same level. *)
Lemma referenceToken_agrees s q r :
  modest -> same_bucket s q -> bucket_request p r -> lastSeen s = Now r ->
  exists d err s' q', admitToken s r = (d, err, s') /\ Reference.referenceToken r q = (Ret (d, err), q') /\
    same_bucket s' q' /\ (exists tok rem t, s' = setBucket s tok rem t) /\ (exists tok t, q' = setRat q tok t).
Proof.
  intros Hmod [Hs Hq Hl] Hr Hseen. pose proof Hr as (Hp & Hc & Ha).
  destruct (admitState_present s r Hseen) as [Ecl Ese].
  destruct (token_policy p Hwf Hal) as (Hcap & _ & _ & Hlim & HP & _ & _ & _ & Hmax).
  destruct (admitState_token p Hwf Hal s r Hs Hr) as (Ead & Hs2 & _).
  destruct (refreshed_spec p Hwf Hal s r Hs Hr) as (Hs1 & Hlr & _).
  unfold admitState in Ead. rewrite Ecl, Hp, Hal in Ead. simpl in Ead.
  unfold refreshed in *. rewrite !Ecl, !Ese in *. set (s1 := refill s r) in *.
  destruct (referenceRefill_agrees s q r Hmod Hs Hp Ha) as (q1 & Eq1 & Hq1 & Ht1 & Hl1); [by rewrite Hseen|done..|].
  fold s1 in Ht1, Hl1. pose proof Hs1 as [B1 B2 B3 _ _].
  destruct (refill_bucket s r) as (x & y & z & Er). fold s1 in Er.
  unfold Reference.referenceToken. rewrite bind_unfold, Eq1, bind_unfold. simpl.
  rewrite (frac_reaches _ _ _ (Cost r) Ht1), <- (negb_involutive (_ <=? _)), <- (tokens_cover p s1 (Cost r) Hs1) by lia.
  rewrite Ead. clear Ead. rewrite bind_unfold. simpl. rewrite bind_unfold, Hp.
  destruct (Z.ltb_spec (tokens s1) (Cost r)); simpl in *.
  - destruct (frac_minus _ _ (Limit p) P ltac:(lia) Ht1) as [Hwait _].
    destruct (frac_minus _ _ (Cost r) P ltac:(lia) Ht1) as [Hretry _].
    rewrite (refillDuration_agrees (Limit p - tokens s1) (remainder s1));
      [|lia|done|intros; apply B3; lia|rewrite Hwait; unfold level; f_equiv; lia].
    rewrite bind_unfold, (refillDuration_agrees (Cost r - tokens s1) (remainder s1));
      [|lia|done|lia|rewrite Hretry; unfold level; f_equiv; lia].
    assert (Reference.floorRat (rs_tokens q1) = tokens s1) as ->.
    { apply (floorRat_level _ _ (remainder s1) P); [exact Ht1|lia..]. }
    eexists _, _, s1, _. split; [reflexivity|]. split; [reflexivity|].
    split; [by split|]. split; [eauto|]. rewrite Hq1, setRat_setRat. eauto.
  - destruct (frac_minus _ _ (Cost r) P ltac:(lia) Ht1) as [_ Htok].
    destruct (frac_minus _ _ (Limit p) P ltac:(lia) Htok) as [Hwait _].
    rewrite (refillDuration_agrees (Limit p - (tokens s1 - Cost r)) (remainder s1));
      [|lia|done|lia|rewrite Hwait; unfold level; f_equiv; lia].
    assert (Reference.floorRat (rs_tokens q1 - inject_Z (Cost r)) = tokens s1 - Cost r) as ->.
    { apply (floorRat_level _ _ (remainder s1) P); [rewrite Htok; unfold level; f_equiv; lia|lia..]. }
    eexists _, _, _, _. split; [reflexivity|]. split; [reflexivity|]. split; [|split].
    + split; [done| |done]. simpl. rewrite Htok. unfold level. simpl. f_equiv. lia.
    + rewrite Er. simpl. eauto.
    + rewrite Hq1, setRat_setRat. eauto.
Qed.
End Bucket.

(** ** Windows *)

(** The two boundary functions agree on every [int64]. *)
Lemma floorBoundary_agrees value size :
  is_i64 value -> Reference.floorBoundary value size = floorBoundary value size.
Proof.
  unfold is_i64. intros Hv. unfold Reference.floorBoundary, floorBoundary.
  assert ((Z.shiftr value 63 =? -1) = (value <? 0)) as ->.
  { rewrite Z.shiftr_div_pow2 by lia. change (2 ^ 63) with two63.
    destruct (Z.ltb_spec value 0), (Z.eqb_spec (value / two63) (-1)); try done; zlia. }
  destruct (Z.rem value size =? 0); simpl; [by rewrite andb_false_r|]. by rewrite andb_true_r.
Qed.

Lemma i64_i64 a b : (i64 a) +i b = i64 (a + b).
Proof. unfold i64. f_equal. replace ((a + two63) mod two64 - two63 + b + two63) with ((a + two63) mod two64 + b) by lia.
  rewrite Zplus_mod_idemp_l. f_equal. lia. Qed.

Lemma widths_equal p : (period p +i 15) ÷ 16 = segmentSize p.
Proof.
  unfold segmentSize, slidingSegments. f_equal. rewrite <- Z.add_opp_r, i64_i64. f_equal. lia.
Qed.

(** A charge to a window, and the fields it leaves alone. *)
Definition rewound (s s' : state) : Prop := exists w u segs,
  s' = setWindow (setSegments s segs) w u.
Definition rewoundR (q q' : referenceState) : Prop := exists w u segs,
  q' = setReferenceWindow (setReferenceSegments q segs) w u.

Lemma consume_matches s q r reset :
  used s = rs_used q -> windowStart s = rs_window q ->
  let '(d, err, s') := consumeWindow s r reset in
  exists q', Reference.referenceConsume q r reset = (d, err, q') /\
    s' = setWindow s (windowStart s) (used s') /\ q' = setReferenceWindow q (rs_window q) (used s').
Proof.
  intros Hu Hw. unfold consumeWindow, Reference.referenceConsume, nonnegative. rewrite Hu.
  destruct (_ <? Cost r); simpl; rewrite ?Hu; (eexists; split; [reflexivity|]); split.
  all: destruct s, q; simpl in *; by subst.
Qed.

Lemma referenceFixed_agrees s q r :
  used s = rs_used q -> windowStart s = rs_window q ->
  let '(d, err, s') := admitFixed s r in
  exists q', Reference.referenceFixed q r = (d, err, q') /\ used s' = rs_used q' /\
    windowStart s' = rs_window q' /\ rewound s s' /\ rewoundR q q' /\
    segments s' = segments s /\ rs_segments q' = rs_segments q.
Proof.
  intros Hu Hw. unfold admitFixed, Reference.referenceFixed.
  rewrite floorBoundary_agrees by apply i64_range. rewrite Hw.
  set (start := floorBoundary _ _). set (s0 := if negb _ then _ else s). set (q0 := if negb _ then _ else q).
  assert (used s0 = rs_used q0 /\ windowStart s0 = rs_window q0 /\ rewound s s0 /\ rewoundR q q0 /\
          segments s0 = segments s /\ rs_segments q0 = rs_segments q)
    as (H1 & H2 & (w & u & g & H3) & (w' & u' & g' & H4) & H5 & H6).
  { unfold s0, q0. destruct (negb _); split_and!; try done.
    all: try (by eexists _, _, (segments s)); try (by eexists _, _, (rs_segments q)).
    - exists (windowStart s), (used s), (segments s). by destruct s.
    - exists (rs_window q), (rs_used q), (rs_segments q). by destruct q. }
  pose proof (consume_matches s0 q0 r (ofUnixNano (start +i period (req_Policy r))) H1 H2) as Hc.
  destruct (consumeWindow s0 r _) as [[d err] s']. destruct Hc as (q' & -> & E1 & E2). exists q'.
  rewrite E1, E2. simpl. rewrite H3, H4 in *. simpl in *. split_and!; try done; by eexists _, _, _.
Qed.

Definition twin_segment (g : segment) : referenceSegment := mkReferenceSegment (seg_index g) (seg_used g).

(** A charged segment is not number 0, which the reference model reads as none. *)
Definition off_zero (g : segment) : Prop :=
  0 <= seg_used g /\ (seg_used g <> 0 -> seg_index g <> 0 /\ seg_index g < MaxInt64).

Definition earliest_twin (e e' : Z) : Prop :=
  e = MaxInt64 /\ e' = 0 \/ e' = e /\ e <> 0 /\ e < MaxInt64.

Lemma scan_agrees o segs : forall use e e',
  Forall off_zero segs -> earliest_twin e e' ->
  let '(segs', use', e2) := scanSegments o segs use e in
  exists e2', Reference.scanReference o (map twin_segment segs) use e' = (map twin_segment segs', use', e2') /\
    Forall off_zero segs' /\ earliest_twin e2 e2'.
Proof.
  induction segs as [|g segs IH]; intros use e e' Hf He; simpl; [by exists e'|].
  apply Forall_cons in Hf as [[Hu Hg] Hf]. destruct (seg_index g <=? o).
  - specialize (IH use e e' Hf He). destruct (scanSegments o segs use e) as [[segs' use'] e2].
    destruct IH as (e2' & -> & Hf' & He'). exists e2'. split_and!; try done. constructor; [|done].
    split; simpl; [lia|done].
  - set (e1 := if negb _ then _ else e). set (e1' := if _ && _ then _ else e').
    assert (earliest_twin e1 e1') as He1.
    { unfold e1, e1', earliest_twin in *. destruct (Z.eqb_spec (seg_used g) 0) as [->|Hne]; simpl; [done|].
      rewrite (proj2 (Z.ltb_lt 0 (seg_used g))) by lia. simpl.
      destruct (Z.eqb_spec e' 0); simpl; [|destruct (Z.ltb_spec (seg_index g) e')]; destruct (Hg Hne); lia. }
    specialize (IH (use +u seg_used g) e1 e1' Hf He1).
    destruct (scanSegments o segs (use +u seg_used g) e1) as [[segs' use'] e2].
    destruct IH as (e2' & -> & Hf' & He'). exists e2'. split_and!; try done. by constructor.
Qed.

Lemma slot_agrees index :
  Z.to_nat (if Z.rem index 16 <? 0 then Z.rem index 16 + 16 else Z.rem index 16) =
  Z.to_nat (positiveMod index slidingSegments).
Proof.
  unfold slidingSegments. rewrite positiveMod_mod. f_equal. destruct (Z.ltb_spec (Z.rem index 16) 0); qlia.
Qed.

(** The segment an instant is charged to. *)
Definition charged_segment (p : Policy) (t : Time) : Z :=
  floorBoundary (UnixNano t) (segmentSize p) ÷ segmentSize p.

Lemma charged_segment_bound p t :
  wf_policy p -> algorithm p = SlidingWindow -> charged_segment p t < MaxInt64.
Proof.
  intros Hwf Hal. destruct (sliding_policy p Hwf Hal) as (Hp & _ & _ & Hs & H16 & _).
  unfold charged_segment. set (v := floorBoundary _ _).
  assert (is_i64 v) as Hv by (unfold v, floorBoundary; case_match; apply i64_range). unfold is_i64 in Hv.
  assert (2 <= segmentSize p) by lia.
  destruct (Z.lt_ge_cases v 0).
  - assert (v ÷ segmentSize p <= 0) by (apply Z.quot_le_upper_bound; lia). lia.
  - rewrite quot_nonneg by lia. apply Z.div_lt_upper_bound; nia.
Qed.

(** Claiming the slot of the present segment. *)
Definition claimed (j : nat) (index : Z) (segs : list segment) : list segment :=
  match segs !! j with
  | Some g => if negb (seg_index g =? index) then <[j := mkSegment index 0]> segs else segs
  | None => segs
  end.

Lemma claim_agrees j index segs :
  Forall off_zero segs ->
  match map twin_segment segs !! j with
  | Some g => if negb (rg_index g =? index) then <[j := mkReferenceSegment index 0]> (map twin_segment segs)
              else map twin_segment segs
  | None => map twin_segment segs
  end = map twin_segment (claimed j index segs) /\
  Forall off_zero (claimed j index segs) /\
  (forall g, claimed j index segs !! j = Some g -> seg_index g = index).
Proof.
  intros Hoff. unfold claimed. rewrite list_lookup_fmap. destruct (segs !! j) as [g|] eqn:Hj; simpl;
    [|split_and!; try done; by rewrite Hj].
  destruct (Z.eqb_spec (seg_index g) index); simpl.
  { split_and!; try done. rewrite Hj. by intros g' [= <-]. }
  rewrite (list_fmap_insert twin_segment), list_lookup_insert_eq by (by eapply lookup_lt_Some).
  split_and!; [done| |by intros g' [= <-]]. apply Forall_insert; [done|]. split; simpl; [lia|done].
Qed.

Lemma referenceSliding_agrees s q r :
  let p := req_Policy r in
  wf_policy p -> algorithm p = SlidingWindow -> charged_segment p (Now r) <> 0 ->
  windowStart s = rs_window q ->
  rs_segments q = map twin_segment (segments s) -> Forall off_zero (segments s) ->
  let '(d, err, s') := admitSliding s r in
  exists q', Reference.referenceSliding q r = (d, err, q') /\
    rs_segments q' = map twin_segment (segments s') /\ Forall off_zero (segments s') /\
    windowStart s' = rs_window q' /\ rewound s s' /\ rewoundR q q'.
Proof.
  intros p Hwf Hal Hne Hw Hsegs Hoff. pose proof (charged_segment_bound p (Now r) Hwf Hal) as Hlt.
  unfold admitSliding, Reference.referenceSliding. fold p.
  rewrite widths_equal, !floorBoundary_agrees by apply i64_range. fold (charged_segment p (Now r)).
  set (index := charged_segment p (Now r)) in *. rewrite slot_agrees. set (j := Z.to_nat _).
  set (o := floorBoundary _ _ ÷ _). rewrite Hsegs.
  pose proof (scan_agrees o (segments s) 0 MaxInt64 0 Hoff (or_introl (conj eq_refl eq_refl))) as Hscan.
  destruct (scanSegments o (segments s) 0 MaxInt64) as [[segs use] e]. destruct Hscan as (e' & -> & Hoff' & He).
  assert ((if negb (e' =? 0) then Add (ofUnixNano ((e' +i 1) *i segmentSize p)) (period p)
           else Add (Now r) (period p)) =
          (if negb (e =? MaxInt64) then Add (ofUnixNano ((e +i 1) *i segmentSize p)) (period p)
           else Add (Now r) (period p))) as ->.
  { destruct He as [[-> ->]|(-> & Hz & Hm)]; [done|].
    rewrite (proj2 (Z.eqb_neq _ _) Hz), (proj2 (Z.eqb_neq e MaxInt64)) by lia. done. }
  destruct (claim_agrees j index segs Hoff') as (Eclaim & Hoff1 & Hslot). rewrite Eclaim. clear Eclaim.
  change (match segs !! j with Some g => _ | None => _ end) with (claimed j index segs).
  set (segs1 := claimed j index segs) in *.
  match goal with |- context [consumeWindow ?a ?b ?c] => set (s1 := a); set (reset := c) end.
  set (q1 := setReferenceWindow _ _ _).
  pose proof (consume_matches s1 q1 r reset eq_refl Hw) as Hc.
  destruct (consumeWindow s1 r reset) as [[d err] s']. destruct Hc as (q' & -> & E1 & E2). rewrite E1, E2. simpl.
  rewrite list_lookup_fmap. destruct err as [err|].
  { destruct (segs1 !! j); simpl; eexists; (split; [reflexivity|]); split_and!; try done; by eexists _, _, _. }
  destruct (segs1 !! j) as [g|] eqn:Hj; simpl; (eexists; split; [reflexivity|]); split_and!; try done;
    try (by eexists _, _, _).
  - simpl. by rewrite (list_fmap_insert twin_segment).
  - simpl. apply Forall_insert; [done|]. split; simpl; [apply u64_range|]. by rewrite (Hslot g eq_refl).
Qed.

(** ** Leases *)

Definition twin_lease (l : leaseState) : referenceLease := mkReferenceLease (ls_cost l) (ls_expiresAt l).

(** A lease without the name of the backend that issued it. *)
Definition unbranded (l : Lease) : Lease :=
  mkLease (lease_ID l) (lease_Key l) (lease_PolicyID l) (lease_PolicyRevision l) (lease_Cost l) (ExpiresAt l)
          EmptyString.

Lemma live_twin now (m : leaseMap) :
  Reference.liveReference now (twin_lease <$> m) = twin_lease <$> liveLeases now m.
Proof.
  unfold Reference.liveReference, liveLeases. apply map_eq. intros i.
  rewrite lookup_fmap, !map_lookup_filter, lookup_fmap. by destruct (m !! i); simpl; repeat case_guard.
Qed.

Lemma used_twin (m : leaseMap) : Reference.usedReference (twin_lease <$> m) = usedBy m.
Proof. unfold Reference.usedReference, usedBy. by rewrite map_fold_fmap. Qed.

Lemma earliest_lease_twin (m : leaseMap) : Reference.resetReference (twin_lease <$> m) = earliestLease m.
Proof. unfold Reference.resetReference, earliestLease. by rewrite map_fold_fmap. Qed.

Definition released (s s' : state) : Prop := exists t ls, s' = setLeases (setLastSeen s t) ls.
Definition releasedR (q q' : referenceState) : Prop := exists t ls,
  q' = setReferenceLeases (setObserved q t) ls.

Lemma acquire_agrees s q r :
  lastSeen s = rs_observed q -> rs_leases q = twin_lease <$> leasesOf s ->
  let '(l, d, err, s') := acquireState s r in
  exists l' q', Reference.acquireReference r q = (l', d, err, q') /\ unbranded l' = unbranded l /\
    lastSeen s' = rs_observed q' /\ rs_leases q' = twin_lease <$> leasesOf s' /\
    lastSeen s' = Now (clampNow s (lr_Request r)) /\ released s s' /\ releasedR q q'.
Proof.
  intros Hs Hl. unfold acquireState, Reference.acquireReference, nonnegative.
  assert (withNow (lr_Request r) (Reference.clampTime (Now (lr_Request r)) (rs_observed q)) =
          clampNow s (lr_Request r)) as ->.
  { unfold clampNow, Reference.clampTime. rewrite Hs. case_match; [done|]. by destruct (lr_Request r). }
  set (r' := clampNow s (lr_Request r)).
  change (leasesOf (setLastSeen s (Now r'))) with (leasesOf s). simpl. rewrite Hl, live_twin, used_twin.
  set (live := liveLeases (Now r') (leasesOf s)). rewrite lookup_fmap, earliest_lease_twin.
  destruct (live !! LeaseID r) as [existing|] eqn:He; simpl.
  - destruct (ls_cost existing =? Cost r'); simpl; eexists _, _; (split; [reflexivity|]);
      split_and!; try done; by eexists _, _.
  - destruct (_ <? Cost r'); simpl; eexists _, _; (split; [reflexivity|]); split_and!; try done;
      try (by eexists _, _). unfold leasesOf. simpl. by rewrite fmap_insert.
Qed.

(** ** Histories of strict operations *)

Inductive operation :=
| OpAdmit (r : Request)
| OpAcquire (r : LeaseRequest)
| OpRelease (l : Lease).

Inductive response :=
| Decided (d : Decision) (err : option error)
| Acquired (l : Lease) (d : Decision) (err : option error)
| Released (err : option error).

Definition truncatedLease (r : LeaseRequest) : LeaseRequest :=
  mkLeaseRequest (truncateNow (lr_Request r)) (LeaseID r).

(** What [AdmitStrict], [AcquireStrict] and [ReleaseStrict] of each backend do
    with a valid request once they hold the lock. *)
Definition memoryStep (op : operation) (target : shard) : response * shard :=
  match op with
  | OpAdmit r =>
      let r := truncateNow r in
      let '(d, err, target) := admitStrictLocked (stateKey r) r target in (Decided d err, target)
  | OpAcquire r =>
      let r := truncatedLease r in
      let '(l, d, err, target) := acquireStrictLocked (stateKey (lr_Request r)) r target in
      (Acquired l d err, target)
  | OpRelease l => let '(err, target) := releaseLocked target l in (Released err, target)
  end.

Definition referenceStep (op : operation) : M Reference response :=
  match op with
  | OpAdmit r =>
      out ← Reference.admitStrictLocked (Reference.truncated r);
      let '(d, err) := out : Decision * option error in mret (Decided d err)
  | OpAcquire r =>
      out ← Reference.acquireStrictLocked (mkLeaseRequest (Reference.truncated (lr_Request r)) (LeaseID r));
      let '(l, d, err) := out : Lease * Decision * option error in mret (Acquired l d err)
  | OpRelease l => err ← Reference.releaseLocked l; mret (Released err)
  end.

Fixpoint runMemory (ops : list operation) (target : shard) : list response :=
  match ops with
  | [] => []
  | op :: rest => let '(out, target) := memoryStep op target in out :: runMemory rest target
  end.

Fixpoint runReference (ops : list operation) : M Reference (list response) :=
  match ops with
  | [] => mret []
  | op :: rest => out ← referenceStep op; outs ← runReference rest; mret (out :: outs)
  end.

(** Responses are compared up to the name of the backend in a lease. *)
Definition anonymous (out : response) : response :=
  match out with Acquired l d err => Acquired (unbranded l) d err | _ => out end.

(** ** The simulation of one key *)

Section Twin.
(** The policy in force for a key at each revision. *)
Context (catalog : string -> string -> Policy).
Hypothesis cat_wf : forall key v, wf_policy (catalog key v).
Hypothesis cat_modest : forall key v, algorithm (catalog key v) = TokenBucket -> modest (catalog key v).

(** Sliding windows are not charged in the first segment after the epoch. *)
Definition counts (t : Time) : Prop := forall key v,
  algorithm (catalog key v) = SlidingWindow -> charged_segment (catalog key v) t <> 0.

Record twin (key : string) (s : state) (q : referenceState) : Prop := {
  tw_algorithm : rs_algorithm q = st_algorithm s;
  tw_revision : rs_revision q = st_revision s;
  tw_policy : algorithm (catalog key (st_revision s)) = st_algorithm s;
  tw_observed : rs_observed q = lastSeen s;
  tw_counts : counts (lastSeen s) /\ aligned (lastSeen s);
  tw_period : rs_period q = windowPeriod s;
  tw_token : st_algorithm s = TokenBucket -> same_bucket (catalog key (st_revision s)) s q;
  tw_window : windowStart s = rs_window q /\ (st_algorithm s = FixedWindow -> used s = rs_used q);
  tw_segments : rs_segments q = map twin_segment (segments s) /\ Forall off_zero (segments s);
  tw_leases : rs_leases q = twin_lease <$> leasesOf s
}.

(** The requests compared: policies of the catalog, at whole microseconds. *)
Record compared (r : Request) : Prop := {
  cm_policy : req_Policy r = catalog (stateKey r) (revision (req_Policy r));
  cm_cost : 1 <= Cost r <= maxCost (req_Policy r);
  cm_aligned : aligned (Now r);
  cm_counts : counts (Now r)
}.

Lemma limits_wf key v :
  let p := catalog key v in 0 <= Limit p < two64 /\ (algorithm p = TokenBucket -> 1 <= period_micros p).
Proof.
  intros p. pose proof (Limit_wf p (cat_wf key v)) as HL. split.
  - rewrite HL. destruct (cat_wf key v). unfold p. lia.
  - intros Ha. by destruct (token_policy p (cat_wf key v) Ha) as (_ & _ & _ & _ & ? & _).
Qed.

Lemma twin_new r : compared r -> twin (stateKey r) (newState r) (newReferenceState r).
Proof.
  intros [Hp Hc Ha Hn]. split; simpl; try done; [by rewrite <- Hp| |].
  - intros Hal. rewrite <- Hp. rewrite Hp in Hal.
    destruct (limits_wf (stateKey r) (revision (req_Policy r))) as [HL HP]. rewrite <- Hp in HL, HP, Hal.
    specialize (HP Hal). split; [split; simpl; try done; lia| |done]. simpl. unfold level. simpl.
    rewrite Z.add_0_r. apply frac_inject. lia.
  - split; [done|]. apply (Forall_replicate _ 16 zeroSegment). split; simpl; [lia|done].
Qed.

(** The state an admission starts from after a change of revision. *)
Definition carried (s : state) (r : Request) : state :=
  if negb (bool_decide (st_revision s = revision (req_Policy r))) then carryRevision s r else s.

Lemma carried_seen s r :
  lastSeen (carried s r) = lastSeen s /\ st_algorithm (carried s r) = st_algorithm s /\
  st_revision (carried s r) = revision (req_Policy r).
Proof. unfold carried. case_bool_decide as E; simpl; [by rewrite E|done]. Qed.

(** A change of revision keeps the whole tokens, under the new limit. *)
Lemma carried_bucket p p' s q r now :
  same_bucket p s q -> st_algorithm s = TokenBucket -> 1 <= period_micros p -> 0 <= Limit p < two64 ->
  1 <= period_micros p' -> 0 <= Limit p' < two64 -> req_Policy r = p' -> aligned (Now r) -> aligned now ->
  instant now = Z.max (instant (lastSeen s)) (instant (Now r)) ->
  same_bucket p' (setLastSeen (carryRevision s r) now)
    (setObserved (setRat q
       (inject_Z (floorRat (if Limit p' * period_micros p <? level p s then inject_Z (Limit p') else rs_tokens q)))
       (Reference.clampTime (Now r) (rs_last q))) now).
Proof.
  intros [Hwf Hlev Hlast] Htok HP HL HP' HL' Hp Ha Hnow Emax. pose proof Hwf as [B1 B2 B3 [B4 B4'] B5].
  assert (floorRat (if Limit p' * period_micros p <? level p s then inject_Z (Limit p') else rs_tokens q) =
          Z.min (tokens s) (Limit p')) as ->.
  { unfold level in *. destruct (Z.ltb_spec (Limit p' * period_micros p) (tokens s * period_micros p + remainder s)).
    - rewrite Z.min_r by nia. apply (floorRat_level _ _ 0 1); [rewrite Z.add_0_r; apply frac_inject|..]; lia.
    - rewrite Z.min_l by nia. apply (floorRat_level _ _ (remainder s) (period_micros p)); [done|lia..]. }
  assert (aligned (if After (Now r) (lastRefill s) then Now r else lastRefill s) /\
    instant (if After (Now r) (lastRefill s) then Now r else lastRefill s) =
    Z.max (instant (lastRefill s)) (instant (Now r))) as [A1 A2].
  { unfold After. destruct (Z.ltb_spec (instant (lastRefill s)) (instant (Now r))); split; try done; lia. }
  unfold carryRevision. rewrite Hp, bool_decide_eq_true_2 by done. split; simpl.
  - split; simpl; try done; lia.
  - unfold level. simpl. rewrite Z.add_0_r. apply frac_inject. lia.
  - rewrite A2. unfold Reference.clampTime, Before.
    destruct (Z.ltb_spec (instant (Now r)) (instant (rs_last q))); lia.
Qed.

(** The strict check accepts the level and carries it like the production code. *)
Lemma strictBucket_agrees key s q r now :
  twin key s q -> compared r -> stateKey r = key -> algorithm (req_Policy r) = st_algorithm s ->
  st_algorithm s = TokenBucket -> aligned now ->
  instant now = Z.max (instant (lastSeen s)) (instant (Now r)) ->
  exists q1, strictBucket r q = Some q1 /\ (exists tok t, q1 = setRat q tok t) /\
    same_bucket (req_Policy r) (setLastSeen (carried s r) now) (setObserved q1 now).
Proof.
  intros Ht [Hp Hc Ha _] Hk Hal Htok Hnow Emax. pose proof (tw_token _ _ _ Ht Htok) as [Hwf Hlev Hlast].
  set (p := catalog key (st_revision s)) in *.
  assert (algorithm p = TokenBucket) as Hpal by (unfold p; by rewrite (tw_policy _ _ _ Ht)).
  destruct (limits_wf key (st_revision s)) as [HL HP]. fold p in HL, HP. specialize (HP Hpal).
  pose proof (wf_level p (cat_wf _ _) Hpal s Hwf) as Hlv. pose proof Hwf as [B1 B2 B3 [B4 B4'] B5].
  unfold strictBucket. rewrite (frac_sign _ _ _ Hlev) by lia.
  destruct (Z.ltb_spec (Z.sgn (level p s)) 0) as [E|_]; [destruct (Z.sgn_spec (level p s)); lia|]. simpl.
  rewrite (tw_revision _ _ _ Ht), (frac_exceeds _ _ _ (Limit (req_Policy r)) Hlev) by lia.
  unfold carried. destruct (bool_decide_reflect (st_revision s = revision (req_Policy r))) as [E|E]; simpl.
  - assert (req_Policy r = p) as -> by (unfold p; rewrite E, <- Hk; apply Hp). unfold full_level in Hlv.
    destruct (Z.ltb_spec (Limit p * period_micros p) (level p s)); [lia|]. exists q. split_and!; [done| |].
    + exists (rs_tokens q), (rs_last q). by destruct q.
    + split; [|done|done]. split; simpl; try done. lia.
  - eexists. split_and!; [reflexivity|by eexists _, _|].
    destruct (limits_wf (stateKey r) (revision (req_Policy r))) as [HL' HP']. rewrite <- Hp in HL', HP'.
    specialize (HP' ltac:(congruence)).
    apply (carried_bucket p (req_Policy r)); try done; congruence.
Qed.

Lemma clamp_agrees key s q r :
  twin key s q -> withNow r (Reference.clampTime (Now r) (rs_observed q)) = clampNow s r.
Proof.
  intros Ht. unfold clampNow, Reference.clampTime. rewrite (tw_observed _ _ _ Ht).
  case_match; [done|]. by destruct r.
Qed.

Lemma clamped_compared key s q r :
  twin key s q -> compared r -> let now := Now (clampNow s r) in counts now /\ aligned now.
Proof.
  intros Ht [_ _ Ha Hn] now. destruct (tw_counts _ _ _ Ht). unfold now, clampNow. by case_match.
Qed.

(** The strict preamble of both models: revision, clamp and observation. *)
Lemma twin_prepare key s q r :
  twin key s q -> compared r -> stateKey r = key -> algorithm (req_Policy r) = st_algorithm s ->
  let now := Now (clampNow s r) in
  exists q1, (if bool_decide (rs_algorithm q = TokenBucket) then strictBucket r q else Some q) = Some q1 /\
    rs_observed q1 = rs_observed q /\
    twin key (setLastSeen (carried s r) now)
         (setObserved (setReferenceRevision q1 (revision (req_Policy r))) now).
Proof.
  intros Ht Hr Hk Hal now. destruct (clamped_compared key s q r Ht Hr) as [Hcnt Hali]. fold now in Hcnt, Hali.
  destruct (clampNow_facts s r) as (_ & _ & _ & Emax). fold now in Emax.
  destruct (carried_seen s r) as (_ & Ca & Cr). pose proof (cm_policy _ Hr) as Hp. rewrite Hk in Hp.
  assert (exists q1, (if bool_decide (rs_algorithm q = TokenBucket) then strictBucket r q else Some q) = Some q1 /\
    (exists tok t, q1 = setRat q tok t) /\
    (st_algorithm s = TokenBucket ->
     same_bucket (req_Policy r) (setLastSeen (carried s r) now) (setObserved q1 now)))
    as (q1 & E1 & (tok & t & ->) & Hb).
  { rewrite (tw_algorithm _ _ _ Ht). case_bool_decide as E.
    - destruct (strictBucket_agrees key s q r now Ht Hr Hk Hal E Hali Emax) as (q1 & -> & Hq & Hb). by exists q1.
    - exists q. split_and!; try done. exists (rs_tokens q), (rs_last q). by destruct q. }
  eexists. split; [exact E1|]. split; [done|].
  assert (forall A (f : state -> A), (forall x r0 t0 u v, f (setBucket (setRevision x r0) t0 u v) = f x) ->
    f (carried s r) = f s) as Hkeep by (intros A f Hf; unfold carried; destruct (negb _); [apply Hf|done]).
  destruct Ht as [T1 T2 T3 T4 T5 T6 T7 T8 T9 T10].
  split; simpl; rewrite ?Ca, ?Cr, <- ?Hp; try done.
  - by rewrite (Hkeep _ windowPeriod).
  - intros E. destruct (Hb E) as [B1 B2 B3]. by split.
  - by rewrite (Hkeep _ windowStart), (Hkeep _ used).
  - by rewrite (Hkeep _ segments).
  - unfold leasesOf. simpl. rewrite (Hkeep _ leases) by done. exact T10.
Qed.

(** Rebuilding the relation after an algorithm has run. *)
Lemma twin_window key s q s' q' :
  twin key s q -> rewound s s' -> rewoundR q q' -> st_algorithm s <> TokenBucket ->
  windowStart s' = rs_window q' -> (st_algorithm s = FixedWindow -> used s' = rs_used q') ->
  rs_segments q' = map twin_segment (segments s') /\ Forall off_zero (segments s') -> twin key s' q'.
Proof.
  intros [T1 T2 T3 T4 T5 T6 T7 T8 T9 T10] (w & u & g & ->) (w' & u' & g' & ->) Hne Hw Hu Hseg.
  by split; simpl in *.
Qed.

Lemma rewound_segments s q s' q' :
  rs_segments q = map twin_segment (segments s) /\ Forall off_zero (segments s) ->
  segments s' = segments s -> rs_segments q' = rs_segments q ->
  rs_segments q' = map twin_segment (segments s') /\ Forall off_zero (segments s').
Proof. by intros ? -> ->. Qed.

(** One admission at the observed time. *)
Lemma twin_present key s q r :
  twin key s q -> req_Policy r = catalog key (st_revision s) -> windowed (algorithm (req_Policy r)) ->
  1 <= Cost r <= maxCost (req_Policy r) -> lastSeen s = Now r ->
  let '(d, err, s') := admitState s r in
  exists q', Reference.referenceSwitch r q = (Ret (d, err), q') /\ twin key s' q'.
Proof.
  intros Ht Hp Hw Hc Hseen. destruct (tw_counts _ _ _ Ht) as [Hcnt Hali].
  destruct (admitState_present s r Hseen) as [Ecl Ese].
  pose proof (tw_policy _ _ _ Ht) as Halg. rewrite <- Hp in Halg.
  assert (wf_policy (req_Policy r)) as Hwf by (rewrite Hp; apply cat_wf).
  unfold admitState, Reference.referenceSwitch. rewrite Ecl, Ese.
  pose proof Ht as [T1 T2 T3 T4 T5 T6 T7 [T8 T8'] T9 T10].
  destruct Hw as [Hal|[Hal|Hal]]; rewrite Hal; eval_algorithms; cbn iota.
  - pose proof (T7 ltac:(congruence)) as Hb. rewrite <- Hp in Hb.
    destruct (referenceToken_agrees (req_Policy r) Hwf Hal s q r) as
      (d & err & s' & q' & -> & -> & Hb' & (x & y & z & ->) & (x' & z' & ->));
      [rewrite Hp in *; by apply cat_modest|done| |done|].
    { split_and!; try done; [lia..|]. by rewrite <- Hseen. }
    eexists. split; [reflexivity|]. split; simpl; try done. intros _. by rewrite <- Hp.
  - pose proof (referenceFixed_agrees s q r (T8' ltac:(congruence)) T8) as Hstep.
    destruct (admitFixed s r) as [[d err] s']. destruct Hstep as (q' & E & Hu & Hws & Hs' & Hq' & E1 & E2).
    exists q'. unfold runPure, lift. rewrite E. split; [done|]. apply (twin_window key s q); try done; [by rewrite <- Halg, Hal|].
    by rewrite E1, E2.
  - pose proof (referenceSliding_agrees s q r Hwf Hal) as Hstep.
    destruct (admitSliding s r) as [[d err] s'].
    destruct Hstep as (q' & E & H1 & H2 & Hws & Hs' & Hq'); try done; try apply T9.
    { rewrite Hp in *. rewrite <- Hseen. by apply Hcnt. }
    exists q'. unfold runPure, lift. rewrite E. split; [done|].
    apply (twin_window key s q); try done; by rewrite <- Halg, Hal.
Qed.

(** The whole of [admitLocked] on a state of the right algorithm. *)
Lemma twin_admit key s q r :
  twin key s q -> compared r -> stateKey r = key -> algorithm (req_Policy r) = st_algorithm s ->
  windowed (algorithm (req_Policy r)) ->
  let '(d, err, s') := admitState (carried s r) r in
  exists q1 q', (if bool_decide (rs_algorithm q = TokenBucket) then strictBucket r q else Some q) = Some q1 /\
    Reference.admitReference r (setReferenceRevision q1 (revision (req_Policy r))) = (Ret (d, err), q') /\
    twin key s' q'.
Proof.
  intros Ht Hr Hk Hal Hw. destruct (twin_prepare key s q r Ht Hr Hk Hal) as (q1 & E1 & Eob & Ht1).
  destruct (carried_seen s r) as (Cs & Ca & Cr). destruct (clampNow_facts s r) as (Fp & Fc & _).
  assert (clampNow (carried s r) r = clampNow s r) as Ecl by (unfold clampNow; by rewrite Cs).
  assert (forall x y, setLastSeen (setLastSeen x y) y = setLastSeen x y) as Eidem by done.
  pose proof (twin_present key _ _ (clampNow s r) Ht1) as Hstep. rewrite Fp, Fc in Hstep. simpl in Hstep.
  assert (admitState (carried s r) r = admitState (setLastSeen (carried s r) (Now (clampNow s r))) (clampNow s r)) as ->.
  { unfold admitState. rewrite Ecl. simpl.
    destruct (admitState_present (setLastSeen (carried s r) (Now (clampNow s r))) (clampNow s r) eq_refl) as [-> _].
    by rewrite Eidem. }
  rewrite Cr in Hstep. pose proof (cm_policy _ Hr) as Hp. rewrite Hk in Hp.
  specialize (Hstep Hp Hw (cm_cost _ Hr) eq_refl).
  destruct (admitState _ _) as [[d err] s']. destruct Hstep as (q' & E & Ht'). exists q1, q'. split_and!; try done.
  unfold Reference.admitReference. rewrite bind_unfold. cbn [get]. simpl rs_observed. rewrite Eob.
  rewrite (clamp_agrees key s q r Ht). rewrite bind_unfold. exact E.
Qed.

(** *** A shard and a reference model with the same keys *)

Definition twins (target : shard) (ref : Reference) : Prop := exists m,
  rf_states ref = Some m /\ forall key, option_Forall2 (twin key) (states target !! key) (m !! key).

(** The key is present, or there is room for it. *)
Definition room (target : shard) (key : string) : Prop :=
  is_Some (states target !! key) \/ Z.of_nat (size (states target)) < maxKeys target.

(** At most one key was added. *)
Definition grown (target target' : shard) : Prop :=
  maxKeys target' = maxKeys target /\ (size (states target') <= S (size (states target)))%nat.

Lemma twins_write target ref m key s q :
  twins target ref -> rf_states ref = Some m -> twin key s q ->
  twins (setStates target (<[key := s]> (states target))) (mkReference (Some (<[key := q]> m))).
Proof.
  intros (m' & E & Hall) Em Ht. rewrite Em in E. injection E as <-. eexists. split; [reflexivity|]. intros k. simpl.
  destruct (decide (k = key)) as [->|Hne]; [rewrite !lookup_insert_eq; by constructor|].
  rewrite !lookup_insert_ne by done. apply Hall.
Qed.

Lemma grown_write target key s :
  grown target (setStates target (<[key := s]> (states target))).
Proof.
  split; [done|]. simpl. rewrite map_size_insert. case_match; unfold Datatypes.id; lia.
Qed.

(** What a request finds at its key, on both sides. *)
Lemma twins_found target ref r m :
  twins target ref -> rf_states ref = Some m -> compared r ->
  let s := default (newState r) (states target !! stateKey r) in
  let q := default (newReferenceState r) (m !! stateKey r) in
  twin (stateKey r) s q.
Proof.
  intros (m' & E & Hall) Em Hr. rewrite Em in E. injection E as <-.
  destruct (Hall (stateKey r)); simpl; [done|]. by apply twin_new.
Qed.

Lemma getOrCreate_found target r :
  room target (stateKey r) ->
  let s := carried (default (newState r) (states target !! stateKey r)) r in
  getOrCreate target (stateKey r) r = (Ok s, setStates target (<[stateKey r := s]> (states target))).
Proof.
  intros Hroom. unfold getOrCreate, carried. destruct (states target !! stateKey r) eqn:Hk; simpl; [done|].
  rewrite bool_decide_eq_true_2 by done. simpl.
  destruct Hroom as [[? ?]|Hroom]; [congruence|]. destruct (Z.eqb_spec (Z.of_nat (size (states target))) (maxKeys target)); [lia|done].
Qed.

Lemma wrongAlgorithm_found target r :
  wrongAlgorithm target (stateKey r) r =
  negb (bool_decide (st_algorithm (default (newState r) (states target !! stateKey r)) = algorithm (req_Policy r))).
Proof.
  unfold wrongAlgorithm. destruct (states target !! stateKey r); simpl; [done|]. by rewrite bool_decide_eq_true_2.
Qed.

(** A refused operation writes the found state back. *)
Lemma twins_refused target ref m r :
  twins target ref -> rf_states ref = Some m -> is_Some (states target !! stateKey r) ->
  twins target (mkReference (Some (<[stateKey r := default (newReferenceState r) (m !! stateKey r)]> m))).
Proof.
  intros (m' & E & Hall) Em [s Hs]. rewrite Em in E. injection E as <-. eexists. split; [reflexivity|].
  intros k. pose proof (Hall (stateKey r)) as Hk. rewrite Hs in Hk. inversion Hk as [? q Ht E1 E2|]; subst.
  simpl. rewrite insert_id by done. apply Hall.
Qed.

Lemma existing_of_wrong target r :
  wrongAlgorithm target (stateKey r) r = true -> is_Some (states target !! stateKey r).
Proof. unfold wrongAlgorithm. by destruct (states target !! stateKey r). Qed.

Lemma admitLocked_agrees target ref r :
  twins target ref -> compared r -> windowed (algorithm (req_Policy r)) -> room target (stateKey r) ->
  let '(d, err, target') := admitLocked target (stateKey r) r in
  exists ref', Reference.admitLocked r true ref = (Ret (d, err), ref') /\ twins target' ref' /\
    grown target target'.
Proof.
  intros Hall Hr Hw Hroom. pose proof Hall as (m & Em & _). pose proof (twins_found target ref r m Hall Em Hr) as Ht.
  unfold admitLocked, Reference.admitLocked, onState. rewrite Em, bind_unfold.
  change (referenceKey r) with (stateKey r). cbn [get]. rewrite (tw_algorithm _ _ _ Ht).
  pose proof (existing_of_wrong target r) as Hex. rewrite wrongAlgorithm_found in *. set (s := default _ (states target !! _)) in *.
  set (q := default _ (m !! _)) in *. cbn [andb].
  destruct (bool_decide_reflect (st_algorithm s = algorithm (req_Policy r))) as [Ea|Ea]; cbn [negb] in *.
  2:{ eexists. split; [reflexivity|]. split; [apply (twins_refused target ref); auto|]. split; [done|lia]. }
  rewrite (getOrCreate_found target r Hroom). fold s.
  pose proof (twin_admit _ s q r Ht Hr eq_refl (eq_sym Ea) Hw) as Hstep.
  destruct (admitState (carried s r) r) as [[d err] s']. destruct Hstep as (q1 & q' & E1 & E2 & Ht').
  rewrite (tw_algorithm _ _ _ Ht) in E1. rewrite E1, bind_unfold. cbn [put]. rewrite E2.
  eexists. split; [reflexivity|]. simpl. rewrite insert_insert_eq. split; [exact (twins_write target ref m _ _ _ Hall Em Ht')|].
  apply (grown_write target).
Qed.

Lemma twin_acquire key s q r :
  twin key s q -> compared (lr_Request r) -> stateKey (lr_Request r) = key ->
  algorithm (req_Policy (lr_Request r)) = st_algorithm s -> st_algorithm s = Concurrency ->
  let '(l, d, err, s') := acquireState (carried s (lr_Request r)) r in
  exists l' q', Reference.acquireReference r (setReferenceRevision q (revision (req_Policy (lr_Request r)))) =
                (l', d, err, q') /\ unbranded l' = unbranded l /\ twin key s' q'.
Proof.
  intros Ht Hr Hk Hal Hcon. set (rq := lr_Request r) in *.
  destruct (twin_prepare key s q rq Ht Hr Hk Hal) as (q1 & E1 & Eob & Ht1).
  rewrite (tw_algorithm _ _ _ Ht), Hcon in E1. injection E1 as <-.
  destruct (carried_seen s rq) as (Cs & Ca & Cr).
  pose proof (acquire_agrees (carried s rq) (setReferenceRevision q (revision (req_Policy rq))) r) as Hstep.
  destruct (acquireState (carried s rq) r) as [[[l d] err] s'].
  pose proof Ht1 as [T1 T2 T3 T4 T5 T6 T7 T8 T9 T10]. simpl in *.
  destruct Hstep as (l' & q' & E & Hl & H1 & H2 & H3 & (t & ls & ->) & (t' & ls' & ->));
    [by rewrite Cs, (tw_observed _ _ _ Ht)|exact T10|].
  exists l', (setReferenceLeases (setObserved (setReferenceRevision q (revision (req_Policy rq))) t') ls').
  split_and!; try done. simpl in *. unfold clampNow in H3. rewrite Cs in H3. fold (clampNow s rq) in H3.
  split; simpl; try done; [by rewrite H3|]. intros E0. rewrite Ca, Hcon in E0. discriminate.
Qed.

Lemma acquireLocked_agrees target ref r :
  twins target ref -> compared (lr_Request r) -> algorithm (req_Policy (lr_Request r)) = Concurrency ->
  room target (stateKey (lr_Request r)) ->
  let '(l, d, err, target') := acquireLocked target (stateKey (lr_Request r)) r in
  exists l' ref', Reference.acquireLocked r true ref = (Ret (l', d, err), ref') /\
    unbranded l' = unbranded l /\ twins target' ref' /\ grown target target'.
Proof.
  intros Hall Hr Hcon Hroom. set (rq := lr_Request r) in *. pose proof Hall as (m & Em & _).
  pose proof (twins_found target ref rq m Hall Em Hr) as Ht.
  unfold acquireLocked, Reference.acquireLocked, onState. fold rq. rewrite Em, bind_unfold.
  change (referenceKey rq) with (stateKey rq). cbn [get]. rewrite (tw_algorithm _ _ _ Ht).
  pose proof (existing_of_wrong target rq) as Hex. rewrite wrongAlgorithm_found in *. rewrite Hcon in *.
  set (s := default _ (states target !! _)) in *. set (q := default _ (m !! _)) in *. cbn [andb].
  destruct (bool_decide_reflect (st_algorithm s = Concurrency)) as [Ea|Ea]; cbn [negb] in *.
  2:{ eexists _, _. split; [reflexivity|]. split; [done|]. split; [apply (twins_refused target ref); auto|].
      split; [done|lia]. }
  rewrite (getOrCreate_found target rq Hroom). fold s.
  pose proof (twin_acquire _ s q r Ht Hr eq_refl) as Hstep. fold rq in Hstep. rewrite Hcon in Hstep.
  specialize (Hstep (eq_sym Ea) Ea). rewrite bind_unfold. cbn [put]. unfold runPure, lift.
  destruct (acquireState (carried s rq) r) as [[[l d] err] s']. destruct Hstep as (l' & q' & -> & Hl & Ht').
  eexists _, _. split; [reflexivity|]. split; [done|]. simpl. rewrite insert_insert_eq.
  split; [exact (twins_write target ref m _ _ _ Hall Em Ht')|]. apply (grown_write target).
Qed.

Lemma releaseLocked_agrees target ref l :
  twins target ref ->
  let '(err, target') := releaseLocked target l in
  exists ref', Reference.releaseLocked l ref = (Ret err, ref') /\ twins target' ref' /\ grown target target'.
Proof.
  intros Hall. pose proof Hall as (m & Em & Hkeys). unfold releaseLocked, Reference.releaseLocked, statesOf.
  rewrite Em. simpl. fold (leaseKey l). pose proof (Hkeys (leaseKey l)) as Hk.
  destruct (states target !! leaseKey l) as [s|] eqn:Hs; inversion Hk as [? q Ht E1 E2|E1 E2]; subst; simpl.
  2:{ eexists. split; [reflexivity|]. split; [done|]. split; [done|lia]. }
  unfold releaseState. rewrite (tw_leases _ _ _ Ht), lookup_fmap.
  assert (twins (setStates target (<[leaseKey l := s]> (states target))) ref) as Hsame.
  { exists m. split; [done|]. intros k. simpl. rewrite insert_id by done. apply Hkeys. }
  pose proof (grown_write target (leaseKey l)) as Hgrow. pose proof Ht as [T1 T2 T3 T4 T5 T6 T7 T8 T9 T10].
  unfold leasesOf in *. destruct (leases s) as [ls|] eqn:El; simpl in *; [|rewrite lookup_empty; by eexists].
  destruct (ls !! lease_ID l) as [x|]; simpl; [|by eexists].
  destruct (_ || _); simpl; [by eexists|]. eexists. split; [reflexivity|]. split; [|done].
  apply (twins_write target ref); try done. split; simpl; try done.
  - intros E. destruct (T7 E) as [[] ? ?]. by split.
  - unfold leasesOf. simpl. by rewrite fmap_delete.
Qed.

(** *** Strict operations *)

Lemma found_agrees target ref key now :
  twins target ref ->
  let found := statesOf ref !! key in
  Reference.laterObserved now found =
    match states target !! key with Some s => later now (lastSeen s) | None => now end /\
  Reference.observedOr now found = match states target !! key with Some s => lastSeen s | None => now end /\
  (forall r, Reference.referencePeriodChanged found r =
     match states target !! key with Some s => periodChanged s r | None => false end).
Proof.
  intros (m & Em & Hkeys) found. unfold found, statesOf. rewrite Em. simpl.
  destruct (Hkeys key) as [s q Ht|]; simpl; [|done].
  unfold later, periodChanged. by rewrite (tw_observed _ _ _ Ht), (tw_period _ _ _ Ht).
Qed.

(** The lease counterparts are compared up to the backend's name. *)
Lemma strictLeaseResult_agrees l l' d err effective :
  unbranded l' = unbranded l ->
  let '(x, y, z) := strictLeaseResult l d err effective in
  exists x', Reference.strictLeaseResult l' d err effective = (x', y, z) /\ unbranded x' = unbranded x.
Proof.
  intros E. unfold strictLeaseResult, Reference.strictLeaseResult.
  assert (Reference.validateStrictLeaseTime l' d effective = validateStrictLeaseTime l d effective) as ->.
  { unfold Reference.validateStrictLeaseTime, validateStrictLeaseTime. unfold unbranded in E. by injection E as _ _ _ _ _ ->. }
  destruct (validateStrictLeaseTime l d effective); by eexists.
Qed.

Definition valid_op (op : operation) : Prop :=
  match op with
  | OpAdmit r => compared (truncateNow r) /\ windowed (algorithm (req_Policy r))
  | OpAcquire r => compared (truncateNow (lr_Request r)) /\ algorithm (req_Policy (lr_Request r)) = Concurrency
  | OpRelease _ => True
  end.

Lemma admitStrict_agrees target ref r :
  twins target ref -> compared r -> windowed (algorithm (req_Policy r)) -> room target (stateKey r) ->
  let '(d, err, target') := admitStrictLocked (stateKey r) r target in
  exists ref', Reference.admitStrictLocked r ref = (Ret (d, err), ref') /\ twins target' ref' /\
    grown target target'.
Proof.
  intros Hall Hr Hw Hroom. destruct (found_agrees target ref (stateKey r) (Now r) Hall) as (H1 & _ & H3).
  unfold admitStrictLocked, Reference.admitStrictLocked. rewrite bind_unfold. unfold lookupState at 1.
  change (referenceKey r) with (stateKey r). rewrite H1, H3.
  assert (grown target target) by (split; [done|lia]).
  destruct (match states target !! stateKey r with Some s => periodChanged s r | None => false end);
    [by eexists|].
  set (effective := match states target !! stateKey r with Some s => later _ _ | None => _ end).
  change (Reference.validateStrictEffectiveRange effective (period (req_Policy r)))
    with (validateStrictEffectiveRange effective (period (req_Policy r))).
  destruct (validateStrictEffectiveRange _ _); [by eexists|].
  pose proof (admitLocked_agrees target ref r Hall Hr Hw Hroom) as Hstep.
  destruct (admitLocked target (stateKey r) r) as [[d err] target']. destruct Hstep as (ref' & E & Hall' & Hg).
  rewrite bind_unfold, E, bind_unfold. unfold lookupState.
  destruct (found_agrees target' ref' (stateKey r) effective Hall') as (_ & H2 & _). rewrite H2.
  change Reference.strictDecisionResult with strictDecisionResult.
  destruct (strictDecisionResult _ _ _). by eexists.
Qed.

Lemma acquireStrict_agrees target ref r :
  let rq := lr_Request r in
  twins target ref -> compared rq -> algorithm (req_Policy rq) = Concurrency -> room target (stateKey rq) ->
  let '(l, d, err, target') := acquireStrictLocked (stateKey rq) r target in
  exists l' ref', Reference.acquireStrictLocked r ref = (Ret (l', d, err), ref') /\
    unbranded l' = unbranded l /\ twins target' ref' /\ grown target target'.
Proof.
  intros rq Hall Hr Hw Hroom. destruct (found_agrees target ref (stateKey rq) (Now rq) Hall) as (H1 & _ & _).
  unfold acquireStrictLocked, Reference.acquireStrictLocked. rewrite bind_unfold. unfold lookupState at 1.
  fold rq. change (referenceKey rq) with (stateKey rq). rewrite H1.
  assert (grown target target) by (split; [done|lia]).
  set (effective := match states target !! stateKey rq with Some s => later _ _ | None => _ end).
  change (Reference.validateStrictEffectiveRange effective (lease (req_Policy rq)))
    with (validateStrictEffectiveRange effective (lease (req_Policy rq))).
  destruct (validateStrictEffectiveRange _ _); [by eexists _, _|].
  pose proof (acquireLocked_agrees target ref r Hall Hr Hw Hroom) as Hstep. fold rq in Hstep.
  destruct (acquireLocked target (stateKey rq) r) as [[[l d] err] target'].
  destruct Hstep as (l' & ref' & E & Hl & Hall' & Hg). rewrite bind_unfold, E, bind_unfold. unfold lookupState.
  destruct (found_agrees target' ref' (stateKey rq) effective Hall') as (_ & H2 & _). rewrite H2.
  match goal with |- context [strictLeaseResult l d err ?t] =>
    pose proof (strictLeaseResult_agrees l l' d err t Hl) as Hres;
    destruct (strictLeaseResult l d err t) as [[x y] z] end.
  destruct Hres as (x' & -> & Hx). by eexists _, _.
Qed.

Lemma step_simulates target ref op :
  twins target ref -> valid_op op -> Z.of_nat (size (states target)) < maxKeys target ->
  let '(out, target') := memoryStep op target in
  exists out' ref', referenceStep op ref = (Ret out', ref') /\ anonymous out' = anonymous out /\
    twins target' ref' /\ grown target target'.
Proof.
  intros Hall Hop Hsize. destruct op as [r|r|l]; simpl; rewrite bind_unfold.
  - destruct Hop as [Hr Hw].
    pose proof (admitStrict_agrees target ref (truncateNow r) Hall Hr Hw (or_intror Hsize)) as Hstep.
    destruct (admitStrictLocked _ _ _) as [[d err] target']. destruct Hstep as (ref' & E & ? & ?).
    change (Reference.truncated r) with (truncateNow r). rewrite E. by eexists _, _.
  - destruct Hop as [Hr Hw].
    pose proof (acquireStrict_agrees target ref (truncatedLease r) Hall Hr Hw (or_intror Hsize)) as Hstep.
    destruct (acquireStrictLocked _ _ _) as [[[l d] err] target']. destruct Hstep as (l' & ref' & E & Hl & ? & ?).
    change (mkLeaseRequest (Reference.truncated (lr_Request r)) (LeaseID r)) with (truncatedLease r).
    rewrite E. eexists _, _. split; [reflexivity|]. simpl. by rewrite Hl.
  - pose proof (releaseLocked_agrees target ref l Hall) as Hstep.
    destruct (releaseLocked target l) as [err target']. destruct Hstep as (ref' & -> & ? & ?). by eexists _, _.
Qed.

Lemma run_simulates ops : forall target ref,
  twins target ref -> Forall valid_op ops ->
  Z.of_nat (size (states target)) + Z.of_nat (length ops) <= maxKeys target ->
  exists outs ref', runReference ops ref = (Ret outs, ref') /\
    map anonymous outs = map anonymous (runMemory ops target).
Proof.
  induction ops as [|op ops IH]; intros target ref Hall Hops Hroom; simpl in *; [by eexists _, _|].
  apply Forall_cons in Hops as [Hop Hops]. pose proof (step_simulates target ref op Hall Hop ltac:(lia)) as Hstep.
  destruct (memoryStep op target) as [out target']. destruct Hstep as (out' & ref1 & E & Hout & Hall' & Hm & Hs).
  destruct (IH target' ref1 Hall' Hops) as (outs & ref' & E' & Hmap); [rewrite Hm; lia|].
  exists (out' :: outs), ref'. rewrite bind_unfold, E, bind_unfold, E'. split; [done|]. simpl. by rewrite Hout, Hmap.
Qed.

(** C17: The in-memory backend implements the reference model.  On histories of
    strict admissions, acquisitions and releases, over many keys, algorithms,
    policy revisions and clock movements, an empty shard and the reference model
    with its rational bucket return the same responses: the same decisions and
    errors field by field, and the same leases up to the name of the backend.  The
    reference model does not panic.  The histories are those whose requests carry
    the valid policy that the catalog has for their key and revision, where the
    shard has room for as many keys as there are operations, where no token policy
    is so fast that a refill can leave [uint64] ([cat_modest]), and where no sliding
    window is charged in the segment that begins at the Unix epoch ([counts]). *)
Theorem memory_implements_reference ops target :
  states target = ∅ -> Forall valid_op ops -> Z.of_nat (length ops) <= maxKeys target ->
  exists outs ref', runReference ops NewReference = (Ret outs, ref') /\
    map anonymous outs = map anonymous (runMemory ops target).
Proof.
  intros Hempty Hops Hroom. apply run_simulates; try done.
  - exists ∅. split; [done|]. intros key. rewrite Hempty, !lookup_empty. constructor.
  - by rewrite Hempty, map_size_empty.
Qed.
End Twin.

Module DemoTwins.
(** Five units per 160 microseconds and leases of 160 microseconds; three units
    under revision "v2". *)
Definition pol (alg : Algorithm) (v : string) : Policy :=
  let limit := if bool_decide (v = "v2") then 3 else 5 in
  let concurrent := bool_decide (alg = Concurrency) in
  mkPolicy alg v alg limit (if concurrent then 0 else 160000) 0 limit FailClosed ConsistencyProcessLocal
           (if concurrent then 160000 else 0).
Definition at_ (alg : Algorithm) (v : string) (m cost : Z) : Request :=
  mkRequest (pol alg v) (mkKey "http:v1:principal:x" "principal") cost (toUTC (ofUnixMicro m)).
Definition catalog (key v : string) : Policy :=
  pol (if bool_decide (key = stateKey (at_ TokenBucket v 0 0)) then TokenBucket else
       if bool_decide (key = stateKey (at_ SlidingWindow v 0 0)) then SlidingWindow else
       if bool_decide (key = stateKey (at_ FixedWindow v 0 0)) then FixedWindow else Concurrency) v.
Definition acquire (m cost : Z) (name : string) : operation :=
  OpAcquire (mkLeaseRequest (at_ Concurrency "v1" m cost) name).
Definition history : list operation :=
  [OpAdmit (at_ TokenBucket "v1" 1000000 3); OpAdmit (at_ SlidingWindow "v1" 1000000 4);
   OpAdmit (at_ TokenBucket "v1" 1000030 3); OpAdmit (at_ TokenBucket "v2" 1000040 2);
   OpAdmit (at_ SlidingWindow "v1" 999990 2); OpAdmit (at_ FixedWindow "v1" 1000050 2);
   acquire 1000000 2 "l1"; acquire 1000010 3 "l2"; acquire 1000020 1 "l3";
   OpRelease (mkLease "l1" (mkKey "http:v1:principal:x" "principal") Concurrency "v1" 2
                      (toUTC (ofUnixMicro 1000160)) "memory");
   acquire 1000030 1 "l3"].
Definition store : shard := mkShard 16 true ∅.
End DemoTwins.

Lemma demo_catalog_policy key v : exists alg,
  DemoTwins.catalog key v = DemoTwins.pol alg v /\
  (alg = TokenBucket \/ alg = SlidingWindow \/ alg = FixedWindow \/ alg = Concurrency).
Proof. unfold DemoTwins.catalog. eexists. split; [reflexivity|]. repeat case_bool_decide; auto. Qed.

Lemma demo_catalog_wf key v : wf_policy (DemoTwins.catalog key v).
Proof.
  destruct (demo_catalog_policy key v) as (alg & -> & Halg). unfold DemoTwins.pol.
  destruct (bool_decide (v = "v2")), Halg as [->|[->|[->| ->]]]; split; simpl; try done; try lia;
    try (by left); vm_compute; intuition discriminate.
Qed.

Lemma demo_catalog_modest key v :
  algorithm (DemoTwins.catalog key v) = TokenBucket -> modest (DemoTwins.catalog key v).
Proof.
  destruct (demo_catalog_policy key v) as (alg & -> & Halg). unfold DemoTwins.pol, modest. intros Htok.
  simpl in Htok. subst alg. destruct (bool_decide (v = "v2")); vm_compute; discriminate.
Qed.

Lemma demo_counts m : 160 <= m <= 2000000 -> counts DemoTwins.catalog (toUTC (ofUnixMicro m)).
Proof.
  intros Hm key v. destruct (demo_catalog_policy key v) as (alg & -> & Halg). intros Hs. simpl in Hs. subst alg.
  unfold charged_segment. change (segmentSize (DemoTwins.pol SlidingWindow v)) with 10000.
  unfold UnixNano. simpl. rewrite i64_id, floorBoundary_floor by (unfold is_i64; lia).
  rewrite Z.quot_mul by lia. assert (1 <= m * 1000 / 10000) by (apply Z.div_le_lower_bound; lia). lia.
Qed.

Lemma demo_compared alg v m cost :
  (alg = TokenBucket \/ alg = SlidingWindow \/ alg = FixedWindow \/ alg = Concurrency) ->
  1 <= cost <= 3 \/ v = "v1" /\ 1 <= cost <= 5 -> 160 <= m <= 2000000 ->
  compared DemoTwins.catalog (truncateNow (DemoTwins.at_ alg v m cost)).
Proof.
  intros Halg Hc Hm. unfold truncateNow, TruncateMicro. simpl.
  replace (m * 1000 / 1000 * 1000) with (m * 1000) by (rewrite Z.div_mul; lia). split.
  - simpl. by destruct Halg as [->|[->|[->| ->]]].
  - simpl. case_bool_decide as E; [|lia]. destruct Hc as [|[-> _]]; [lia|done].
  - unfold aligned. simpl. apply Z.mod_mul. lia.
  - apply demo_counts. lia.
Qed.

Lemma memory_implements_reference_witness :
  exists outs ref', runReference DemoTwins.history NewReference = (Ret outs, ref') /\
    map anonymous outs = map anonymous (runMemory DemoTwins.history DemoTwins.store).
Proof.
  apply (memory_implements_reference DemoTwins.catalog demo_catalog_wf demo_catalog_modest);
    [done| |vm_compute; discriminate].
  repeat (apply Forall_cons; split); try apply Forall_nil; try exact I.
  all: split; [apply demo_compared; [auto|(left; lia) || (right; split; [done|lia])|lia]|].
  all: unfold windowed; simpl; auto.
Defined.

(** The epoch: the first segment has index 0, which the reference model takes
    for "no segment", so after a charge there it reports a different reset. *)
Lemma reference_overlooks_segment_zero :
  let ops := [OpAdmit (DemoTwins.at_ SlidingWindow "v1" 3 3); OpAdmit (DemoTwins.at_ SlidingWindow "v1" 25 1)] in
  exists d d', runMemory ops DemoTwins.store !! 1%nat = Some (Decided d None) /\
    match runReference ops NewReference with (Ret outs, _) => outs !! 1%nat | _ => None end =
      Some (Decided d' None) /\
    instant (Reset d) = 170 * 1000 /\ instant (Reset d') = 185 * 1000.
Proof. eexists _, _. split; [vm_compute; reflexivity|]. split; [vm_compute; reflexivity|]. done. Qed.
