(* ===== verification/GoNet.v ===== *)
(** * Go's net, net/netip, strings and net/http header helpers

    The parts the HTTP adapter calls: parsing and printing of addresses,
    prefixes, [SplitHostPort], [strings.Split] and [strings.TrimSpace], and the
    canonical header map.  An address is the zero value, 32 bits, or 128 bits
    with a zone. *)

From S2P Require Import Prelude GoHash Keys GoJson.

Local Open Scope string_scope.
Local Open Scope list_scope.
Local Open Scope Z_scope.

(** ** Strings *)

Definition sdrop (n : nat) (s : string) : string :=
  String.substring n (String.length s - n) s.
Definition stake (n : nat) (s : string) : string := String.substring 0 n s.

(** [strings.IndexByte]. *)
Fixpoint indexByte (b : Z) (s : string) : option nat :=
  match s with
  | EmptyString => None
  | String c rest => if at_byte b c then Some 0%nat else S <$> indexByte b rest
  end.

(** [strings.LastIndexByte]. *)
Fixpoint lastIndexByte (b : Z) (s : string) : option nat :=
  match s with
  | EmptyString => None
  | String c rest =>
      match lastIndexByte b rest with
      | Some i => Some (S i)
      | None => if at_byte b c then Some 0%nat else None
      end
  end.

(** [strings.Split] with a one-byte separator. *)
Fixpoint splitByte (b : Z) (s : string) : list string :=
  match s with
  | EmptyString => [EmptyString]
  | String c rest =>
      if at_byte b c then EmptyString :: splitByte b rest
      else match splitByte b rest with
           | first :: others => String c first :: others
           | [] => [text c]
           end
  end.

Fixpoint bytesString (bs : list Z) : string :=
  match bs with [] => EmptyString | b :: rest => String (chr b) (bytesString rest) end.

(** The UTF-8 encodings of [unicode.IsSpace]. *)
Definition spaces : list string :=
  map bytesString (
    [[9]; [10]; [11]; [12]; [13]; [32]; [194; 133]; [194; 160]; [225; 154; 128]] ++
    map (fun i => [226; 128; 128 + Z.of_nat i]) (seq 0 11) ++
    [[226; 128; 168]; [226; 128; 169]; [226; 128; 175]; [226; 129; 159]; [227; 128; 128]]).

(** A space of the list that [s] starts or ends with, by its length. *)
Definition spacePrefix (s : string) : option nat :=
  String.length <$> List.find (fun sp => bool_decide (stake (String.length sp) s = sp)) spaces.
Definition spaceSuffix (s : string) : option nat :=
  String.length <$>
    List.find (fun sp => bool_decide (sdrop (String.length s - String.length sp) s = sp) &&
                               (String.length sp <=? String.length s)%nat) spaces.

Fixpoint trimLeft (fuel : nat) (s : string) : string :=
  match fuel, spacePrefix s with
  | S fuel, Some n => trimLeft fuel (sdrop n s)
  | _, _ => s
  end.
Fixpoint trimRight (fuel : nat) (s : string) : string :=
  match fuel, spaceSuffix s with
  | S fuel, Some n => trimRight fuel (stake (String.length s - n) s)
  | _, _ => s
  end.
Definition TrimSpace (s : string) : string :=
  let left := trimLeft (String.length s) s in trimRight (String.length left) left.

(** ** net/netip *)

Inductive Addr :=
| ZeroAddr
| Addr4 (bits : Z)
| Addr6 (bits : Z) (zone : string).

#[global] Instance Addr_eq_dec : EqDecision Addr.
Proof. solve_decision. Defined.

Definition Is4In6 (a : Addr) : bool :=
  match a with Addr6 bits _ => bits / 2 ^ 32 =? 65535 | _ => false end.

Definition Unmap (a : Addr) : Addr :=
  match a with
  | Addr6 bits _ => if Is4In6 a then Addr4 (bits mod 2 ^ 32) else a
  | _ => a
  end.

Definition BitLen (a : Addr) : Z :=
  match a with ZeroAddr => 0 | Addr4 _ => 32 | Addr6 _ _ => 128 end.

Definition withoutZone (a : Addr) : Addr :=
  match a with Addr6 bits _ => Addr6 bits EmptyString | _ => a end.

Definition hasZone (a : Addr) : bool :=
  match a with Addr6 _ zone => negb (bool_decide (zone = EmptyString)) | _ => false end.

(** A prefix is valid when [bitsPlusOne] is positive. *)
Record Prefix := mkPrefix { prefix_ip : Addr; bitsPlusOne : Z }.

Definition prefixBits (p : Prefix) : Z := bitsPlusOne p - 1.
Definition prefixIsValid (p : Prefix) : bool := 0 <? bitsPlusOne p.

Definition PrefixFrom (ip : Addr) (bits : Z) : Prefix :=
  let valid := negb (BitLen ip =? 0) && (0 <=? bits) && (bits <=? BitLen ip) in
  mkPrefix (withoutZone ip) (if valid then bits + 1 else 0).

(** The leading [n] of [w] bits. *)
Definition mask (w n : Z) : Z := 2 ^ w - 2 ^ (w - n).

(** [Prefix.Masked], through [Addr.Prefix]. *)
Definition Masked (p : Prefix) : Prefix :=
  let b := prefixBits p in
  let zero := mkPrefix ZeroAddr 0 in
  if b <? 0 then zero else
  match prefix_ip p with
  | ZeroAddr => zero
  | Addr4 bits => if 32 <? b then zero else PrefixFrom (Addr4 (Z.land bits (mask 32 b))) b
  | Addr6 bits _ => if 128 <? b then zero else PrefixFrom (Addr6 (Z.land bits (mask 128 b)) EmptyString) b
  end.

Definition Contains (p : Prefix) (ip : Addr) : bool :=
  if negb (prefixIsValid p) || hasZone ip then false else
  match prefix_ip p, ip with
  | Addr4 network, Addr4 bits =>
      Z.shiftr (Z.lxor bits network) (Z.land (32 - prefixBits p) 63) mod 2 ^ 32 =? 0
  | Addr6 network _, Addr6 bits _ =>
      Z.land (Z.lxor bits network) (mask 128 (prefixBits p)) =? 0
  | _, _ => false
  end.

(** The loop of [parseIPv4Fields]; [prev] is the byte before, absent at 0. *)
Fixpoint ipv4Fields (s : string) (prev : option Ascii.ascii) (val digLen : Z) (fields : list Z)
    : option (list Z) :=
  match s with
  | EmptyString => if (length fields <? 3)%nat then None else Some (fields ++ [val])
  | String c rest =>
      if isDigit c then
        if (digLen =? 1) && (val =? 0) then None else
        let val := val * 10 + (byte_of c - 48) in
        if 255 <? val then None else ipv4Fields rest (Some c) val (digLen + 1) fields
      else if at_byte 46 c then
        if match prev with None => true | Some p => at_byte 46 p end ||
           bool_decide (rest = EmptyString) then None else
        if (length fields =? 3)%nat then None
        else ipv4Fields rest (Some c) 0 0 (fields ++ [val])
      else None
  end.

Definition parseIPv4Fields (s : string) : option (list Z) := ipv4Fields s None 0 0 [].

Definition bigEndian (base : Z) (digits : list Z) : Z := foldl (fun acc d => acc * base + d) 0 digits.

Definition parseIPv4 (s : string) : option Addr := Addr4 ∘ bigEndian 256 <$> parseIPv4Fields s.

(** The hexadecimal digits of one group: their number, value and the rest. *)
Fixpoint hexGroup (s : string) (off : nat) (acc : Z) : option (nat * Z * string) :=
  match s with
  | EmptyString => Some (off, acc, s)
  | String c rest =>
      match GoJson.hexValue c with
      | None => Some (off, acc, s)
      | Some v =>
          let acc := acc * 16 + v in
          if (3 <? off)%nat || (65535 <? acc) then None else hexGroup rest (S off) acc
      end
  end.

(** The loop of [parseIPv6] with [room] of eight groups left: the groups, the
    position of the ellipsis and the rest of the string. *)
Fixpoint ipv6Groups (room : nat) (s : string) (ellipsis : option nat) (groups : list Z)
    : option (list Z * option nat * string) :=
  match room with
  | O => Some (groups, ellipsis, s)
  | S room' =>
      match hexGroup s 0 0 with
      | None | Some (O, _, _) => None
      | Some (_, acc, rest) =>
          match rest with
          | EmptyString => Some (groups ++ [acc], ellipsis, EmptyString)
          | String c after =>
              if at_byte 46 c then
                if (match ellipsis with None => negb (length groups =? 6)%nat | Some _ => false end)
                   || (room <? 2)%nat then None else
                match parseIPv4Fields s with
                | Some [a; b; c'; d] =>
                    Some (groups ++ [a * 256 + b; c' * 256 + d], ellipsis, EmptyString)
                | _ => None
                end
              else if negb (at_byte 58 c) then None else
              match after with
              | EmptyString => None
              | String c2 after2 =>
                  let groups := groups ++ [acc] in
                  if at_byte 58 c2 then
                    match ellipsis with
                    | Some _ => None
                    | None =>
                        if bool_decide (after2 = EmptyString)
                        then Some (groups, Some (length groups), EmptyString)
                        else ipv6Groups room' after2 (Some (length groups)) groups
                    end
                  else ipv6Groups room' after ellipsis groups
              end
          end
      end
  end.

Definition parseIPv6 (s : string) : option Addr :=
  let '(body, zone) :=
    match indexByte 37 s with
    | None => (s, Some EmptyString)
    | Some i => (stake i s, let zone := sdrop (S i) s in
                            if bool_decide (zone = EmptyString) then None else Some zone)
    end in
  match zone with
  | None => None
  | Some zone =>
      let leading := bool_decide (stake 2 body = "::") in
      let rest := if leading then sdrop 2 body else body in
      if leading && bool_decide (rest = EmptyString) then Some (Addr6 0 zone) else
      match ipv6Groups 8 rest (if leading then Some 0%nat else None) [] with
      | None => None
      | Some (groups, ellipsis, trailing) =>
          if negb (bool_decide (trailing = EmptyString)) then None else
          match ellipsis with
          | None =>
              if (length groups <? 8)%nat then None else Some (Addr6 (bigEndian 65536 groups) zone)
          | Some at_ =>
              if (8 <=? length groups)%nat then None else
              let expanded :=
                take at_ groups ++ replicate (8 - length groups) 0 ++ drop at_ groups in
              Some (Addr6 (bigEndian 65536 expanded) zone)
          end
      end
  end.

(** [ParseAddr] decides by the first of the bytes [.], [:] and [%]. *)
Fixpoint addrKind (s : string) : option Z :=
  match s with
  | EmptyString => None
  | String c rest =>
      if at_byte 46 c || at_byte 58 c || at_byte 37 c then Some (byte_of c) else addrKind rest
  end.

Definition ParseAddr (s : string) : option Addr :=
  match addrKind s with
  | Some 46 => parseIPv4 s
  | Some 58 => parseIPv6 s
  | _ => None
  end.

(** The [n] digits of [z] in [base], most significant first. *)
Fixpoint digitsIn (base : Z) (n : nat) (z : Z) : list Z :=
  match n with
  | O => []
  | S n => digitsIn base n (z / base) ++ [z mod base]
  end.

Fixpoint joinWith (sep : string) (parts : list string) : string :=
  match parts with
  | [] => EmptyString
  | [p] => p
  | p :: rest => p +:+ sep +:+ joinWith sep rest
  end.

Definition string4 (bits : Z) : string := joinWith "." (map formatUint (digitsIn 256 4 bits)).

Fixpoint hexDigits (fuel : nat) (n : Z) : string :=
  match fuel with
  | O => EmptyString
  | S fuel =>
      if n <? 16 then text (hexDigit n)
      else hexDigits fuel (n / 16) +:+ text (hexDigit (n mod 16))
  end.
Definition formatHex16 (n : Z) : string := hexDigits 4 n.

(** The run of zero groups that [appendTo6] compresses: the first longest one
    of at least two. *)
Fixpoint zeroRun (groups : list Z) : nat :=
  match groups with
  | 0 :: rest => S (zeroRun rest)
  | _ => O
  end.
Fixpoint longestRun (i : nat) (groups : list Z) (best : nat * nat) : nat * nat :=
  match groups with
  | [] => best
  | _ :: rest =>
      let l := zeroRun groups in
      longestRun (S i) rest (if (2 <=? l)%nat && (snd best <? l)%nat then (i, l) else best)
  end.

Definition string6 (bits : Z) (zone : string) : string :=
  let groups := digitsIn 65536 8 bits in
  let '(start, len) := longestRun 0 groups (0%nat, 0%nat) in
  let body :=
    if (len =? 0)%nat then joinWith ":" (map formatHex16 groups)
    else joinWith ":" (map formatHex16 (take start groups)) +:+ "::" +:+
         joinWith ":" (map formatHex16 (drop (start + len) groups)) in
  if bool_decide (zone = EmptyString) then body else body +:+ "%" +:+ zone.

Definition addrString (a : Addr) : string :=
  match a with
  | ZeroAddr => "invalid IP"
  | Addr4 bits => string4 bits
  | Addr6 bits zone =>
      if Is4In6 a then
        let body := "::ffff:" +:+ string4 (bits mod 2 ^ 32) in
        if bool_decide (zone = EmptyString) then body else body +:+ "%" +:+ zone
      else string6 bits zone
  end.

(** ** net.SplitHostPort *)

(** The host, when the value has a port. *)
Definition SplitHostPort (hostport : string) : option string :=
  match lastIndexByte 58 hostport with
  | None => None
  | Some i =>
      let checked host j k :=
        match indexByte 91 (sdrop j hostport), indexByte 93 (sdrop k hostport) with
        | None, None => Some host
        | _, _ => None
        end in
      match hostport with
      | String c _ =>
          if at_byte 91 c then
            match indexByte 93 hostport with
            | Some end_ =>
                if (S end_ =? i)%nat
                then checked (String.substring 1 (end_ - 1) hostport) 1%nat (S end_) else None
            | None => None
            end
          else
            let host := stake i hostport in
            match indexByte 58 host with None => checked host 0%nat 0%nat | Some _ => None end
      | EmptyString => None
      end
  end.

(** ** Headers *)

Definition Header := gmap string (list string).

Definition upperByte (b : Z) : Z := if in_range 97 122 b then b - 32 else b.
Definition lowerByte (b : Z) : Z := if in_range 65 90 b then b + 32 else b.

(** The token bytes of RFC 7230. *)
Definition headerFieldByte (b : Z) : bool :=
  in_range 48 57 b || in_range 65 90 b || in_range 97 122 b ||
  bool_decide (b ∈ [33; 35; 36; 37; 38; 39; 42; 43; 45; 46; 94; 95; 96; 124; 126]).

Fixpoint canonicalFrom (upper : bool) (s : string) : string :=
  match s with
  | EmptyString => EmptyString
  | String c rest =>
      let b := byte_of c in
      String (chr (if upper then upperByte b else lowerByte b)) (canonicalFrom (b =? 45) rest)
  end.

Definition CanonicalHeaderKey (s : string) : string :=
  if all_bytes headerFieldByte s then canonicalFrom true s else s.

Definition headerGet (h : Header) (key : string) : string :=
  match h !! CanonicalHeaderKey key with
  | Some (value :: _) => value
  | _ => EmptyString
  end.
Definition headerSet (key value : string) (h : Header) : Header :=
  <[CanonicalHeaderKey key := [value]]> h.
Definition headerDel (key : string) (h : Header) : Header := delete (CanonicalHeaderKey key) h.
