(* ===== verification/Lua.v ===== *)
(** * The Lua that the scripts of valkey/scripts.go use

    Lua 5.1 numbers are doubles ([Float64]) and strings are byte strings.  The
    definitions are the library functions the scripts call: [tonumber] with C's
    [strtod], [string.format('%.0f')], the patterns and slices, and the arithmetic
    of [math] and [%].  The lemmas say that decimal integers within 2^53 go through
    [tonumber] and [format] unchanged. *)

From Stdlib Require Import QArith Qround.
From S2P Require Import Prelude Float64 GoHash Keys GoJson JsonFacts GoNet.

Local Open Scope string_scope.
Local Open Scope list_scope.
Local Open Scope Z_scope.

(** ** tonumber *)

(** A C string ends at its first NUL. *)
Fixpoint cString (s : string) : string :=
  match s with
  | EmptyString => EmptyString
  | String c rest => if at_byte 0 c then EmptyString else String c (cString rest)
  end.

Definition isBlank (c : Ascii.ascii) : bool := in_range 9 13 (byte_of c) || at_byte 32 c.
Fixpoint skipBlank (s : string) : string :=
  match s with
  | String c rest => if isBlank c then skipBlank rest else s
  | EmptyString => s
  end.

(** A case-insensitive keyword at the head of a string. *)
Fixpoint keyword (word s : string) : option string :=
  match word, s with
  | EmptyString, _ => Some s
  | String w word, String c rest => if lowerByte (byte_of c) =? byte_of w then keyword word rest else None
  | _, _ => None
  end.

Fixpoint spanHex (s : string) : list Z * string :=
  match s with
  | String c rest =>
      match GoJson.hexValue c with
      | Some v => let '(vs, r) := spanHex rest in (v :: vs, r)
      | None => ([], s)
      end
  | EmptyString => ([], EmptyString)
  end.

(** [m * b ^ e]. *)
Definition scaled (m b e : Z) : Q :=
  if e =? 0 then inject_Z m else
  if 0 <? e then inject_Z (m * b ^ e) else Qmake m (Z.to_pos (b ^ (- e))).

(** An optional exponent introduced by one of two letters. *)
Definition exponent (lower upper : Z) (s : string) : Z * string :=
  match s with
  | String c rest =>
      if at_byte lower c || at_byte upper c then
        let '(negative, digits) :=
          match rest with
          | String d rest' => if at_byte 45 d then (true, rest') else if at_byte 43 d then (false, rest') else (false, rest)
          | EmptyString => (false, EmptyString)
          end in
        match spanDigits digits with
        | (EmptyString, _) => (0, s)
        | (ds, after) => ((if negative then - digitsValue 0 ds else digitsValue 0 ds), after)
        end
      else (0, s)
  | EmptyString => (0, s)
  end.

(** An optional fraction: its digits and the rest. *)
Definition fraction {D} (empty : D) (span : string -> D * string) (s : string) : D * string :=
  match s with
  | String c rest => if at_byte 46 c then span rest else (empty, s)
  | EmptyString => (empty, s)
  end.

Definition strtodHex (s : string) : option (float64 * string) :=
  let '(whole, rest) := spanHex s in
  let '(part, rest) := fraction [] spanHex rest in
  match whole ++ part with
  | [] => None
  | digits =>
      let '(e, rest) := exponent 112 80 rest in
      Some (round64 (scaled (bigEndian 16 digits) 2 (e - 4 * Z.of_nat (length part))), rest)
  end.

Definition strtodDecimal (s : string) : option (float64 * string) :=
  let '(whole, rest) := spanDigits s in
  let '(part, rest) := fraction EmptyString spanDigits rest in
  match whole +:+ part with
  | EmptyString => None
  | digits =>
      let '(e, rest) := exponent 101 69 rest in
      Some (round64 (scaled (digitsValue 0 digits) 10 (e - strlen part)), rest)
  end.

(** [nan] may carry a parenthesized tag. *)
Definition nanTag (s : string) : string :=
  match s, indexByte 41 s with
  | String c rest, Some close =>
      if at_byte 40 c &&
         all_bytes (fun b => in_range 48 57 b || in_range 65 90 b || in_range 97 122 b || (b =? 95)) (stake (close - 1) rest)
      then sdrop (S close) s else s
  | _, _ => s
  end.

Definition strtodUnsigned (s : string) : option (float64 * string) :=
  match keyword "infinity" s with
  | Some rest => Some (Inf false, rest)
  | None =>
      match keyword "inf" s with
      | Some rest => Some (Inf false, rest)
      | None =>
          match keyword "nan" s with
          | Some rest => Some (NaN, nanTag rest)
          | None =>
              match keyword "0x" s with
              | Some rest => match strtodHex rest with Some r => Some r | None => strtodDecimal s end
              | None => strtodDecimal s
              end
          end
      end
  end.

Definition strtod (s : string) : option (float64 * string) :=
  match skipBlank s with
  | String c rest =>
      if at_byte 45 c then (fun '(x, r) => (fopp x, r)) <$> strtodUnsigned rest
      else if at_byte 43 c then strtodUnsigned rest else strtodUnsigned (String c rest)
  | EmptyString => None
  end.

Definition tonumber (s : string) : option float64 :=
  match strtod (cString s) with
  | Some (x, rest) => if bool_decide (skipBlank rest = EmptyString) then Some x else None
  | None => None
  end.

(** [tonumber] of what a command returned: [false] is no number. *)
Definition tonumberOf (reply : option string) : option float64 := reply ≫= tonumber.

(** ** Formatting *)

(** The decimal digits of any integer. *)
Definition wholeDigits (n : Z) : string := decimalDigits (S (Z.to_nat (Z.log2 n))) n.

(** [string.format('%.0f', value)]. *)
Definition integer (x : float64) : string :=
  match x with
  | Zero negative => if negative then "-0" else "0"
  | Finite q =>
      let n := nearestEven (Z.abs (Qnum q)) (Z.pos (Qden q)) in
      (if Qnum q <? 0 then "-" else EmptyString) +:+ wholeDigits n
  | Inf negative => if negative then "-inf" else "inf"
  | NaN => "nan"
  end.

(** ** Patterns and slices *)

Definition nonzeroDigit (c : Ascii.ascii) : bool := in_range 49 57 (byte_of c).

(** [^[1-9][0-9]*$]. *)
Definition positiveDigits (s : string) : bool :=
  match s with
  | String c rest => nonzeroDigit c && all_bytes (in_range 48 57) rest
  | EmptyString => false
  end.

(** [^[0-9a-f]+$]. *)
Definition lowerHexDigits (s : string) : bool :=
  match s with
  | EmptyString => false
  | s => all_bytes (fun b => in_range 48 57 b || in_range 97 102 b) s
  end.

(** [string.find(s, ':')] and the slices before and after it. *)
Definition cutColon (s : string) : option (string * string) :=
  match indexByte 58 s with
  | Some i => Some (stake i s, sdrop (S i) s)
  | None => None
  end.

(** [string.match(s, '^[^:]+')]. *)
Definition matchHead (s : string) : option string :=
  let head := match indexByte 58 s with Some i => stake i s | None => s end in
  if bool_decide (head = EmptyString) then None else Some head.

(** [string.match(s, '[^:]+$')]. *)
Definition matchTail (s : string) : option string :=
  let tail := match lastIndexByte 58 s with Some i => sdrop (S i) s | None => s end in
  if bool_decide (tail = EmptyString) then None else Some tail.

(** ** Arithmetic *)

Definition fmod (a b : float64) : float64 := fsub a (fmul (ffloor (fdiv a b)) b).

(** [math.max] and [math.min] of two numbers: the first, unless the second is
    strictly beyond it. *)
Definition mathMax (a b : float64) : float64 := if flt a b then b else a.
Definition mathMin (a b : float64) : float64 := if flt b a then b else a.

Definition max_exact : float64 := ofZ 9007199254740991.

(** ** Decimal integers survive *)

Definition digitString (s : string) : Prop := all_bytes (in_range 48 57) s = true.

Lemma formatUint_digits n : 0 <= n < ten20 ->
  digitString (formatUint n) /\ digitsValue 0 (formatUint n) = n /\
  exists c t, formatUint n = String c t /\ in_range 48 57 (byte_of c) = true /\
    (byte_of c = 48 -> n = 0 /\ t = EmptyString).
Proof.
  intros Hn. destruct (decimalDigits_spec 20 n) as (Hv & Ha & c & t & E & Hc); [lia|done|].
  fold (formatUint n) in *. split_and!; [done..|]. exists c, t. rewrite E in Ha. simpl in Ha.
  apply andb_true_iff in Ha as [Hd _]. done.
Qed.

Lemma digit_range b : in_range 48 57 b = true -> 48 <= b <= 57.
Proof. unfold in_range. intros H. btrue. lia. Qed.

Lemma cString_digits s : digitString s -> cString s = s.
Proof.
  unfold digitString. induction s as [|c s IH]; simpl; [done|]. intros [Hc Hs]%andb_true_iff.
  apply digit_range in Hc. unfold at_byte. rewrite (proj2 (Z.eqb_neq _ 0)) by lia. by rewrite IH.
Qed.

Lemma keyword_digit w word c t :
  in_range 48 57 (byte_of c) = true -> 58 <= byte_of w -> keyword (String w word) (String c t) = None.
Proof.
  intros Hc%digit_range Hw. simpl. unfold lowerByte, in_range.
  rewrite (proj2 (Z.leb_gt 65 (byte_of c))) by lia. simpl. by rewrite (proj2 (Z.eqb_neq _ _)) by lia.
Qed.

Lemma strtodUnsigned_digits n : 0 <= n < ten20 -> strtodUnsigned (formatUint n) = Some (ofZ n, EmptyString).
Proof.
  intros Hn. destruct (formatUint_digits n Hn) as (Hd & Hv & c & t & E & Hc & Hz).
  assert (spanDigits (formatUint n) = (formatUint n, EmptyString)) as Hspan.
  { rewrite <- (string_app_nil (formatUint n)) at 1. by apply spanDigits_app. }
  assert (strtodDecimal (formatUint n) = Some (ofZ n, EmptyString)) as Hdec.
  { unfold strtodDecimal. rewrite Hspan. cbn [fraction]. rewrite string_app_nil.
    rewrite E at 1. cbv beta iota. rewrite <- E, Hv. done. }
  unfold strtodUnsigned. rewrite E in *. rewrite !keyword_digit by done.
  destruct (keyword "0x" (String c t)) as [rest|] eqn:Ek; [|exact Hdec].
  exfalso. simpl in Ek. apply digit_range in Hc. unfold lowerByte, in_range in Ek.
  rewrite (proj2 (Z.leb_gt 65 (byte_of c))) in Ek by lia. simpl in Ek.
  destruct (Z.eqb_spec (byte_of c) 48) as [H48|Hne].
  - destruct (Hz H48) as [_ ->]. by destruct (byte_of c =? _).
  - change (byte_of (Ascii.Ascii false false false false true true false false)) with 48 in Ek.
    by rewrite (proj2 (Z.eqb_neq _ _) Hne) in Ek.
Qed.

Lemma strtod_start c t : in_range 48 57 (byte_of c) = true -> strtod (String c t) = strtodUnsigned (String c t).
Proof.
  intros Hc%digit_range. unfold strtod. cbn [skipBlank].
  assert (isBlank c = false) as ->.
  { unfold isBlank, in_range, at_byte. rewrite (proj2 (Z.leb_gt (byte_of c) 13)), andb_false_r by lia.
    apply Z.eqb_neq. lia. }
  unfold at_byte. by rewrite !(proj2 (Z.eqb_neq (byte_of c) _)) by lia.
Qed.

Lemma tonumber_uint n : 0 <= n < ten20 -> tonumber (formatUint n) = Some (ofZ n).
Proof.
  intros Hn. destruct (formatUint_digits n Hn) as (Hd & _ & c & t & E & Hc & _). unfold tonumber.
  rewrite cString_digits by done. pose proof (strtodUnsigned_digits n Hn) as H. rewrite E in *.
  by rewrite strtod_start, H.
Qed.

Lemma fopp_Z z : Z.abs z <= two53 -> z <> 0 -> fopp (ofZ z) = ofZ (- z).
Proof. intros Hz Hn. by rewrite !ofZ_nonzero by lia. Qed.

Lemma tonumber_int z : Z.abs z <= two53 -> tonumber (formatInt z) = Some (ofZ z).
Proof.
  intros Hz. unfold formatInt. destruct (Z.ltb_spec z 0); [|apply tonumber_uint; lia].
  destruct (formatUint_digits (- z)) as (Hd & _); [lia|]. unfold tonumber.
  change (cString (String (chr 45) (formatUint (- z)))) with (String (chr 45) (cString (formatUint (- z)))).
  rewrite cString_digits by done. unfold strtod. simpl.
  rewrite strtodUnsigned_digits by lia. simpl. rewrite fopp_Z, Z.opp_involutive by lia. done.
Qed.

(** More fuel prints the same digits. *)
Lemma decimalDigits_fuel f g n :
  (0 < f)%nat -> (0 < g)%nat -> 0 <= n < 10 ^ Z.of_nat f -> n < 10 ^ Z.of_nat g ->
  decimalDigits f n = decimalDigits g n.
Proof.
  revert g n. induction f as [|f IH]; intros [|g] n Hf Hg Hn Hng; [lia..|]. cbn [decimalDigits].
  destruct (Z.ltb_spec n 10); [done|]. f_equal.
  rewrite Nat2Z.inj_succ, Z.pow_succ_r in Hn, Hng by lia.
  destruct f; [simpl in Hn; lia|]. destruct g; [simpl in Hng; lia|]. apply IH; [lia..|zlia|zlia].
Qed.

Lemma wholeDigits_uint n : 0 <= n < ten20 -> wholeDigits n = formatUint n.
Proof.
  intros Hn. unfold wholeDigits, formatUint. destruct (Z.eq_dec n 0) as [->|]; [done|].
  pose proof (Z.log2_spec n ltac:(lia)). pose proof (Z.log2_nonneg n).
  apply decimalDigits_fuel; [lia..| |lia]. split; [lia|].
  rewrite Nat2Z.inj_succ, Z2Nat.id by done.
  eapply Z.lt_le_trans; [apply H|]. apply Z.pow_le_mono_l. lia.
Qed.

Lemma nearestEven_1 n : nearestEven n 1 = n.
Proof. unfold nearestEven. rewrite Z.mod_1_r, Z.div_1_r. done. Qed.

Lemma integer_Z z : Z.abs z <= two53 -> integer (ofZ z) = formatInt z.
Proof.
  intros Hz. destruct (ofZ_cases z Hz) as [[-> ->]|[-> Hn]]; [done|]. unfold integer. simpl Qnum. simpl Qden.
  rewrite nearestEven_1, wholeDigits_uint by lia. unfold formatInt. destruct (Z.ltb_spec z 0).
  - by rewrite Z.abs_neq by lia.
  - by rewrite Z.abs_eq by lia.
Qed.

(** [n] has at most [k] digits. *)
Lemma decimalDigits_length f n k :
  (0 < k)%nat -> 0 <= n < 10 ^ Z.of_nat k -> (String.length (decimalDigits f n) <= k)%nat.
Proof.
  revert n k. induction f as [|f IH]; intros n k Hk Hn; [simpl; lia|]. cbn [decimalDigits].
  destruct (Z.ltb_spec n 10); [simpl; lia|]. destruct k as [|k]; [lia|].
  rewrite Nat2Z.inj_succ, Z.pow_succ_r in Hn by lia. destruct k; [simpl in Hn; lia|].
  rewrite append_length. specialize (IH (n / 10) (S k) ltac:(lia)). simpl String.length at 2.
  assert (0 <= n / 10 < 10 ^ Z.of_nat (S k)) as Hq by zlia. specialize (IH Hq). lia.
Qed.

(** ** Exact arithmetic on decimal integers *)

Lemma mathMax_Z a b : Z.abs a <= two53 -> Z.abs b <= two53 -> mathMax (ofZ a) (ofZ b) = ofZ (Z.max a b).
Proof. intros. unfold mathMax. rewrite flt_Z by done. destruct (Z.ltb_spec a b); f_equal; lia. Qed.

Lemma mathMin_Z a b : Z.abs a <= two53 -> Z.abs b <= two53 -> mathMin (ofZ a) (ofZ b) = ofZ (Z.min a b).
Proof. intros. unfold mathMin. rewrite flt_Z by done. destruct (Z.ltb_spec b a); f_equal; lia. Qed.

Lemma mathMin_large k z : Z.abs k < two53 -> two53 <= z < 2 ^ 64 -> mathMin (ofZ k) (ofZ z) = ofZ k.
Proof. intros Hk Hz. unfold mathMin. by rewrite flt_asym by (apply flt_large; lia). Qed.

Lemma div_small_abs a b : 0 < b -> Z.abs a <= two53 -> Z.abs (a / b) <= two53.
Proof.
  intros Hb Ha. apply Z.abs_le. split; [apply Z.div_le_lower_bound|apply Z.div_le_upper_bound]; lia.
Qed.

Lemma fmod_Z a b :
  0 < b <= two53 -> Z.abs a < two53 -> - two53 <= a / b * b -> fmod (ofZ a) (ofZ b) = ofZ (a mod b).
Proof.
  intros Hb Ha Hlow. unfold fmod. rewrite ffloor_div by lia.
  pose proof (Z.mul_div_le a b ltac:(lia)). pose proof (Z.div_mod a b ltac:(lia)).
  assert (Z.abs (a / b) <= two53) by (apply div_small_abs; lia).
  rewrite fmul_Z, fsub_Z by lia. f_equal. lia.
Qed.
