(* ===== verification/ValkeyServer.v ===== *)
(** * Scripts on a Valkey server

    The scripts of valkey/scripts.go talk to the server through [redis.call].  A
    script is a program ([prog]) over the commands it uses, all on the one key the
    store passes; a raised Lua error ends it.  The server is not part of this
    repository: [Server] is its interface, [ServerLaws] the documented behaviour
    of the commands on hashes, and [execute] runs a script on any server.  [wp] is the
    weakest precondition of a script over the contents of its key, and [wp_sound]
    says that what [wp] proves holds on every lawful server. *)

From Stdlib Require Import QArith.
From S2P Require Import Prelude Float64 GoHash Keys GoJson Lua.

Local Open Scope string_scope.
Local Open Scope list_scope.
Local Open Scope Z_scope.

Abbreviation fields := (gmap string string).

(** A hash and the millisecond at which it expires, if any. *)
Record entry := mkEntry { en_fields : fields; en_deadline : option Z }.

Inductive redisCommand : Type -> Type :=
  | TIME : redisCommand (string * string)
  | EXISTS : redisCommand Z
  | MEMORY_USAGE : redisCommand (option Z)
  | HGET (field : string) : redisCommand (option string)
  | HSET (values : list (string * string)) : redisCommand unit
  | HLEN : redisCommand Z
  | HKEYS : redisCommand (list string)
  | HSTRLEN (field : string) : redisCommand Z
  | HGETALL : redisCommand (list (string * string))
  | HDEL (field : string) : redisCommand unit
  | DEL : redisCommand unit
  | PEXPIRE (ms : float64) : redisCommand unit.

(** ** Programs *)

Inductive prog (A : Type) : Type :=
  | Done (a : A)
  | Raise
  | Call (R : Type) (c : redisCommand R) (k : R -> prog A).
Arguments Done {A} a.
Arguments Raise {A}.
Arguments Call {A R} c k.

Fixpoint prog_bind {A B} (k : A -> prog B) (p : prog A) : prog B :=
  match p with
  | Done a => k a
  | Raise => Raise
  | Call c next => Call c (fun r => prog_bind k (next r))
  end.

#[global] Instance prog_ret : MRet prog := fun A a => Done a.
#[global] Instance prog_mbind : MBind prog := fun A B => prog_bind.

(** [redis.call]. *)
Definition call {R} (c : redisCommand R) : prog R := Call c Done.

(** A number where the script computes with it: [nil] raises. *)
Definition number (x : option float64) : prog float64 :=
  match x with Some x => Done x | None => Raise end.

(** ** What the commands do *)

(** The server's clock in microseconds and the memory its keys use. *)
Record environment := mkEnvironment { env_clock : Z; env_memory : Z }.

Definition fieldsOf (e : option entry) : fields := match e with Some e => en_fields e | None => ∅ end.
Definition deadlineOf (e : option entry) : option Z := e ≫= en_deadline.

Definition hset (values : list (string * string)) (h : fields) : fields :=
  foldl (fun h fv => <[fv.1 := fv.2]> h) h values.

Definition hdel (field : string) (e : option entry) : option entry :=
  let h := delete field (fieldsOf e) in
  if bool_decide (h = ∅) then None else Some (mkEntry h (deadlineOf e)).

Definition pexpire (clock : Z) (ms : float64) (e : option entry) : option entry :=
  match e with
  | None => None
  | Some e => if toInt64 ms <=? 0 then None
              else Some (mkEntry (en_fields e) (Some (clock / 1000 + toInt64 ms)))
  end.

(** The key after a command. *)
Definition effect {R} (env : environment) (c : redisCommand R) (e : option entry) : option entry :=
  match c with
  | HSET values => Some (mkEntry (hset values (fieldsOf e)) (deadlineOf e))
  | HDEL field => hdel field e
  | DEL => None
  | PEXPIRE ms => pexpire (env_clock env) ms e
  | _ => e
  end.

(** The replies a command may give; the order of fields is unspecified. *)
Definition answers {R} (env : environment) (c : redisCommand R) (e : option entry) : R -> Prop :=
  match c in redisCommand R return R -> Prop with
  | TIME => fun r => r = (formatUint (env_clock env / 1000000), formatUint (env_clock env mod 1000000))
  | EXISTS => fun r => r = (match e with Some _ => 1 | None => 0 end)
  | MEMORY_USAGE => fun r => r = (match e with Some _ => Some (env_memory env) | None => None end)
  | HGET field => fun r => r = fieldsOf e !! field
  | HLEN => fun r => r = Z.of_nat (size (fieldsOf e))
  | HKEYS => fun r => r ≡ₚ (map_to_list (fieldsOf e)).*1
  | HSTRLEN field => fun r => r = strlen (default EmptyString (fieldsOf e !! field))
  | HGETALL => fun r => r ≡ₚ map_to_list (fieldsOf e)
  | HSET _ | HDEL _ | DEL | PEXPIRE _ => fun _ => True
  end.

(** ** The server *)

(** A server with state [S]: a command on a key, the contents of a key and the
    clock and memory it reports. *)
Class Server (S : Type) := {
  server_call : forall R, string -> redisCommand R -> S -> R * S;
  server_entry : S -> string -> option entry;
  server_env : S -> string -> environment
}.
Arguments server_call {S _ R}.

(** The documented behaviour of the commands inside a script: no key but the
    script's changes, and time stands still. *)
Class ServerLaws (S : Type) `{Server S} := {
  call_answer : forall R key (c : redisCommand R) s,
    answers (server_env s key) c (server_entry s key) (server_call key c s).1;
  call_effect : forall R key (c : redisCommand R) s,
    server_entry (server_call key c s).2 key = effect (server_env s key) c (server_entry s key);
  call_frame : forall R key (c : redisCommand R) s other,
    other <> key -> server_entry (server_call key c s).2 other = server_entry s other;
  call_env : forall R key (c : redisCommand R) s, server_env (server_call key c s).2 key = server_env s key
}.

Fixpoint execute {S A} `{Server S} (key : string) (p : prog A) (s : S) : outcome A * S :=
  match p with
  | Done a => (Ret a, s)
  | Raise => (Panic, s)
  | Call c k => let '(r, s) := server_call key c s in execute key (k r) s
  end.

(** ** Weakest preconditions *)

Fixpoint wp {A} (env : environment) (p : prog A) (Q : outcome A -> option entry -> Prop) (e : option entry) : Prop :=
  match p with
  | Done a => Q (Ret a) e
  | Raise => Q Panic e
  | Call c k => forall r, answers env c e r -> wp env (k r) Q (effect env c e)
  end.

Lemma wp_sound {S A} `{ServerLaws S} key (p : prog A) Q : forall s,
  wp (server_env s key) p Q (server_entry s key) ->
  Q (execute key p s).1 (server_entry (execute key p s).2 key).
Proof.
  induction p as [a| |R c k IH]; intros s Hwp; [done..|]. simpl in *.
  specialize (Hwp _ (call_answer _ key c s)).
  pose proof (call_effect _ key c s) as He. pose proof (call_env _ key c s) as Hv.
  destruct (server_call key c s) as [r s']; simpl in *. apply IH. by rewrite Hv, He.
Qed.

Lemma execute_frame {S A} `{ServerLaws S} key (p : prog A) other : other <> key ->
  forall s, server_entry (execute key p s).2 other = server_entry s other.
Proof.
  intros Hne. induction p as [a| |R c k IH]; intros s; [done..|]. simpl.
  pose proof (call_frame _ key c s other Hne) as Hf. destruct (server_call key c s) as [r s']; simpl in *.
  by rewrite IH, Hf.
Qed.

(** The postcondition of the first half of a sequence. *)
Definition andThen {A B} (env : environment) (k : A -> prog B) (Q : outcome B -> option entry -> Prop)
    : outcome A -> option entry -> Prop :=
  fun o e => match o with Ret a => wp env (k a) Q e | Panic => Q Panic e end.

Lemma wp_bind {A B} env (p : prog A) (k : A -> prog B) Q e :
  wp env p (andThen env k Q) e -> wp env (p ≫= k) Q e.
Proof.
  revert e. induction p as [a| |R c next IH]; intros e; [done..|]. simpl. intros Hwp r Hr. by apply IH, Hwp.
Qed.

Lemma wp_mono {A} env (p : prog A) (Q Q' : outcome A -> option entry -> Prop) :
  (forall o e, Q o e -> Q' o e) -> forall e, wp env p Q e -> wp env p Q' e.
Proof.
  intros HQ. induction p as [a| |R c next IH]; intros e; simpl; auto.
Qed.

Lemma wp_call {A R} env (c : redisCommand R) (k : R -> prog A) Q e :
  (forall r, answers env c e r -> wp env (k r) Q (effect env c e)) -> wp env (call c ≫= k) Q e.
Proof. done. Qed.

(** A read is a substitution. *)
Lemma wp_hget {A} env field (k : option string -> prog A) Q e v :
  fieldsOf e !! field = v -> wp env (k v) Q e -> wp env (call (HGET field) ≫= k) Q e.
Proof. intros Hv Hk. apply wp_call. intros r Hr. simpl in Hr. subst r. by rewrite Hv. Qed.

Lemma wp_hset {A} env values (k : unit -> prog A) Q h d :
  (forall u, wp env (k u) Q (Some (mkEntry (hset values h) d))) ->
  wp env (call (HSET values) ≫= k) Q (Some (mkEntry h d)).
Proof. intros Hk. apply wp_call. intros r _. apply Hk. Qed.

Lemma number_bind {A} x (k : float64 -> prog A) : (number (Some x) ≫= k) = k x.
Proof. reflexivity. Qed.

Lemma ret_bind {A B} (a : A) (k : A -> prog B) : (mret a ≫= k) = k a.
Proof. reflexivity. Qed.

(** Step over a command with one possible reply. *)
Ltac wp_read :=
  apply wp_call; let r := fresh "r" in let Hr := fresh "Hr" in intros r Hr;
  cbn [answers fieldsOf en_fields] in Hr; subst r; cbn [effect].

(** ** A server in memory *)

Record serverState := mkServerState { ss_keys : gmap string entry; ss_env : environment }.

Definition respond {R} (env : environment) (c : redisCommand R) (e : option entry) : R :=
  match c in redisCommand R return R with
  | TIME => (formatUint (env_clock env / 1000000), formatUint (env_clock env mod 1000000))
  | EXISTS => match e with Some _ => 1 | None => 0 end
  | MEMORY_USAGE => match e with Some _ => Some (env_memory env) | None => None end
  | HGET field => fieldsOf e !! field
  | HLEN => Z.of_nat (size (fieldsOf e))
  | HKEYS => (map_to_list (fieldsOf e)).*1
  | HSTRLEN field => strlen (default EmptyString (fieldsOf e !! field))
  | HGETALL => map_to_list (fieldsOf e)
  | HSET _ | HDEL _ | DEL | PEXPIRE _ => tt
  end.

#[global] Instance memoryServer : Server serverState := {|
  server_call R key c s :=
    let e := ss_keys s !! key in
    (respond (ss_env s) c e, mkServerState (partial_alter (fun _ => effect (ss_env s) c e) key (ss_keys s)) (ss_env s));
  server_entry s key := ss_keys s !! key;
  server_env s key := ss_env s
|}.

#[global] Instance memoryServer_laws : ServerLaws serverState.
Proof.
  split; intros R key c s; simpl; [destruct c; simpl; done || reflexivity| | |done].
  - by rewrite lookup_partial_alter_eq.
  - intros other Hne. by rewrite lookup_partial_alter_ne.
Qed.
