(* ===== verification/ValkeyScripts.v ===== *)
(** * The Lua scripts of the Valkey backend (valkey/scripts.go)

    Three scripts, each in a released and a strict identity ([strict]) that share
    one body.  A script is a [prog] over the commands of its key; [return] in the
    middle of a script ends it, so the parts take what follows as an argument [k].
    [ARGV] is the list of strings the store sends; a numeric argument stays an
    [option] until the script computes with it, because [nil] raises only then. *)

From S2P Require Import Prelude Float64 GoHash Keys Policy GoJson GoNet Lua ValkeyServer.

Local Open Scope string_scope.
Local Open Scope list_scope.
Local Open Scope Z_scope.

Definition reply := list string.

Definition max_state_bytes : Z := 131072.
Definition max_allocator_bytes : Z := 1048576.

(** ** Canonical decimal integers *)

Definition canonical_unsigned (value : option string) : bool :=
  match value with
  | Some value => (strlen value <=? 16) && (bool_decide (value = "0") || positiveDigits value)
  | None => false
  end.

Definition canonical_signed (value : option string) : bool :=
  if canonical_unsigned value then true else
  match value with
  | Some value =>
      if (17 <? strlen value) || negb (bool_decide (stake 1 value = "-")) then false
      else positiveDigits (sdrop 1 value)
  | None => false
  end.

Definition whole (x : float64) : bool := feq x (ffloor x).
Definition beyondExact (x : float64) : bool := flt x (fopp max_exact) || flt max_exact x.

(** [canonical_signed(raw)] and a whole number within [max_exact]. *)
Definition exactSigned (raw : option string) : bool :=
  canonical_signed raw &&
  match tonumberOf raw with Some x => whole x && negb (beyondExact x) | None => false end.

(** [canonical_unsigned(raw)] and a whole number from 0 to [max_exact]. *)
Definition exactUnsigned (raw : option string) : bool :=
  canonical_unsigned raw &&
  match tonumberOf raw with
  | Some x => whole x && negb (flt x (Zero false) || flt max_exact x)
  | None => false
  end.

(** [redis.call('TIME')] as microseconds, or the client's time. *)
Definition scriptTime (server_clock now : string) : prog (option float64) :=
  if bool_decide (server_clock = "1") then
    server ← call TIME;
    seconds ← number (tonumber server.1);
    micros ← number (tonumber server.2);
    mret (Some (fadd (fmul seconds (ofZ 1000000)) micros))
  else mret (tonumber now).

(** [MEMORY USAGE] of a strict script. *)
Definition checkMemory (strict : bool) (corrupt : reply) (k : prog reply) : prog reply :=
  if strict then
    state_bytes ← call MEMORY_USAGE;
    match state_bytes with
    | Some n => if max_allocator_bytes <? n then mret corrupt else k
    | None => mret corrupt
    end
  else k.

(** The identity of a stored hash, compared field by field. *)
Definition checkIdentity (schema policy_id algorithm : string) (mismatch : reply) (k : prog reply) : prog reply :=
  stored ← call (HGET "schema");
  if negb (bool_decide (stored = Some schema)) then mret mismatch else
  stored ← call (HGET "policy_id");
  if negb (bool_decide (stored = Some policy_id)) then mret mismatch else
  stored ← call (HGET "algorithm");
  if negb (bool_decide (stored = Some algorithm)) then mret mismatch else k.

(** ** admitScriptBody *)

Record arguments := mkArguments {
  a_strict : bool;
  a_schema : string;
  a_algorithm : string;
  a_policy_id : string;
  a_revision : string;
  a_capacity : float64;
  a_burst : float64;
  a_period : float64;
  a_cost : float64;
  a_ttl : option float64
}.
Definition a_limit (a : arguments) : float64 := fadd (a_capacity a) (a_burst a).

Definition refusedReply (reason : string) : reply := ["-1"; "0"; "0"; "0"; "0"; reason].
Definition corrupt : reply := refusedReply "corrupt".
Definition overflow : reply := refusedReply "overflow".

Definition ceiling (strict : bool) (value divisor : float64) : float64 :=
  if strict then fadd (ffloor (fdiv (fsub value (ofZ 1)) divisor)) (ofZ 1)
  else ffloor (fdiv (fsub (fadd value divisor) (ofZ 1)) divisor).

(** The start of the fixed window of a time. *)
Definition fixedWindow (a : arguments) (now : float64) : float64 := fmul (ffloor (fdiv now (a_period a))) (a_period a).

Definition windowOverflows (a : arguments) (now : float64) : bool :=
  bool_decide (a_algorithm a = FixedWindow) && beyondExact (fixedWindow a now).

(** The strict range checks before any state is touched. *)
Definition guardTime (a : arguments) (now : option float64) (k : prog reply) : prog reply :=
  if a_strict a then
    now ← number now;
    if beyondExact now || flt max_exact (a_period a) || flt (fsub max_exact (a_period a)) now then mret overflow else
    if windowOverflows a now then mret overflow else k
  else k.

(** Check the stored hash or create it. *)
Definition openHash (a : arguments) (now : option float64) (k : prog reply) : prog reply :=
  exists_ ← call EXISTS;
  if exists_ =? 1 then
    checkMemory (a_strict a) corrupt (checkIdentity (a_schema a) (a_policy_id a) (a_algorithm a) corrupt k)
  else
    now ← number now;
    _ ← call (HSET [("schema", a_schema a); ("policy_id", a_policy_id a); ("algorithm", a_algorithm a);
                    ("revision", a_revision a); ("tokens", integer (a_limit a)); ("remainder", "0");
                    ("last", integer now); ("window", "0"); ("used", "0")]);
    if a_strict a then _ ← call (HSET [("period", integer (a_period a)); ("carried", "0")]); k else k.

Definition slotField (slot : Z) : string := "b" +:+ formatUint slot.
Definition slots : list Z := [0; 1; 2; 3; 4; 5; 6; 7; 8; 9; 10; 11; 12; 13; 14; 15].

Definition baseFields : list string :=
  ["schema"; "policy_id"; "algorithm"; "revision"; "tokens"; "remainder"; "last"; "window"; "used"; "period"; "carried"].
Definition allowed_fields (algorithm : string) : list string :=
  baseFields ++ (if bool_decide (algorithm = SlidingWindow) then slotField <$> slots else []).
Definition max_fields (algorithm : string) : Z := if bool_decide (algorithm = SlidingWindow) then 27 else 11.

Fixpoint checkKeys (algorithm : string) (names : list string) (state_bytes : Z) (k : prog reply) : prog reply :=
  match names with
  | [] => k
  | field :: rest =>
      value_bytes ← call (HSTRLEN field);
      let state_bytes := state_bytes + strlen field + value_bytes in
      if (66 <? strlen field) || (128 <? value_bytes) || (max_state_bytes <? state_bytes) ||
         negb (bool_decide (field ∈ allowed_fields algorithm))
      then mret corrupt else checkKeys algorithm rest state_bytes k
  end.

Definition checkFields (a : arguments) (k : prog reply) : prog reply :=
  if a_strict a then
    n ← call HLEN;
    if max_fields (a_algorithm a) <? n then mret corrupt else
    names ← call HKEYS;
    checkKeys (a_algorithm a) names 0 k
  else k.

Definition window_algorithm (algorithm : string) : bool :=
  bool_decide (algorithm = FixedWindow) || bool_decide (algorithm = SlidingWindow).

Definition metadataCorrupt (a : arguments) (stored_period_raw carried_raw : option string) : bool :=
  (window_algorithm (a_algorithm a) && bool_decide (stored_period_raw <> None) &&
   (negb (canonical_unsigned stored_period_raw) ||
    match tonumberOf stored_period_raw with
    | Some stored_period => negb (whole stored_period) || negb (feq stored_period (a_period a))
    | None => true
    end)) ||
  (bool_decide (carried_raw <> None) && bool_decide (carried_raw <> Some "0") && bool_decide (carried_raw <> Some "1")).

(** What an algorithm decided. *)
Record verdict := mkVerdict {
  v_allowed : bool; v_remaining : float64; v_reset : float64; v_retry : float64; v_carried : bool
}.

(** The common end: the metadata, the expiry and the reply. *)
Definition finish (a : arguments) (now : float64) (v : verdict) : prog reply :=
  _ ← (if a_strict a
       then call (HSET [("last", integer now); ("revision", a_revision a); ("period", integer (a_period a));
                        ("carried", if v_carried v then "1" else "0")])
       else call (HSET [("last", integer now)]));
  ttl ← number (a_ttl a);
  _ ← call (PEXPIRE ttl);
  mret ((if v_allowed v
         then ["1"; integer (v_remaining v); integer (a_limit a); integer (v_reset v); "0"; "allowed"]
         else ["0"; integer (v_remaining v); integer (a_limit a); integer (v_reset v); integer (v_retry v); "limited"]) ++
        (if a_strict a then [integer now] else [])).

(** *** Token bucket *)

Definition tokenCorrupt (a : arguments) (sameRevision : bool) (tokens_raw remainder_raw last_raw : option string) : bool :=
  negb (exactUnsigned tokens_raw) || negb (exactUnsigned remainder_raw) || negb (exactSigned last_raw) ||
  match tonumberOf remainder_raw with Some remainder => sameRevision && fle (a_period a) remainder | None => true end ||
  match tonumberOf tokens_raw with Some tokens => sameRevision && flt (a_limit a) tokens | None => true end.

Definition refillBranch (a : arguments) (tokens remainder elapsed : float64) : float64 * float64 :=
  if flt (Zero false) elapsed && flt tokens (a_limit a) then
    if flt (ffloor (fdiv (fsub max_exact remainder) (a_capacity a))) elapsed then (a_limit a, Zero false) else
    let numerator := fadd (fmul elapsed (a_capacity a)) remainder in
    let added := ffloor (fdiv numerator (a_period a)) in
    let remainder := fmod numerator (a_period a) in
    let tokens := mathMin (a_limit a) (fadd tokens added) in
    (tokens, if feq tokens (a_limit a) then Zero false else remainder)
  else (tokens, remainder).

(** The price of [missing] tokens in microseconds. *)
Definition refillTime (a : arguments) (missing remainder : float64) : float64 :=
  ceiling (a_strict a) (fsub (fmul missing (a_period a)) remainder) (a_capacity a).

(** Grant or refuse on the refilled bucket. *)
Definition tokenDecide (a : arguments) (now tokens remainder : float64) (carried : bool) : prog reply :=
  let allowed := fle (a_cost a) tokens in
  let retry := if allowed then Zero false else refillTime a (fsub (a_cost a) tokens) remainder in
  let tokens := if allowed then fsub tokens (a_cost a) else tokens in
  let reset := fadd now (mathMax (Zero false) (refillTime a (fsub (a_limit a) tokens) remainder)) in
  _ ← call (HSET [("tokens", integer tokens); ("remainder", integer remainder); ("last", integer now)]);
  finish a now (mkVerdict allowed tokens reset retry carried).

Definition tokenBranch (a : arguments) (now : float64) (sameRevision carried : bool) : prog reply :=
  tokens_raw ← call (HGET "tokens");
  remainder_raw ← call (HGET "remainder");
  last_raw ← call (HGET "last");
  if a_strict a && tokenCorrupt a sameRevision tokens_raw remainder_raw last_raw then mret corrupt else
  tokens ← number (tonumberOf tokens_raw);
  remainder ← number (tonumberOf remainder_raw);
  last ← number (tonumberOf last_raw);
  let '(tokens, remainder, last) :=
    if a_strict a && negb sameRevision then (mathMin tokens (a_limit a), Zero false, now) else (tokens, remainder, last) in
  let '(tokens, remainder) := refillBranch a tokens remainder (mathMax (Zero false) (fsub now last)) in
  tokenDecide a now tokens remainder carried.

(** *** Fixed window *)

Definition fixedCorrupt (a : arguments) (sameRevision carried : bool) (stored_raw used_raw : option string) : bool :=
  negb (exactSigned stored_raw) || negb (exactUnsigned used_raw) ||
  match tonumberOf used_raw with Some used => sameRevision && flt (a_limit a) used && negb carried | None => true end.

(** Grant or refuse on the usage of the window. *)
Definition fixedDecide (a : arguments) (now window used : float64) (carried : bool) : prog reply :=
  let remaining := mathMax (Zero false) (fsub (a_limit a) used) in
  let reset := fadd window (a_period a) in
  let allowed := fle (a_cost a) remaining in
  let used := if allowed then fadd used (a_cost a) else used in
  let remaining := if allowed then fsub (a_limit a) used else remaining in
  let retry := if allowed then Zero false else mathMax (Zero false) (fsub reset now) in
  let carried := if fle used (a_limit a) then false else carried in
  _ ← call (HSET [("window", integer window); ("used", integer used)]);
  finish a now (mkVerdict allowed remaining reset retry carried).

Definition fixedBranch (a : arguments) (now : float64) (sameRevision carried : bool) : prog reply :=
  let window := fixedWindow a now in
  stored_raw ← call (HGET "window");
  used_raw ← call (HGET "used");
  let stored := tonumberOf stored_raw in
  let used := tonumberOf used_raw in
  if a_strict a && fixedCorrupt a sameRevision carried stored_raw used_raw then mret corrupt else
  carried ← (if a_strict a && negb sameRevision then used ← number used; mret (flt (a_limit a) used) else mret carried);
  let same := match stored with Some stored => feq stored window | None => false end in
  let '(used, carried) := if same then (used, carried) else (Some (Zero false), false) in
  used ← number used;
  fixedDecide a now window used carried.

(** *** Sliding window *)

Definition slidingWidth (a : arguments) : float64 := ffloor (fdiv (fadd (a_period a) (ofZ 15)) (ofZ 16)).

Record scan := mkScan {
  sc_used : float64; sc_earliest : option float64; sc_expired : list string; sc_seen : list float64
}.

(** The placement of a live slot: [seen] grows, or the hash is corrupt. *)
Definition placeSlot (oldest current : float64) (slot : Z) (idx value : option float64) (seen : list float64)
    : option (list float64) :=
  match idx, value with
  | Some idx, Some value =>
      if flt (Zero false) value && flt oldest idx then
        if flt current idx || negb (feq (fmod idx (ofZ 16)) (ofZ slot)) || existsb (feq idx) seen then None
        else Some (idx :: seen)
      else Some seen
  | _, _ => None
  end.

(** A live slot adds its value. *)
Definition countSlot (sc : scan) (idx value : float64) (seen : list float64) : scan :=
  mkScan (fadd (sc_used sc) value)
    (if flt (Zero false) value &&
        match sc_earliest sc with Some earliest => flt idx earliest | None => true end
     then Some idx else sc_earliest sc)
    (sc_expired sc) seen.

Fixpoint scanSlots (a : arguments) (oldest current : float64) (todo : list Z) (sc : scan) (k : scan -> prog reply)
    : prog reply :=
  match todo with
  | [] => k sc
  | slot :: rest =>
      encoded ← call (HGET (slotField slot));
      match encoded with
      | None => scanSlots a oldest current rest sc k
      | Some encoded =>
          match cutColon encoded with
          | None => if a_strict a then mret corrupt else Raise
          | Some (idx_raw, value_raw) =>
              if a_strict a && negb (exactSigned (Some idx_raw) && exactUnsigned (Some value_raw)) then mret corrupt else
              let idx := tonumber idx_raw in
              let value := tonumber value_raw in
              match (if a_strict a then placeSlot oldest current slot idx value (sc_seen sc) else Some (sc_seen sc)) with
              | None => mret corrupt
              | Some seen =>
                  idx ← number idx;
                  if fle idx oldest then
                    if a_strict a then
                      scanSlots a oldest current rest
                        (mkScan (sc_used sc) (sc_earliest sc) (sc_expired sc ++ [slotField slot]) seen) k
                    else _ ← call (HDEL (slotField slot)); scanSlots a oldest current rest sc k
                  else
                    value ← number value;
                    if a_strict a && flt (fsub max_exact (sc_used sc)) value then mret corrupt else
                    scanSlots a oldest current rest (countSlot sc idx value seen) k
              end
          end
      end
  end.

Fixpoint deleteFields (names : list string) (k : prog reply) : prog reply :=
  match names with
  | [] => k
  | field :: rest => _ ← call (HDEL field); deleteFields rest k
  end.

(** Write the cost into the current slot. *)
Definition writeSlot (a : arguments) (current : float64) (k : prog reply) : prog reply :=
  let field := "b" +:+ integer (fmod current (ofZ 16)) in
  encoded ← call (HGET field);
  value ← (match encoded with
           | Some encoded =>
               match tonumberOf (matchHead encoded) with
               | Some idx => if feq idx current then number (tonumberOf (matchTail encoded)) else mret (Zero false)
               | None => mret (Zero false)
               end
           | None => mret (Zero false)
           end);
  _ ← call (HSET [(field, integer current +:+ ":" +:+ integer (fadd value (a_cost a)))]);
  k.

Definition decideSliding (a : arguments) (now : float64) (sameRevision carried : bool) (width current : float64)
    (sc : scan) : prog reply :=
  let used := sc_used sc in
  if a_strict a && sameRevision && flt (a_limit a) used && negb carried then mret corrupt else
  let carried := if a_strict a && negb sameRevision then flt (a_limit a) used else carried in
  deleteFields (if a_strict a then sc_expired sc else [])
   (let carried := if fle used (a_limit a) then false else carried in
    let remaining := mathMax (Zero false) (fsub (a_limit a) used) in
    let reset := match sc_earliest sc with
                 | Some earliest => fadd (fmul (fadd earliest (ofZ 1)) width) (a_period a)
                 | None => fadd now (a_period a)
                 end in
    if fle (a_cost a) remaining then
      writeSlot a current
        (finish a now (mkVerdict true (fsub remaining (a_cost a)) reset (Zero false) carried))
    else finish a now (mkVerdict false remaining reset (mathMax (Zero false) (fsub reset now)) carried)).

Definition slidingBranch (a : arguments) (now : float64) (sameRevision carried : bool) : prog reply :=
  let width := slidingWidth a in
  let current := ffloor (fdiv now width) in
  let oldest := ffloor (fdiv (fsub now (a_period a)) width) in
  scanSlots a oldest current slots (mkScan (Zero false) None [] [])
    (decideSliding a now sameRevision carried width current).

(** *** The script *)

Definition runAlgorithm (a : arguments) (now : float64) (sameRevision carried : bool) : prog reply :=
  if bool_decide (a_algorithm a = TokenBucket) then tokenBranch a now sameRevision carried else
  if bool_decide (a_algorithm a = FixedWindow) then fixedBranch a now sameRevision carried else
  if bool_decide (a_algorithm a = SlidingWindow) then slidingBranch a now sameRevision carried else
  mret corrupt.

(** The stored metadata and the clamp of the time. *)
Definition admitStored (a : arguments) (now : option float64) : prog reply :=
  stored_revision ← call (HGET "revision");
  stored_period_raw ← call (HGET "period");
  carried_raw ← call (HGET "carried");
  if a_strict a && metadataCorrupt a stored_period_raw carried_raw then mret corrupt else
  observed_raw ← call (HGET "last");
  if a_strict a && negb (exactSigned observed_raw) then mret corrupt else
  now ← number now;
  observed ← number (tonumberOf observed_raw);
  let now := if flt now observed then observed else now in
  if a_strict a && flt (fsub max_exact (a_period a)) now then mret overflow else
  if a_strict a && windowOverflows a now then mret overflow else
  let proceed := runAlgorithm a now (bool_decide (stored_revision = Some (a_revision a))) (bool_decide (carried_raw = Some "1")) in
  if a_strict a then proceed else _ ← call (HSET [("revision", a_revision a)]); proceed.

Definition admitArguments (a : arguments) (now : option float64) : prog reply :=
  guardTime a now (openHash a now (checkFields a (admitStored a now))).

Definition admitScriptBody (strict : bool) (ARGV : list string) : prog reply :=
  match ARGV with
  | schema :: algorithm :: policy_id :: revision :: capacity :: burst :: period :: cost :: now :: server_clock :: ttl :: _ =>
      capacity ← number (tonumber capacity);
      burst ← number (tonumber burst);
      now ← scriptTime server_clock now;
      period ← number (tonumber period);
      if fle period (Zero false) || fle capacity (Zero false) then mret overflow else
      cost ← number (tonumber cost);
      if fle cost (Zero false) || flt max_exact (fadd capacity burst) then mret overflow else
      admitArguments (mkArguments strict schema algorithm policy_id revision capacity burst period cost (tonumber ttl)) now
  | _ => Raise
  end.

Definition admitScript : list string -> prog reply := admitScriptBody false.
Definition strictAdmitScript : list string -> prog reply := admitScriptBody true.

(** ** The lease scripts *)

Definition leaseRefusal (reason : string) : reply := ["-1"; "0"; "0"; "0"; "0"; reason; "0"].
Definition leaseCorrupt : reply := leaseRefusal "corrupt".

Definition valid_lease_field (value : string) : bool :=
  (strlen value =? 66) && bool_decide (stake 2 value = "l:") && lowerHexDigits (sdrop 2 value).

Definition leaseBaseFields : list string := ["schema"; "policy_id"; "algorithm"; "revision"; "last"].
Definition maxLeaseFields : Z := 1029.

(** The sizes and names of the fields of a strict hash. *)
Fixpoint leaseFieldsValid (fields : list (string * string)) (state_bytes : Z) : bool :=
  match fields with
  | [] => true
  | (field, value) :: rest =>
      let state_bytes := state_bytes + strlen field + strlen value in
      if (66 <? strlen field) || (128 <? strlen value) || (max_state_bytes <? state_bytes) ||
         (negb (bool_decide (field ∈ leaseBaseFields)) && negb (valid_lease_field field))
      then false else leaseFieldsValid rest state_bytes
  end.

(** [lease_cost] and [expires] of a stored lease, canonical and in range. *)
Definition leaseValid (lease_cost_raw expires_raw : string) : bool :=
  canonical_unsigned (Some lease_cost_raw) && exactSigned (Some expires_raw) &&
  match tonumber lease_cost_raw with
  | Some lease_cost => whole lease_cost && negb (fle lease_cost (Zero false)) && negb (flt (ofZ 1024) lease_cost)
  | None => false
  end.

Definition leaseOutsideRange (now lease_us : float64) : bool :=
  beyondExact now || fle lease_us (Zero false) || flt max_exact lease_us || flt (fsub max_exact lease_us) now.

Record leaseArguments := mkLeaseArguments {
  l_strict : bool;
  l_schema : string;
  l_policy_id : string;
  l_revision : string;
  l_limit : option float64;
  l_cost : option float64;
  l_lease_us : option float64;
  l_ttl_ms : option float64;
  l_field : string
}.

Definition guardLeaseTime (l : leaseArguments) (now : option float64) (k : prog reply) : prog reply :=
  if l_strict l then
    now ← number now;
    if beyondExact now then mret (leaseRefusal "overflow") else
    lease_us ← number (l_lease_us l);
    if leaseOutsideRange now lease_us then mret (leaseRefusal "overflow") else k
  else k.

Definition openLeaseHash (l : leaseArguments) (now : option float64) (k : prog reply) : prog reply :=
  exists_ ← call EXISTS;
  if exists_ =? 1 then
    checkMemory (l_strict l) leaseCorrupt
      (checkIdentity (l_schema l) (l_policy_id l) Concurrency leaseCorrupt k)
  else
    now ← number now;
    _ ← call (HSET [("schema", l_schema l); ("policy_id", l_policy_id l); ("algorithm", Concurrency);
                    ("revision", l_revision l); ("last", integer now)]);
    k.

Record leaseScan := mkLeaseScan { ls_used : float64; ls_earliest : float64; ls_expired : list string }.

Definition countLease (sc : leaseScan) (lease_cost expires : float64) : leaseScan :=
  mkLeaseScan (fadd (ls_used sc) lease_cost)
    (if feq (ls_earliest sc) (Zero false) || flt expires (ls_earliest sc) then expires else ls_earliest sc)
    (ls_expired sc).

Fixpoint scanLeases (strict : bool) (now : float64) (fields : list (string * string)) (sc : leaseScan)
    (k : leaseScan -> prog reply) : prog reply :=
  match fields with
  | [] => k sc
  | (field, encoded) :: rest =>
      if bool_decide (stake 2 field = "l:") then
        match cutColon encoded with
        | None => if strict then mret leaseCorrupt else Raise
        | Some (lease_cost_raw, expires_raw) =>
            if strict && negb (leaseValid lease_cost_raw expires_raw) then mret leaseCorrupt else
            expires ← number (tonumber expires_raw);
            if fle expires now then
              if strict then
                scanLeases strict now rest (mkLeaseScan (ls_used sc) (ls_earliest sc) (ls_expired sc ++ [field])) k
              else _ ← call (HDEL field); scanLeases strict now rest sc k
            else
              lease_cost ← number (tonumber lease_cost_raw);
              if fle lease_cost (Zero false) || flt (fsub (ofZ 1024) (ls_used sc)) lease_cost then mret leaseCorrupt else
              scanLeases strict now rest (countLease sc lease_cost expires) k
        end
      else scanLeases strict now rest sc k
  end.

(** [existing_cost ~= cost] where both may be [nil]. *)
Definition luaEqual (x y : option float64) : bool :=
  match x, y with
  | Some x, Some y => feq x y
  | None, None => true
  | _, _ => false
  end.

Definition leaseReply (strict : bool) (now : float64) (fields : reply) : prog reply :=
  mret (fields ++ (if strict then [integer now] else [])).

(** The lease exists: a retry of its owner, or another request's lease. *)
Definition retryLease (l : leaseArguments) (now : float64) (sc : leaseScan) (existing : string) : prog reply :=
  match cutColon existing with
  | None => Raise
  | Some (existing_cost_raw, expires_raw) =>
      if l_strict l && (negb (canonical_unsigned (Some existing_cost_raw)) || negb (canonical_signed (Some expires_raw)))
      then mret leaseCorrupt else
      if negb (luaEqual (tonumber existing_cost_raw) (l_cost l)) then mret (leaseRefusal "not_owned") else
      ttl ← number (l_ttl_ms l);
      _ ← call (PEXPIRE ttl);
      limit ← number (l_limit l);
      expires ← number (tonumber expires_raw);
      leaseReply (l_strict l) now
        ["1"; integer (fsub limit (mathMin (ls_used sc) limit)); integer limit; integer expires; "0"; "allowed"; integer expires]
  end.

Definition grantLease (l : leaseArguments) (now : float64) (sc : leaseScan) : prog reply :=
  limit ← number (l_limit l);
  let remaining := mathMax (Zero false) (fsub limit (ls_used sc)) in
  cost ← number (l_cost l);
  if flt remaining cost then
    leaseReply (l_strict l) now
      ["0"; integer remaining; integer limit; integer (ls_earliest sc);
       integer (mathMax (Zero false) (fsub (ls_earliest sc) now)); "limited"; "0"]
  else
    lease_us ← number (l_lease_us l);
    let expires := fadd now lease_us in
    _ ← call (HSET [(l_field l, integer cost +:+ ":" +:+ integer expires)]);
    ttl ← number (l_ttl_ms l);
    _ ← call (PEXPIRE ttl);
    leaseReply (l_strict l) now
      ["1"; integer (fsub remaining cost); integer limit; integer expires; "0"; "allowed"; integer expires].

Definition decideLeaseScript (l : leaseArguments) (now : float64) (sc : leaseScan) : prog reply :=
  let proceed :=
    existing ← call (HGET (l_field l));
    match existing with
    | Some existing => retryLease l now sc existing
    | None => grantLease l now sc
    end in
  if l_strict l then
    deleteFields (ls_expired sc)
      (_ ← call (HSET [("last", integer now); ("revision", l_revision l)]); proceed)
  else proceed.

Definition acquireStored (l : leaseArguments) (now : option float64) : prog reply :=
  n ← call HLEN;
  if maxLeaseFields <? n then mret leaseCorrupt else
  fields ← call HGETALL;
  if l_strict l && negb (leaseFieldsValid fields 0) then mret leaseCorrupt else
  observed_raw ← call (HGET "last");
  if l_strict l && negb (exactSigned observed_raw) then mret leaseCorrupt else
  now ← number now;
  observed ← number (tonumberOf observed_raw);
  let now := if flt now observed then observed else now in
  let proceed := scanLeases (l_strict l) now fields (mkLeaseScan (Zero false) (Zero false) [])
                   (decideLeaseScript l now) in
  if l_strict l then
    lease_us ← number (l_lease_us l);
    if flt (fsub max_exact lease_us) now then mret (leaseRefusal "overflow") else proceed
  else
    _ ← call (HSET [("last", integer now)]);
    _ ← call (HSET [("revision", l_revision l)]);
    proceed.

Definition acquireArguments (l : leaseArguments) (now : option float64) : prog reply :=
  guardLeaseTime l now (openLeaseHash l now (acquireStored l now)).

Definition acquireLeaseScriptBody (strict : bool) (ARGV : list string) : prog reply :=
  match ARGV with
  | schema :: policy_id :: revision :: limit :: cost :: now :: lease_us :: ttl_ms :: server_clock :: lease :: _ =>
      now ← scriptTime server_clock now;
      acquireArguments
        (mkLeaseArguments strict schema policy_id revision (tonumber limit) (tonumber cost) (tonumber lease_us)
           (tonumber ttl_ms) ("l:" +:+ lease)) now
  | _ => Raise
  end.

Definition acquireLeaseScript : list string -> prog reply := acquireLeaseScriptBody false.
Definition strictAcquireLeaseScript : list string -> prog reply := acquireLeaseScriptBody true.

(** The strict checks of a release: sizes, names and every lease. *)
Fixpoint releaseFieldsValid (fields : list (string * string)) (used : float64) (state_bytes : Z) : bool :=
  match fields with
  | [] => true
  | (name, encoded) :: rest =>
      let state_bytes := state_bytes + strlen name + strlen encoded in
      if (66 <? strlen name) || (128 <? strlen encoded) || (max_state_bytes <? state_bytes) then false else
      if bool_decide (name ∈ leaseBaseFields) then releaseFieldsValid rest used state_bytes else
      if negb (valid_lease_field name) then false else
      match cutColon encoded with
      | None => false
      | Some (lease_cost_raw, expires_raw) =>
          if negb (leaseValid lease_cost_raw expires_raw) then false else
          match tonumber lease_cost_raw with
          | Some lease_cost =>
              if flt (fsub (ofZ 1024) used) lease_cost then false
              else releaseFieldsValid rest (fadd used lease_cost) state_bytes
          | None => false
          end
      end
  end.

Definition checkRelease (strict : bool) (k : prog reply) : prog reply :=
  if strict then
    n ← call HLEN;
    if maxLeaseFields <? n then mret ["corrupt"] else
    fields ← call HGETALL;
    observed_raw ← call (HGET "last");
    if negb (exactSigned observed_raw) then mret ["corrupt"] else
    if negb (releaseFieldsValid fields (Zero false) 0) then mret ["corrupt"] else k
  else k.

Definition releaseOwned (field owned : string) : prog reply :=
  existing ← call (HGET field);
  match existing with
  | None => mret ["not_found"]
  | Some existing =>
      if negb (bool_decide (existing = owned)) then mret ["not_owned"] else
      _ ← call (HDEL field);
      n ← call HLEN;
      if n =? 5 then _ ← call DEL; mret ["ok"] else mret ["ok"]
  end.

Definition releaseLeaseScriptBody (strict : bool) (ARGV : list string) : prog reply :=
  match ARGV with
  | schema :: policy_id :: lease :: cost :: expires :: _ =>
      exists_ ← call EXISTS;
      if exists_ =? 0 then mret ["not_found"] else
      checkMemory strict ["corrupt"]
        (checkIdentity schema policy_id Concurrency (if strict then ["corrupt"] else ["not_found"])
          (checkRelease strict (releaseOwned ("l:" +:+ lease) (cost +:+ ":" +:+ expires))))
  | _ => Raise
  end.

Definition releaseLeaseScript : list string -> prog reply := releaseLeaseScriptBody false.
Definition strictReleaseLeaseScript : list string -> prog reply := releaseLeaseScriptBody true.
