(* ===== verification/ValkeyStore.v ===== *)
(** * The Valkey backend (valkey/store.go, native.go, lease.go, strict.go)

    The client library is a parameter: a [Client] runs one of the six scripts and
    reports the server's version and eviction policy; each call may fail, panic or
    change the world.  The contexts of [context.WithTimeout] are parameters too.
    What the scripts do on the server is [ValkeyScripts]. *)

From S2P Require Import Prelude GoTime GoHash Errors Keys Policy Backend GoJson GoNet.

Local Open Scope string_scope.
Local Open Scope list_scope.
Local Open Scope Z_scope.

Definition MaxPrefixBytes : Z := 64.

Inductive ClockPolicy := ClientClock | ServerClock | UnknownClock.

#[global] Instance ValkeyClockPolicy_eq_dec : EqDecision ClockPolicy.
Proof. solve_decision. Defined.

Record Options := mkOptions { Prefix : string; Timeout : Duration; opt_Clock : ClockPolicy }.

(** The scripts registered with the client. *)
Inductive script :=
| nativeAdmitScript | nativeStrictAdmitScript | nativeAcquireScript | nativeStrictAcquireScript
| nativeReleaseScript | nativeStrictReleaseScript.

#[global] Instance script_eq_dec : EqDecision script.
Proof. solve_decision. Defined.

(** [valkeygo.Client]: a script's reply is an array of messages, each of which may
    fail to be a string; the INFO section and the configuration map. *)
Record Client (W : Type) := mkClient {
  execScript : Context W -> script -> list string -> list string -> M W (result error (list (result error string)));
  client_info : Context W -> M W (result error string);
  client_config : Context W -> M W (result error (gmap string string))
}.
Arguments mkClient {W} _ _ _.
Arguments execScript {W} _ _ _ _ _.
Arguments client_info {W} _ _.
Arguments client_config {W} _ _.

(** ** Pure helpers *)

(** [strconv.ParseInt(s, 10, 64)]: a sign, then digits. *)
Definition parseInt64 (s : string) : option Z :=
  match s with
  | String c rest =>
      if at_byte 43 c then
        match ParseUint rest with
        | Some n => if n <? two63 then Some n else None
        | None => None
        end
      else ParseInt s
  | EmptyString => None
  end.

(** [strconv.ParseBool]. *)
Definition ParseBool (s : string) : option bool :=
  if bool_decide (s ∈ ["1"; "t"; "T"; "TRUE"; "true"; "True"]) then Some true else
  if bool_decide (s ∈ ["0"; "f"; "F"; "FALSE"; "false"; "False"]) then Some false else None.

Definition serverClockFlag (opts : Options) : string := if bool_decide (opt_Clock opts = ServerClock) then "1" else "0".

Definition storeKey (opts : Options) (policyID key : string) : string :=
  Prefix opts +:+ ":{" +:+ hexEncode (sha256 (policyID +:+ NUL +:+ key)) +:+ "}".
Definition key (opts : Options) (request : Request) : string :=
  storeKey opts (id (req_Policy request)) (key_value (req_Key request)).

(** [args] with its TTL. *)
Definition argsWith (opts : Options) (request : Request) (ttl : Duration) : list string :=
  let policy := req_Policy request in
  ["1"; algorithm policy; id policy; revision policy; formatUint (capacity policy); formatUint (burst policy);
   formatInt (Microseconds (period policy)); formatUint (Cost request); formatInt (UnixMicro (Now request));
   serverClockFlag opts; formatInt (ttl ÷ Millisecond)].
Definition args (opts : Options) (request : Request) : list string :=
  argsWith opts request (Z.max (period (req_Policy request) *i 2) Second).

Definition valkeyStateTTL (duration : Duration) : Duration :=
  if MaxInt64 ÷ 2 <? duration then MaxInt64 else Z.max (duration *i 2) Second.

Definition strictArgs (opts : Options) (request : Request) : list string :=
  argsWith opts request (valkeyStateTTL (period (req_Policy request))) ++ ["strict"].

(** ** Replies *)

Definition corruptReply (message : string) : Decision * option error := (emptyDecision, Some (errorf ErrCorrupt message)).

Definition decodeDecision (reply : list string) : Decision * option error :=
  match reply with
  | [allowed; remaining; limit; reset; retry; reason] =>
      if bool_decide (allowed = "-1") then
        (emptyDecision, Some (Sent (if bool_decide (reason = "overflow") then ErrOverflow else ErrCorrupt)))
      else
      match ParseBool allowed with
      | None => corruptReply "allowed"
      | Some allowed =>
      match ParseUint remaining with
      | None => corruptReply "remaining"
      | Some remaining =>
      match ParseUint limit with
      | None => corruptReply "limit"
      | Some limit =>
      match parseInt64 reset with
      | None => corruptReply "reset"
      | Some resetMicros =>
      match parseInt64 retry with
      | None => corruptReply "retry-after"
      | Some retryMicros =>
          if retryMicros <? 0 then corruptReply "retry-after" else
          if negb (bool_decide (reason = ReasonAllowed)) && negb (bool_decide (reason = ReasonLimited))
          then corruptReply "reason" else
          (mkDecision allowed remaining limit (ofUnixMicro resetMicros) (retryMicros *i Microsecond) reason
             EmptyString EmptyString,
           if negb allowed then Some (Sent ErrRejected) else None)
      end end end end end
  | _ => corruptReply "decision field count"
  end.

Definition strictValkeyCategory (err : option error) : option error :=
  match err with
  | None => None
  | Some err =>
      Some (Sent (
        if errorsIsAt err ErrRejected then ErrRejected else
        if errorsIsAt err ErrOverflow then ErrOverflow else
        if errorsIsAt err ErrCorrupt then ErrCorrupt else
        if errorsIsAt err ErrLeaseNotFound then ErrLeaseNotFound else
        if errorsIsAt err ErrLeaseNotOwned then ErrLeaseNotOwned else ErrCorrupt))
  end.

(** An error other than a rejection. *)
Definition notRejected (err : option error) : bool :=
  match err with Some err => negb (errorsIsAt err ErrRejected) | None => false end.

Definition unknownReply : error := UnknownOutcome None.

Definition decodeStrictDecisionReply (reply : list string) : Decision * option error :=
  let unknown := (emptyDecision, Some unknownReply) in
  if bool_decide (length reply = 6%nat) && bool_decide (reply !! 0%nat = Some "-1") then
    let '(d, err) := decodeDecision reply in (d, strictValkeyCategory err)
  else
  match reply !! 6%nat with
  | Some effective =>
      if negb (bool_decide (length reply = 7%nat)) then unknown else
      match parseInt64 effective with
      | None => unknown
      | Some effectiveMicros =>
          let '(d, resultErr) := decodeDecision (take 6 reply) in
          if notRejected resultErr then unknown else
          if negb (IsZero (Reset d)) && Before (Reset d) (ofUnixMicro effectiveMicros) then unknown else
          (d, strictValkeyCategory resultErr)
      end
  | None => unknown
  end.

Definition decodeLeaseReply (reply : list string) (request : LeaseRequest) : Lease * Decision * option error :=
  let r := lr_Request request in
  match reply with
  | [_; _; _; _; _; reason; expires] =>
      if bool_decide (reason = "not_owned") then (zeroLease, emptyDecision, Some (Sent ErrLeaseNotOwned)) else
      let '(d, err) := decodeDecision (take 6 reply) in
      match parseInt64 expires with
      | None => (zeroLease, emptyDecision, Some (Sent ErrCorrupt))
      | Some expiresMicros =>
          (mkLease (LeaseID request) (req_Key r) (id (req_Policy r)) (revision (req_Policy r)) (Cost r)
             (ofUnixMicro expiresMicros) "valkey", d, err)
      end
  | _ => (zeroLease, emptyDecision, Some (Sent ErrCorrupt))
  end.

(** What a refusal of the strict lease script means. *)
Definition leaseRefused (reason : string) : error :=
  if bool_decide (reason = "overflow") then Sent ErrOverflow else
  if bool_decide (reason = "not_found") then Sent ErrLeaseNotFound else
  if bool_decide (reason = "not_owned") then Sent ErrLeaseNotOwned else
  if bool_decide (reason = "corrupt") then Sent ErrCorrupt else unknownReply.

Definition decodeStrictLeaseReply (reply : list string) (request : LeaseRequest) : Lease * Decision * option error :=
  let fail err := (zeroLease, emptyDecision, Some err) in
  match reply with
  | ["-1"; _; _; _; _; reason; _] => fail (leaseRefused reason)
  | _ =>
      match reply !! 7%nat with
      | Some effective =>
          if negb (bool_decide (length reply = 8%nat)) then fail unknownReply else
          match parseInt64 effective with
          | None => fail unknownReply
          | Some effectiveMicros =>
              let '(l, d, resultErr) := decodeLeaseReply (take 7 reply) request in
              if notRejected resultErr then fail unknownReply else
              let effective := ofUnixMicro effectiveMicros in
              if negb (IsZero (Reset d)) && Before (Reset d) effective then fail unknownReply else
              if errorsIs resultErr ErrRejected then (zeroLease, d, Some (Sent ErrRejected)) else
              if negb (IsZero (ExpiresAt l)) && (negb (After (ExpiresAt l) effective) || negb (Equal (ExpiresAt l) (Reset d)))
              then fail unknownReply else (l, d, strictValkeyCategory resultErr)
          end
      | None => fail unknownReply
      end
  end.

(** The array of messages as strings, or the first error. *)
Fixpoint decodeScriptMessages (messages : list (result error string)) : result error (list string) :=
  match messages with
  | [] => Ok []
  | Err err :: _ => Err err
  | Ok value :: rest => match decodeScriptMessages rest with Ok reply => Ok (value :: reply) | Err err => Err err end
  end.

Definition decodeScriptResult (result : result error (list (result error string))) : Prelude.result error (list string) :=
  match result with Err err => Err err | Ok messages => decodeScriptMessages messages end.

(** ** The startup check *)

(** [strings.Cut(value, ".")]: what precedes the first dot. *)
Definition beforeDot (value : string) : string :=
  match indexByte 46 value with Some i => stake i value | None => value end.

Fixpoint majorOf (lines : list string) : option Z :=
  match lines with
  | [] => None
  | line :: rest =>
      match stripPrefix "valkey_version:" (TrimSpace line) with
      | Some value => parseInt64 (beforeDot value)
      | None => majorOf rest
      end
  end.
Definition valkeyMajor (info : string) : option Z := majorOf (splitByte 10 info).

Definition supported (major : option Z) : bool := match major with Some major => negb (major <? 9) | None => false end.
Definition noeviction (config : gmap string string) : bool := bool_decide (config !! "maxmemory-policy" = Some "noeviction").

Section Store.
Context {W : Type}.
Context (withTimeout : Context W -> Duration -> Context W).

(** ** Executors *)

(** The native executor, or another, as in tests, which may or may not handle
    leases. *)
Inductive executor :=
| nativeExecutor (client : Client W)
| otherExecutor
    (run : Context W -> list string -> list string -> M W (result error (list string)))
    (leases : option ((Context W -> list string -> list string -> M W (result error (list string))) *
                      (Context W -> list string -> list string -> M W (result error (list string))))).

Definition executeScript (client : Client W) (ctx : Context W) (s : script) (keys args : list string)
    : M W (result error (list string)) :=
  reply ← execScript client ctx s keys args;
  mret (decodeScriptResult reply).

(** A trailing "strict" selects the strict identity of a script. *)
Definition chooseScript (released strict : script) (count : nat) (args : list string) : script :=
  if bool_decide (length args = count) && bool_decide (args !! (count - 1)%nat = Some "strict") then strict else released.

Definition exec (e : executor) (ctx : Context W) (keys args : list string) : M W (result error (list string)) :=
  match e with
  | nativeExecutor client => executeScript client ctx (chooseScript nativeAdmitScript nativeStrictAdmitScript 12 args) keys args
  | otherExecutor run _ => run ctx keys args
  end.

(** [store.executor.(leaseExecutor)] *)
Definition leaseExecutor (e : executor)
    : option ((Context W -> list string -> list string -> M W (result error (list string))) *
              (Context W -> list string -> list string -> M W (result error (list string)))) :=
  match e with
  | nativeExecutor client =>
      Some ((fun ctx keys args =>
               executeScript client ctx (chooseScript nativeAcquireScript nativeStrictAcquireScript 11 args) keys args),
            (fun ctx keys args =>
               executeScript client ctx (chooseScript nativeReleaseScript nativeStrictReleaseScript 6 args) keys args))
  | otherExecutor _ leases => leases
  end.

(** ** Construction *)

Record Store := mkStore { st_executor : option executor; st_options : Options }.

(** [strings.ContainsAny(prefix, "{}\x00\r\n ")] *)
Definition unsafePrefixByte (b : Z) : bool := bool_decide (b ∈ [123; 125; 0; 13; 10; 32]).

Definition newStore (e : option executor) (opts : Options) : result error Store :=
  let invalid := Err (errorf ErrInvalidPolicy "safe prefix, timeout, clock, and executor are required") in
  match e with
  | None => invalid
  | Some e =>
      if bool_decide (Prefix opts = EmptyString) then invalid else
      if MaxPrefixBytes <? strlen (Prefix opts) then invalid else
      if Timeout opts <? 1 then invalid else
      if negb (all_bytes (fun b => negb (unsafePrefixByte b)) (Prefix opts)) then invalid else
      if bool_decide (opt_Clock opts = UnknownClock) then invalid else
      Ok (mkStore (Some e) opts)
  end.

Definition New (client : iface (Client W)) (opts : Options) : result error Store :=
  match client with
  | nil_iface => Err (errorf ErrInvalidPolicy "native Valkey client is required")
  | typed_nil client | iface_of client => newStore (Some (nativeExecutor client)) opts
  end.

Definition NewStrict (client : iface (Client W)) (opts : Options) : result error Store :=
  if isNilInterface client then Err (errorf ErrInvalidPolicy "Valkey client is required") else New client opts.

Definition Name : string := "valkey".

(** ** The released methods *)

(** [leaseTransportError], and the same in [Admit]. *)
Definition leaseTransportError (ctx : Context W) (err : error) : M W error :=
  late ← lift (ctxErr ctx);
  mret (Sent (if errorsIs late CtxDeadlineExceeded || errorsIsAt err CtxDeadlineExceeded
              then ErrDeadline else ErrUnavailable)).

Definition Admit (store : Store) (ctx : Context W) (request : Request) : M W (Decision * option error) :=
  match Validate request with
  | Some err => mret (emptyDecision, Some err)
  | None =>
      if bool_decide (algorithm (req_Policy request) = Concurrency)
      then mret (emptyDecision, Some (Sent ErrUnsupported)) else
      let callCtx := withTimeout ctx (Timeout (st_options store)) in
      match st_executor store with
      | None => panic
      | Some e =>
          reply ← exec e callCtx [key (st_options store) request] (args (st_options store) request);
          match reply with
          | Err err => category ← leaseTransportError callCtx err; mret (emptyDecision, Some category)
          | Ok reply => mret (decodeDecision reply)
          end
      end
  end.

Definition digestOf (leaseID : string) : string := hexEncode (sha256 leaseID).

Definition acquireArgs (opts : Options) (request : LeaseRequest) (ttl : Duration) : list string :=
  let r := lr_Request request in
  let policy := req_Policy r in
  ["1"; id policy; revision policy; formatUint (Limit policy); formatUint (Cost r); formatInt (UnixMicro (Now r));
   formatInt (Microseconds (lease policy)); formatInt (ttl ÷ Millisecond); serverClockFlag opts;
   digestOf (LeaseID request)].

Definition releaseArgs (l : Lease) : list string :=
  ["1"; lease_PolicyID l; digestOf (lease_ID l); formatUint (lease_Cost l); formatInt (UnixMicro (ExpiresAt l))].

Definition leasesOf (store : Store)
    : option ((Context W -> list string -> list string -> M W (result error (list string))) *
              (Context W -> list string -> list string -> M W (result error (list string)))) :=
  st_executor store ≫= leaseExecutor.

Definition Acquire (store : Store) (ctx : Context W) (request : LeaseRequest) : M W (Lease * Decision * option error) :=
  let fail err := (zeroLease, emptyDecision, Some err) in
  match LeaseRequest_Validate request with
  | Some err => mret (fail err)
  | None =>
      match leasesOf store with
      | None => mret (fail (Sent ErrUnsupported))
      | Some (acquire, _) =>
          let callCtx := withTimeout ctx (Timeout (st_options store)) in
          let ttl := Z.max (lease (req_Policy (lr_Request request)) *i 2) Second in
          reply ← acquire callCtx [key (st_options store) (lr_Request request)] (acquireArgs (st_options store) request ttl);
          match reply with
          | Err err => category ← leaseTransportError callCtx err; mret (fail category)
          | Ok reply => mret (decodeLeaseReply reply request)
          end
      end
  end.

Definition Release (store : Store) (ctx : Context W) (l : Lease) : M W (option error) :=
  if bool_decide (lease_ID l = EmptyString) || bool_decide (lease_PolicyID l = EmptyString) ||
     bool_decide (key_value (lease_Key l) = EmptyString) || (lease_Cost l =? 0)
  then mret (Some (Sent ErrInvalidRequest)) else
  match leasesOf store with
  | None => mret (Some (Sent ErrUnsupported))
  | Some (_, release) =>
      let callCtx := withTimeout ctx (Timeout (st_options store)) in
      reply ← release callCtx [storeKey (st_options store) (lease_PolicyID l) (key_value (lease_Key l))] (releaseArgs l);
      match reply with
      | Err err => category ← leaseTransportError callCtx err; mret (Some category)
      | Ok reply =>
          mret match reply with
               | ["ok"] => None
               | ["not_found"] => Some (Sent ErrLeaseNotFound)
               | ["not_owned"] => Some (Sent ErrLeaseNotOwned)
               | _ => Some (Sent ErrCorrupt)
               end
      end
  end.

Definition Check (store : Store) (ctx : Context W) : M W (option error) :=
  match st_executor store with
  | Some (nativeExecutor client) =>
      info ← client_info client ctx;
      match info with
      | Err _ => mret (Some (errorf ErrUnavailable "server info"))
      | Ok info =>
          if negb (supported (valkeyMajor info)) then mret (Some (errorf ErrUnavailable "Valkey 9 or newer required")) else
          config ← client_config client ctx;
          match config with
          | Err _ => mret (Some (errorf ErrUnavailable "eviction policy"))
          | Ok config =>
              if negb (noeviction config) then mret (Some (errorf ErrUnavailable "maxmemory-policy must be noeviction"))
              else mret None
          end
      end
  | _ => mret (Some (errorf ErrUnsupported "startup check requires native client"))
  end.

Definition openChecked (ctx : Context W) (store : option Store) (err : option error) : M W (result error Store) :=
  match err with
  | Some err => mret (Err err)
  | None =>
      match store with
      | None => mret (Err (errorf ErrInvalidPolicy "constructed store is missing"))
      | Some store =>
          err ← Check store ctx;
          mret match err with Some err => Err err | None => Ok store end
      end
  end.

Definition Open (ctx : Context W) (client : iface (Client W)) (opts : Options) : M W (result error Store) :=
  match New client opts with
  | Err err => openChecked ctx None (Some err)
  | Ok store => openChecked ctx (Some store) None
  end.

(** ** The strict methods *)

Definition strictReady (store : option Store) (ctx : iface (Context W)) : result error (Store * executor * Context W) :=
  let uninitialized := Err (errorf ErrInvalidPolicy "backend is nil or uninitialized") in
  match store with
  | None => uninitialized
  | Some store =>
      match st_executor store with
      | None => uninitialized
      | Some e =>
          match ctx with
          | iface_of ctx => Ok (store, e, ctx)
          | _ => Err (errorf ErrInvalidRequest "context is required")
          end
      end
  end.

Definition strictContext (ctx : Context W) : M W (option error) :=
  first ← lift (ctxErr ctx);
  if directError first CtxCanceled then mret (Some CanceledOutcome) else
  second ← lift (ctxErr ctx);
  if directError second CtxDeadlineExceeded then mret (Some DeadlineOutcome) else
  mret None.

Definition strictValkeyPredispatchCategory (ctx : Context W) (err : error) : M W error :=
  early ← strictContext ctx;
  match early with
  | Some outcome => mret outcome
  | None =>
      if directError (Some err) CtxCanceled then mret CanceledOutcome else
      if directError (Some err) CtxDeadlineExceeded then mret DeadlineOutcome else
      match err with
      | nilBackendError | BackendError None => mret (Sent ErrUnavailable)
      | BackendError (Some _) => mret err
      | _ =>
          if existsb (directError (Some err)) [ErrRejected; ErrOverflow; ErrCorrupt; ErrUnsupported; ErrLeaseNotFound;
                                              ErrLeaseNotOwned]
          then mret err else mret (Sent ErrUnavailable)
      end
  end.

(** What the strict methods check before they dispatch. *)
Definition strictEntry {A} (store : option Store) (ctx : iface (Context W)) (invalid : option error) (fail : error -> A)
    (run : Store -> executor -> Context W -> M W A) : M W A :=
  match strictReady store ctx with
  | Err err => mret (fail err)
  | Ok (store, e, ctx) =>
      match invalid with
      | Some err => mret (fail err)
      | None =>
          early ← strictContext ctx;
          match early with
          | Some err => mret (fail err)
          | None => run store e ctx
          end
      end
  end.

(** [ratelimit.UnknownOutcome(callCtx.Err())] when a dispatched script fails. *)
Definition dispatched {A} (callCtx : Context W) (run : M W (result error (list string))) (fail : error -> A)
    (decode : list string -> A) : M W A :=
  reply ← run;
  match reply with
  | Err _ => late ← lift (ctxErr callCtx); mret (fail (UnknownOutcome late))
  | Ok reply => mret (decode reply)
  end.

Definition AdmitStrict (store : option Store) (ctx : iface (Context W)) (request : Request) : M W (Decision * option error) :=
  let fail err := (emptyDecision, Some err) in
  strictEntry store ctx (Validate request) fail (fun store e ctx =>
    if bool_decide (algorithm (req_Policy request) = Concurrency) then mret (fail (Sent ErrUnsupported)) else
    let callCtx := withTimeout ctx (Timeout (st_options store)) in
    dispatched callCtx
      (exec e callCtx [key (st_options store) request] (strictArgs (st_options store) request))
      fail decodeStrictDecisionReply).

Definition AcquireStrict (store : option Store) (ctx : iface (Context W)) (request : LeaseRequest)
    : M W (Lease * Decision * option error) :=
  let fail err := (zeroLease, emptyDecision, Some err) in
  strictEntry store ctx (LeaseRequest_Validate request) fail (fun store e ctx =>
    match leaseExecutor e with
    | None => mret (fail (Sent ErrUnsupported))
    | Some (acquire, _) =>
        let callCtx := withTimeout ctx (Timeout (st_options store)) in
        let ttl := valkeyStateTTL (lease (req_Policy (lr_Request request))) in
        dispatched callCtx
          (acquire callCtx [key (st_options store) (lr_Request request)]
             (acquireArgs (st_options store) request ttl ++ ["strict"]))
          fail (fun reply => decodeStrictLeaseReply reply request)
    end).

Definition decodeReleaseReply (reply : list string) : option error :=
  match reply with
  | ["ok"] => None
  | ["not_found"] => Some (Sent ErrLeaseNotFound)
  | ["not_owned"] => Some (Sent ErrLeaseNotOwned)
  | ["corrupt"] => Some (Sent ErrCorrupt)
  | _ => Some unknownReply
  end.

Definition ReleaseStrict (store : option Store) (ctx : iface (Context W)) (l : Lease) : M W (option error) :=
  let incomplete :=
    bool_decide (lease_ID l = EmptyString) || bool_decide (lease_PolicyID l = EmptyString) ||
    bool_decide (key_value (lease_Key l) = EmptyString) || (lease_Cost l =? 0) || IsZero (ExpiresAt l) in
  strictEntry store ctx (if incomplete then Some (Sent ErrInvalidRequest) else None) Some (fun store e ctx =>
    match leaseExecutor e with
    | None => mret (Some (Sent ErrUnsupported))
    | Some (_, release) =>
        let callCtx := withTimeout ctx (Timeout (st_options store)) in
        dispatched callCtx
          (release callCtx [storeKey (st_options store) (lease_PolicyID l) (key_value (lease_Key l))]
             (releaseArgs l ++ ["strict"]))
          Some decodeReleaseReply
    end).

Definition CheckStrict (store : option Store) (ctx : iface (Context W)) : M W (option error) :=
  strictEntry store ctx None Some (fun store e ctx =>
    match e with
    | otherExecutor _ _ => mret (Some (Sent ErrUnsupported))
    | nativeExecutor client =>
        info ← client_info client ctx;
        match info with
        | Err err => category ← strictValkeyPredispatchCategory ctx err; mret (Some category)
        | Ok info =>
            if negb (supported (valkeyMajor info)) then mret (Some (Sent ErrUnavailable)) else
            config ← client_config client ctx;
            match config with
            | Err err => category ← strictValkeyPredispatchCategory ctx err; mret (Some category)
            | Ok config => mret (if negb (noeviction config) then Some (Sent ErrUnavailable) else None)
            end
        end
    end).

Definition openStrictChecked (ctx : iface (Context W)) (construct : result error Store) : M W (result error Store) :=
  if isNilInterface ctx then mret (Err (errorf ErrInvalidRequest "context is required")) else
  match construct with
  | Err err => mret (Err err)
  | Ok store =>
      err ← CheckStrict (Some store) ctx;
      mret match err with Some err => Err err | None => Ok store end
  end.

Definition OpenStrict (ctx : iface (Context W)) (client : iface (Client W)) (opts : Options) : M W (result error Store) :=
  openStrictChecked ctx (NewStrict client opts).
End Store.
