(* ===== verification/ValkeyState.v ===== *)
(** * The hash of an admission key

    [stored row h]: the hash [h] is a row of the PostgreSQL backend
    ([persistedState]) in the encoding of the scripts.  The lemmas take a strict
    admission script through its checks: on a stored sound row every check passes
    and the algorithm runs at the effective time. *)

From S2P Require Import Prelude Float64 GoTime GoHash Errors Keys Policy MemoryState TokenBucket.
From S2P Require Import PgState PgTokens PgRows GoJson JsonFacts GoNet Lua ValkeyServer ValkeyScripts.

Local Open Scope string_scope.
Local Open Scope list_scope.
Local Open Scope Z_scope.

Abbreviation maxExact := 9007199254740991.

(** ** Slices *)

Lemma substring_all s : String.substring 0 (String.length s) s = s.
Proof. induction s as [|c s IH]; simpl; [done|]. by rewrite IH. Qed.

Lemma stake_app s t : stake (String.length s) (s +:+ t) = s.
Proof. unfold stake. induction s as [|c s IH]; simpl; [by destruct t|]. by rewrite IH. Qed.

Lemma substring_skip s t k : String.substring (String.length s) k (s +:+ t) = String.substring 0 k t.
Proof. induction s as [|c s IH]; [done|exact IH]. Qed.

Lemma sdrop_app s t : sdrop (String.length s) (s +:+ t) = t.
Proof.
  unfold sdrop. rewrite append_length, substring_skip.
  replace (String.length s + String.length t - String.length s)%nat with (String.length t) by lia. apply substring_all.
Qed.

(** ** Canonical integers *)

Lemma uint_length n : 0 <= n <= maxExact -> strlen (formatUint n) <= 16.
Proof.
  intros Hn. unfold strlen, formatUint.
  pose proof (decimalDigits_length 20 n 16 ltac:(lia) ltac:(change (10 ^ Z.of_nat 16) with 10000000000000000; lia)). lia.
Qed.

Lemma uint_positive n : 1 <= n <= maxExact -> positiveDigits (formatUint n) = true.
Proof.
  intros Hn. destruct (formatUint_digits n) as (Hd & _ & c & t & E & Hc & Hz); [lia|].
  unfold digitString in Hd. rewrite E in *. simpl in Hd. apply andb_true_iff in Hd as [_ Hd]. simpl. rewrite Hd, andb_true_r.
  apply digit_range in Hc. unfold nonzeroDigit, in_range. apply andb_true_iff. split; apply Z.leb_le; [|lia].
  destruct (Z.eq_dec (byte_of c) 48) as [H48|]; [|lia]. destruct (Hz H48). lia.
Qed.

Lemma canonical_uint n : 0 <= n <= maxExact -> canonical_unsigned (Some (formatUint n)) = true.
Proof.
  intros Hn. simpl. rewrite (proj2 (Z.leb_le _ _) (uint_length n Hn)). simpl.
  destruct (Z.eq_dec n 0) as [->|]; [done|]. rewrite uint_positive by lia. by rewrite orb_true_r.
Qed.

Lemma formatInt_uint n : 0 <= n -> formatInt n = formatUint n.
Proof. intros. unfold formatInt. by rewrite (proj2 (Z.ltb_ge n 0)) by lia. Qed.

Lemma digits_of_int z : - maxExact <= z <= maxExact -> strlen (formatInt z) <= 17.
Proof.
  intros Hz. unfold formatInt. destruct (Z.ltb_spec z 0).
  - pose proof (uint_length (- z) ltac:(lia)). unfold strlen in *. simpl String.length. lia.
  - pose proof (uint_length z ltac:(lia)). lia.
Qed.

Lemma int_length z : - maxExact <= z <= maxExact -> strlen (formatInt z) <= 128.
Proof. intros Hz%digits_of_int. lia. Qed.

Lemma canonical_int z : - maxExact <= z <= maxExact -> canonical_signed (Some (formatInt z)) = true.
Proof.
  intros Hz. unfold canonical_signed. destruct (Z.ltb_spec z 0).
  - destruct (canonical_unsigned _); [done|]. unfold formatInt. rewrite (proj2 (Z.ltb_lt z 0)) by lia.
    pose proof (uint_length (- z) ltac:(lia)) as Hl.
    assert (strlen (String (chr 45) (formatUint (- z))) = 1 + strlen (formatUint (- z))) as ->
      by (unfold strlen; simpl String.length; lia).
    rewrite (proj2 (Z.ltb_ge 17 _)) by lia. change (String (chr 45) (formatUint (- z))) with ("-" +:+ formatUint (- z)).
    change 1%nat with (String.length "-"). rewrite stake_app, sdrop_app. simpl.
    apply uint_positive. lia.
  - rewrite formatInt_uint by lia. by rewrite canonical_uint by lia.
Qed.

Lemma fopp_max : fopp max_exact = ofZ (- maxExact).
Proof. reflexivity. Qed.

Lemma beyondExact_Z z : Z.abs z <= two53 -> beyondExact (ofZ z) = negb ((- maxExact <=? z) && (z <=? maxExact)).
Proof.
  intros Hz. unfold beyondExact. rewrite fopp_max. unfold max_exact. rewrite !flt_Z by lia.
  destruct (Z.ltb_spec z (- maxExact)), (Z.ltb_spec maxExact z), (Z.leb_spec (- maxExact) z), (Z.leb_spec z maxExact); lia || done.
Qed.

Lemma beyondExact_false z : - maxExact <= z <= maxExact -> beyondExact (ofZ z) = false.
Proof. intros Hz. rewrite beyondExact_Z by lia. by rewrite !(proj2 (Z.leb_le _ _)) by lia. Qed.

Lemma whole_Z z : Z.abs z <= two53 -> whole (ofZ z) = true.
Proof. intros Hz. unfold whole. rewrite ffloor_Z, feq_Z by done. apply Z.eqb_refl. Qed.

Lemma tonumberOf_int z : Z.abs z <= two53 -> tonumberOf (Some (formatInt z)) = Some (ofZ z).
Proof. apply tonumber_int. Qed.

Lemma tonumberOf_uint n : 0 <= n <= two53 -> tonumberOf (Some (formatUint n)) = Some (ofZ n).
Proof. intros. apply tonumber_uint. lia. Qed.

Lemma exactSigned_int z : - maxExact <= z <= maxExact -> exactSigned (Some (formatInt z)) = true.
Proof.
  intros Hz. unfold exactSigned. by rewrite canonical_int, tonumberOf_int, whole_Z, beyondExact_false by lia.
Qed.

Lemma exactUnsigned_uint n : 0 <= n <= maxExact -> exactUnsigned (Some (formatUint n)) = true.
Proof.
  intros Hn. unfold exactUnsigned. rewrite canonical_uint, tonumberOf_uint, whole_Z by lia.
  change (Zero false) with (ofZ 0). unfold max_exact. rewrite !flt_Z by lia.
  by rewrite !(proj2 (Z.ltb_ge _ _)) by lia.
Qed.

(** ** Slots *)

Lemma indexByte_app s c t :
  all_bytes (fun b => negb (b =? byte_of c)) s = true -> indexByte (byte_of c) (s +:+ String c t) = Some (String.length s).
Proof.
  induction s as [|d s IH]; simpl; unfold at_byte; [by rewrite Z.eqb_refl|].
  intros [Hd%negb_true_iff Hs]%andb_true_iff. by rewrite Hd, IH.
Qed.

Lemma digits_free b s : (b < 48 \/ 57 < b) -> digitString s -> all_bytes (fun x => negb (x =? b)) s = true.
Proof.
  intros Hb. apply all_bytes_mono. intros x Hx%digit_range. apply negb_true_iff, Z.eqb_neq. lia.
Qed.

Lemma sdrop_after s c t : sdrop (S (String.length s)) (s +:+ String c t) = t.
Proof.
  change (String c t) with (String c EmptyString +:+ t). rewrite string_app_assoc.
  replace (S (String.length s)) with (String.length (s +:+ String c EmptyString)) by (rewrite append_length; simpl; lia).
  apply sdrop_app.
Qed.

Lemma formatInt_free z : Z.abs z <= two53 -> all_bytes (fun b => negb (b =? 58)) (formatInt z) = true.
Proof.
  intros Hz. unfold formatInt. destruct (Z.ltb_spec z 0); [|apply digits_free; [lia|]; apply formatUint_digits; lia].
  simpl. apply digits_free; [lia|]. apply formatUint_digits. lia.
Qed.

(** A text in two parts around the first colon. *)
Lemma cutColon_app s t : all_bytes (fun b => negb (b =? 58)) s = true -> cutColon (s +:+ ":" +:+ t) = Some (s, t).
Proof.
  intros Hs. unfold cutColon. change (":" +:+ t) with (String (chr 58) t).
  by rewrite (indexByte_app s (chr 58)), stake_app, sdrop_after by exact Hs.
Qed.

Definition encoded (z n : Z) : string := formatInt z +:+ ":" +:+ formatUint n.

Section Encoded.
Context (z n : Z).
Hypothesis Hz : Z.abs z <= two53.
Hypothesis Hn : 0 <= n <= two53.

Lemma encoded_index : indexByte 58 (encoded z n) = Some (String.length (formatInt z)).
Proof. apply (indexByte_app (formatInt z) (chr 58)), (formatInt_free z Hz). Qed.

Lemma cutColon_encoded : cutColon (encoded z n) = Some (formatInt z, formatUint n).
Proof. apply cutColon_app, (formatInt_free z Hz). Qed.

Lemma formatInt_nonempty : formatInt z <> EmptyString.
Proof. destruct (formatInt_head z) as (c & t & -> & _); [lia|done]. Qed.

Lemma matchHead_encoded : matchHead (encoded z n) = Some (formatInt z).
Proof.
  unfold matchHead. rewrite encoded_index. unfold encoded. rewrite stake_app.
  by rewrite bool_decide_eq_false_2 by apply formatInt_nonempty.
Qed.

Lemma lastIndexByte_none b s : all_bytes (fun x => negb (x =? b)) s = true -> lastIndexByte b s = None.
Proof.
  induction s as [|c s IH]; simpl; [done|]. intros [Hc%negb_true_iff Hs]%andb_true_iff. rewrite (IH Hs).
  unfold at_byte. by rewrite Hc.
Qed.

Lemma lastIndexByte_app s c t :
  all_bytes (fun x => negb (x =? byte_of c)) t = true -> lastIndexByte (byte_of c) (s +:+ String c t) = Some (String.length s).
Proof.
  intros Ht. induction s as [|d s IH]; simpl; [|by rewrite IH].
  rewrite lastIndexByte_none by done. unfold at_byte. by rewrite Z.eqb_refl.
Qed.

Lemma matchTail_encoded : matchTail (encoded z n) = Some (formatUint n).
Proof.
  destruct (formatUint_digits n ltac:(lia)) as (Hd & _ & c & t & E & _). unfold matchTail, encoded.
  change (":" +:+ formatUint n) with (String (chr 58) (formatUint n)).
  rewrite (lastIndexByte_app _ (chr 58)) by (apply digits_free; [right; reflexivity|done]).
  rewrite sdrop_after, E. done.
Qed.

Lemma encoded_length : Z.abs z <= maxExact -> n <= maxExact -> strlen (encoded z n) <= 34.
Proof.
  intros Hz' Hn'. unfold encoded. rewrite strlen_app.
  change (":" +:+ formatUint n) with (String (chr 58) (formatUint n)).
  pose proof (uint_length n ltac:(lia)) as Hl. unfold formatInt.
  unfold strlen in *. simpl String.length. destruct (Z.ltb_spec z 0).
  - pose proof (uint_length (- z) ltac:(lia)) as Hl'. unfold strlen in Hl'. simpl String.length. lia.
  - pose proof (uint_length z ltac:(lia)) as Hl'. unfold strlen in Hl'. lia.
Qed.
End Encoded.

(** ** The stored row *)

Definition flag (b : bool) : string := if b then "1" else "0".

(** A slot is absent when it holds nothing. *)
Definition slotValue (s : persistedSegment) : option string :=
  if ps_SegUsed s =? 0 then None else Some (encoded (ps_Index s) (ps_SegUsed s)).

(** The counters of the row's algorithm. *)
Record payload (row : persistedState) (h : fields) : Prop := {
  pay_token : ps_Algorithm row = TokenBucket ->
    h !! "tokens" = Some (formatUint (ps_Tokens row)) /\ h !! "remainder" = Some (formatUint (ps_Remainder row)) /\
    ps_LastMicros row = ps_ObservedMicros row;
  pay_fixed : ps_Algorithm row = FixedWindow ->
    h !! "window" = Some (formatInt (ps_Window row)) /\ h !! "used" = Some (formatUint (ps_Used row));
  pay_sliding : ps_Algorithm row = SlidingWindow ->
    forall j s, ps_Segments row !! j = Some s -> h !! slotField (Z.of_nat j) = slotValue s
}.

(** Only fields an algorithm may have, of bounded size. *)
Definition named (algorithm : Algorithm) (h : fields) : Prop :=
  forall f x, h !! f = Some x -> f ∈ allowed_fields algorithm /\ strlen x <= 128.

Record stored (row : persistedState) (h : fields) : Prop := {
  st_schema : h !! "schema" = Some "1";
  st_policy : h !! "policy_id" = Some (ps_PolicyID row);
  st_algorithm : @eq (option string) (h !! "algorithm") (Some (ps_Algorithm row));
  st_revision : h !! "revision" = Some (ps_Revision row);
  st_last : h !! "last" = Some (formatInt (ps_ObservedMicros row));
  st_carried : h !! "carried" = Some (flag (ps_Carried row));
  st_period : usesWindowMetadata (ps_Algorithm row) = true -> h !! "period" = Some (formatInt (ps_PeriodMicros row));
  st_payload : payload row h;
  st_names : named (ps_Algorithm row) h
}.

(** Reading a field of a hash that was written. *)
Ltac hash_read :=
  unfold hset; cbn [foldl fst snd];
  repeat first [rewrite lookup_insert_eq | rewrite lookup_insert_ne by discriminate].

(** ** The arguments of a strict admission *)

Definition scriptArguments (p : Policy) (cost ttl : Z) : arguments :=
  mkArguments true "1" (algorithm p) (id p) (revision p) (ofZ (capacity p)) (ofZ (burst p))
    (ofZ (Microseconds (period p))) (ofZ cost) (Some (ofZ ttl)).

Section Script.
Context (pol : string -> Policy) (name : string) (alg : Algorithm) (P : Z).
Hypothesis Hline : lineage pol name alg P.
Context (env : environment).
Hypothesis Hmem : env_memory env <= max_allocator_bytes.
Context (v : string) (cost ttl : Z).

Abbreviation a := (scriptArguments (pol v) cost ttl).
Abbreviation limit := (Limit (pol v)).

Lemma a_period_Z : a_period a = ofZ P.
Proof. simpl. f_equal. apply (line_facts _ _ _ _ Hline v). Qed.

Lemma limit_exact : 1 <= capacity (pol v) /\ 0 <= burst (pol v) /\ limit = capacity (pol v) + burst (pol v) /\ limit <= maxExact.
Proof.
  destruct (line_wf _ _ _ _ Hline v) as [_ Hc Hb Hl _ _ _ _ _ _]. unfold Limit in *.
  rewrite u64_id by (unfold is_u64; lia). lia.
Qed.

Lemma a_limit_Z : a_limit a = ofZ limit.
Proof.
  destruct limit_exact as (Hc & Hb & HL & Hl). unfold a_limit. simpl. rewrite fadd_Z by lia. by rewrite HL.
Qed.

Lemma a_algorithm_alg : a_algorithm a = alg.
Proof. apply Hline. Qed.

Lemma fixedWindow_Z m : Z.abs m < two53 -> Z.abs (m / P) <= two53 -> fixedWindow a (ofZ m) = ofZ (m / P * P).
Proof.
  destruct (line_facts _ _ _ _ Hline v) as (HP & _). intros Hm Hq. unfold fixedWindow. rewrite a_period_Z.
  rewrite ffloor_div, fmul_Z by lia. done.
Qed.

(** A time the strict checks let through. *)
Definition timely (m : Z) : Prop :=
  - maxExact <= m <= maxExact - P /\ (alg = FixedWindow -> - maxExact <= m / P * P).

Lemma windowOverflows_false m : timely m -> windowOverflows a (ofZ m) = false.
Proof.
  intros [Hm Hf]. destruct (line_facts _ _ _ _ Hline v) as (HP & _).
  unfold windowOverflows. rewrite a_algorithm_alg.
  case_bool_decide as E; [|done]. specialize (Hf E). simpl.
  rewrite fixedWindow_Z by (lia || (apply div_small_abs; lia)). apply beyondExact_false.
  pose proof (Z.mul_div_le m P ltac:(lia)). lia.
Qed.

Lemma late_false m : timely m -> flt (fsub max_exact (a_period a)) (ofZ m) = false.
Proof.
  intros [Hm _]. destruct (line_facts _ _ _ _ Hline v) as (HP & _). rewrite a_period_Z.
  unfold max_exact. rewrite fsub_Z, flt_Z by lia. apply Z.ltb_ge. lia.
Qed.

Lemma wp_guardTime m k Q e : timely m -> wp env k Q e -> wp env (guardTime a (Some (ofZ m)) k) Q e.
Proof.
  intros Ht Hk. unfold guardTime. change (a_strict a) with true. cbv iota. rewrite number_bind.
  rewrite late_false, windowOverflows_false by done. destruct Ht as [Hm _].
  destruct (line_facts _ _ _ _ Hline v) as (HP & _).
  rewrite beyondExact_false, a_period_Z by lia. unfold max_exact.
  rewrite flt_Z by lia. rewrite (proj2 (Z.ltb_ge _ _)) by lia. done.
Qed.

(** *** Opening the hash *)

Lemma wp_checkMemory mismatch k Q e : wp env k Q (Some e) -> wp env (checkMemory true mismatch k) Q (Some e).
Proof.
  intros Hk. unfold checkMemory. wp_read. by rewrite (proj2 (Z.ltb_ge _ _) Hmem).
Qed.

Lemma wp_checkIdentity schema policy algorithm mismatch k Q e :
  fieldsOf e !! "schema" = Some schema -> fieldsOf e !! "policy_id" = Some policy ->
  fieldsOf e !! "algorithm" = Some algorithm ->
  wp env k Q e -> wp env (checkIdentity schema policy algorithm mismatch k) Q e.
Proof.
  intros H1 H2 H3 Hk. unfold checkIdentity.
  eapply wp_hget; [exact H1|]. rewrite bool_decide_eq_true_2 by done. cbn [negb].
  eapply wp_hget; [exact H2|]. rewrite bool_decide_eq_true_2 by done. cbn [negb].
  eapply wp_hget; [exact H3|]. by rewrite bool_decide_eq_true_2.
Qed.

Lemma wp_openHash row h d now k Q :
  stored row h -> sound_row pol name alg P row ->
  wp env k Q (Some (mkEntry h d)) -> wp env (openHash a now k) Q (Some (mkEntry h d)).
Proof.
  intros Hst Hrow Hk. unfold openHash. wp_read. cbn [Z.eqb Pos.eqb].
  apply wp_checkMemory, wp_checkIdentity; simpl; [apply Hst|..|done].
  - rewrite (st_policy _ _ Hst), (row_policy _ _ _ _ _ Hrow). f_equal. symmetry. apply Hline.
  - etrans; [exact (st_algorithm _ _ Hst)|]. rewrite (row_algorithm _ _ _ _ _ Hrow). f_equal. symmetry. apply Hline.
Qed.

(** *** The names and sizes of the fields *)

Lemma allowed_lengths algorithm : Forall (fun f => strlen f <= 66) (allowed_fields algorithm).
Proof.
  unfold allowed_fields. apply Forall_app. split; [repeat constructor; vm_compute; discriminate|].
  case_bool_decide; [|constructor]. repeat constructor; vm_compute; discriminate.
Qed.

Lemma allowed_count algorithm : Z.of_nat (length (allowed_fields algorithm)) = max_fields algorithm.
Proof. unfold allowed_fields, max_fields. by case_bool_decide. Qed.

Lemma wp_checkKeys algorithm names bytes k Q e :
  (forall f, f ∈ names -> exists x, fieldsOf e !! f = Some x /\ f ∈ allowed_fields algorithm /\ strlen x <= 128) ->
  bytes + 194 * Z.of_nat (length names) <= max_state_bytes ->
  wp env k Q e -> wp env (checkKeys algorithm names bytes k) Q e.
Proof.
  intros Hnames Hb Hk. revert bytes Hnames Hb. induction names as [|f names IH]; intros bytes Hnames Hb; [done|].
  cbn [checkKeys]. wp_read.
  destruct (Hnames f) as (x & Hx & Hf & Hl); [apply list_elem_of_here|]. rewrite Hx. simpl default.
  pose proof (proj1 (Forall_forall _ _) (allowed_lengths algorithm) f Hf) as Hlen. simpl in Hlen.
  cbn [length] in Hb. pose proof (strlen_nonneg x). unfold max_state_bytes in *.
  rewrite !(proj2 (Z.ltb_ge _ _)), bool_decide_eq_true_2 by (done || lia). simpl.
  apply IH; [|lia]. intros g Hg. apply Hnames. by right.
Qed.

Lemma wp_checkFields row h d k Q :
  stored row h -> ps_Algorithm row = alg ->
  wp env k Q (Some (mkEntry h d)) -> wp env (checkFields a k) Q (Some (mkEntry h d)).
Proof.
  intros Hst Halg Hk. unfold checkFields. change (a_strict a) with true. cbv iota. rewrite a_algorithm_alg.
  assert (forall f, f ∈ (map_to_list h).*1 -> exists x, h !! f = Some x /\ f ∈ allowed_fields alg /\ strlen x <= 128) as Hall.
  { intros f ((f', x) & -> & Hx%elem_of_map_to_list)%list_elem_of_fmap. exists x. rewrite <- Halg.
    split; [done|]. by apply (st_names _ _ Hst). }
  assert (Z.of_nat (size h) <= max_fields alg) as Hsize.
  { rewrite <- allowed_count. apply inj_le. rewrite <- length_map_to_list, <- (length_fmap fst).
    apply submseteq_length, NoDup_submseteq; [apply NoDup_fst_map_to_list|].
    intros f Hf. by destruct (Hall f Hf) as (x & _ & ? & _). }
  wp_read. rewrite (proj2 (Z.ltb_ge _ _)) by done.
  apply wp_call. intros names Hnames. simpl in Hnames. apply wp_checkKeys; [| |done].
  - intros f Hf. apply Hall. by rewrite <- Hnames.
  - rewrite Hnames, length_fmap, length_map_to_list.
    assert (max_fields alg <= 27) by (unfold max_fields; case_bool_decide; lia). unfold max_state_bytes. lia.
Qed.

(** *** The metadata and the effective time *)

Lemma metadata_sound row h :
  stored row h -> sound_row pol name alg P row -> metadataCorrupt a (h !! "period") (h !! "carried") = false.
Proof.
  intros Hst Hrow. destruct (line_facts _ _ _ _ Hline v) as (HP & _). unfold metadataCorrupt. rewrite a_algorithm_alg.
  apply orb_false_iff. split.
  - change (window_algorithm alg) with (usesWindowMetadata alg).
    destruct (usesWindowMetadata alg) eqn:Hw; [|done]. cbn [andb].
    rewrite (st_period _ _ Hst), (row_period _ _ _ _ _ Hrow Hw) by (by rewrite (row_algorithm _ _ _ _ _ Hrow)).
    rewrite tonumberOf_int, whole_Z, a_period_Z, feq_Z, Z.eqb_refl by lia.
    rewrite formatInt_uint, canonical_uint by lia. by rewrite bool_decide_eq_true_2.
  - rewrite (st_carried _ _ Hst). by destruct (ps_Carried row).
Qed.

Lemma effective_timely row m : sound_row pol name alg P row -> timely m -> timely (effective row m).
Proof.
  intros Hrow [Hm Hf]. pose proof (row_observed _ _ _ _ _ Hrow) as Ho.
  destruct (line_facts _ _ _ _ Hline v) as (HP & _). unfold effective. split; [lia|].
  intros E. specialize (Hf E). assert (m / P <= Z.max m (ps_ObservedMicros row) / P) by (apply Z.div_le_mono; lia).
  pose proof (scale_le (m / P) (Z.max m (ps_ObservedMicros row) / P) P ltac:(lia) ltac:(lia)). lia.
Qed.

Lemma wp_admitStored row h d m Q :
  stored row h -> sound_row pol name alg P row -> timely m ->
  wp env (runAlgorithm a (ofZ (effective row m)) (bool_decide (ps_Revision row = v)) (ps_Carried row)) Q (Some (mkEntry h d)) ->
  wp env (admitStored a (Some (ofZ m))) Q (Some (mkEntry h d)).
Proof.
  intros Hst Hrow Ht Hk. pose proof (effective_timely row m Hrow Ht) as Ht'.
  pose proof (row_observed _ _ _ _ _ Hrow) as Ho. destruct (line_facts _ _ _ _ Hline v) as (HP & _).
  unfold admitStored. change (a_strict a) with true. cbv iota. cbn [andb]. wp_read. wp_read. wp_read.
  rewrite (metadata_sound row h) by done.
  wp_read. rewrite (st_last _ _ Hst), exactSigned_int, number_bind by lia. cbn [negb].
  rewrite tonumberOf_int, number_bind by lia. pose proof Ht as [Hm _].
  assert ((if flt (ofZ m) (ofZ (ps_ObservedMicros row)) then ofZ (ps_ObservedMicros row) else ofZ m) = ofZ (effective row m)) as ->.
  { rewrite flt_Z by lia. unfold effective. destruct (Z.ltb_spec m (ps_ObservedMicros row)); f_equal; lia. }
  rewrite late_false, windowOverflows_false by done.
  rewrite (st_revision _ _ Hst), (st_carried _ _ Hst).
  replace (bool_decide (Some (ps_Revision row) = Some (a_revision a))) with (bool_decide (ps_Revision row = v)).
  2:{ apply bool_decide_ext. simpl. rewrite (line_revision _ _ _ _ Hline). split; [by intros ->|by intros [=]]. }
  replace (bool_decide (Some (flag (ps_Carried row)) = Some "1")) with (ps_Carried row) by (by destruct (ps_Carried row)).
  exact Hk.
Qed.

(** *** The end of the script *)

(** What the script writes last. *)
Definition finished (m : Z) (carried : bool) (h : fields) : fields :=
  hset [("last", formatInt m); ("revision", v); ("period", formatInt P); ("carried", flag carried)] h.

Definition admissionReply (allowed : bool) (remaining reset retry m : Z) : reply :=
  [flag allowed; formatInt remaining; formatInt limit; formatInt reset; formatInt retry;
   if allowed then "allowed" else "limited"; formatInt m].

Definition expiresAt : option Z := Some (env_clock env / 1000 + ttl).

Hypothesis Httl : 1 <= ttl <= maxExact.

Lemma wp_finish m allowed remaining reset retry carried Q h d :
  Z.abs m <= two53 -> Z.abs remaining <= two53 -> Z.abs reset <= two53 -> Z.abs retry <= two53 -> (allowed = true -> retry = 0) ->
  Q (Ret (admissionReply allowed remaining reset retry m)) (Some (mkEntry (finished m carried h) expiresAt)) ->
  wp env (finish a (ofZ m) (mkVerdict allowed (ofZ remaining) (ofZ reset) (ofZ retry) carried)) Q (Some (mkEntry h d)).
Proof.
  intros Hm Hrem Hreset Hretry Hallowed HQ. destruct limit_exact as (_ & _ & HL & Hl). pose proof limit_exact as (Hc & Hb & _).
  destruct (line_facts _ _ _ _ Hline v) as (HP & _).
  unfold finish. change (a_strict a) with true. cbv iota. apply wp_hset. intros _.
  change (a_ttl a) with (Some (ofZ ttl)). rewrite number_bind. apply wp_call. intros _ _.
  cbn [effect pexpire en_fields]. rewrite toInt64_Z by lia. rewrite (proj2 (Z.leb_gt _ _)) by lia.
  cbn [v_allowed v_remaining v_reset v_retry v_carried]. rewrite a_limit_Z, a_period_Z, !integer_Z by lia.
  change (a_revision a) with (revision (pol v)). rewrite (line_revision _ _ _ _ Hline).
  destruct allowed; [rewrite Hallowed in HQ by done|]; exact HQ.
Qed.

Lemma named_insert f x h : f ∈ allowed_fields alg -> strlen x <= 128 -> named alg h -> named alg (<[f := x]> h).
Proof.
  intros Hf Hx Hh g y. destruct (decide (f = g)) as [<-|Hne].
  - rewrite lookup_insert_eq. by intros [= <-].
  - rewrite lookup_insert_ne by done. apply Hh.
Qed.

Lemma named_hset values h :
  Forall (fun fv => fv.1 ∈ allowed_fields alg /\ strlen fv.2 <= 128) values -> named alg h -> named alg (hset values h).
Proof.
  revert h. induction values as [|[f x] values IH]; intros h Hv Hh; [done|].
  apply Forall_cons in Hv as [[Hf Hx] Hv]. apply IH; [done|]. by apply named_insert.
Qed.

Lemma allowed_base f : bool_decide (f ∈ baseFields) = true -> f ∈ allowed_fields alg.
Proof. intros Hf%bool_decide_eq_true_1. unfold allowed_fields. apply elem_of_app. by left. Qed.

Hypothesis Hrevision : strlen v <= 128.

Lemma finished_named m carried h : - maxExact <= m <= maxExact -> named alg h -> named alg (finished m carried h).
Proof.
  intros Hm Hh. destruct (line_facts _ _ _ _ Hline v) as (HP & _). apply named_hset; [|done].
  repeat apply Forall_cons_2; try apply Forall_nil_2; (split; [by apply allowed_base|]); cbn [snd]; try done;
    try (apply int_length; lia). by destruct carried.
Qed.

(** The payload does not depend on the fields written last. *)
Lemma finished_payload row m carried h : payload row h -> payload row (finished m carried h).
Proof.
  intros [Ht Hf Hs]. split; intros E.
  - unfold finished; hash_read. by apply Ht.
  - unfold finished; hash_read. by apply Hf.
  - intros j s Hj. unfold finished; hash_read. by apply Hs.
Qed.

(** The row that the script is about, at time [m]. *)
Record current_row (m : Z) (row : persistedState) : Prop := {
  cur_policy : ps_PolicyID row = name;
  cur_algorithm : ps_Algorithm row = alg;
  cur_revision : ps_Revision row = v;
  cur_observed : ps_ObservedMicros row = m;
  cur_period : usesWindowMetadata alg = true -> ps_PeriodMicros row = P
}.

(** The hash of that row, whatever its counters. *)
Record framed (h : fields) : Prop := {
  fr_schema : h !! "schema" = Some "1";
  fr_policy : h !! "policy_id" = Some name;
  fr_algorithm : @eq (option string) (h !! "algorithm") (Some alg);
  fr_names : named alg h
}.

Lemma stored_framed row h : stored row h -> ps_PolicyID row = name -> ps_Algorithm row = alg -> framed h.
Proof. intros [H1 H2 H3 _ _ _ _ _ H4] E1 E2. rewrite E1 in H2. rewrite E2 in H3, H4. by split. Qed.

(** A row stored by the end of the script. *)
Lemma finished_stored row m h :
  framed h -> payload row h -> - maxExact <= m <= maxExact -> current_row m row ->
  stored row (finished m (ps_Carried row) h).
Proof.
  intros [H1 H2 H3 Hn] Hp Hm [I1 I2 I3 I4 I5]. split; try (unfold finished; hash_read; congruence).
  - rewrite I2. intros Hw. unfold finished; hash_read. by rewrite I5.
  - by apply finished_payload.
  - rewrite I2. by apply finished_named.
Qed.

(** *** A new key *)

Definition created (m : Z) : fields :=
  hset [("period", formatInt P); ("carried", "0")]
   (hset [("schema", "1"); ("policy_id", name); ("algorithm", alg); ("revision", v); ("tokens", formatInt limit);
          ("remainder", "0"); ("last", formatInt m); ("window", "0"); ("used", "0")] ∅).

Lemma wp_openFresh m k Q :
  Z.abs m <= two53 -> wp env k Q (Some (mkEntry (created m) None)) -> wp env (openHash a (Some (ofZ m)) k) Q None.
Proof.
  intros Hm Hk. pose proof limit_exact as (Hc & Hb & HL & Hl). destruct (line_facts _ _ _ _ Hline v) as (HP & _).
  unfold openHash. wp_read. cbn [Z.eqb]. rewrite number_bind. change (a_strict a) with true. cbv iota.
  apply wp_call. intros _ _. apply wp_call. intros _ _. cbn [effect fieldsOf en_fields deadlineOf mbind option_bind en_deadline].
  rewrite a_limit_Z, a_period_Z, !integer_Z by lia. change (a_revision a) with (revision (pol v)).
  change (a_policy_id a) with (id (pol v)). rewrite a_algorithm_alg, (line_revision _ _ _ _ Hline), (line_id _ _ _ _ Hline).
  exact Hk.
Qed.

Hypothesis Hname : strlen name <= 128.

Lemma created_named m : - maxExact <= m <= maxExact -> named alg (created m).
Proof.
  intros Hm. pose proof limit_exact as (Hc & Hb & HL & Hl). destruct (line_facts _ _ _ _ Hline v) as (HP & _).
  assert (strlen alg <= 128) as Ha by (destruct (line_windowed _ _ _ _ Hline) as [-> |[-> | ->]]; vm_compute; discriminate).
  apply named_hset; [|apply named_hset; [|by intros f x []%lookup_empty_Some]];
    repeat apply Forall_cons_2; try apply Forall_nil_2; (split; [by apply allowed_base|]); cbn [snd];
    try done; try (apply int_length; lia).
Qed.

Lemma created_stored r m :
  req_Policy r = pol v -> Now r = toUTC (ofUnixMicro m) -> - maxExact <= m <= maxExact ->
  stored (first_row r) (created m).
Proof.
  intros Hp Hn Hm. pose proof limit_exact as (Hc & Hb & HL & Hl).
  assert (UnixMicro (Now r) = m) as Hnow by (rewrite Hn; apply UnixMicro_utc; unfold is_i64; lia).
  assert (exists row, first_row r = row /\ ps_PolicyID row = name /\ ps_Algorithm row = alg /\ ps_Revision row = v /\
    ps_ObservedMicros row = m /\ ps_LastMicros row = m /\ ps_Carried row = false /\ ps_Tokens row = limit /\ ps_Remainder row = 0 /\
    ps_Window row = 0 /\ ps_Used row = 0 /\ (usesWindowMetadata alg = true -> ps_PeriodMicros row = P) /\
    ps_Segments row = replicate 16 emptySegment)
    as (row & -> & I1 & I2 & I3 & I4 & I5 & I6 & I7 & I8 & I9 & I10 & I11 & I12).
  { eexists. split; [reflexivity|]. destruct (line_facts _ _ _ _ Hline v) as (_ & _ & _ & HPm & _).
    unfold first_row, recordWindowPeriod. rewrite Hp, (line_algorithm _ _ _ _ Hline), HPm.
    destruct (usesWindowMetadata alg); cbn -[replicate]; rewrite ?Hnow, ?Hp; split_and!; try done; apply Hline. }
  split; unfold created; try (hash_read; rewrite ?I1, ?I2, ?I3, ?I4, ?I6; done).
  - intros Hw. hash_read. by rewrite I11 by (by rewrite <- I2).
  - split; intros E; [hash_read; rewrite I7, I8, I4, I5, formatInt_uint by lia; done|hash_read; rewrite I9, I10; done|].
    intros j s Hj. hash_read. rewrite I12 in Hj. apply lookup_replicate in Hj as [-> _].
    apply lookup_empty.
  - rewrite I2. by apply created_named.
Qed.
End Script.
