(* ===== verification/ValkeyTokens.v ===== *)
(** * The token bucket of the admission script

    On a stored sound row the doubles of the script compute the integers of the
    PostgreSQL mutator: the refill, the waiting times, the reply and the new hash
    agree. *)

From S2P Require Import Prelude Float64 GoTime GoHash Errors Keys Policy MemoryState TokenBucket.
From S2P Require Import PgState PgTokens PgRows GoJson JsonFacts Lua ValkeyServer ValkeyScripts ValkeyState.

Local Open Scope string_scope.
Local Open Scope list_scope.
Local Open Scope Z_scope.

Abbreviation zero := (Zero false).

(** The reply that stands for a decision at an effective time. *)
Definition replyOf (d : Decision) (m : Z) : reply :=
  [flag (Allowed d); formatInt (Remaining d); formatInt (dec_Limit d); formatInt (UnixMicro (Reset d));
   formatInt (Microseconds (RetryAfter d)); dec_Reason d; formatInt m].

(** A decision the reply carries without loss: whole microseconds, a reset that
    is not before the effective time, and numbers within 53 bits. *)
Record reportable (d : Decision) (m : Z) : Prop := {
  rp_reset : exists us, instant (Reset d) = us * 1000 /\ m <= us <= maxExact;
  rp_retry : exists us, RetryAfter d = us * 1000 /\ 0 <= us <= maxExact;
  rp_remaining : 0 <= Remaining d <= maxExact;
  rp_limit : 0 <= dec_Limit d <= maxExact;
  rp_reason : dec_Reason d = if Allowed d then ReasonAllowed else ReasonLimited;
  rp_names : dec_Backend d = EmptyString /\ dec_PolicyRevision d = EmptyString
}.

(** How a script ends that stores [row] and reports [d]. *)
Definition ends (expires : option Z) (row : persistedState) (d : Decision) (m : Z) (o : outcome reply) (e : option entry) : Prop :=
  o = Ret (replyOf d m) /\ reportable d m /\ exists h, e = Some (mkEntry h expires) /\ stored row h.

(** The longest refill of a policy, in microseconds. *)
Definition refillHorizon (p : Policy) : Z := (Limit p * period_micros p - 1) / capacity p + 1.

(** Times at which the doubles of a script are exact: no number it computes from
    the time leaves 53 bits. *)
Definition exact_time (p : Policy) (m : Z) : Prop :=
  - maxExact <= m - period_micros p /\ m + 2 * period_micros p <= maxExact /\ m + refillHorizon p <= maxExact.

Lemma round_up v c : 0 <= v -> 1 <= c -> forall dt, (v - 1) / c + 1 <= dt <-> v <= dt * c.
Proof.
  intros Hv Hc dt. split; intros H.
  - pose proof (Z.mul_succ_div_gt (v - 1) c ltac:(lia)). pose proof (scale_le ((v - 1) / c + 1) dt c ltac:(lia) H). lia.
  - assert ((v - 1) / c < dt) by (apply Z.div_lt_upper_bound; lia). lia.
Qed.

Section Tokens.
Context (pol : string -> Policy) (name : string) (P : Z).
Hypothesis Hline : lineage pol name TokenBucket P.
Context (env : environment) (v : string) (cost ttl : Z).
Hypothesis Httl : 1 <= ttl <= maxExact.
Hypothesis Hrevision : strlen v <= 128.

Abbreviation p := (pol v).
Abbreviation a := (scriptArguments (pol v) cost ttl).

Lemma token_numbers : 1 <= capacity p <= Limit p /\ 1 <= P <= maxExact /\ 1 <= Limit p <= maxExact /\ Limit p * P <= maxExact.
Proof.
  pose proof (limit_exact _ _ _ _ Hline v) as (Hc & Hb & HL & _).
  destruct (token_policy p (line_wf _ _ _ _ Hline v) (line_algorithm _ _ _ _ Hline v))
    as (_ & _ & _ & _ & Hpm & _ & Hfull & _). unfold full_level in Hfull.
  rewrite (line_period_micros _ _ _ _ Hline) in *. pose proof (limit_exact _ _ _ _ Hline v) as (_ & _ & _ & HLm). nia.
Qed.

Lemma row_elapsed_eq row m :
  ps_LastMicros row < m -> row_elapsed row m = Z.min 9223372036854775 (m - ps_LastMicros row).
Proof.
  intros H. unfold row_elapsed, Sub; simpl. set (d := m * 1000 - ps_LastMicros row * 1000).
  assert (Z.max (- two63) (Z.min MaxInt64 d) = Z.min MaxInt64 d) as -> by lia.
  rewrite Microseconds_nonneg by lia. rewrite u64_id by (unfold is_u64; zlia). subst d. zlia.
Qed.

(** The doubles refill like the row. *)
Lemma refill_partial tok rem e :
  0 <= tok < Limit p -> 0 <= rem < P -> 1 <= e -> e * capacity p + rem <= maxExact ->
  refillBranch a (ofZ tok) (ofZ rem) (ofZ e) =
    (if (Limit p - tok) * P <=? e * capacity p + rem then (ofZ (Limit p), zero)
     else (ofZ (tok + (e * capacity p + rem) / P), ofZ ((e * capacity p + rem) mod P))).
Proof.
  intros Ht Hr He Hfit. destruct token_numbers as (Hc & HP & HL & Hfull).
  set (n := e * capacity p + rem) in *.
  assert (e <= maxExact) as Hem by nia.
  unfold refillBranch. rewrite (a_limit_Z _ _ _ _ Hline). change zero with (ofZ 0). rewrite !flt_Z by lia.
  rewrite (proj2 (Z.ltb_lt 0 e)), (proj2 (Z.ltb_lt tok (Limit p))) by lia. cbn [andb].
  change (a_capacity a) with (ofZ (capacity p)). rewrite (a_period_Z _ _ _ _ Hline).
  unfold max_exact. rewrite fsub_Z, ffloor_div by lia.
  assert (e <= (maxExact - rem) / capacity p) as Hle by (apply Z.div_le_lower_bound; lia).
  assert (Z.abs ((maxExact - rem) / capacity p) <= two53) by (apply div_small_abs; lia).
  rewrite flt_Z, (proj2 (Z.ltb_ge _ _)) by lia.
  rewrite fmul_Z, fadd_Z by lia. fold n. rewrite ffloor_div by lia.
  pose proof (Z.div_pos n P ltac:(lia) ltac:(lia)). pose proof (Z.div_le_upper_bound n P n ltac:(lia) ltac:(nia)).
  pose proof (Z.mul_div_le n P ltac:(lia)).
  rewrite fmod_Z by lia. rewrite fadd_Z by lia.
  pose proof (le_div_iff (Limit p - tok) P n ltac:(lia)).
  destruct (Z.leb_spec ((Limit p - tok) * P) n) as [Hfill|Hpart].
  - assert (mathMin (ofZ (Limit p)) (ofZ (tok + n / P)) = ofZ (Limit p)) as ->.
    { destruct (Z.le_gt_cases (tok + n / P) two53); [|apply mathMin_large; lia].
      rewrite mathMin_Z by lia. f_equal. lia. }
    by rewrite feq_Z, Z.eqb_refl by lia.
  - assert (tok + n / P < Limit p) by lia. rewrite mathMin_Z, Z.min_r, feq_Z by lia.
    by rewrite (proj2 (Z.eqb_neq _ _)) by lia.
Qed.

Lemma refill_overflow tok rem e :
  0 <= tok < Limit p -> 0 <= rem < P -> 1 <= e < 2 ^ 64 -> maxExact < e * capacity p + rem ->
  refillBranch a (ofZ tok) (ofZ rem) (ofZ e) = (ofZ (Limit p), zero).
Proof.
  intros Ht Hr He Hover. destruct token_numbers as (Hc & HP & HL & Hfull).
  assert (forall k, Z.abs k < two53 -> k < e -> flt (ofZ k) (ofZ e) = true) as Hlt.
  { intros k Hk Hke. destruct (Z.le_gt_cases e two53); [rewrite flt_Z by lia; by apply Z.ltb_lt|apply flt_large; lia]. }
  unfold refillBranch. rewrite (a_limit_Z _ _ _ _ Hline). change zero with (ofZ 0). rewrite (Hlt 0) by lia.
  rewrite flt_Z, (proj2 (Z.ltb_lt tok (Limit p))) by lia. cbn [andb].
  change (a_capacity a) with (ofZ (capacity p)). unfold max_exact. rewrite fsub_Z, ffloor_div by lia.
  assert (Z.abs ((maxExact - rem) / capacity p) <= maxExact - rem).
  { pose proof (scale_le 1 (capacity p) (maxExact - rem) ltac:(lia) ltac:(lia)).
    apply Z.abs_le. split; [|apply Z.div_le_upper_bound; lia].
    pose proof (Z.div_pos (maxExact - rem) (capacity p) ltac:(lia) ltac:(lia)). lia. }
  rewrite Hlt; [done|lia|]. apply Z.div_lt_upper_bound; lia.
Qed.

(** The refill of the script is the refill of the row. *)
Lemma refill_agrees row r tok rem :
  let m := ps_ObservedMicros row in
  token_row p P row -> req_Policy r = p -> Now r = toUTC (ofUnixMicro m) -> exact_micros m ->
  refillToken row r = setTokens row tok rem m ->
  refillBranch a (ofZ (ps_Tokens row)) (ofZ (ps_Remainder row)) (mathMax zero (fsub (ofZ m) (ofZ (ps_LastMicros row))))
    = (ofZ tok, ofZ rem).
Proof.
  intros m Hrow Hp Hn Hm E. pose proof Hrow as [Ht Hr Hf Hl]. fold m in Hl. unfold exact_micros in Hm.
  destruct token_numbers as (Hc & HP & HL & Hfull).
  rewrite fsub_Z by lia. change zero with (ofZ 0).
  assert (mathMax (ofZ 0) (ofZ (m - ps_LastMicros row)) = ofZ (m - ps_LastMicros row)) as ->.
  { destruct (Z.le_gt_cases (m - ps_LastMicros row) two53); [rewrite mathMax_Z by lia; f_equal; lia|].
    unfold mathMax. by rewrite flt_large by lia. }
  destruct (Z.eq_dec (ps_LastMicros row) m) as [El|El].
  { assert (refillToken row r = setTokens row (ps_Tokens row) (ps_Remainder row) m) as E'.
    { rewrite <- setTokens_id by done. unfold refillToken. rewrite Hn, UnixMicro_utc, El by auto with golib.
      unfold Sub. rewrite Z.sub_diag. done. }
    rewrite E' in E. injection E as <- <-. rewrite El, Z.sub_diag. unfold refillBranch. done. }
  destruct (row_elapsed_bounds row m ltac:(lia)) as (Hge & _).
  destruct (Z.eq_dec (ps_Tokens row) (Limit p)) as [Et|Et].
  { unfold refillToken in E. rewrite Hp, Hn, UnixMicro_utc in E by auto with golib.
    rewrite (proj2 (Z.ltb_ge _ _) Hge), Et, Z.ltb_irrefl in E. injection E as <- <-.
    unfold refillBranch. rewrite (a_limit_Z _ _ _ _ Hline), flt_Z, Et, Z.ltb_irrefl, andb_false_r by lia. done. }
  rewrite (refillToken_eq p (line_wf _ _ _ _ Hline v) (line_algorithm _ _ _ _ Hline v) row r m) in E
    by (rewrite ?(line_period_micros _ _ _ _ Hline); auto with golib; lia).
  unfold row_refilled in E. rewrite (line_period_micros _ _ _ _ Hline), row_elapsed_eq in E by lia.
  set (e := m - ps_LastMicros row) in *.
  destruct (Z.le_gt_cases (e * capacity p + ps_Remainder row) maxExact) as [Hfit|Hover].
  - rewrite refill_partial by lia. assert (e <= maxExact) by nia. rewrite Z.min_r in E by lia.
    destruct (_ <=? _); injection E as <- <-; done.
  - rewrite refill_overflow by lia.
    assert ((Limit p - ps_Tokens row) * P <= Z.min 9223372036854775 e * capacity p + ps_Remainder row) as Hfill by nia.
    rewrite (proj2 (Z.leb_le _ _) Hfill) in E. injection E as <- <-. done.
Qed.

(** *** Waiting times *)

Lemma refillTime_Z missing rem :
  0 <= missing <= Limit p -> 0 <= rem < P -> (missing = 0 -> rem = 0) ->
  exists us, refillTime a (ofZ missing) (ofZ rem) = ofZ us /\ refillDuration missing rem p = us * 1000 /\
    0 <= us <= refillHorizon p /\ us <= maxExact.
Proof.
  intros Hm Hr Hz. destruct token_numbers as (Hc & HP & HL & Hfull).
  pose proof (line_period_micros _ _ _ _ Hline v) as HPm.
  destruct (refillDuration_exact p (line_wf _ _ _ _ Hline v) (line_algorithm _ _ _ _ Hline v) missing rem)
    as (us & Hd & Hus & Hiff); [done|by rewrite HPm|done|]. rewrite HPm in Hiff.
  exists us. split_and!; [|done|lia| |lia].
  - pose proof (scale_le missing (Limit p) P ltac:(lia) ltac:(lia)) as Hprod.
    assert (0 <= missing * P - rem) as Hv0 by (destruct (Z.eq_dec missing 0) as [->|]; [rewrite Hz|nia]; lia).
    unfold refillTime. rewrite (a_period_Z _ _ _ _ Hline). change (a_strict a) with true. change (a_capacity a) with (ofZ (capacity p)).
    unfold ceiling. rewrite fmul_Z, !fsub_Z, ffloor_div by lia.
    assert (Z.abs ((missing * P - rem - 1) / capacity p) <= two53) by (apply div_small_abs; lia).
    rewrite fadd_Z by lia. f_equal.
    pose proof (round_up (missing * P - rem) (capacity p) Hv0 ltac:(lia)) as Hup. apply Z.le_antisymm.
    + apply Hup, Hiff. lia.
    + apply Hiff, Hup. lia.
  - apply Hiff. unfold refillHorizon. rewrite HPm.
    pose proof (proj1 (round_up (Limit p * P) (capacity p) ltac:(lia) ltac:(lia) _) (Z.le_refl _)).
    pose proof (scale_le missing (Limit p) P ltac:(lia) ltac:(lia)). lia.
Qed.

(** *** The branch *)

(** The state the script computes with: adjusted to a new revision. *)
Lemma token_loaded row m :
  let m' := effective row m in let row0 := prepared pol TokenBucket row v m' in
  sound_row pol name TokenBucket P row -> ps_LastMicros row = ps_ObservedMicros row ->
  (if negb (bool_decide (ps_Revision row = v))
   then (mathMin (ofZ (ps_Tokens row)) (a_limit a), zero, ofZ m')
   else (ofZ (ps_Tokens row), ofZ (ps_Remainder row), ofZ (ps_ObservedMicros row)))
  = (ofZ (ps_Tokens row0), ofZ (ps_Remainder row0), ofZ (ps_LastMicros row0)).
Proof.
  intros m' row0 Hrow Hlast. destruct token_numbers as (Hc & HP & HL & Hfull).
  pose proof (row_token _ _ _ _ _ Hrow eq_refl) as [Ht Hr Hf Hl].
  pose proof (limit_exact _ _ _ _ Hline (ps_Revision row)) as (_ & _ & _ & HLr).
  unfold row0, prepared, revised, recordWindowPeriod. rewrite (line_algorithm _ _ _ _ Hline).
  change (usesWindowMetadata TokenBucket) with false. cbv iota. eval_algorithms. cbn [andb].
  destruct (bool_decide (ps_Revision row = v)); cbn -[ofZ mathMin a_limit scriptArguments].
  - by rewrite Hlast.
  - rewrite (a_limit_Z _ _ _ _ Hline), mathMin_Z by lia.
    replace (Z.max (ps_LastMicros row) m') with m' by (unfold m', effective; lia). done.
Qed.

Lemma tokenCorrupt_false row h :
  stored row h -> sound_row pol name TokenBucket P row ->
  tokenCorrupt a (bool_decide (ps_Revision row = v)) (h !! "tokens") (h !! "remainder") (h !! "last") = false.
Proof.
  intros Hst Hrow. destruct token_numbers as (Hc & HP & HL & Hfull).
  pose proof (row_token _ _ _ _ _ Hrow eq_refl) as [Ht Hr Hf Hl].
  pose proof (limit_exact _ _ _ _ Hline (ps_Revision row)) as (_ & _ & _ & HLr).
  pose proof (row_observed _ _ _ _ _ Hrow) as Ho.
  destruct (pay_token _ _ (st_payload _ _ Hst) (row_algorithm _ _ _ _ _ Hrow)) as (E1 & E2 & _).
  unfold tokenCorrupt. rewrite E1, E2, (st_last _ _ Hst).
  rewrite !exactUnsigned_uint, exactSigned_int, !tonumberOf_uint by lia. cbn [negb orb].
  rewrite (a_period_Z _ _ _ _ Hline), (a_limit_Z _ _ _ _ Hline), fle_Z, flt_Z by lia.
  rewrite (proj2 (Z.leb_gt _ _)), andb_false_r by lia. cbn [orb].
  case_bool_decide as E; [|done]. rewrite <- E. by rewrite (proj2 (Z.ltb_ge _ _)) by lia.
Qed.

(** Writing counters keeps the frame. *)
Lemma framed_counters tok rem m h :
  0 <= tok <= maxExact -> 0 <= rem <= maxExact -> - maxExact <= m <= maxExact -> framed name TokenBucket h ->
  framed name TokenBucket (hset [("tokens", formatInt tok); ("remainder", formatInt rem); ("last", formatInt m)] h).
Proof.
  intros Ht Hr Hm [H1 H2 H3 H4]. split; try (hash_read; done). apply named_hset; [|done].
  repeat apply Forall_cons_2; try apply Forall_nil_2; (split; [by apply allowed_base|apply int_length; lia]).
Qed.

Lemma token_retry tok rem :
  0 <= tok <= Limit p -> 0 <= rem < P -> 1 <= cost -> cost <= Limit p ->
  exists retry,
    (if negb (tok <? cost) then zero else refillTime a (fsub (ofZ cost) (ofZ tok)) (ofZ rem)) = ofZ retry /\
    (if tok <? cost then refillDuration (cost - tok) rem p else 0) = retry * 1000 /\ 0 <= retry <= maxExact /\
    ((tok <? cost) = false -> retry = 0).
Proof.
  intros Ht Hr Hc Hl. destruct token_numbers as (Hcap & HP & HL & Hfull).
  destruct (Z.ltb_spec tok cost); cbn [negb]; [|by exists 0].
  destruct (refillTime_Z (cost - tok) rem) as (us & Eus & Dus & Hus & Husm); [lia|done|lia|].
  exists us. rewrite fsub_Z by lia. by split_and!; try lia.
Qed.

Lemma wp_tokenDecide row r tok rem m h d :
  refillToken row (at_micros r m) = setTokens row tok rem m -> token_row p P (setTokens row tok rem m) ->
  current_row name TokenBucket P v m row -> framed name TokenBucket h ->
  req_Policy r = p -> Cost r = cost -> 1 <= cost <= maxCost p -> - maxExact <= m -> exact_time p m ->
  exists row' dd err, mutateToken row (at_micros r m) = (row', dd, err) /\
    wp env (tokenDecide a (ofZ m) (ofZ tok) (ofZ rem) (ps_Carried row)) (ends (expiresAt env ttl) row' dd m) (Some (mkEntry h d)).
Proof.
  intros Eref Hrow1 Hcur Hfr Hp Hc Hcost Hlow (_ & Htwo & Hhor).
  destruct token_numbers as (Hcap & HP & HL & Hfull). pose proof (line_period_micros _ _ _ _ Hline v) as HPm.
  pose proof (line_facts _ _ _ _ Hline v) as (_ & _ & Hmax & _). pose proof (cur_observed _ _ _ _ _ _ Hcur) as I5.
  pose proof (mutateToken_eq p (line_wf _ _ _ _ Hline v) (line_algorithm _ _ _ _ Hline v) row (at_micros r m) tok rem) as Hmut.
  rewrite I5, HPm in Hmut. destruct (Hmut Eref Hrow1 Hp) as [Heq Hrow']; [by simpl; rewrite Hc|]. clear Hmut.
  cbn [Cost at_micros withNow] in Heq, Hrow'. rewrite Hc in Heq, Hrow'.
  pose proof Hrow1 as [Ht Hr Hf _]. cbn [ps_Tokens ps_Remainder setTokens] in Ht, Hr, Hf.
  set (left := if tok <? cost then tok else tok - cost) in *.
  assert (0 <= left <= Limit p) as Hleft by (unfold left; destruct (Z.ltb_spec tok cost); lia).
  destruct (refillTime_Z (Limit p - left) rem) as (us & Eus & Dus & Hus & Husm); [lia|done|pose proof (row_full _ _ _ Hrow') as Hfull'; simpl in Hfull'; lia|].
  eexists _, _, _. split; [exact Heq|]. unfold tokenDecide. change (a_cost a) with (ofZ cost).
  assert (fle (ofZ cost) (ofZ tok) = negb (tok <? cost)) as -> by (rewrite fle_Z by lia; apply Z.leb_antisym).
  assert ((if negb (tok <? cost) then fsub (ofZ tok) (ofZ cost) else ofZ tok) = ofZ left) as ->.
  { unfold left. destruct (tok <? cost); [done|]. by rewrite fsub_Z by lia. }
  destruct (token_retry tok rem) as (retry & Er & Dr & Hr0 & Hra); [lia|done|lia|lia|].
  rewrite Er, Dr, (a_limit_Z _ _ _ _ Hline), fsub_Z, Eus, Dus by lia. change zero with (ofZ 0).
  rewrite mathMax_Z, Z.max_r, fadd_Z by lia. apply wp_hset. intros _. rewrite !integer_Z by lia.
  eapply wp_finish; [exact Hline|done|lia|lia|lia|lia|intros Hno%negb_true_iff; by apply Hra|].
  split; [|split; [|eexists; split; [done|]]].
  - unfold admissionReply, replyOf. simpl. unfold Add; simpl. rewrite <- Z.mul_add_distr_r, UnixMicro_at by (unfold is_i64; lia).
    rewrite Microseconds_nonneg, Z.div_mul by lia. by destruct (tok <? cost).
  - split; simpl; [exists (m + us)|exists retry|..]; try lia; by destruct (tok <? cost).
  - change (ps_Carried row) with (ps_Carried (setTokens row left rem m)).
    apply (finished_stored _ _ _ _ Hline); [done|apply framed_counters; [lia|lia|lia|done]| |lia|by destruct Hcur].
    split; simpl; rewrite (cur_algorithm _ _ _ _ _ _ Hcur); [intros _|done..].
    hash_read. by rewrite !formatInt_uint, I5 by lia.
Qed.

Lemma token_branch row h d r m :
  let m' := effective row m in
  stored row h -> sound_row pol name TokenBucket P row -> row_request pol TokenBucket P r m ->
  revision (req_Policy r) = v -> Cost r = cost -> exact_time p m' ->
  exists row' dd err, mutateRow TokenBucket (prepared pol TokenBucket row v m') (at_micros r m') = (row', dd, err) /\
    wp env (tokenBranch a (ofZ m') (bool_decide (ps_Revision row = v)) (ps_Carried row))
      (ends (expiresAt env ttl) row' dd m') (Some (mkEntry h d)).
Proof.
  intros m' Hst Hrow (Hp & Hcost & Hn & Hm & _) Hv Hc Htime. rewrite Hv in Hp. rewrite Hp, Hc in Hcost.
  destruct token_numbers as (Hcap & HP & HL & Hfull). pose proof (line_period_micros _ _ _ _ Hline v) as HPm.
  pose proof (line_facts _ _ _ _ Hline v) as (_ & _ & Hmax & _).
  pose proof (row_observed _ _ _ _ _ Hrow) as Ho.
  destruct (pay_token _ _ (st_payload _ _ Hst) (row_algorithm _ _ _ _ _ Hrow)) as (E1 & E2 & E3).
  assert (exact_micros m') as Hex by (unfold m', effective, exact_micros; lia).
  pose proof Hex as Hex'. unfold exact_micros in Hex'.
  pose proof (token_loaded row m Hrow E3) as Hload. fold m' in Hload. cbv zeta in Hload.
  assert (token_row p P (prepared pol TokenBucket row v m')) as Hrow0
    by (apply (prepared_token _ _ _ _ Hline); [done|done|lia]).
  destruct (prepared_identity _ _ _ _ Hline row v m') as (I1 & I2 & I3 & I4 & I5 & I6 & I7 & I8 & I9).
  set (row0 := prepared pol TokenBucket row v m') in *.
  assert (Now (at_micros r m') = toUTC (ofUnixMicro (ps_ObservedMicros row0))) as Hnow by (by rewrite I5).
  destruct (refillToken_spec p (line_wf _ _ _ _ Hline v) (line_algorithm _ _ _ _ Hline v) row0 (at_micros r m'))
    as (tok & rem & Eref & Hrow1 & _); [by rewrite HPm|done|done|rewrite I5; auto with golib|].
  rewrite I5 in Eref. rewrite HPm, I5 in Hrow1.
  destruct (wp_tokenDecide row0 r tok rem m' h d Eref Hrow1) as (row' & dd & err & Hmut & Hwp); try done.
  { split; try done; [by rewrite I2; apply (row_policy _ _ _ _ _ Hrow)|by rewrite I4; apply (row_algorithm _ _ _ _ _ Hrow)]. }
  { by apply (stored_framed _ _ row h Hst); [apply (row_policy _ _ _ _ _ Hrow)|apply (row_algorithm _ _ _ _ _ Hrow)]. }
  { lia. }
  exists row', dd, err. split; [done|].
  pose proof (refill_agrees row0 (at_micros r m') tok rem) as Hag. rewrite I5 in Hag.
  unfold tokenBranch. change (a_strict a) with true. cbn [andb]. wp_read. wp_read. wp_read.
  rewrite (tokenCorrupt_false row h Hst Hrow), E1, E2, (st_last _ _ Hst).
  pose proof (row_token _ _ _ _ _ Hrow eq_refl) as [Ht Hr _ _].
  pose proof (limit_exact _ _ _ _ Hline (ps_Revision row)) as (_ & _ & _ & HLr).
  rewrite !tonumberOf_uint, tonumberOf_int, !number_bind by lia.
  rewrite Hload. cbv iota beta. rewrite Hag by done.
  replace (ps_Carried row) with (ps_Carried row0) by apply prepared_carried. exact Hwp.
Qed.
End Tokens.
