(* ===== verification/ValkeyWindows.v ===== *)
(** * The fixed window of the admission script

    On a stored sound row the script counts, decides and stores like the
    PostgreSQL mutator. *)

From S2P Require Import Prelude Float64 GoTime GoHash Errors Keys Policy MemoryState TokenBucket Windows.
From S2P Require Import PgState PgTokens PgRows PgAgree GoJson JsonFacts Lua ValkeyServer ValkeyScripts ValkeyState ValkeyTokens.

Local Open Scope string_scope.
Local Open Scope list_scope.
Local Open Scope Z_scope.

(** [Z.max (Sub reset now) 0] in microseconds. *)
Lemma wait_micros reset m :
  Z.abs reset <= two53 -> Z.abs m <= two53 ->
  Microseconds (Z.max (Sub (ofUnixMicro reset) (toUTC (ofUnixMicro m))) 0) = Z.max (reset - m) 0 \/
  9223372036854775 < reset - m.
Proof.
  intros Hr Hm. unfold Sub, toUTC, ofUnixMicro; simpl.
  destruct (Z.le_gt_cases (reset - m) 9223372036854775); [left|by right].
  rewrite Microseconds_nonneg by lia. zlia.
Qed.

Lemma setUsage_same row : setUsage row (ps_Window row) (ps_Used row) (ps_Carried row) = row.
Proof. by destruct row. Qed.

Section Windows.
Context (pol : string -> Policy) (name : string) (alg : Algorithm) (P : Z).
Hypothesis Hline : lineage pol name alg P.
Context (env : environment) (v : string) (cost ttl : Z).
Hypothesis Httl : 1 <= ttl <= maxExact.
Hypothesis Hrevision : strlen v <= 128.

Abbreviation p := (pol v).
Abbreviation a := (scriptArguments (pol v) cost ttl).

Section Fixed.
Hypothesis Halg : alg = FixedWindow.

Lemma fixedCorrupt_false row h :
  stored row h -> sound_row pol name alg P row ->
  fixedCorrupt a (bool_decide (ps_Revision row = v)) (ps_Carried row) (h !! "window") (h !! "used") = false.
Proof.
  intros Hst Hrow. pose proof (row_algorithm _ _ _ _ _ Hrow) as Ha. rewrite Halg in Ha.
  destruct (pay_fixed _ _ (st_payload _ _ Hst) Ha) as [E1 E2].
  pose proof (row_fixed _ _ _ _ _ Hrow Halg) as [Hw Hu Hc]. unfold exact_micros in Hw.
  pose proof (limit_exact _ _ _ _ Hline v) as (_ & _ & _ & HL). pose proof (line_facts _ _ _ _ Hline v) as (_ & HL1 & _).
  unfold fixedCorrupt. rewrite E1, E2, exactSigned_int, exactUnsigned_uint, tonumberOf_uint by lia. cbn [negb orb].
  rewrite (a_limit_Z _ _ _ _ Hline), flt_Z by lia. case_bool_decide as E; [|done]. rewrite <- E in *.
  destruct Hc as [Hc| ->]; [by rewrite (proj2 (Z.ltb_ge _ _)) by lia|by rewrite andb_false_r].
Qed.

Lemma framed_usage w used h :
  - maxExact <= w <= maxExact -> 0 <= used <= maxExact -> framed name alg h ->
  framed name alg (hset [("window", formatInt w); ("used", formatInt used)] h).
Proof.
  intros Hw Hu [H1 H2 H3 H4]. split; try (hash_read; done). apply named_hset; [|done].
  repeat apply Forall_cons_2; try apply Forall_nil_2; (split; [by apply allowed_base|apply int_length; lia]).
Qed.

(** The script decides on the usage of its window like [consume]. *)
Lemma fixed_decide row r w used carried m h d :
  let row0 := setUsage row w used (ps_Carried row) in
  current_row name alg P v m row -> framed name alg h -> req_Policy r = p -> Cost r = cost -> 1 <= cost <= maxCost p ->
  0 <= used <= maxExact -> (Limit p < used -> carried = true) -> m - P < w <= m -> exact_time p m ->
  exists row' dd err, consume row0 (at_micros r m) (ofUnixMicro (w + P)) = (row', dd, err) /\
    wp env (fixedDecide a (ofZ m) (ofZ w) (ofZ used) carried)
      (ends (expiresAt env ttl)
         (setUsage row' (ps_Window row') (ps_Used row') (usageExceedsLimit (ps_Used row') (Limit p))) dd m)
      (Some (mkEntry h d)).
Proof.
  intros row0 Hcur Hfr Hp Hc Hcost Hu Hcar Hw (Hlow & Htwo & _). rewrite (line_period_micros _ _ _ _ Hline) in *.
  pose proof (limit_exact _ _ _ _ Hline v) as (_ & _ & _ & HL). pose proof (line_facts _ _ _ _ Hline v) as (HP & HL1 & Hmax & _).
  pose proof (line_revision _ _ _ _ Hline v) as Hrev.
  assert (consume row0 (at_micros r m) (ofUnixMicro (w + P)) =
    if Limit p <? used + cost
    then (row0, decision false (Limit p) (Limit p - Z.min used (Limit p)) (ofUnixMicro (w + P))
            (Z.max (Sub (ofUnixMicro (w + P)) (toUTC (ofUnixMicro m))) 0) ReasonLimited, Some (Sent ErrRejected))
    else (setUsage row0 w (used + cost) (ps_Carried row),
          decision true (Limit p) (Limit p - (used + cost)) (ofUnixMicro (w + P)) 0 ReasonAllowed, None)) as ->.
  { pose proof (consume_cases _ _ _ _ Hline row0 (at_micros r m) (ofUnixMicro (w + P))) as Hcons.
    simpl in Hcons. rewrite Hp, Hrev, Hc in Hcons. by apply Hcons. }
  unfold fixedDecide. cbv zeta. change zero with (ofZ 0). change (a_cost a) with (ofZ cost).
  rewrite (a_limit_Z _ _ _ _ Hline), (a_period_Z _ _ _ _ Hline), fsub_Z, mathMax_Z, fadd_Z, fle_Z by lia.
  assert ((cost <=? Z.max 0 (Limit p - used)) = negb (Limit p <? used + cost)) as ->.
  { destruct (Z.leb_spec cost (Z.max 0 (Limit p - used))), (Z.ltb_spec (Limit p) (used + cost)); done || lia. }
  assert (forall used', 0 <= used' <= maxExact -> payload (setUsage row w used' (usageExceedsLimit used' (Limit p)))
    (hset [("window", formatInt w); ("used", formatInt used')] h)) as Hpay.
  { intros used' Hu'. split; simpl; rewrite (cur_algorithm _ _ _ _ _ _ Hcur), Halg; intros E; try done.
    hash_read. by rewrite (formatInt_uint used') by lia. }
  destruct (Z.ltb_spec (Limit p) (used + cost)); cbn [negb]; eexists _, _, _; (split; [reflexivity|]).
  - rewrite (fadd_Z w P), fsub_Z, mathMax_Z, fle_Z by lia.
    replace (if used <=? Limit p then false else carried) with (usageExceedsLimit used (Limit p)).
    2:{ unfold usageExceedsLimit. rewrite Z.ltb_antisym. destruct (Z.leb_spec used (Limit p)); [done|by rewrite Hcar by lia]. }
    apply wp_hset. intros _. rewrite !integer_Z by lia.
    eapply wp_finish; [exact Hline|done|lia|lia|lia|lia|done|]. split; [|split; [|eexists; split; [done|]]].
    + unfold admissionReply, replyOf. cbn [Allowed Remaining dec_Limit Reset RetryAfter dec_Reason decision].
      destruct (wait_micros (w + P) m) as [-> |]; [lia|lia| |lia]. unfold ofUnixMicro. rewrite UnixMicro_at by (unfold is_i64; lia).
      replace (Limit p - Z.min used (Limit p)) with (Z.max 0 (Limit p - used)) by lia.
      by rewrite (Z.max_comm 0 (w + P - m)).
    + split; simpl; [exists (w + P)|exists (Z.max (w + P - m) 0)|..]; try done; try lia. unfold Sub; simpl. lia.
    + apply (finished_stored _ _ _ _ Hline v Hrevision (setUsage row w used (usageExceedsLimit used (Limit p))) m);
        [by apply framed_usage; [lia..|]|by apply Hpay|lia|by destruct Hcur].
  - rewrite (fadd_Z w P), fsub_Z, fle_Z, (proj2 (Z.leb_le _ _)) by lia.
    match goal with |- context [mkVerdict ?x ?y ?z ?t false] =>
      replace (mkVerdict x y z t false) with (mkVerdict x y z t (usageExceedsLimit (used + cost) (Limit p)))
        by (unfold usageExceedsLimit; by rewrite (proj2 (Z.ltb_ge _ _)) by lia) end.
    apply wp_hset. intros _. rewrite !integer_Z by lia.
    eapply wp_finish; [exact Hline|done|lia|lia|lia|lia|done|]. split; [|split; [|eexists; split; [done|]]].
    + unfold admissionReply, replyOf. cbn [Allowed Remaining dec_Limit Reset RetryAfter dec_Reason decision].
      unfold ofUnixMicro. by rewrite UnixMicro_at by (unfold is_i64; lia).
    + split; simpl; [exists (w + P)|exists 0|..]; try done; lia.
    + apply (finished_stored _ _ _ _ Hline v Hrevision (setUsage row w (used + cost) (usageExceedsLimit (used + cost) (Limit p))) m);
        [by apply framed_usage; [lia..|]|apply Hpay; lia|lia|by destruct Hcur].
Qed.

Lemma fixed_branch row h d r m :
  let m' := effective row m in
  stored row h -> sound_row pol name alg P row -> row_request pol alg P r m ->
  revision (req_Policy r) = v -> Cost r = cost -> exact_time p m' ->
  exists row' dd err, mutateRow alg (prepared pol alg row v m') (at_micros r m') = (row', dd, err) /\
    wp env (fixedBranch a (ofZ m') (bool_decide (ps_Revision row = v)) (ps_Carried row))
      (ends (expiresAt env ttl) row' dd m') (Some (mkEntry h d)).
Proof.
  intros m' Hst Hrow (Hp & Hcost & Hn & Hm & _) Hv Hc Htime. rewrite Hv in Hp. rewrite Hp, Hc in Hcost.
  pose proof Htime as (Hlow & Htwo & _). rewrite (line_period_micros _ _ _ _ Hline) in Hlow, Htwo.
  pose proof (line_facts _ _ _ _ Hline v) as (HP & HL & Hmax & _). pose proof (row_algorithm _ _ _ _ _ Hrow) as Ha.
  destruct (pay_fixed _ _ (st_payload _ _ Hst) ltac:(congruence)) as [E1 E2].
  pose proof (row_fixed _ _ _ _ _ Hrow Halg) as [Hw Hu Hcar]. unfold exact_micros in Hw.
  destruct (prepared_identity _ _ _ _ Hline row v m') as (I1 & I2 & I3 & I4 & I5 & I6 & I7 & I8 & I9).
  pose proof (prepared_carried pol alg row v m') as I10. set (row0 := prepared pol alg row v m') in *.
  set (w := m' / P * P). assert (m' - P < w <= m') as Hwm by (unfold w; zlia).
  set (used := if ps_Window row =? w then ps_Used row else 0).
  set (carried := if ps_Window row =? w then (if negb (bool_decide (ps_Revision row = v)) then Limit p <? ps_Used row else ps_Carried row) else false).
  assert (Limit p < used -> carried = true) as Hcarried.
  { unfold used, carried. destruct (ps_Window row =? w); [|lia]. intros Hover. case_bool_decide as E; cbn [negb].
    - rewrite E in Hcar. destruct Hcar; [lia|done].
    - by apply Z.ltb_lt. }
  destruct (fixed_decide row0 r w used carried m' h d) as (row' & dd & err & Hcons & Hwp); try done.
  { split; [by rewrite I2; apply Hrow|congruence|done|done|done]. }
  { apply (stored_framed _ _ row h Hst); [apply Hrow|done]. }
  { unfold used. destruct (ps_Window row =? w); lia. }
  exists (setUsage row' (ps_Window row') (ps_Used row') (usageExceedsLimit (ps_Used row') (Limit p))), dd, err. split.
  - unfold mutateRow. rewrite Halg. eval_algorithms. cbv iota.
    pose proof (mutateFixed_micros p (line_wf _ _ _ _ Hline v)) as Hmut.
    rewrite (line_algorithm _ _ _ _ Hline), (line_period_micros _ _ _ _ Hline) in Hmut.
    rewrite (Hmut (line_windowed _ _ _ _ Hline) row0 r m') by (done || (unfold exact_micros; lia)).
    fold w. cbv zeta. rewrite I7.
    replace (if negb (ps_Window row =? w) then setUsage row0 w 0 (ps_Carried row0) else row0)
      with (setUsage row0 w used (ps_Carried row0)); [by rewrite Hcons|].
    unfold used. destruct (Z.eqb_spec (ps_Window row) w) as [Ew|]; cbn [negb]; [|done]. rewrite <- Ew, <- I7, <- I8.
    apply setUsage_same.
  - unfold fixedBranch. rewrite (fixedWindow_Z _ _ _ _ Hline) by (lia || (apply div_small_abs; lia)). fold w.
    change (a_strict a) with true. cbn [andb]. wp_read. wp_read.
    rewrite (fixedCorrupt_false row h Hst Hrow), E1, E2, tonumberOf_int, tonumberOf_uint by lia.
    unfold carried, used in Hwp. rewrite feq_Z, (a_limit_Z _ _ _ _ Hline) by lia.
    destruct (bool_decide (ps_Revision row = v)); cbn [negb] in *; rewrite ?number_bind, ?ret_bind, ?flt_Z by lia;
      destruct (ps_Window row =? w); rewrite number_bind; exact Hwp.
Qed.
End Fixed.
End Windows.
