(* ===== verification/ValkeySliding.v ===== *)
(** * The sliding window of the admission script

    The sixteen slots of the hash are the ring of a PostgreSQL row; the scan of
    the slots is [liveUsage], the deletion of expired slots is [clearExpired], and
    the script decides and stores like [mutateSliding]. *)

From S2P Require Import Prelude Float64 GoTime GoHash Errors Keys Policy MemoryState TokenBucket Windows SlidingWindow.
From S2P Require Import PgState PgTokens PgRows GoJson JsonFacts Lua ValkeyServer ValkeyScripts ValkeyState ValkeyTokens ValkeyWindows.

Local Open Scope string_scope.
Local Open Scope list_scope.
Local Open Scope Z_scope.

(** ** Slot names *)

Lemma slotField_inj a b : 0 <= a < ten20 -> 0 <= b < ten20 -> slotField a = slotField b -> a = b.
Proof. intros Ha Hb [= E]. by apply formatUint_inj. Qed.

Lemma slotField_base j f : f ∈ baseFields -> f <> slotField j.
Proof. revert f. apply Forall_forall. repeat apply Forall_cons_2; try apply Forall_nil_2; discriminate. Qed.

Lemma slot_allowed j : (j < 16)%nat -> slotField (Z.of_nat j) ∈ allowed_fields SlidingWindow.
Proof.
  intros Hj. unfold allowed_fields. eval_algorithms. cbv iota. apply elem_of_app. right. apply list_elem_of_fmap.
  exists (Z.of_nat j). split; [done|]. unfold slots. do 16 (destruct j as [|j]; [set_solver|]). lia.
Qed.

(** ** Deleting *)

Definition without (names : list string) (h : fields) : fields := foldl (fun h f => delete f h) h names.

Lemma lookup_without names f : forall h, without names h !! f = if bool_decide (f ∈ names) then None else h !! f.
Proof.
  induction names as [|g names IH]; intros h; [done|]. cbn [without foldl]. fold (without names (delete g h)).
  rewrite IH. destruct (decide (f = g)) as [->|Hne].
  - rewrite lookup_delete_eq, (bool_decide_eq_true_2 (g ∈ g :: names)) by apply list_elem_of_here. by destruct (bool_decide _).
  - rewrite lookup_delete_ne by done.
    replace (bool_decide (f ∈ g :: names)) with (bool_decide (f ∈ names)); [done|].
    apply bool_decide_ext. rewrite elem_of_cons. split; [by right|by intros [->|]].
Qed.

Lemma wp_deleteFields env names h d k Q :
  is_Some (h !! "schema") -> "schema" ∉ names ->
  wp env k Q (Some (mkEntry (without names h) d)) -> wp env (deleteFields names k) Q (Some (mkEntry h d)).
Proof.
  revert h. induction names as [|g names IH]; intros h Hs Hn Hk; [done|]. cbn [deleteFields].
  apply not_elem_of_cons in Hn as [Hg Hn]. apply wp_call. intros _ _. cbn [effect]. unfold hdel. cbn [fieldsOf deadlineOf mbind option_bind en_deadline en_fields].
  assert (is_Some (delete g h !! "schema")) as Hs' by (rewrite lookup_delete_ne by done; done).
  rewrite bool_decide_eq_false_2.
  - by apply IH.
  - intros E. rewrite E, lookup_empty in Hs'. by destruct Hs'.
Qed.

(** The fields of the expired slots, from slot [j] on. *)
Fixpoint expiredNames (o : Z) (j : nat) (segs : list persistedSegment) : list string :=
  match segs with
  | [] => []
  | s :: rest =>
      (if negb (ps_SegUsed s =? 0) && (ps_Index s <=? o) then [slotField (Z.of_nat j)] else []) ++ expiredNames o (S j) rest
  end.

Lemma elem_of_expired o f segs : forall j,
  f ∈ expiredNames o j segs <->
  exists i s, segs !! i = Some s /\ ps_SegUsed s <> 0 /\ ps_Index s <= o /\ f = slotField (Z.of_nat (j + i)).
Proof.
  induction segs as [|s segs IH]; intros j; cbn [expiredNames].
  - split; [by intros ?%elem_of_nil|]. by intros (i & s & Hi & _).
  - rewrite elem_of_app, IH. split.
    + intros [Hf|(i & x & Hi & Hu & Ho & ->)].
      * destruct (Z.eqb_spec (ps_SegUsed s) 0), (Z.leb_spec (ps_Index s) o); cbn [negb andb] in Hf; try by apply elem_of_nil in Hf.
        apply list_elem_of_singleton in Hf as ->. exists 0%nat, s. rewrite Nat.add_0_r. done.
      * exists (S i), x. by replace (j + S i)%nat with (S j + i)%nat by lia.
    + intros ([|i] & x & Hi & Hu & Ho & ->); simpl in Hi.
      * injection Hi as ->. left. rewrite (proj2 (Z.eqb_neq _ _) Hu), (proj2 (Z.leb_le _ _) Ho), Nat.add_0_r. by left.
      * right. exists i, x. by replace (S j + i)%nat with (j + S i)%nat by lia.
Qed.

Definition ring_stored (h : fields) (segs : list persistedSegment) : Prop :=
  forall j s, segs !! j = Some s -> h !! slotField (Z.of_nat j) = slotValue s.

(** Deleting the expired slots clears the ring. *)
Lemma ring_cleared o h segs :
  (length segs <= 16)%nat -> ring_stored h segs -> ring_stored (without (expiredNames o 0 segs) h) (clearExpired o segs).
Proof.
  intros Hl Hr j s Hj. unfold clearExpired in Hj. rewrite list_lookup_fmap in Hj.
  destruct (segs !! j) as [x|] eqn:Hx; [|done]. injection Hj as <-. rewrite lookup_without.
  pose proof (lookup_lt_Some _ _ _ Hx) as Hlt. case_bool_decide as Hin.
  - apply elem_of_expired in Hin as (i & y & Hy & Hu & Ho & Hf). pose proof (lookup_lt_Some _ _ _ Hy).
    apply slotField_inj in Hf; [|lia..]. assert (i = j) as -> by lia. rewrite Hx in Hy. injection Hy as <-.
    by rewrite (proj2 (Z.leb_le _ _) Ho).
  - rewrite (Hr j x Hx). destruct (Z.leb_spec (ps_Index x) o) as [Ho|]; [|done].
    unfold slotValue. destruct (Z.eqb_spec (ps_SegUsed x) 0) as [|Hu]; [done|]. exfalso. apply Hin, elem_of_expired.
    by exists j, x.
Qed.

(** ** The scan *)

Section Sliding.
Context (pol : string -> Policy) (name : string) (P : Z).
Hypothesis Hline : lineage pol name SlidingWindow P.
Context (env : environment) (v : string) (cost ttl : Z).
Hypothesis Httl : 1 <= ttl <= maxExact.
Hypothesis Hrevision : strlen v <= 128.

Abbreviation p := (pol v).
Abbreviation a := (scriptArguments (pol v) cost ttl).

(** The scan after the slots below [j]. *)
Record scanned (j : nat) (use e : Z) (expired : list string) (sc : scan) : Prop := {
  sd_used : sc_used sc = ofZ use;
  sd_earliest : sc_earliest sc = if e =? MaxInt64 then None else Some (ofZ e);
  sd_expired : sc_expired sc = expired;
  sd_seen : Forall (fun x => exists i, x = ofZ i /\ Z.abs i <= two53 /\ i mod 16 < Z.of_nat j) (sc_seen sc);
  sd_bounds : e = MaxInt64 \/ exact_micros e
}.

Lemma fmod_16 i : exact_micros i -> fmod (ofZ i) (ofZ 16) = ofZ (i mod 16).
Proof. unfold exact_micros. intros Hi. apply fmod_Z; [lia|lia|zlia]. Qed.

(** A live slot passes the placement check. *)
Lemma placeSlot_live o c j i u use e expired sc :
  scanned j use e expired sc -> exact_micros i -> exact_micros c -> exact_micros o -> 1 <= u <= maxExact -> (j < 16)%nat ->
  o < i <= c -> i mod 16 = Z.of_nat j ->
  placeSlot (ofZ o) (ofZ c) (Z.of_nat j) (Some (ofZ i)) (Some (ofZ u)) (sc_seen sc) = Some (ofZ i :: sc_seen sc).
Proof.
  intros Hsc Hi Hc Ho Hu Hj Hlive Hmod. unfold exact_micros in Hi, Hc, Ho. unfold placeSlot. change zero with (ofZ 0).
  rewrite fmod_16, !flt_Z, feq_Z by (done || lia). rewrite Hmod, Z.eqb_refl.
  rewrite (proj2 (Z.ltb_lt 0 u)), (proj2 (Z.ltb_lt o i)), (proj2 (Z.ltb_ge c i)) by lia. cbn [andb orb negb].
  assert (existsb (feq (ofZ i)) (sc_seen sc) = false) as ->; [|done].
  pose proof (sd_seen _ _ _ _ _ Hsc) as Hseen. induction Hseen as [|x l (i' & -> & Hi' & Hlt) Hl IH]; [done|]. simpl.
  rewrite IH, feq_Z by lia. rewrite (proj2 (Z.eqb_neq i i')); [done|]. intros ->. lia.
Qed.

Lemma placeSlot_expired o c j i u seen :
  exact_micros i -> exact_micros o -> 1 <= u <= maxExact -> i <= o ->
  placeSlot (ofZ o) (ofZ c) j (Some (ofZ i)) (Some (ofZ u)) seen = Some seen.
Proof.
  intros Hi Ho Hu Hle. unfold exact_micros in Hi, Ho. unfold placeSlot. change zero with (ofZ 0). rewrite !flt_Z by lia.
  by rewrite (proj2 (Z.ltb_ge o i)), andb_false_r by lia.
Qed.

(** Counting a live slot. *)
Lemma countSlot_scanned j i u use e expired sc :
  scanned j use e expired sc -> exact_micros i -> 1 <= u <= maxExact -> 0 <= use -> use + u <= maxExact -> (j < 16)%nat ->
  i mod 16 = Z.of_nat j ->
  scanned (S j) (use + u) (Z.min e i) expired (countSlot sc (ofZ i) (ofZ u) (ofZ i :: sc_seen sc)).
Proof.
  intros [H1 H2 H3 H4 H5] Hi Hu Huse Hle Hj Hmod. unfold exact_micros in *. unfold countSlot. change zero with (ofZ 0).
  split; cbn [sc_used sc_earliest sc_expired sc_seen].
  - by rewrite H1, fadd_Z by lia.
  - rewrite flt_Z, (proj2 (Z.ltb_lt 0 u)) by lia. cbn [andb]. rewrite H2.
    destruct (Z.eqb_spec e MaxInt64) as [->|He].
    + rewrite Z.min_r by lia. by rewrite (proj2 (Z.eqb_neq i _)) by lia.
    + rewrite flt_Z by lia. rewrite (proj2 (Z.eqb_neq (Z.min e i) _)) by lia.
      destruct (Z.ltb_spec i e); do 2 f_equal; lia.
  - done.
  - constructor; [exists i; split_and!; [done|lia|lia]|].
    eapply Forall_impl; [exact H4|]. intros x (i' & -> & ? & ?). exists i'. split_and!; [done..|lia].
  - right. unfold exact_micros. destruct H5; lia.
Qed.

Lemma scanned_next j use e expired sc names :
  scanned j use e expired sc ->
  scanned (S j) use e (expired ++ names) (mkScan (sc_used sc) (sc_earliest sc) (sc_expired sc ++ names) (sc_seen sc)).
Proof.
  intros [H1 H2 H3 H4 H5]. split; simpl; try congruence; try done.
  eapply Forall_impl; [exact H4|]. intros x (i' & -> & ? & ?). exists i'. split_and!; [done..|lia].
Qed.

Lemma scanned_skip j use e expired sc : scanned j use e expired sc -> scanned (S j) use e expired sc.
Proof.
  intros Hsc. pose proof (scanned_next j use e expired sc [] Hsc) as H. rewrite !app_nil_r in H. by destruct sc.
Qed.

(** The scan of the slots is the loop of the PostgreSQL mutator. *)
Lemma wp_scanSlots m o c h d k Q segs : forall j use e expired sc,
  (j + length segs = 16)%nat -> exact_micros o -> exact_micros c ->
  (forall i s, segs !! i = Some s -> slot_sound P m (j + i) s /\ h !! slotField (Z.of_nat (j + i)) = slotValue s) ->
  seg_at P m <= c -> scanned j use e expired sc -> 0 <= use -> use + ring_sum o (ring_of segs) <= maxExact ->
  (forall sc', scanned 16 (liveUsage o segs use e).1 (liveUsage o segs use e).2 (expired ++ expiredNames o j segs) sc' ->
     wp env (k sc') Q (Some (mkEntry h d))) ->
  wp env (scanSlots a (ofZ o) (ofZ c) (Z.of_nat <$> seq j (length segs)) sc k) Q (Some (mkEntry h d)).
Proof.
  induction segs as [|s segs IH]; intros j use e expired sc Hlen Ho Hc Hslots Hseg Hsc Huse Hsum Hk.
  { apply Hk. rewrite app_nil_r. simpl in Hlen. by replace 16%nat with j by lia. }
  destruct (Hslots 0%nat s eq_refl) as [(Hu & Hi & Hplace) Hf]. rewrite Nat.add_0_r in Hplace, Hf. simpl in Hlen.
  assert (0 <= ring_sum o (ring_of segs)) as Hpos.
  { apply ring_sum_nonneg, Forall_lookup. intros i g Hg. rewrite ring_of_lookup in Hg.
    destruct (segs !! i) as [x|] eqn:Hx; simplify_eq/=. apply (Hslots (S i) x Hx). }
  assert (forall i s0, segs !! i = Some s0 ->
    slot_sound P m (S j + i) s0 /\ h !! slotField (Z.of_nat (S j + i)) = slotValue s0) as Hslots'.
  { intros i x Hx. specialize (Hslots (S i) x Hx). by replace (S j + i)%nat with (j + S i)%nat by lia. }
  cbn [length seq fmap list_fmap scanSlots]. wp_read. rewrite Hf. unfold slotValue.
  cbn [ring_of fmap list_fmap ring_sum foldr] in Hsum. fold (ring_of segs) in Hsum. fold (ring_sum o (ring_of segs)) in Hsum.
  unfold contribution in Hsum. cbn [seg_index seg_used seg_of] in Hsum. cbn [liveUsage expiredNames] in Hk.
  destruct (Z.eqb_spec (ps_SegUsed s) 0) as [E0|E0]; cbn [negb andb app] in Hk.
  { rewrite E0, Z.add_0_r, u64_id in Hk by (unfold is_u64; destruct (o <? ps_Index s); lia).
    apply (IH (S j) use e expired); try done; [lia|by apply scanned_skip|destruct (o <? ps_Index s); lia|].
    by destruct (o <? ps_Index s). }
  destruct Hplace as [|[Hmod Hle]]; [done|]. pose proof Hi as Hi'. unfold exact_micros in Hi', Ho, Hc.
  change (a_strict a) with true. rewrite cutColon_encoded, exactSigned_int, exactUnsigned_uint by lia. cbn [andb negb].
  rewrite tonumber_int, tonumber_uint by lia.
  destruct (Z.leb_spec (ps_Index s) o) as [Hold|Hlive].
  - rewrite placeSlot_expired, number_bind, fle_Z, (proj2 (Z.leb_le _ _)) by (done || lia).
    rewrite (proj2 (Z.ltb_ge _ _)) in Hk, Hsum by lia.
    apply (IH (S j) use e (expired ++ [slotField (Z.of_nat j)])); try done; [lia|by apply scanned_next|].
    by rewrite <- app_assoc.
  - rewrite (placeSlot_live o c j _ _ use e expired), number_bind, fle_Z, (proj2 (Z.leb_gt _ _)), number_bind by (done || lia).
    cbn [andb].
    rewrite (proj2 (Z.ltb_lt _ _)) in Hk, Hsum by lia. rewrite u64_id in Hk by (unfold is_u64; lia).
    unfold max_exact. rewrite (sd_used _ _ _ _ _ Hsc), fsub_Z, flt_Z, (proj2 (Z.ltb_ge _ _)) by lia.
    apply (IH (S j) (use + ps_SegUsed s) (Z.min e (ps_Index s)) expired); try done; [lia|apply countSlot_scanned; (done || lia)|lia|lia].
Qed.

(** ** The slot of the present *)

Lemma ring_claimed m m' h segs :
  ring_sound P m segs -> m <= m' -> ring_stored h (clearExpired (old_at P m') segs) ->
  ring_stored h (claimSlot (slot_at P m') (seg_at P m') (clearExpired (old_at P m') segs)).
Proof.
  intros Hr Hm Hst j s Hj. unfold claimSlot in Hj.
  destruct (clearExpired (old_at P m') segs !! slot_at P m') as [x|] eqn:Hx; [|by apply Hst].
  destruct (Z.eqb_spec (ps_Index x) (seg_at P m')) as [|Hne]; cbn [negb] in Hj; [by apply Hst|].
  destruct (decide (j = slot_at P m')) as [->|Hj'].
  - rewrite list_lookup_insert_eq in Hj by (by eapply lookup_lt_Some). injection Hj as <-.
    rewrite (Hst _ _ Hx). destruct (present_free _ _ _ _ Hline _ _ _ _ Hr Hm Hx) as [|H0]; [done|].
    unfold slotValue. by rewrite H0.
  - rewrite list_lookup_insert_ne in Hj by done. by apply Hst.
Qed.

Lemma ring_written m h segs s c :
  ring_sound P m segs -> ring_stored h segs -> segs !! slot_at P m = Some s -> ps_Index s = seg_at P m -> 1 <= c ->
  ps_SegUsed s + c <= maxExact ->
  ring_stored (<[slotField (Z.of_nat (slot_at P m)) := encoded (seg_at P m) (ps_SegUsed s + c)]> h)
    (addToSlot (slot_at P m) c segs).
Proof.
  intros [Hl Hslots] Hst Hs Hi Hc Hle j x Hj. destruct (Hslots _ _ Hs) as ([Hu _] & _). unfold addToSlot in Hj.
  rewrite Hs, u64_id in Hj by (unfold is_u64; lia). pose proof (lookup_lt_Some _ _ _ Hs) as Hlt.
  destruct (decide (j = slot_at P m)) as [->|Hne].
  - rewrite list_lookup_insert_eq in Hj by done. injection Hj as <-. rewrite lookup_insert_eq. unfold slotValue. simpl.
    by rewrite Hi, (proj2 (Z.eqb_neq _ _)) by lia.
  - rewrite list_lookup_insert_ne in Hj by done. pose proof (lookup_lt_Some _ _ _ Hj).
    rewrite lookup_insert_ne; [by apply Hst|]. intros E%slotField_inj; [|lia..]. lia.
Qed.

Lemma wp_writeSlot m h d segs s k Q :
  exact_micros m -> ring_sound P m segs -> ring_stored h segs -> segs !! slot_at P m = Some s -> ps_Index s = seg_at P m ->
  1 <= cost -> ps_SegUsed s + cost <= maxExact ->
  wp env k Q (Some (mkEntry (<[slotField (Z.of_nat (slot_at P m)) := encoded (seg_at P m) (ps_SegUsed s + cost)]> h) d)) ->
  wp env (writeSlot a (ofZ (seg_at P m)) k) Q (Some (mkEntry h d)).
Proof.
  intros Hm Hr Hst Hs Hi Hc Hle Hk. pose proof (seg_at_exact _ _ _ _ Hline m Hm) as Hex.
  pose proof Hex as Hex'. unfold exact_micros in Hex'. pose proof (Z.mod_pos_bound (seg_at P m) 16 ltac:(lia)).
  destruct Hr as [_ Hslots]. destruct (Hslots _ _ Hs) as (Hu & _). pose proof (Hst _ _ Hs) as Hf.
  unfold writeSlot. rewrite fmod_16, integer_Z, formatInt_uint, <- slot_residue_at by (done || lia).
  change ("b" +:+ formatUint (Z.of_nat (slot_at P m))) with (slotField (Z.of_nat (slot_at P m))).
  wp_read. rewrite Hf. unfold slotValue. change (a_cost a) with (ofZ cost).
  destruct (Z.eqb_spec (ps_SegUsed s) 0) as [E0|E0].
  - rewrite ret_bind. change zero with (ofZ 0). rewrite fadd_Z, !integer_Z, (formatInt_uint (0 + cost)) by lia.
    apply wp_hset. intros _. rewrite E0 in Hk. exact Hk.
  - rewrite Hi. rewrite matchHead_encoded, matchTail_encoded, tonumberOf_int, tonumberOf_uint, feq_Z, Z.eqb_refl, number_bind by lia.
    rewrite fadd_Z, !integer_Z, (formatInt_uint (_ + cost)) by lia. apply wp_hset. intros _. exact Hk.
Qed.

(** ** The decision *)

(** The reset time in microseconds. *)
Definition resetMicros (m e : Z) : Z := if e =? MaxInt64 then m + P else (e + 1) * width P + P.

Section Decide.
Context (m e : Z).
Hypothesis Htime : exact_time p m.
Hypothesis He : e = MaxInt64 \/ old_at P m < e <= seg_at P m.

Lemma width_bounds : (1 <= width P <= P /\ 16 * width P <= P + 15) /\ - maxExact <= m - P /\ m + 2 * P <= maxExact.
Proof.
  pose proof (Z.mul_div_le (P + 15) 16 ltac:(lia)) as H16. fold (width P) in H16.
  destruct (line_facts _ _ _ _ Hline v) as (_ & _ & _ & _ & _ & _ & Hw).
  destruct Htime as (Hlow & Htwo & _). rewrite (line_period_micros _ _ _ _ Hline) in *. lia.
Qed.

Lemma reset_bounds : m < resetMicros m e <= m + P + width P.
Proof.
  destruct width_bounds as (Hw & Hlow & Htwo). unfold resetMicros. destruct (Z.eqb_spec e MaxInt64) as [|Hne]; [lia|].
  destruct He as [|[Ho Hs]]; [done|]. unfold old_at, seg_at in *.
  pose proof (Z.mul_succ_div_gt (m - P) (width P) ltac:(lia)). pose proof (Z.mul_div_le m (width P) ltac:(lia)).
  pose proof (scale_le ((m - P) / width P + 1) e (width P) ltac:(lia) ltac:(lia)).
  pose proof (scale_le e (m / width P) (width P) ltac:(lia) ltac:(lia)). lia.
Qed.

Lemma reset_instant r : req_Policy r = p -> instant (slidingReset (at_micros r m) e) = resetMicros m e * 1000.
Proof.
  intros Hp. pose proof reset_bounds as Hb. destruct width_bounds as (Hw & Hlow & Htwo).
  unfold slidingReset, resetMicros in *. simpl. rewrite Hp, (segmentWidth_eq _ _ _ _ Hline), (line_period _ _ _ _ Hline).
  destruct (Z.eqb_spec e MaxInt64) as [|Hne]; cbn [negb]; simpl; [lia|].
  destruct He as [|[Ho Hs]]; [done|].
  assert (is_i64 (e + 1)) as H1 by (pose proof (scale_le (e + 1) 0 (width P)); unfold is_i64; nia).
  rewrite (i64_id (e + 1)) by done. rewrite i64_id by (unfold is_i64; lia). lia.
Qed.

Lemma reset_script (earliest : option float64) :
  earliest = (if e =? MaxInt64 then None else Some (ofZ e)) -> exact_micros (seg_at P m) -> exact_micros (old_at P m) ->
  match earliest with
  | Some earliest => fadd (fmul (fadd earliest (ofZ 1)) (ofZ (width P))) (a_period a)
  | None => fadd (ofZ m) (a_period a)
  end = ofZ (resetMicros m e).
Proof.
  intros -> Hs Ho. pose proof reset_bounds as Hb. destruct width_bounds as (Hw & Hlow & Htwo).
  unfold exact_micros in *. unfold resetMicros in *. rewrite (a_period_Z _ _ _ _ Hline).
  destruct (Z.eqb_spec e MaxInt64) as [|Hne]; [by rewrite fadd_Z by lia|]. destruct He as [|[Ho' Hs']]; [done|].
  rewrite fadd_Z, fmul_Z, fadd_Z by lia. done.
Qed.
End Decide.

Lemma base_not_expired o f segs : f ∈ baseFields -> f ∉ expiredNames o 0 segs.
Proof. intros Hf (i & s & _ & _ & _ & E)%elem_of_expired. by apply (slotField_base _ _ Hf) in E. Qed.

Lemma framed_without o segs h : framed name SlidingWindow h -> framed name SlidingWindow (without (expiredNames o 0 segs) h).
Proof.
  intros [H1 H2 H3 H4].
  assert (forall f, bool_decide (f ∈ baseFields) = true -> without (expiredNames o 0 segs) h !! f = h !! f) as Hbase.
  { intros f Hf%bool_decide_eq_true_1. rewrite lookup_without, bool_decide_eq_false_2; [done|]. by apply base_not_expired. }
  split; try (rewrite Hbase; done).
  intros f x. rewrite lookup_without. case_bool_decide; [done|]. apply H4.
Qed.

Lemma framed_slot j i u h :
  (j < 16)%nat -> exact_micros i -> 0 <= u <= maxExact -> framed name SlidingWindow h ->
  framed name SlidingWindow (<[slotField (Z.of_nat j) := encoded i u]> h).
Proof.
  intros Hj Hi Hu [H1 H2 H3 H4]. unfold exact_micros in Hi.
  split; try (rewrite lookup_insert_ne by discriminate; done). apply named_insert; [by apply slot_allowed| |done].
  etrans; [apply encoded_length; lia|lia].
Qed.

Lemma ring_payload row h : ps_Algorithm row = SlidingWindow -> ring_stored h (ps_Segments row) -> payload row h.
Proof. intros E Hr. split; rewrite E; try discriminate. intros _. exact Hr. Qed.

(** A reply of the script stands for a decision of [consume]. *)
Lemma sliding_reply m e r (allowed : bool) remaining retry :
  exact_time p m -> (e = MaxInt64 \/ old_at P m < e <= seg_at P m) -> req_Policy r = p ->
  retry = (if allowed then 0 else Z.max 0 (resetMicros m e - m)) ->
  admissionReply pol v allowed remaining (resetMicros m e) retry m =
  replyOf (decision allowed (Limit p) remaining (slidingReset (at_micros r m) e)
             (if allowed then 0 else Z.max (Sub (slidingReset (at_micros r m) e) (toUTC (ofUnixMicro m))) 0)
             (if allowed then ReasonAllowed else ReasonLimited)) m.
Proof.
  intros Ht He Hp ->. pose proof (reset_bounds m e Ht He) as Hb. pose proof (width_bounds m Ht) as (Hw & Hlow & Htwo).
  pose proof (reset_instant m e Ht He r Hp) as Hinst. unfold replyOf, admissionReply.
  cbn [Allowed Remaining dec_Limit Reset RetryAfter dec_Reason decision].
  assert (UnixMicro (slidingReset (at_micros r m) e) = resetMicros m e) as ->
    by (unfold UnixMicro; rewrite Hinst, Z.div_mul, i64_id by (unfold is_i64; lia); done).
  destruct allowed; [done|].
  assert (Sub (slidingReset (at_micros r m) e) (toUTC (ofUnixMicro m)) = Sub (ofUnixMicro (resetMicros m e)) (toUTC (ofUnixMicro m))) as ->
    by (unfold Sub; by rewrite Hinst).
  destruct (wait_micros (resetMicros m e) m) as [-> |]; [lia|lia| |lia]. by rewrite Z.max_comm.
Qed.

(** The rows [mutateSliding] may store. *)
Definition refusedRow (row : persistedState) (m use : Z) : persistedState :=
  setPersistedSegments (setUsage row (ps_Window row) use (usageExceedsLimit use (Limit p)))
    (claimSlot (slot_at P m) (seg_at P m) (clearExpired (old_at P m) (ps_Segments row))).
Definition grantedRow (row : persistedState) (m use : Z) : persistedState :=
  let row1 := refusedRow row m use in
  setPersistedSegments (setUsage row1 (ps_Window row1) (use + cost) (ps_Carried row1))
    (addToSlot (slot_at P m) cost (ps_Segments row1)).

(** What the decision is about. *)
Record decidable (row : persistedState) (r : Request) (m m0 use e : Z) : Prop := {
  dc_current : current_row name SlidingWindow P v m row;
  dc_ring : ring_sound P m0 (ps_Segments row);
  dc_past : m0 <= m;
  dc_exact : exact_micros m;
  dc_use : 0 <= use <= maxExact;
  dc_sum : use = ring_sum (old_at P m) (ring_of (ps_Segments row));
  dc_policy : req_Policy r = p;
  dc_cost : Cost r = cost /\ 1 <= cost <= maxCost p;
  dc_time : exact_time p m;
  dc_live : liveUsage (old_at P m) (ps_Segments row) 0 MaxInt64 = (use, e)
}.

Lemma sliding_mutates row r m m0 use e :
  decidable row r m m0 use e ->
  (e = MaxInt64 \/ old_at P m < e <= seg_at P m) /\
  let reset := slidingReset (at_micros r m) e in
  mutateSliding row (at_micros r m) =
    if Limit p <? use + cost
    then (refusedRow row m use, decision false (Limit p) (Limit p - Z.min use (Limit p)) reset
            (Z.max (Sub reset (toUTC (ofUnixMicro m))) 0) ReasonLimited, Some (Sent ErrRejected))
    else (grantedRow row m use, decision true (Limit p) (Limit p - (use + cost)) reset 0 ReasonAllowed, None).
Proof.
  intros [Hcur Hr Hm0 Hm Huse Euse Hp [Hc Hcost] Htime Hlive].
  pose proof (cur_observed _ _ _ _ _ _ Hcur) as Hobs. pose proof (line_revision _ _ _ _ Hline v) as Hrev.
  destruct (mutateSliding_eq _ _ _ _ Hline row r m0) as (e' & [Hlive' Hearliest] & Heq);
    rewrite ?Hobs; try done; [lia|by rewrite Hp, Hrev|]. rewrite Hobs in Hlive', Hearliest, Heq.
  rewrite Hlive in Hlive'. injection Hlive' as _ <-.
  split; [exact (earliest_span _ _ _ _ Hline m0 m _ e Hr Hm0 Hearliest)|]. intros reset.
  cbv zeta in Heq. rewrite Hp, Hrev, Hc, <- Euse in Heq. fold (refusedRow row m use) in Heq.
  pose proof (consume_cases _ _ _ _ Hline (refusedRow row m use) (at_micros r m) reset) as Hcons.
  simpl in Hcons. rewrite Hp, Hrev, Hc in Hcons. specialize (Hcons eq_refl Hcost Huse). fold (refusedRow row m use) in Hcons.
  fold reset in Heq. rewrite Hcons in Heq. by destruct (Limit p <? use + cost).
Qed.

(** Grant or refuse once the expired slots are gone. *)
Definition settle (m use e : Z) : prog reply :=
  let remaining := ofZ (Z.max 0 (Limit p - use)) in
  let reset := ofZ (resetMicros m e) in
  let carried := usageExceedsLimit use (Limit p) in
  if fle (ofZ cost) remaining then
    writeSlot a (ofZ (seg_at P m)) (finish a (ofZ m) (mkVerdict true (fsub remaining (ofZ cost)) reset (ofZ 0) carried))
  else finish a (ofZ m) (mkVerdict false remaining reset (mathMax (ofZ 0) (fsub reset (ofZ m))) carried).

Lemma sliding_settle row r m m0 use e h d :
  decidable row r m m0 use e -> framed name SlidingWindow h -> ring_stored h (ps_Segments (refusedRow row m use)) ->
  exists row' dd err, mutateSliding row (at_micros r m) = (row', dd, err) /\
    wp env (settle m use e) (ends (expiresAt env ttl) row' dd m) (Some (mkEntry h d)).
Proof.
  intros Hdc Hfr Hst. destruct (sliding_mutates _ _ _ _ _ _ Hdc) as [He Hmut].
  destruct Hdc as [Hcur Hr Hm0 Hm Huse Euse Hp [Hc Hcost] Htime Hlive].
  pose proof (limit_exact _ _ _ _ Hline v) as (_ & _ & _ & HL). pose proof (line_facts _ _ _ _ Hline v) as (HP & HL1 & Hmax & _).
  pose proof (width_bounds m Htime) as (Hw & Hlow & Htwo). pose proof (reset_bounds m e Htime He) as Hreset.
  pose proof (seg_at_exact _ _ _ _ Hline m Hm) as Hseg.
  destruct (ring_advance _ _ _ _ Hline m0 m _ Hr Hm0 Hm) as (Hr' & Hsum & s & Hs & Hi).
  pose proof (cur_algorithm _ _ _ _ _ _ Hcur) as Halg. rewrite Hmut. unfold settle. rewrite fle_Z by lia.
  assert ((cost <=? Z.max 0 (Limit p - use)) = negb (Limit p <? use + cost)) as ->.
  { destruct (Z.leb_spec cost (Z.max 0 (Limit p - use))), (Z.ltb_spec (Limit p) (use + cost)); done || lia. }
  destruct (Z.ltb_spec (Limit p) (use + cost)); cbn [negb]; eexists _, _, _; (split; [reflexivity|]).
  - rewrite fsub_Z, mathMax_Z by lia.
    eapply wp_finish; [exact Hline|done|lia|lia|lia|lia|done|]. split; [|split; [|eexists; split; [done|]]].
    + replace (Limit p - Z.min use (Limit p)) with (Z.max 0 (Limit p - use)) by lia.
      f_equal. by apply (sliding_reply m e r false).
    + split; simpl; [exists (resetMicros m e)|exists (Z.max (resetMicros m e - m) 0)|..]; try done; try lia.
      * by rewrite reset_instant; [split; [done|lia]|..].
      * unfold Sub; simpl. rewrite reset_instant by done. lia.
    + apply (finished_stored _ _ _ _ Hline v Hrevision (refusedRow row m use) m);
        [done|by apply ring_payload|lia|by destruct Hcur].
  - pose proof (present_used _ _ _ _ Hline m _ s Hr' Hs Hi) as Hused. rewrite Hsum, <- Euse in Hused.
    pose proof (proj2 Hr' _ _ Hs) as ([Hs0 _] & _).
    eapply (wp_writeSlot m h d _ s); [done|exact Hr'|done|done|done|lia|lia|]. rewrite fsub_Z by lia.
    eapply wp_finish; [exact Hline|done|lia|lia|lia|lia|done|]. split; [|split; [|eexists; split; [done|]]].
    + replace (Limit p - (use + cost)) with (Z.max 0 (Limit p - use) - cost) by lia.
      f_equal. by apply (sliding_reply m e r true).
    + split; simpl; [exists (resetMicros m e)|exists 0|..]; try done; try lia. by rewrite reset_instant; [split; [done|lia]|..].
    + apply (finished_stored _ _ _ _ Hline v Hrevision (grantedRow row m use) m); [|apply ring_payload; [done|]|lia|by destruct Hcur].
      * apply framed_slot; [|done|lia|done]. apply lookup_lt_Some in Hs. by destruct Hr' as [<- _].
      * by apply (ring_written m h _ s); [..|lia|lia].
Qed.

Lemma sliding_decide row r m m0 use e sc same carried h d :
  decidable row r m m0 use e -> framed name SlidingWindow h -> ring_stored h (ps_Segments row) ->
  (same = true -> use <= Limit p \/ carried = true) ->
  scanned 16 use e (expiredNames (old_at P m) 0 (ps_Segments row)) sc ->
  exists row' dd err, mutateSliding row (at_micros r m) = (row', dd, err) /\
    wp env (decideSliding a (ofZ m) same carried (ofZ (width P)) (ofZ (seg_at P m)) sc)
      (ends (expiresAt env ttl) row' dd m) (Some (mkEntry h d)).
Proof.
  intros Hdc Hfr Hst Hcar Hsc. destruct (sliding_mutates _ _ _ _ _ _ Hdc) as [He _].
  pose proof Hdc as [Hcur Hr Hm0 Hm Huse _ _ _ Htime _].
  pose proof (limit_exact _ _ _ _ Hline v) as (_ & _ & _ & HL). pose proof (line_facts _ _ _ _ Hline v) as (HP & HL1 & _).
  pose proof (width_bounds m Htime) as (Hw & Hlow & Htwo). pose proof (seg_at_exact _ _ _ _ Hline m Hm) as Hseg.
  assert (exact_micros (old_at P m)) as Hold.
  { unfold exact_micros in *. unfold old_at. split; [apply Z.div_le_lower_bound; nia|apply Z.div_le_upper_bound; nia]. }
  pose proof (ring_claimed m0 m _ _ Hr Hm0 (ring_cleared (old_at P m) h (ps_Segments row) ltac:(destruct Hr as [-> _]; lia) Hst)) as Hst'.
  pose proof (framed_without (old_at P m) (ps_Segments row) h Hfr) as Hfr'.
  destruct (sliding_settle row r m m0 use e _ d Hdc Hfr' Hst') as (row' & dd & err & Hmut & Hwp).
  exists row', dd, err. split; [done|]. unfold decideSliding. change (a_strict a) with true. cbn [andb].
  rewrite (sd_used _ _ _ _ _ Hsc), (sd_expired _ _ _ _ _ Hsc), (a_limit_Z _ _ _ _ Hline), flt_Z, fle_Z by lia.
  replace (same && (Limit p <? use) && negb carried) with false.
  2:{ destruct same; [|done]. destruct (Hcar eq_refl) as [Hle| ->]; [by rewrite (proj2 (Z.ltb_ge _ _)) by lia|by rewrite andb_false_r]. }
  apply wp_deleteFields; [by rewrite (fr_schema _ _ _ Hfr)|apply base_not_expired, (bool_decide_eq_true_1 _); reflexivity|].
  rewrite (reset_script m e Htime He _ (sd_earliest _ _ _ _ _ Hsc) Hseg Hold).
  change zero with (ofZ 0). change (a_cost a) with (ofZ cost). rewrite (fsub_Z (Limit p) use), mathMax_Z by lia.
  replace (if use <=? Limit p then false else if negb same then Limit p <? use else carried)
    with (usageExceedsLimit use (Limit p)); [exact Hwp|].
  unfold usageExceedsLimit. destruct (Z.leb_spec use (Limit p)); [apply Z.ltb_ge; lia|].
  rewrite (proj2 (Z.ltb_lt _ _)) by lia. destruct same; [|done]. by destruct (Hcar eq_refl) as [|]; [lia|].
Qed.

Lemma sliding_branch row h d r m :
  let m' := effective row m in
  stored row h -> sound_row pol name SlidingWindow P row -> row_request pol SlidingWindow P r m ->
  revision (req_Policy r) = v -> Cost r = cost -> exact_time p m' ->
  exists row' dd err, mutateRow SlidingWindow (prepared pol SlidingWindow row v m') (at_micros r m') = (row', dd, err) /\
    wp env (slidingBranch a (ofZ m') (bool_decide (ps_Revision row = v)) (ps_Carried row))
      (ends (expiresAt env ttl) row' dd m') (Some (mkEntry h d)).
Proof.
  intros m' Hst Hrow (Hp & Hcost & Hn & Hm & _) Hv Hc Htime. rewrite Hv in Hp. rewrite Hp, Hc in Hcost.
  pose proof (line_facts _ _ _ _ Hline v) as (HP & HL & _). pose proof (row_observed _ _ _ _ _ Hrow) as Ho.
  pose proof (row_algorithm _ _ _ _ _ Hrow) as Ha. pose proof (row_sliding _ _ _ _ _ Hrow eq_refl) as Hsl.
  pose proof (width_bounds m' Htime) as (Hw & Hlow & Htwo).
  assert (ps_ObservedMicros row <= m') as Hmono by (unfold m', effective; lia).
  assert (exact_micros m') as Hex by (unfold exact_micros; lia).
  pose proof (live_sum_later _ _ _ _ Hline row m' Hsl Hmono) as Hlive. destruct Hsl as [S1 S2 S3 S4].
  destruct (prepared_identity _ _ _ _ Hline row v m') as (I1 & I2 & I3 & I4 & I5 & I6 & I7 & I8 & I9).
  set (row0 := prepared pol SlidingWindow row v m') in *.
  destruct (liveUsage_sum P (ps_ObservedMicros row) (old_at P m') (ps_Segments row)) as (e & Euse & _); [done|lia|].
  set (use := ring_sum (old_at P m') (ring_of (ps_Segments row))) in *.
  assert (decidable row0 r m' (ps_ObservedMicros row) use e) as Hdc.
  { split; rewrite ?I9; try done; [|lia]. split; try done; [rewrite I2; apply Hrow|by rewrite I4]. }
  assert (exact_micros (old_at P m') /\ exact_micros (seg_at P m')) as [Hold Hseg].
  { split; [|by apply (seg_at_exact _ _ _ _ Hline)]. unfold exact_micros, old_at.
    split; [apply Z.div_le_lower_bound; nia|apply Z.div_le_upper_bound; nia]. }
  unfold mutateRow. eval_algorithms. cbv iota. unfold slidingBranch, slidingWidth.
  rewrite (a_period_Z _ _ _ _ Hline), fadd_Z, ffloor_div by lia. fold (width P).
  rewrite fsub_Z, !ffloor_div by lia. fold (seg_at P m') (old_at P m').
  destruct (mutateSliding row0 (at_micros r m')) as [[row' dd] err] eqn:Hmut. exists row', dd, err. split; [done|].
  change slots with (Z.of_nat <$> seq 0 16). rewrite <- S1.
  eapply (wp_scanSlots (ps_ObservedMicros row) _ _ h d _ _ (ps_Segments row) 0 0 MaxInt64 []); try done.
  - intros i s Hi. split; [by apply S2|]. by apply (pay_sliding _ _ (st_payload _ _ Hst) Ha).
  - unfold seg_at. apply Z.div_le_mono; lia.
  - split; simpl; try done. by left.
  - fold use. lia.
  - rewrite Euse. cbn [fst snd app]. intros sc Hsc.
    destruct (sliding_decide row0 r m' (ps_ObservedMicros row) use e sc (bool_decide (ps_Revision row = v)) (ps_Carried row) h d Hdc)
      as (row'' & dd' & err' & Hmut' & Hwp).
    + apply (stored_framed _ _ row h Hst); [apply Hrow|done].
    + rewrite I9. intros j s Hj. by apply (pay_sliding _ _ (st_payload _ _ Hst) Ha).
    + intros E%bool_decide_eq_true_1. rewrite E in S4. fold use in Hlive. destruct S4; [left; lia|by right].
    + by rewrite I9.
    + rewrite Hmut in Hmut'. injection Hmut' as <- <- <-. exact Hwp.
Qed.
End Sliding.
