(* ===== verification/ValkeyAdmit.v ===== *)
(** * Strict admission on a Valkey server

    The strict admission script on any lawful server does to the hash of a key
    what the strict PostgreSQL mutator does to its row; [AdmitStrict] returns that
    decision or an unknown outcome; and a history of admissions returns the
    decisions of the in-memory backend. *)

From S2P Require Import Prelude Float64 GoTime GoHash Errors Keys Policy Backend MemoryState TokenBucket Windows SlidingWindow.
From S2P Require Import PgState PgTokens PgRows PgAgree GoJson JsonFacts Lua ValkeyServer ValkeyScripts ValkeyStore.
From S2P Require Import ValkeyState ValkeyTokens ValkeyWindows ValkeySliding.

Local Open Scope string_scope.
Local Open Scope list_scope.
Local Open Scope Z_scope.

(** The TTL that the strict methods send, in milliseconds. *)
Definition strictTTL (p : Policy) : Z := valkeyStateTTL (period p) ÷ Millisecond.

Lemma stateTTL_range d : is_i64 d -> 0 <= d -> 1000 <= valkeyStateTTL d ÷ Millisecond <= maxExact.
Proof.
  intros [_ Hi] Hp. unfold valkeyStateTTL.
  rewrite (quot_nonneg MaxInt64 2) by lia. destruct (Z.ltb_spec (MaxInt64 / 2) d).
  - rewrite quot_nonneg by lia. zlia.
  - rewrite i64_id by (unfold is_i64; zlia). rewrite quot_nonneg by lia. zlia.
Qed.

(** ** Replies *)

Lemma parseInt64_format z : is_i64 z -> parseInt64 (formatInt z) = Some z.
Proof.
  intros Hz. pose proof (ParseInt_format z Hz) as Hp. unfold is_i64 in Hz.
  destruct (formatInt_head z ltac:(lia)) as (c & t & E & Hc). rewrite E in *. unfold parseInt64.
  destruct (at_byte 43 c) eqn:Hplus; [|exact Hp]. exfalso. unfold at_byte in Hplus. apply Z.eqb_eq in Hplus.
  destruct Hc as [Hd| ->]; [|done]. unfold isDigit in Hd. apply digit_range in Hd. lia.
Qed.

(** The decision with its reset in local time. *)
Definition localized (d : Decision) : Decision :=
  mkDecision (Allowed d) (Remaining d) (dec_Limit d) (mkTime (instant (Reset d)) Local) (RetryAfter d) (dec_Reason d)
    (dec_Backend d) (dec_PolicyRevision d).

(** A reply is decoded to the decision it stands for. *)
Lemma decode_reply d m :
  reportable d m -> - maxExact <= m ->
  decodeStrictDecisionReply (replyOf d m) = (localized d, if Allowed d then None else Some (Sent ErrRejected)).
Proof.
  intros [(us & Hreset & Hus) (retry & Hretry & Hr) Hrem Hlim Hreason [Hb Hv]] Hm.
  assert (UnixMicro (Reset d) = us) as Hmicro by (unfold UnixMicro; rewrite Hreset, Z.div_mul, i64_id by (unfold is_i64; lia); done).
  unfold decodeStrictDecisionReply, replyOf. cbn [length lookup list_lookup take]. rewrite Hmicro, Hretry, Hreason.
  rewrite Microseconds_nonneg, Z.div_mul by lia. rewrite (parseInt64_format m) by (unfold is_i64; lia).
  unfold decodeDecision. rewrite !(formatInt_uint (Remaining d)), !(formatInt_uint (dec_Limit d)) by lia.
  rewrite !ParseUint_format, !parseInt64_format by (unfold is_i64, is_u64; lia).
  rewrite (proj2 (Z.ltb_ge _ _)), i64_id by (unfold is_i64; lia).
  assert (Before (ofUnixMicro us) (ofUnixMicro m) = false) as Hbefore by (unfold Before; simpl; apply Z.ltb_ge; lia).
  unfold localized. rewrite Hreset, Hretry, Hreason, Hb, Hv.
  assert (ParseBool (flag (Allowed d)) = Some (Allowed d)) as -> by (by destruct (Allowed d)).
  destruct (Allowed d); eval_algorithms; cbn [andb negb Reset notRejected]; by rewrite Hbefore, andb_false_r.
Qed.

Section Admission.
Context (pol : string -> Policy) (name : string) (alg : Algorithm) (P : Z).
Hypothesis Hline : lineage pol name alg P.

(** What a key holds. *)
Definition keyed (row : option persistedState) (e : option entry) : Prop :=
  match row, e with
  | None, None => True
  | Some row, Some e => sound_row pol name alg P row /\ stored row (en_fields e)
  | _, _ => False
  end.

(** The effective time of a request on a key. *)
Definition effectiveAt (row : option persistedState) (m : Z) : Z :=
  match row with Some row => effective row m | None => m end.

(** The time a script works with. *)
Definition scriptClock (opts : Options) (env : environment) (r : Request) : Z :=
  if bool_decide (opt_Clock opts = ServerClock) then env_clock env else UnixMicro (Now r).

(** What the admission theorems ask of a request, of the server's clock and of the
    memory a key uses. *)
Record admissible (opts : Options) (env : environment) (row : option persistedState) (r : Request) : Prop := {
  ad_memory : env_memory env <= max_allocator_bytes;
  ad_clock : 0 <= env_clock env <= maxExact;
  ad_name : strlen name <= 128;
  ad_revision : strlen (revision (req_Policy r)) <= 128;
  ad_request : row_request pol alg P (at_micros r (scriptClock opts env r)) (scriptClock opts env r);
  ad_time : exact_time (req_Policy r) (effectiveAt row (scriptClock opts env r))
}.

Section Script.
Context (opts : Options) (env : environment) (r : Request).
Abbreviation v := (revision (req_Policy r)).
Abbreviation m := (scriptClock opts env r).
Abbreviation a := (scriptArguments (pol v) (Cost r) (strictTTL (req_Policy r))).
Abbreviation expires := (expiresAt env (strictTTL (req_Policy r))).

Lemma ttl_range : req_Policy r = pol v -> 1 <= strictTTL (req_Policy r) <= maxExact.
Proof.
  intros Hp. destruct (line_facts _ _ _ _ Hline v) as (HP & _ & _ & _ & _ & Hi & _).
  assert (period (req_Policy r) = P * 1000) as E by (rewrite Hp; apply (line_period _ _ _ _ Hline)).
  unfold strictTTL. rewrite E. pose proof (stateTTL_range (P * 1000) Hi ltac:(lia)). lia.
Qed.

(** Any algorithm on a stored row. *)
Lemma wp_runAlgorithm row h d :
  stored row h -> sound_row pol name alg P row -> admissible opts env (Some row) r ->
  exists row' dd err, mutateState (Some row) (at_micros r m) = (Some row', dd, err) /\
    wp env (runAlgorithm a (ofZ (effective row m)) (bool_decide (ps_Revision row = v)) (ps_Carried row))
      (ends expires row' dd (effective row m)) (Some (mkEntry h d)).
Proof.
  intros Hst Hrow [Hmem Hclock Hname Hrev Hreq Htime]. rewrite (mutateState_eq _ _ _ _ Hline row _ m Hrow Hreq).
  pose proof Hreq as (Hp & _). simpl in Hp, Htime. pose proof (ttl_range Hp) as Httl. rewrite Hp in Htime.
  change (revision (req_Policy (at_micros r m))) with v.
  unfold runAlgorithm. rewrite (a_algorithm_alg _ _ _ _ Hline).
  pose proof Hline as Hl. destruct (line_windowed _ _ _ _ Hline) as [E|[E|E]].
  - rewrite E in Hl, Hrow, Hreq |- *. eval_algorithms. cbv iota.
    destruct (token_branch _ _ _ Hl env v (Cost r) _ Httl Hrev row h d (at_micros r m) m) as (row' & dd & err & Hmut & Hwp); try done.
    rewrite Hmut. by exists row', dd, err.
  - destruct (fixed_branch _ _ _ _ Hl env v (Cost r) _ Httl Hrev E row h d (at_micros r m) m) as (row' & dd & err & Hmut & Hwp); try done.
    rewrite Hmut, E. eval_algorithms. cbv iota. by exists row', dd, err.
  - rewrite E in Hl, Hrow, Hreq |- *. eval_algorithms. cbv iota.
    destruct (sliding_branch _ _ _ Hl env v (Cost r) _ Httl Hrev row h d (at_micros r m) m) as (row' & dd & err & Hmut & Hwp); try done.
    rewrite Hmut. by exists row', dd, err.
Qed.

Lemma row_request_timely : row_request pol alg P (at_micros r m) m -> timely alg P m.
Proof. intros (_ & _ & _ & Hm & Hf). by split. Qed.

(** The script once its arguments are numbers. *)
Lemma wp_admitArguments row e :
  keyed row e -> admissible opts env row r ->
  exists row' dd err, mutateState row (at_micros r m) = (Some row', dd, err) /\
    wp env (admitArguments a (Some (ofZ m))) (ends expires row' dd (effectiveAt row m)) e.
Proof.
  intros Hkey Had. pose proof Had as [Hmem Hclock Hname Hrev Hreq Htime].
  pose proof (row_request_timely Hreq) as Ht. pose proof Ht as [Hm _]. destruct (line_facts _ _ _ _ Hline v) as (HP & _).
  pose proof Hreq as (Hp & _). simpl in Hp.
  destruct row as [row|], e as [[h d]|]; try done.
  - destruct Hkey as [Hrow Hst]. simpl in Hst. destruct (wp_runAlgorithm row h d Hst Hrow Had) as (row' & dd & err & Hmut & Hwp).
    exists row', dd, err. split; [done|]. unfold admitArguments.
    apply (wp_guardTime _ _ _ _ Hline); [done|]. eapply wp_openHash; [done..|].
    eapply wp_checkFields; [exact Hline|exact Hst|apply Hrow|].
    by eapply wp_admitStored.
  - destruct (first_row_sound _ _ _ _ Hline _ m Hreq) as [Hrow Hobs].
    rewrite (first_admission _ _ _ _ Hline _ m Hreq).
    assert (stored (first_row (at_micros r m)) (created pol name alg P v m)) as Hst
      by (apply (created_stored _ _ _ _ Hline); done || lia).
    assert (effective (first_row (at_micros r m)) m = m) as Heff by (unfold effective; lia).
    assert (admissible opts env (Some (first_row (at_micros r m))) r) as Had' by (split; try done; simpl; by rewrite Heff).
    destruct (wp_runAlgorithm _ _ None Hst Hrow Had') as (row' & dd & err & Hmut & Hwp).
    exists row', dd, err. split; [done|]. unfold admitArguments. simpl effectiveAt. rewrite Heff in Hwp.
    apply (wp_guardTime _ _ _ _ Hline); [done|]. eapply wp_openFresh; [done|lia|].
    eapply wp_checkFields; [exact Hline|exact Hst|apply Hrow|]. eapply wp_admitStored; [done..|]. by rewrite Heff.
Qed.

Lemma wp_scriptTime (k : option float64 -> prog reply) Q e :
  0 <= env_clock env <= maxExact -> Z.abs (UnixMicro (Now r)) <= two53 \/ opt_Clock opts = ServerClock ->
  wp env (k (Some (ofZ m))) Q e -> wp env (scriptTime (serverClockFlag opts) (formatInt (UnixMicro (Now r))) ≫= k) Q e.
Proof.
  intros Hc Hnow Hk. unfold scriptTime, serverClockFlag. unfold scriptClock in Hk. apply wp_bind.
  case_bool_decide as E; eval_algorithms; cbv iota.
  - wp_read. cbn [fst snd]. pose proof (Z.mod_pos_bound (env_clock env) 1000000 ltac:(lia)).
    pose proof (Z.div_mod (env_clock env) 1000000 ltac:(lia)). assert (0 <= env_clock env / 1000000) by (apply Z.div_pos; lia).
    rewrite !tonumber_uint, !number_bind, fmul_Z, fadd_Z by lia.
    replace (env_clock env / 1000000 * 1000000 + env_clock env mod 1000000) with (env_clock env) by lia. exact Hk.
  - destruct Hnow as [Hnow|]; [|done]. rewrite tonumber_int by done. exact Hk.
Qed.

Lemma wp_strictAdmit row e :
  keyed row e -> admissible opts env row r ->
  exists row' dd err, mutateState row (at_micros r m) = (Some row', dd, err) /\
    wp env (strictAdmitScript (strictArgs opts r)) (ends expires row' dd (effectiveAt row m)) e.
Proof.
  intros Hkey Had. destruct (wp_admitArguments row e Hkey Had) as (row' & dd & err & Hmut & Hwp).
  exists row', dd, err. split; [done|]. destruct Had as [_ Hclock _ _ (Hp & Hcost & _ & Hm & _) _]. simpl in Hp, Hcost.
  pose proof (limit_exact _ _ _ _ Hline v) as (Hc & Hb & HL & Hl).
  destruct (line_facts _ _ _ _ Hline v) as (HP & HL1 & Hmax & HPm & _). pose proof (ttl_range Hp) as Httl.
  rewrite <- Hp in Hc, Hb, HL, Hl, HL1, Hmax, HPm, Hwp.
  unfold strictAdmitScript, admitScriptBody, strictArgs, argsWith. cbn [app].
  rewrite (tonumber_uint (capacity _)), (tonumber_uint (burst _)), !number_bind by lia.
  apply wp_scriptTime; [done| |].
  { unfold scriptClock in Hm. destruct (bool_decide_reflect (opt_Clock opts = ServerClock)); [by right|left; lia]. }
  rewrite HPm. rewrite (tonumber_int P), number_bind by lia. change zero with (ofZ 0). rewrite !fle_Z by lia.
  rewrite !(proj2 (Z.leb_gt _ 0)) by lia. cbn [orb].
  rewrite (tonumber_uint (Cost r)), number_bind by lia. rewrite fle_Z, (proj2 (Z.leb_gt _ 0)), fadd_Z by lia.
  unfold max_exact. rewrite flt_Z, (proj2 (Z.ltb_ge _ _)) by lia. cbn [orb]. fold (strictTTL (req_Policy r)).
  rewrite tonumber_int by lia. unfold scriptArguments in Hwp. rewrite HPm in Hwp. exact Hwp.
Qed.
End Script.

(** What a mutation keeps. *)
Lemma mutation_keeps row e r m row' d err :
  keyed row e -> row_request pol alg P r m -> mutateState row r = (Some row', d, err) ->
  sound_row pol name alg P row' /\ settled d err /\ ps_ObservedMicros row' = effectiveAt row m.
Proof.
  intros Hkey Hreq Hmut.
  assert (exists row0, mutateState (Some row0) r = (Some row', d, err) /\ sound_row pol name alg P row0 /\
    effective row0 m = effectiveAt row m) as (row0 & Hmut0 & Hrow0 & Heff).
  { destruct row as [row|].
    - destruct e; [|done]. destruct Hkey. by exists row.
    - destruct (first_row_sound _ _ _ _ Hline r m Hreq) as [Hrow Hobs]. exists (first_row r).
      rewrite <- (first_admission _ _ _ _ Hline r m Hreq). split_and!; try done. unfold effective. simpl. lia. }
  destruct (admission_keeps _ _ _ _ Hline row0 r m Hrow0 Hreq) as (row1 & d1 & err1 & E & Hsound & Hset & Hobs & _).
  rewrite Hmut0 in E. injection E as <- <- <-. by rewrite Heff in Hobs.
Qed.

(** ** On a server *)

Section Server.
Context {S : Type} `{ServerLaws S}.

(** C12: the strict admission script is the strict PostgreSQL mutator.  On any
    server that implements the commands as documented, running the script on a key
    that is absent or holds a sound row returns, in its reply, the decision of
    [mutateState] on that row at the effective time, stores exactly the successor
    row, sets its expiry and touches no other key.  This covers the three
    algorithms, both clocks, rollback of the clock and a change of revision, as
    long as no number leaves the 53 bits in which the script computes exactly. *)
Theorem valkey_admits_like_postgres opts r row (s : S) k :
  keyed row (server_entry s k) -> admissible opts (server_env s k) row r ->
  let m := scriptClock opts (server_env s k) r in
  let '(o, s') := execute k (strictAdmitScript (strictArgs opts r)) s in
  exists row' d err h,
    mutateState row (at_micros r m) = (Some row', d, err) /\ o = Ret (replyOf d (effectiveAt row m)) /\
    server_entry s' k = Some (mkEntry h (expiresAt (server_env s k) (strictTTL (req_Policy r)))) /\
    sound_row pol name alg P row' /\ stored row' h /\
    (forall other, other <> k -> server_entry s' other = server_entry s other).
Proof.
  intros Hkey Had m. destruct (wp_strictAdmit opts (server_env s k) r row _ Hkey Had) as (row' & d & err & Hmut & Hwp).
  pose proof (wp_sound k _ _ s Hwp) as Hends. pose proof (execute_frame k (strictAdmitScript (strictArgs opts r))) as Hframe.
  destruct (execute k (strictAdmitScript (strictArgs opts r)) s) as [o s'] eqn:E. simpl in Hends.
  destruct Hends as (-> & _ & h & Hentry & Hst). exists row', d, err, h. split_and!; try done.
  - by destruct (mutation_keeps _ _ _ _ _ _ _ Hkey (ad_request _ _ _ _ Had) Hmut).
  - intros other Hne. pose proof (Hframe other Hne s) as Hf. by rewrite E in Hf.
Qed.
End Server.

(** ** Through the client *)

Section Client.
Context {W S : Type} `{ServerLaws S} (server : W -> S).
Context (withTimeout : Context W -> Duration -> Context W) (client : Client W).

(** The program of a registered script. *)
Definition program (s : script) : list string -> prog reply :=
  match s with
  | nativeAdmitScript => admitScript
  | nativeStrictAdmitScript => strictAdmitScript
  | nativeAcquireScript => acquireLeaseScript
  | nativeStrictAcquireScript => strictAcquireLeaseScript
  | nativeReleaseScript => releaseLeaseScript
  | nativeStrictReleaseScript => strictReleaseLeaseScript
  end.

(** The documented behaviour of the client and of contexts: a reply is what one
    atomic run of the script returned; a failed call ran the script once or not at
    all; a context with a timeout leaves the server alone when it is asked for its
    error, as the one it was made from does. *)
Definition quiet (ctx : Context W) : Prop := forall w, server (ctxErr ctx w).2 = server w.
Hypothesis client_runs : forall ctx s k args w,
  let '(o, s') := execute k (program s args) (server w) in
  match execScript client ctx s [k] args w with
  | (Ret (Ok messages), w') => server w' = s' /\ exists reply, o = Ret reply /\ messages = Ok <$> reply
  | (Ret (Err _), w') | (Panic, w') => server w' = server w \/ server w' = s'
  end.
Hypothesis timeout_quiet : forall ctx d, quiet ctx -> quiet (withTimeout ctx d).

Lemma decode_messages (reply : list string) : decodeScriptMessages (Ok <$> reply) = Ok reply.
Proof. induction reply as [|x reply IH]; [done|]. cbn. by rewrite IH. Qed.

(** The context check before the dispatch. *)
Lemma strictContext_cases (ctx : Context W) w :
  quiet ctx -> exists early w', strictContext ctx w = (Ret early, w') /\ server w' = server w /\
    (early = None \/ early = Some CanceledOutcome \/ early = Some DeadlineOutcome).
Proof.
  intros Hq. unfold strictContext. rewrite !bind_unfold. unfold lift at 1. pose proof (Hq w) as H1.
  destruct (ctxErr ctx w) as [first w1]. cbn. destruct (directError first CtxCanceled); [by eauto 10|].
  rewrite !bind_unfold. unfold lift. pose proof (Hq w1) as H2. destruct (ctxErr ctx w1) as [second w2]. cbn.
  simpl in *. destruct (directError second CtxDeadlineExceeded); eexists _, w2; (split; [done|]); (split; [by rewrite H2|]); auto.
Qed.

(** One dispatched script: its reply decoded, or an unknown outcome after one run
    or none. *)
Lemma dispatch_cases {A} (callCtx : Context W) s k args (fail : error -> A) decode w :
  quiet callCtx ->
  let '(o, s') := execute k (program s args) (server w) in
  match dispatched callCtx (executeScript client callCtx s [k] args) fail decode w with
  | (Ret a, w') =>
      (exists reply, o = Ret reply /\ a = decode reply /\ server w' = s') \/
      (exists c, a = fail (UnknownOutcome c)) /\ (server w' = server w \/ server w' = s')
  | (Panic, w') => server w' = server w \/ server w' = s'
  end.
Proof.
  intros Hquiet. pose proof (client_runs callCtx s k args w) as Hrun. destruct (execute k (program s args) (server w)) as [o s'].
  unfold dispatched, executeScript. rewrite !bind_unfold.
  destruct (execScript client callCtx s [k] args w) as [[[messages|err]|] w1]; [| |done]; cbn.
  - destruct Hrun as (Hs & reply & -> & ->). rewrite decode_messages. left. by exists reply.
  - rewrite bind_unfold. unfold lift. pose proof (Hquiet w1) as Hq. destruct (ctxErr callCtx w1) as [late w2].
    cbn in *. rewrite Hq. right. by eauto.
Qed.

(** A strict method on a valid request: the context had ended and nothing ran, or
    one dispatched script. *)
Lemma strict_call {A} opts (ctx : Context W) s k args (fail : error -> A) decode run w :
  quiet ctx ->
  run (mkStore (Some (nativeExecutor client)) opts) (nativeExecutor client) ctx =
    dispatched (withTimeout ctx (Timeout opts)) (executeScript client (withTimeout ctx (Timeout opts)) s [k] args) fail decode ->
  let '(o, s') := execute k (program s args) (server w) in
  match strictEntry (Some (mkStore (Some (nativeExecutor client)) opts)) (iface_of ctx) None fail run w with
  | (Ret a, w') =>
      (exists reply, o = Ret reply /\ a = decode reply /\ server w' = s') \/
      (a = fail CanceledOutcome \/ a = fail DeadlineOutcome) /\ server w' = server w \/
      (exists c, a = fail (UnknownOutcome c)) /\ (server w' = server w \/ server w' = s')
  | (Panic, w') => server w' = server w \/ server w' = s'
  end.
Proof.
  intros Hquiet Hrun. unfold strictEntry, strictReady. cbn [st_executor]. cbv iota beta zeta. rewrite bind_unfold.
  destruct (strictContext_cases ctx w Hquiet) as (early & w1 & -> & Hw1 & Hearly).
  destruct early as [early|].
  { destruct (execute k (program s args) (server w)). right; left. by destruct Hearly as [|[[= ->]|[= ->]]]; auto. }
  rewrite Hrun. pose proof (dispatch_cases (withTimeout ctx (Timeout opts)) s k args fail decode w1 (timeout_quiet _ _ Hquiet)) as Hcases.
  rewrite Hw1 in Hcases. destruct (execute k (program s args) (server w)) as [o s'].
  destruct (dispatched _ _ _ _ w1) as [[a|] w']; [|done]. destruct Hcases as [?|?]; auto.
Qed.

(** The admission of [row'] took effect on its key alone. *)
Definition admitted (k : string) (row' : persistedState) (expires : option Z) (s s' : S) : Prop :=
  (exists h, server_entry s' k = Some (mkEntry h expires) /\ stored row' h) /\
  (forall other, other <> k -> server_entry s' other = server_entry s other).

(** C14: a strict admission through the client is atomic and reports faithfully.
    [AdmitStrict] returns the decision and the error of [mutateState] on the row
    that the key held, with the successor stored; or reports that the context had
    ended, with the server untouched; or reports an unknown outcome, when the
    script ran once or not at all.  No other error and no other state can result
    from a valid request, and a panic of the client leaves one of the two states. *)
Theorem valkey_strict_admission opts ctx r row w :
  let k := key opts r in
  let env := server_env (server w) k in
  let done row' := admitted k row' (expiresAt env (strictTTL (req_Policy r))) (server w) in
  quiet ctx -> Validate r = None -> keyed row (server_entry (server w) k) -> admissible opts env row r ->
  exists row' d err, mutateState row (at_micros r (scriptClock opts env r)) = (Some row', d, err) /\
    match AdmitStrict withTimeout (Some (mkStore (Some (nativeExecutor client)) opts)) (iface_of ctx) r w with
    | (Ret (d', err'), w') =>
        d' = localized d /\ err' = err /\ done row' (server w') \/
        d' = emptyDecision /\ (err' = Some CanceledOutcome \/ err' = Some DeadlineOutcome) /\ server w' = server w \/
        d' = emptyDecision /\ (exists c, err' = Some (UnknownOutcome c)) /\ (server w' = server w \/ done row' (server w'))
    | (Panic, w') => server w' = server w \/ done row' (server w')
    end.
Proof.
  intros k env done Hquiet Hvalid Hkey Had.
  destruct (wp_strictAdmit opts env r row _ Hkey Had) as (row' & d & err & Hmut & Hwp).
  pose proof (wp_sound k _ _ (server w) Hwp) as (Ho & Hrep & h & Hentry & Hst).
  pose proof (execute_frame k (strictAdmitScript (strictArgs opts r))) as Hframe.
  destruct (mutation_keeps _ _ _ _ _ _ _ Hkey (ad_request _ _ _ _ Had) Hmut) as (_ & Hset & _).
  exists row', d, err. split; [exact Hmut|].
  assert (done row' (execute k (strictAdmitScript (strictArgs opts r)) (server w)).2) as Hdone by (split; [by exists h|by intros; apply Hframe]).
  unfold AdmitStrict. rewrite Hvalid.
  pose proof (strict_call opts ctx nativeStrictAdmitScript k (strictArgs opts r) (fun err => (emptyDecision, Some err)) decodeStrictDecisionReply) as Hcall.
  match goal with |- context [strictEntry _ _ None _ ?run w] => specialize (Hcall run w Hquiet) end.
  match type of Hcall with ?P -> _ => assert P as Hrun end.
  { cbn [st_options]. rewrite bool_decide_eq_false_2; [done|]. intros E. apply (windowed_not_concurrency alg); [apply Hline|].
    destruct (ad_request _ _ _ _ Had) as (Hp & _). simpl in Hp. rewrite <- E, Hp. symmetry. apply Hline. }
  specialize (Hcall Hrun). change (program nativeStrictAdmitScript) with strictAdmitScript in Hcall.
  destruct (execute k (strictAdmitScript (strictArgs opts r)) (server w)) as [o s']. simpl in Ho, Hdone. subst o.
  destruct (strictEntry _ _ None _ _ w) as [[[d' err']|] w']; [|destruct Hcall as [-> | ->]; auto].
  destruct Hcall as [(reply & [= <-] & Hdec & ->)|[[Hearly Hw]|[[c [= -> ->]] Hs]]].
  - left. rewrite (decode_reply d _ Hrep) in Hdec.
    + injection Hdec as -> ->. split_and!; try done. by destruct Hset as [[-> ->]|[-> ->]].
    + destruct (ad_time _ _ _ _ Had) as [Hlow _], (ad_request _ _ _ _ Had) as (Hp & _). simpl in Hp.
      rewrite Hp, (line_period_micros _ _ _ _ Hline) in Hlow. destruct (line_facts _ _ _ _ Hline (revision (req_Policy r))). lia.
  - right; left. by destruct Hearly as [[= -> ->]|[= -> ->]]; auto.
  - right; right. split_and!; [done|by exists c|]. destruct Hs as [-> | ->]; auto.
Qed.
End Client.
End Admission.
