(* ===== verification/ValkeyHistory.v ===== *)
(** * Histories of strict admissions on a Valkey key

    While a key does not expire, a history of strict admissions on it returns the
    decisions of the PostgreSQL rows and of the in-memory backend.  The expiry the
    store asks for is too short for token buckets with a burst: one theorem shows
    the burst returning early. *)

From S2P Require Import Prelude Float64 GoTime GoHash Errors Keys Policy Backend MemoryState TokenBucket Windows SlidingWindow.
From S2P Require Import PgState PgTokens PgRows PgAgree GoJson JsonFacts Lua ValkeyServer ValkeyScripts ValkeyStore.
From S2P Require Import ValkeyState ValkeyTokens ValkeyWindows ValkeySliding ValkeyAdmit.

Local Open Scope string_scope.
Local Open Scope list_scope.
Local Open Scope Z_scope.

(** One admission: the script and the decoding of its reply. *)
Definition admitOn {S} `{Server S} (opts : Options) (k : string) (s : S) (r : Request) : (Decision * option error) * S :=
  let '(o, s') := execute k (strictAdmitScript (strictArgs opts r)) s in
  (match o with Ret reply => decodeStrictDecisionReply reply | Panic => (emptyDecision, Some unknownReply) end, s').

(** What the theorems ask of the server between admissions: its clock and the
    memory of the key are in range. *)
Definition tame {S} `{Server S} (k : string) (s : S) : Prop :=
  env_memory (server_env s k) <= max_allocator_bytes /\ 0 <= env_clock (server_env s k) <= maxExact.

(** The request as the script sees it: at the time of the clock the store is
    configured with, in whole microseconds. *)
Definition stamped {S} `{Server S} (opts : Options) (k : string) (s : S) (r : Request) : Request :=
  at_micros r (scriptClock opts (server_env s k) r).

(** A history on one key, with the requests as they were stamped: between
    admissions anything may happen to the server but to this key. *)
Inductive history {S} `{Server S} (opts : Options) (k : string)
    : S -> list Request -> list (Decision * option error) -> S -> Prop :=
| history_nil s : history opts k s [] [] s
| history_cons s s1 r out s2 rs outs s3 :
    server_entry s1 k = server_entry s k -> tame k s1 -> admitOn opts k s1 r = (out, s2) ->
    history opts k s2 rs outs s3 -> history opts k s (stamped opts k s1 r :: rs) (out :: outs) s3.

Definition localizedResult (de : Decision * option error) : Decision * option error := (localized de.1, de.2).

(** A decoded answer of one admission on a key. *)
Lemma admitOn_keyed pol name alg P (Hline : lineage pol name alg P) {S} `{ServerLaws S} opts k (s : S) row r :
  keyed pol name alg P row (server_entry s k) -> admissible pol name alg P opts (server_env s k) row r ->
  exists row' d err h s', mutateState row (stamped opts k s r) = (Some row', d, err) /\
    admitOn opts k s r = (localizedResult (d, err), s') /\ stored row' h /\
    server_entry s' k = Some (mkEntry h (expiresAt (server_env s k) (strictTTL (req_Policy r)))).
Proof.
  intros Hkey Had. destruct (wp_strictAdmit _ _ _ _ Hline opts (server_env s k) r row _ Hkey Had) as (row' & d & err & Hmut & Hwp).
  pose proof (wp_sound k _ _ s Hwp) as (Ho & Hrep & h & Hentry & Hst).
  destruct (mutation_keeps _ _ _ _ Hline _ _ _ _ _ _ _ Hkey (ad_request _ _ _ _ _ _ _ _ Had) Hmut) as (_ & Hset & _).
  unfold admitOn. destruct (execute k (strictAdmitScript (strictArgs opts r)) s) as [o s'].
  simpl in Ho, Hentry. subst o. exists row', d, err, h, s'. split_and!; try done. f_equal.
  rewrite (decode_reply d _ Hrep).
  - unfold localizedResult. cbn [fst snd]. by destruct Hset as [[-> ->]|[-> ->]].
  - destruct (ad_time _ _ _ _ _ _ _ _ Had) as [Hl _], (ad_request _ _ _ _ _ _ _ _ Had) as (Hp & _). simpl in Hp.
    rewrite Hp, (line_period_micros _ _ _ _ Hline) in Hl. destruct (line_facts _ _ _ _ Hline (revision (req_Policy r))). lia.
Qed.

Section History.
Context (pol : string -> Policy) (name : string) (alg : Algorithm) (P : Z).
Hypothesis Hline : lineage pol name alg P.
Hypothesis Hname : strlen name <= 128.
Context {S : Type} `{ServerLaws S} (opts : Options) (k : string) (low high : Z).

(** A request within a range of times in which the script computes exactly. *)
Definition steady (r : Request) : Prop :=
  exists m, row_request pol alg P r m /\ low <= m <= high /\ strlen (revision (req_Policy r)) <= 128 /\
    exact_time (req_Policy r) low /\ exact_time (req_Policy r) high.

Definition within (row : option persistedState) : Prop :=
  match row with Some row => low <= ps_ObservedMicros row <= high | None => True end.

Lemma steady_admissible row s r :
  within row -> tame k s -> steady (stamped opts k s r) ->
  admissible pol name alg P opts (server_env s k) row r /\
  low <= effectiveAt row (scriptClock opts (server_env s k) r) <= high.
Proof.
  intros Hin [Hmem Hclk] (m & Hreq & Hm & Hrev & [Hlow _] & (_ & Htwo & Hhor)).
  assert (scriptClock opts (server_env s k) r = m) as Hclock.
  { destruct Hreq as (_ & _ & Hn & _). unfold stamped in Hn. injection Hn as Hn. lia. }
  unfold stamped in *. rewrite Hclock in *.
  assert (low <= effectiveAt row m <= high) as Heff.
  { destruct row as [row|]; simpl in *; [|done]. unfold effective. lia. }
  split; [|done]. split; rewrite ?Hclock; try done. simpl in *. unfold exact_time. lia.
Qed.

Lemma history_rows s rs outs s' :
  history opts k s rs outs s' -> forall row,
  keyed pol name alg P row (server_entry s k) -> within row -> Forall steady rs ->
  outs = localizedResult <$> (runRows row rs).1.
Proof.
  induction 1 as [s|s s1 r out s2 rs outs s3 Hkeep Htame Hout _ IH]; intros row Hkey Hin Hrs; [done|].
  apply Forall_cons in Hrs as [Hr Hrs]. rewrite <- Hkeep in Hkey.
  destruct (steady_admissible row s1 r Hin Htame Hr) as (Had & Heff).
  destruct (admitOn_keyed _ _ _ _ Hline opts k s1 row r Hkey Had) as (row' & d & err & h & s2' & Hmut & Hon & Hst & Hentry).
  destruct (mutation_keeps _ _ _ _ Hline _ _ _ _ _ _ _ Hkey (ad_request _ _ _ _ _ _ _ _ Had) Hmut) as (Hsound & _ & Hobs).
  rewrite Hout in Hon. injection Hon as -> ->.
  cbn [runRows]. rewrite Hmut. specialize (IH (Some row')).
  destruct (runRows (Some row') rs) as [log final]. cbn [fst fmap list_fmap] in *. rewrite IH.
  - done.
  - rewrite Hentry. done.
  - simpl. rewrite Hobs. done.
  - done.
Qed.
End History.

Section Memory.
Context (p : Policy) (base span : Z).
Hypothesis Hwf : wf_policy p.
Hypothesis Hw : windowed (algorithm p).
Hypothesis Hspan : algorithm p = TokenBucket ->
  span * 1000 <= MaxInt64 /\ span * capacity p + period_micros p <= (two64 - Limit p) * period_micros p.
Hypothesis Hsixteen : algorithm p = SlidingWindow -> period_micros p mod 16 = 0.
Hypothesis Hname : strlen (id p) <= 128 /\ strlen (revision p) <= 128.
Hypothesis Hexact : exact_time p base /\ exact_time p (base + span).

(** C13: Valkey agrees with the in-memory backend.  On any lawful server, the strict
    admissions of one policy on a key that starts absent and does not expire between
    them return the decisions and the errors of the in-memory backend on the same
    requests, with resets in local time; the times are those of the configured clock,
    which may run backwards, and anything may happen to other keys in between.  The
    times lie in a span in which the in-memory refill does not wrap ([Hspan]) and
    the doubles of the script are exact ([Hexact]), names and revisions have at most
    128 bytes, and the period of a sliding window is a multiple of 16
    microseconds. *)
Theorem valkey_agrees_with_memory {S} `{ServerLaws S} opts k (s s' : S) r rs outs :
  server_entry s k = None -> Forall (comparable p base span) (r :: rs) -> history opts k s (r :: rs) outs s' ->
  outs = localizedResult <$> decisionsOf (newState r) (r :: rs).
Proof.
  intros Hnone Hrs Hhist.
  rewrite (history_rows (revisions p) (id p) (algorithm p) (period_micros p) (revisions_lineage p Hwf Hw)
    (proj1 Hname) opts k base (base + span) s (r :: rs) outs s' Hhist None); [|by rewrite Hnone|done|].
  - apply Forall_cons in Hrs as [Hr Hrs]. by rewrite (postgres_agrees_with_memory p Hwf Hw base span Hspan Hsixteen r rs Hr Hrs).
  - eapply Forall_impl; [exact Hrs|]. intros r0 (Hp & m & Hr0 & Hm & _). exists m. rewrite Hp. by destruct Hname, Hexact.
Qed.
End Memory.

(** ** Expiry *)

Section Expiry.
Context (pol : string -> Policy) (name : string) (P : Z).
Hypothesis Hline : lineage pol name TokenBucket P.

(** A new bucket is full: any allowed cost is granted, and leaves the rest. *)
Lemma full_bucket r m :
  row_request pol TokenBucket P r m ->
  exists row' d, mutateState None r = (Some row', d, None) /\ Allowed d = true /\
    sound_row pol name TokenBucket P row' /\ ps_Revision row' = revision (req_Policy r) /\
    row_level P row' = (Limit (req_Policy r) - Cost r) * P /\ ps_LastMicros row' = m /\ ps_ObservedMicros row' = m.
Proof.
  intros Hr. destruct (first_row_sound _ _ _ _ Hline r m Hr) as [Hrow Hobs].
  pose proof (first_admission _ _ _ _ Hline r m Hr) as Hfirst.
  pose proof Hr as (Hp & Hc & Hn & Hm & _). destruct (line_facts _ _ _ _ Hline (revision (req_Policy r))) as (HP & HL & Hmax & HPm & _).
  rewrite <- Hp in HL, Hmax, HPm. set (p := req_Policy r) in *.
  assert (first_row r = freshRow r) as Hfresh.
  { unfold first_row, recordWindowPeriod. fold p. rewrite Hp, (line_algorithm _ _ _ _ Hline). by eval_algorithms. }
  assert (effective (first_row r) m = m) as Heff by (unfold effective; lia).
  destruct (token_admission _ _ _ _ Hline (first_row r) r m eq_refl Hrow Hr) as (tok & rem & Hmut & Hrem & Hid); [by rewrite Hfresh|].
  destruct (admission_keeps _ _ _ _ Hline _ r m Hrow Hr) as (row1 & d1 & err1 & E & Hsound & _).
  fold p in Hmut, Hid. rewrite Heff in *. assert (ps_LastMicros (first_row r) = m) as Hlast.
  { rewrite Hfresh. simpl. rewrite Hn. apply UnixMicro_utc. unfold is_i64. lia. }
  rewrite Hlast, Z.sub_diag in Hid. specialize (Hid ltac:(lia)).
  assert (row_level P (first_row r) = Limit p * P) as Hlevel by (unfold row_level; rewrite Hfresh; simpl; fold p; lia).
  assert (full_level p = Limit p * P) as Hfull.
  { pose proof (line_period_micros _ _ _ _ Hline (revision p)) as HPp. rewrite <- Hp in HPp. unfold full_level. by rewrite HPp. }
  unfold ideal_refill in Hid. rewrite Hlevel, Hfull in Hid.
  rewrite Z.mul_0_l, Z.add_0_r, Z.min_id in Hid.
  assert (tok = Limit p /\ rem = 0) as [-> ->] by (apply (Z.div_mod_unique P); lia). rewrite (proj2 (Z.ltb_ge _ _)) in Hmut by lia.
  rewrite Hfirst, Hmut. rewrite Hmut in E. injection E as <- <- <-. eexists _, _. split; [done|].
  split_and!; try done; unfold row_level; simpl; [by rewrite Hfresh|lia].
Qed.

(** A bucket without the tokens refuses. *)
Lemma refused row r m :
  sound_row pol name TokenBucket P row -> row_request pol TokenBucket P r m ->
  revision (req_Policy r) = ps_Revision row -> ps_ObservedMicros row <= m -> (m - ps_LastMicros row) * 1000 <= MaxInt64 ->
  row_level P row + (m - ps_LastMicros row) * capacity (req_Policy r) < Cost r * P ->
  exists row' d, mutateState (Some row) r = (Some row', d, Some (Sent ErrRejected)).
Proof.
  intros Hrow Hr Hrev Hobs Hsat Hlow. assert (effective row m = m) as Heff by (unfold effective; lia).
  destruct (token_admission _ _ _ _ Hline row r m eq_refl Hrow Hr Hrev) as (tok & rem & Hmut & Hrem & Hid).
  rewrite Heff in *. specialize (Hid Hsat). destruct (line_facts _ _ _ _ Hline (revision (req_Policy r))) as (HP & _).
  assert (tok * P < Cost r * P) as Htok by (unfold ideal_refill in Hid; lia).
  rewrite Hmut, (proj2 (Z.ltb_lt _ _)) by nia. by eexists _, _.
Qed.

(** C35: the store forgets a drained burst.  A token policy whose burst exceeds its
    capacity and whose period is at least half a second needs more than two periods
    to refill from empty, but the strict store retains the state for exactly two
    periods.  When a request takes the whole limit from an absent key it is granted
    and the key expires two periods later; once the server has dropped the key, a
    second request for the whole limit, two periods after the first, is granted
    again.  On the same two requests the retained row refuses the second. *)
Theorem valkey_burst_returns_early {S} `{ServerLaws S} opts k (s s2 : S) r r2 :
  let p := req_Policy r in
  let m := scriptClock opts (server_env s k) r in
  req_Policy r2 = p -> 2 * capacity p < Limit p -> Second <= 2 * period p <= MaxInt64 -> Cost r = Limit p -> Cost r2 = Limit p ->
  server_entry s k = None -> admissible pol name TokenBucket P opts (server_env s k) None r ->
  server_entry s2 k = None -> admissible pol name TokenBucket P opts (server_env s2 k) None r2 ->
  scriptClock opts (server_env s2 k) r2 = m + 2 * P ->
  exists d d2 h s' s2',
    admitOn opts k s r = ((d, None), s') /\ Allowed d = true /\
    server_entry s' k = Some (mkEntry h (Some (env_clock (server_env s k) / 1000 + 2 * period p ÷ Millisecond))) /\
    admitOn opts k s2 r2 = ((d2, None), s2') /\ Allowed d2 = true /\
    (runRows None [stamped opts k s r; stamped opts k s2 r2]).1.*2 = [None; Some (Sent ErrRejected)].
Proof.
  intros p m Hp2 Hburst [Hsec Hbig] Hc Hc2 Hnone Had Hnone2 Had2 Hm2.
  pose proof (ad_request _ _ _ _ _ _ _ _ Had) as Hr. pose proof (ad_request _ _ _ _ _ _ _ _ Had2) as Hr2.
  destruct (admitOn_keyed _ _ _ _ Hline opts k s None r) as (row & d & err & h & s' & Hmut & Hon & _ & Hentry); [by rewrite Hnone|done|].
  destruct (admitOn_keyed _ _ _ _ Hline opts k s2 None r2) as (row2 & d2 & err2 & h2 & s2' & Hmut2 & Hon2 & _); [by rewrite Hnone2|done|].
  destruct (full_bucket (stamped opts k s r) m Hr) as (row' & d' & E & Hok & Hsound & Hrev & Hlevel & Hlast & Hobs).
  destruct (full_bucket (stamped opts k s2 r2) _ Hr2) as (row2' & d2' & E2 & Hok2 & _).
  change (row_request pol TokenBucket P (stamped opts k s r) m) in Hr.
  change (row_request pol TokenBucket P (stamped opts k s2 r2) (scriptClock opts (server_env s2 k) r2)) in Hr2.
  rewrite Hmut in E. injection E as -> -> ->. rewrite Hmut2 in E2. injection E2 as -> -> ->.
  rewrite Hm2 in Hr2. pose proof Hr as (Hpol & _).
  change (req_Policy (stamped opts k s r)) with p in *. change (Cost (stamped opts k s r)) with (Cost r) in *.
  destruct (line_facts _ _ _ _ Hline (revision p)) as (HP & HL & _). rewrite <- Hpol in HL.
  pose proof (line_period _ _ _ _ Hline (revision p)) as Hper. rewrite <- Hpol in Hper.
  destruct (refused row' (stamped opts k s2 r2) (m + 2 * P)) as (row3 & d3 & Hmut3); [done|done| |lia|lia| |].
  { rewrite Hrev. simpl. by rewrite Hp2. }
  { simpl. rewrite Hp2, Hc2, Hlevel, Hlast, Hc. nia. }
  exists (localized d'), (localized d2'), h, s', s2'. split_and!; try done.
  - rewrite Hentry. do 3 f_equal. unfold strictTTL, valkeyStateTTL. fold p.
    rewrite (quot_nonneg MaxInt64 2), (proj2 (Z.ltb_ge _ _)), i64_id by (unfold is_i64; zlia). by rewrite Z.max_l, (Z.mul_comm (period p)) by lia.
  - simpl. by rewrite Hmut, Hmut3.
Qed.
End Expiry.

(** ** Concrete servers *)

Module DemoValkey.
Definition opts : Options := mkOptions "rl" 1000000000 ClientClock.
Definition serverOpts : Options := mkOptions "rl" 1000000000 ServerClock.
Definition empty (clock : Z) : serverState := mkServerState ∅ (mkEnvironment clock 4096).
(** A client in front of the server, and a context that never ends. *)
Definition client : Client serverState := mkClient
  (fun _ s keys args w =>
    match keys with
    | [k] => let '(o, w') := execute k (program s args) w in
             (Ret match o with Ret reply => Ok (Ok <$> reply) | Panic => Err (Foreign 1 "ERR" true []) end, w')
    | _ => (Ret (Err (Foreign 1 "ERR" true [])), w)
    end)
  (fun _ w => (Ret (Err (Foreign 1 "ERR" true [])), w)) (fun _ w => (Ret (Err (Foreign 1 "ERR" true [])), w)).
Definition ctx : Context serverState := mkContext (fun w => (None, w)).
(** One token per second with a burst of nine. *)
Definition bursty (v : string) : Policy :=
  mkPolicy "bursty"%string v TokenBucket 1 1000000000 9 10 FailClosed ConsistencyProcessLocal 0.
Definition drain (m : Z) : Request :=
  mkRequest (bursty "v1") (mkKey "http:v1:principal:x" "principal") 10 (toUTC (ofUnixMicro m)).
End DemoValkey.

Lemma demo_admissible alg v env m cost :
  strlen v <= 128 -> env_memory env = 4096 -> 0 <= env_clock env <= 1000000000000 -> 1 <= cost <= 3 -> 0 <= m <= 1000000000000 ->
  admissible (DemoRows.pol alg) "window" alg 160 DemoValkey.opts env None (DemoRows.at_ alg v m cost).
Proof.
  intros Hv Hmem Hclk Hcost Hm.
  assert (scriptClock DemoValkey.opts env (DemoRows.at_ alg v m cost) = m) as Hclock
    by (apply UnixMicro_utc; unfold is_i64; lia).
  split; rewrite ?Hclock; try done; try lia.
  - rewrite Hmem. by vm_compute.
  - exact (demo_row_request alg v m cost Hcost ltac:(lia)).
  - assert (period_micros (DemoRows.pol alg v) = 160) as HP by done.
    assert (refillHorizon (DemoRows.pol alg v) = 160) as Hh
      by (unfold refillHorizon, DemoRows.pol; by destruct (bool_decide (v = "v2"%string))).
    unfold effectiveAt, exact_time. simpl req_Policy. rewrite HP, Hh. lia.
Qed.

Lemma valkey_admits_like_postgres_witness :
  let s := DemoValkey.empty 5000000 in
  let r := DemoRows.at_ SlidingWindow "v1" 1000 3 in
  let m := scriptClock DemoValkey.opts (server_env s "k") r in
  let '(o, s') := execute "k" (strictAdmitScript (strictArgs DemoValkey.opts r)) s in
  exists row' d err h,
    mutateState None (at_micros r m) = (Some row', d, err) /\ o = Ret (replyOf d (effectiveAt None m)) /\
    server_entry s' "k" = Some (mkEntry h (expiresAt (server_env s "k") (strictTTL (req_Policy r)))) /\
    sound_row (DemoRows.pol SlidingWindow) "window" SlidingWindow 160 row' /\ stored row' h /\
    (forall other, other <> "k" -> server_entry s' other = server_entry s other).
Proof.
  assert (windowed SlidingWindow) as Hw by (right; by right).
  apply (valkey_admits_like_postgres _ _ _ _ (demo_lineage SlidingWindow Hw) DemoValkey.opts
    (DemoRows.at_ SlidingWindow "v1" 1000 3) None (DemoValkey.empty 5000000) "k"); [done|].
  apply demo_admissible; simpl; done || lia.
Defined.

Lemma demo_client_runs (ctx : Context serverState) s k args w :
  let '(o, s') := execute k (program s args) w in
  match execScript DemoValkey.client ctx s [k] args w with
  | (Ret (Ok messages), w') => w' = s' /\ exists reply, o = Ret reply /\ messages = Ok <$> reply
  | (Ret (Err _), w') | (Panic, w') => w' = w \/ w' = s'
  end.
Proof.
  simpl. destruct (execute k (program s args) w) as [[reply|] s']; [|by right]. split; [done|]. by exists reply.
Qed.

Lemma valkey_strict_admission_witness :
  let w := DemoValkey.empty 5000000 in
  let r := DemoRows.at_ TokenBucket "v1" 1000 3 in
  let k := key DemoValkey.opts r in
  let env := server_env w k in
  let done row' := admitted k row' (expiresAt env (strictTTL (req_Policy r))) w in
  exists row' d err, mutateState None (at_micros r (scriptClock DemoValkey.opts env r)) = (Some row', d, err) /\
    match AdmitStrict (fun c _ => c) (Some (mkStore (Some (nativeExecutor DemoValkey.client)) DemoValkey.opts))
            (iface_of DemoValkey.ctx) r w with
    | (Ret (d', err'), w') =>
        d' = localized d /\ err' = err /\ done row' w' \/
        d' = emptyDecision /\ (err' = Some CanceledOutcome \/ err' = Some DeadlineOutcome) /\ w' = w \/
        d' = emptyDecision /\ (exists c, err' = Some (UnknownOutcome c)) /\ (w' = w \/ done row' w')
    | (Panic, w') => w' = w \/ done row' w'
    end.
Proof.
  assert (windowed TokenBucket) as Hw by by left.
  apply (valkey_strict_admission _ _ _ _ (demo_lineage TokenBucket Hw) (fun w => w) (fun c _ => c) DemoValkey.client
    demo_client_runs ltac:(done) DemoValkey.opts DemoValkey.ctx
    (DemoRows.at_ TokenBucket "v1" 1000 3) None (DemoValkey.empty 5000000)); [done|by vm_compute|done|].
  apply demo_admissible; simpl; done || lia.
Defined.

Lemma demo_comparable m cost :
  1 <= cost <= 3 -> 900 <= m <= 1200 ->
  comparable (DemoRows.pol SlidingWindow "v1") 900 300 (DemoRows.at_ SlidingWindow "v1" m cost).
Proof.
  intros Hcost Hm. split; [done|]. exists m. split.
  - change (period_micros (DemoRows.pol SlidingWindow "v1")) with 160. split_and!; try done; simpl; try lia.
  - split; [lia|]. intros _. unfold window_time; simpl. lia.
Qed.

Lemma bursty_lineage : lineage DemoValkey.bursty "bursty" TokenBucket 1000000.
Proof.
  split; try done; [|by left]. intros v.
  split; simpl; try done; try lia; try (by left); left; (split; [by left|]); vm_compute; repeat split; discriminate.
Qed.

Lemma bursty_admissible clock :
  0 <= clock <= 1000000000000 ->
  admissible DemoValkey.bursty "bursty" TokenBucket 1000000 DemoValkey.serverOpts (mkEnvironment clock 4096) None (DemoValkey.drain 0).
Proof.
  intros Hc. set (env := mkEnvironment clock 4096).
  assert (scriptClock DemoValkey.serverOpts env (DemoValkey.drain 0) = clock) as Hclock by done.
  assert (period_micros (DemoValkey.bursty "v1") = 1000000) as HP by done.
  assert (refillHorizon (DemoValkey.bursty "v1") = 10000000) as Hh by done.
  split; rewrite ?Hclock.
  - by vm_compute.
  - change (env_clock env) with clock. lia.
  - done.
  - done.
  - unfold row_request. split_and!; [done|done|done|done|lia|lia|intros [=]].
  - unfold effectiveAt, exact_time. change (req_Policy (DemoValkey.drain 0)) with (DemoValkey.bursty "v1"). rewrite HP, Hh. lia.
Qed.

Lemma demo_step (s : serverState) alg v m cost rs outs s' :
  tame "k" s -> 0 <= m <= 1000000000000 ->
  history DemoValkey.opts "k" (admitOn DemoValkey.opts "k" s (DemoRows.at_ alg v m cost)).2 rs outs s' ->
  history DemoValkey.opts "k" s (DemoRows.at_ alg v m cost :: rs)
    ((admitOn DemoValkey.opts "k" s (DemoRows.at_ alg v m cost)).1 :: outs) s'.
Proof.
  intros Htame Hm Hrest. replace (DemoRows.at_ alg v m cost :: rs)
    with (stamped DemoValkey.opts "k" s (DemoRows.at_ alg v m cost) :: rs).
  - eapply history_cons; [done|done|by rewrite <- surjective_pairing|done].
  - unfold stamped. by replace (scriptClock _ _ _) with m by (symmetry; apply UnixMicro_utc; unfold is_i64; lia).
Qed.

Lemma valkey_agrees_with_memory_witness :
  let at_ := DemoRows.at_ SlidingWindow "v1" in
  let s := DemoValkey.empty 5000000 in
  exists outs s', history DemoValkey.opts "k" s [at_ 1000 3; at_ 900 2; at_ 1010 1; at_ 1200 3] outs s' /\
    outs = localizedResult <$> decisionsOf (newState (at_ 1000 3)) [at_ 1000 3; at_ 900 2; at_ 1010 1; at_ 1200 3].
Proof.
  assert (windowed SlidingWindow) as Hw by (right; by right).
  pose proof (line_wf _ _ _ _ (demo_lineage SlidingWindow Hw) "v1"%string) as Hwf.
  intros at_ s. eexists _, _. apply and_wlog_r.
  - do 4 (apply demo_step; [by vm_compute|lia|]). constructor.
  - apply (valkey_agrees_with_memory (DemoRows.pol SlidingWindow "v1") 900 300 Hwf Hw);
      [intros [=]|by vm_compute|by vm_compute|by vm_compute|exact _|done|].
    repeat constructor; unfold at_; apply demo_comparable; lia.
Defined.

Lemma valkey_burst_returns_early_witness :
  let opts := DemoValkey.serverOpts in
  let s := DemoValkey.empty 5000000 in
  let s2 := DemoValkey.empty 7000000 in
  let r := DemoValkey.drain 0 in
  exists d d2 h s' s2',
    admitOn opts "k" s r = ((d, None), s') /\ Allowed d = true /\
    server_entry s' "k" = Some (mkEntry h (Some 7000)) /\
    admitOn opts "k" s2 r = ((d2, None), s2') /\ Allowed d2 = true /\
    (runRows None [stamped opts "k" s r; stamped opts "k" s2 r]).1.*2 = [None; Some (Sent ErrRejected)].
Proof.
  change 7000 with (env_clock (server_env (DemoValkey.empty 5000000) "k") / 1000
    + 2 * period (req_Policy (DemoValkey.drain 0)) ÷ Millisecond).
  apply (valkey_burst_returns_early DemoValkey.bursty "bursty" 1000000 bursty_lineage DemoValkey.serverOpts "k"
    (DemoValkey.empty 5000000) (DemoValkey.empty 7000000) (DemoValkey.drain 0) (DemoValkey.drain 0));
    [done|done|done|done|done|done|by apply bursty_admissible|done|by apply bursty_admissible|done].
Defined.
