(* ===== verification/ValkeyLeases.v ===== *)
(** * Leases on a Valkey server

    The hash of a concurrency key is a PostgreSQL lease row: five fields and one
    field for every lease, named by its digest.  The strict acquisition script
    does to the hash what [mutateLease] does to the row, and the strict release
    script removes exactly the lease it names. *)

From S2P Require Import Prelude Float64 GoTime GoHash Errors Keys Policy Backend MemoryState MemoryLeases.
From S2P Require Import PgState PgTokens PgLeases PgStore GoJson JsonFacts GoNet Lua ValkeyServer ValkeyScripts ValkeyStore.
From S2P Require Import ValkeyState ValkeyTokens ValkeySliding ValkeyAdmit ValkeyHistory.

Local Open Scope string_scope.
Local Open Scope list_scope.
Local Open Scope Z_scope.

(** ** The hash of a row *)

Definition leaseField (digest : string) : string := "l:" +:+ digest.
Definition leaseText (l : persistedLease) : string := formatUint (pl_Cost l) +:+ ":" +:+ formatInt (pl_ExpiresMicros l).

Definition leaseBase (row : persistedState) : list (string * string) :=
  [("schema", "1"); ("policy_id", ps_PolicyID row); ("algorithm", Concurrency); ("revision", ps_Revision row);
   ("last", formatInt (ps_ObservedMicros row))].

Definition leaseHash (row : persistedState) : fields :=
  hset (leaseBase row) (kmap leaseField (leaseText <$> persistedLeasesOf row)).

#[global] Instance leaseField_inj : Inj (=) (=) leaseField.
Proof. intros a b E. by injection E. Qed.

Lemma leaseField_base digest f : f ∈ leaseBaseFields -> f <> leaseField digest.
Proof. revert f. apply Forall_forall. repeat apply Forall_cons_2; try apply Forall_nil_2; discriminate. Qed.

Lemma lookup_leaseField row digest : leaseHash row !! leaseField digest = leaseText <$> persistedLeasesOf row !! digest.
Proof. unfold leaseHash, leaseBase. hash_read. by rewrite (lookup_kmap leaseField), lookup_fmap. Qed.

Lemma base_fresh f row : f ∈ leaseBaseFields -> kmap (M2 := gmap string) leaseField (leaseText <$> persistedLeasesOf row) !! f = None.
Proof.
  intros Hf. apply (lookup_kmap_None leaseField). intros d ->. by destruct (leaseField_base d _ Hf).
Qed.

(** A field of the hash is one of the five or a lease. *)
Lemma leaseHash_cases row f v :
  leaseHash row !! f = Some v ->
  (f, v) ∈ leaseBase row \/ exists digest l, f = leaseField digest /\ v = leaseText l /\ persistedLeasesOf row !! digest = Some l.
Proof.
  unfold leaseHash, leaseBase, hset. cbn [foldl fst snd]. intros H.
  repeat (apply lookup_insert_Some in H as [[<- <-]|[_ H]]; [left; set_solver|]). right.
  apply (lookup_kmap_Some leaseField) in H as (d & -> & H). rewrite lookup_fmap in H.
  destruct (persistedLeasesOf row !! d) as [l|] eqn:E; [|done]. injection H as <-. by exists d, l.
Qed.

(** The fields of the hash, in some order. *)
Definition leaseEntry (dl : string * persistedLease) : string * string := (leaseField dl.1, leaseText dl.2).

Lemma leaseHash_list row :
  map_to_list (leaseHash row) ≡ₚ leaseBase row ++ (leaseEntry <$> map_to_list (persistedLeasesOf row)).
Proof.
  assert (map_to_list (kmap (M2 := gmap string) leaseField (leaseText <$> persistedLeasesOf row)) ≡ₚ
    leaseEntry <$> map_to_list (persistedLeasesOf row)) as Hk.
  { rewrite (map_to_list_kmap leaseField), map_to_list_fmap, <- list_fmap_compose. done. }
  unfold leaseHash, leaseBase, hset. cbn [foldl fst snd].
  do 5 (rewrite map_to_list_insert by
    (repeat rewrite lookup_insert_ne by discriminate; apply base_fresh; apply (bool_decide_eq_true_1 _); reflexivity)).
  rewrite Hk. cbn [app]. solve_Permutation.
Qed.

Lemma leaseHash_size row : size (leaseHash row) = (5 + size (persistedLeasesOf row))%nat.
Proof. by rewrite <- !length_map_to_list, leaseHash_list, length_app, length_fmap. Qed.

(** ** The fields pass the checks *)

Definition small_lease (l : persistedLease) : Prop := 1 <= pl_Cost l <= MaxConcurrencyLeases /\ exact_micros (pl_ExpiresMicros l).

Lemma cutColon_lease l :
  small_lease l -> cutColon (leaseText l) = Some (formatUint (pl_Cost l), formatInt (pl_ExpiresMicros l)).
Proof. intros [Hc _]. apply cutColon_app, digits_free; [lia|]. apply formatUint_digits. lia. Qed.

Lemma leaseValid_lease l : small_lease l -> leaseValid (formatUint (pl_Cost l)) (formatInt (pl_ExpiresMicros l)) = true.
Proof.
  intros [Hc He]. unfold exact_micros in He. unfold leaseValid.
  rewrite canonical_uint, exactSigned_int, tonumber_uint, whole_Z by lia. change (Zero false) with (ofZ 0).
  rewrite fle_Z, flt_Z, (proj2 (Z.leb_gt _ _)), (proj2 (Z.ltb_ge _ _)) by lia. done.
Qed.

Lemma leaseText_length l : small_lease l -> strlen (leaseText l) <= 40.
Proof.
  intros [Hc He]. unfold leaseText. rewrite strlen_app.
  change (":" +:+ formatInt (pl_ExpiresMicros l)) with (String (chr 58) (formatInt (pl_ExpiresMicros l))).
  pose proof (uint_length (pl_Cost l) ltac:(lia)) as H1. pose proof (digits_of_int _ He) as H2.
  unfold strlen in *. simpl String.length. lia.
Qed.

Lemma leaseField_slices digest : stake 2 (leaseField digest) = "l:" /\ sdrop 2 (leaseField digest) = digest.
Proof. split; [exact (stake_app "l:" digest)|exact (sdrop_app "l:" digest)]. Qed.

Lemma leaseField_valid digest :
  validLeaseDigest digest = true -> strlen (leaseField digest) = 66 /\ valid_lease_field (leaseField digest) = true.
Proof.
  intros [Hl%Z.eqb_eq Hb]%andb_true_iff. destruct (leaseField_slices digest) as [H1 H2].
  assert (strlen (leaseField digest) = 66) as Hlen by (unfold leaseField; rewrite strlen_app, Hl; done).
  split; [done|]. unfold valid_lease_field. rewrite Hlen, H1, H2, bool_decide_eq_true_2 by done.
  destruct digest; [done|]. exact Hb.
Qed.

(** What the checks ask of a field; no field of a row is longer than 127 bytes in
    all. *)
Record proper_field (fv : string * string) : Prop := {
  pf_name : strlen fv.1 <= 66;
  pf_total : strlen fv.1 + strlen fv.2 <= 127;
  pf_known : fv.1 ∈ leaseBaseFields \/ valid_lease_field fv.1 = true
}.

Lemma leaseFieldsValid_proper xs : forall bytes,
  Forall proper_field xs -> bytes + 127 * Z.of_nat (length xs) <= max_state_bytes -> leaseFieldsValid xs bytes = true.
Proof.
  induction xs as [|[f v] xs IH]; intros bytes Hx Hb; [done|]. apply Forall_cons in Hx as [[H1 H2 H3] Hx]. simpl in *.
  pose proof (strlen_nonneg f). pose proof (strlen_nonneg v).
  rewrite !(proj2 (Z.ltb_ge _ _)) by lia. cbn [orb].
  replace (negb (bool_decide (f ∈ leaseBaseFields)) && negb (valid_lease_field f)) with false
    by (destruct H3 as [H3|H3]; [rewrite bool_decide_eq_true_2 by done|rewrite H3, andb_false_r]; done).
  apply IH; [done|lia].
Qed.

(** ** The scan *)

(** What the scan makes of a field. *)
Definition scanned (fv : string * string) (y : option (string * persistedLease)) : Prop :=
  match y with
  | None => stake 2 fv.1 <> "l:"
  | Some (digest, l) => fv = leaseEntry (digest, l) /\ small_lease l
  end.

Definition deadFields (now : Z) (ys : list (option (string * persistedLease))) : list string :=
  (fun dl => leaseField dl.1) <$> filter (fun dl => pl_ExpiresMicros dl.2 <= now) (omap Datatypes.id ys).

(** The earliest expiry, with 0 for none. *)
Definition earlier (e : Z) (dl : string * persistedLease) : Z :=
  if (e =? 0) || (pl_ExpiresMicros dl.2 <? e) then pl_ExpiresMicros dl.2 else e.

Lemma foldl_earlier xs :
  Forall (fun dl => 0 < pl_ExpiresMicros dl.2) xs -> forall e, 0 <= e ->
  let r := foldl earlier e xs in
  Forall (fun dl => r <= pl_ExpiresMicros dl.2) xs /\ (e <> 0 -> r <= e) /\
  (r = e \/ Exists (fun dl => r = pl_ExpiresMicros dl.2) xs) /\ (r = 0 -> e = 0 /\ xs = []).
Proof.
  induction 1 as [|dl xs Hpos _ IH]; intros e He r; [by split_and!; auto|].
  assert (0 < earlier e dl /\ earlier e dl <= pl_ExpiresMicros dl.2 /\ (e <> 0 -> earlier e dl <= e) /\
    (earlier e dl = e \/ earlier e dl = pl_ExpiresMicros dl.2)) as (H1 & H2 & H3 & H4).
  { unfold earlier. destruct (Z.eqb_spec e 0), (Z.ltb_spec (pl_ExpiresMicros dl.2) e); simpl; lia. }
  destruct (IH (earlier e dl)) as (Hall & Hle & Hex & Hz); [lia|]. subst r. cbn [foldl]. specialize (Hle ltac:(lia)). split_and!.
  - constructor; [lia|done].
  - lia.
  - destruct Hex as [->|Hex]; [destruct H4 as [->| ->]; [by left|by right; left]|by right; right].
  - intros H0. apply Hz in H0. lia.
Qed.

Lemma scanned_small xs ys : Forall2 scanned xs ys -> Forall (fun dl => small_lease dl.2) (omap Datatypes.id ys).
Proof.
  induction 1 as [|fv y xs ys Hy _ IH]; [constructor|]. destruct y as [[digest l]|]; [|done].
  constructor; [apply Hy|done].
Qed.

Lemma scanned_weight now xs ys : Forall2 scanned xs ys -> 0 <= entries_weight (live_entries now (omap Datatypes.id ys)).
Proof.
  intros Hys. apply entries_weight_nonneg, Forall_forall. intros dl [_ Hin]%list_elem_of_filter.
  pose proof (scanned_small _ _ Hys) as Hs. rewrite Forall_forall in Hs. by apply Hs.
Qed.

Lemma scanLeases_eq now xs ys : Forall2 scanned xs ys -> forall use e dead k,
  exact_micros now -> 0 <= use -> exact_micros e ->
  use + entries_weight (live_entries now (omap Datatypes.id ys)) <= MaxConcurrencyLeases ->
  scanLeases true (ofZ now) xs (mkLeaseScan (ofZ use) (ofZ e) dead) k =
  k (mkLeaseScan (ofZ (use + entries_weight (live_entries now (omap Datatypes.id ys))))
       (ofZ (foldl earlier e (live_entries now (omap Datatypes.id ys)))) (dead ++ deadFields now ys)).
Proof.
  induction 1 as [|[f v] y xs ys Hy Hys IH]; intros use e dead k Hnow Huse He Hw; cbn [scanLeases].
  { by rewrite app_nil_r, Z.add_0_r. }
  unfold deadFields, live_entries in *. destruct y as [[digest l]|]; cbn [omap list_omap Datatypes.id] in *.
  2:{ rewrite bool_decide_eq_false_2 by exact Hy. by apply IH. }
  destruct Hy as [[= -> ->] Hl]. pose proof Hl as [Hc Hexp]. destruct (leaseField_slices digest) as [-> _].
  rewrite bool_decide_eq_true_2 by done. rewrite cutColon_lease, leaseValid_lease by done. cbn [negb andb].
  unfold exact_micros in *. rewrite tonumber_int, number_bind, fle_Z by lia.
  destruct (Z.leb_spec (pl_ExpiresMicros l) now) as [Hdead|Hlive].
  - rewrite !filter_cons in *. cbn [snd] in *. repeat case_decide; try lia.
    cbn [ls_used ls_earliest ls_expired]. rewrite IH by done. by rewrite <- app_assoc.
  - rewrite !filter_cons in *. cbn [snd] in *. repeat case_decide; try lia. simpl in Hw.
    pose proof (scanned_weight now xs ys Hys) as Hpos. unfold live_entries in Hpos.
    rewrite tonumber_uint, number_bind by lia. change (Zero false) with (ofZ 0). cbn [ls_used].
    rewrite fle_Z, fsub_Z, flt_Z by lia. rewrite (proj2 (Z.leb_gt _ _)), (proj2 (Z.ltb_ge _ _)) by lia. cbn [orb].
    unfold countLease. cbn [ls_used ls_earliest ls_expired]. change (Zero false) with (ofZ 0).
    rewrite feq_Z, flt_Z, fadd_Z by lia.
    replace (if (e =? 0) || (pl_ExpiresMicros l <? e) then ofZ (pl_ExpiresMicros l) else ofZ e)
      with (ofZ (earlier e (digest, l))) by (unfold earlier; simpl; by destruct (_ || _)).
    rewrite IH; [|done|lia| |lia].
    + cbn [foldl]. simpl. do 2 f_equal. f_equal. lia.
    + unfold earlier. simpl. destruct (_ || _); lia.
Qed.

(** ** The leases of a sound row *)

Lemma omap_some {A} (xs : list A) : omap Datatypes.id (Some <$> xs) = xs.
Proof. induction xs as [|x xs IH]; [done|]. simpl. by f_equal. Qed.

Section Row.
Context (name : string) (row : persistedState).
Hypothesis Hrow : sound_leases name row.

Let Hcosts : costs_ok (ls_of <$> persistedLeasesOf row) := costs_image _ (lrow_entries _ _ Hrow).

Lemma row_small digest l : persistedLeasesOf row !! digest = Some l -> small_lease l /\ validLeaseDigest digest = true.
Proof.
  intros Hl. destruct (lrow_entries _ _ Hrow digest l Hl) as (Hd & Hc & He). split; [|done]. split; [|done]. split; [done|].
  pose proof (weight_member _ digest (ls_of l) Hcosts) as Hw. rewrite lookup_fmap, Hl in Hw. specialize (Hw eq_refl).
  pose proof (lrow_weight _ _ Hrow). simpl in Hw. lia.
Qed.

Lemma row_count : Z.of_nat (size (persistedLeasesOf row)) <= MaxConcurrencyLeases.
Proof.
  pose proof (weight_size _ Hcosts) as Hw. rewrite map_size_fmap in Hw. pose proof (lrow_weight _ _ Hrow). lia.
Qed.

Lemma row_scanned xs :
  xs ≡ₚ map_to_list (leaseHash row) ->
  exists ys, Forall2 scanned xs ys /\ omap Datatypes.id ys ≡ₚ map_to_list (persistedLeasesOf row).
Proof.
  intros Hx. rewrite leaseHash_list in Hx.
  destruct (Permutation_Forall2 (P := scanned) (l2 := (const None <$> leaseBase row) ++ (Some <$> map_to_list (persistedLeasesOf row)))
    (Permutation_sym Hx)) as (ys & Hp & Hys).
  - apply Forall2_app; [repeat constructor; discriminate|].
    assert (Forall (fun dl => small_lease dl.2) (map_to_list (persistedLeasesOf row))) as Hs.
    { apply Forall_forall. intros [d l] Hl%elem_of_map_to_list. by apply row_small in Hl as [? _]. }
    clear Hx. induction Hs as [|[d l] ls Hl _ IH]; simpl; constructor; [by split|exact IH].
  - exists ys. split; [done|]. rewrite <- Hp, omap_app, omap_some. done.
Qed.

(** *** After pruning *)

Section Pruned.
Context (m : Z) (ys : list (option (string * persistedLease))).
Hypothesis Hys : omap Datatypes.id ys ≡ₚ map_to_list (persistedLeasesOf row).
Let live := livePersisted m (persistedLeasesOf row).

Lemma elem_of_dead f :
  f ∈ deadFields m ys <-> exists d l, f = leaseField d /\ persistedLeasesOf row !! d = Some l /\ pl_ExpiresMicros l <= m.
Proof.
  unfold deadFields. rewrite list_elem_of_fmap. setoid_rewrite list_elem_of_filter. setoid_rewrite Hys. split.
  - intros ([d l] & -> & He & Hl%elem_of_map_to_list). by exists d, l.
  - intros (d & l & -> & Hl & He). exists (d, l). split_and!; [done..|]. by apply elem_of_map_to_list.
Qed.

Lemma live_kmap f :
  f ∉ deadFields m ys ->
  kmap (M2 := gmap string) leaseField (leaseText <$> persistedLeasesOf row) !! f =
  kmap (M2 := gmap string) leaseField (leaseText <$> live) !! f.
Proof.
  rewrite elem_of_dead. intros Hf. apply option_eq. intros v. rewrite !(lookup_kmap_Some leaseField).
  setoid_rewrite lookup_fmap. setoid_rewrite fmap_Some. unfold live. setoid_rewrite livePersisted_lookup. split.
  - intros (d & -> & l & Hl & ->). exists d. split; [done|]. exists l. split_and!; try done.
    destruct (Z.lt_ge_cases m (pl_ExpiresMicros l)) as [|He]; [done|]. destruct Hf. by exists d, l.
  - intros (d & -> & l & [Hl _] & ->). eauto 10.
Qed.

Lemma dead_kmap f : f ∈ deadFields m ys -> kmap (M2 := gmap string) leaseField (leaseText <$> live) !! f = None.
Proof.
  intros (d & l & -> & Hl & He)%elem_of_dead. rewrite (lookup_kmap leaseField), lookup_fmap.
  unfold live. destruct (livePersisted m (persistedLeasesOf row) !! d) as [x|] eqn:E; [|done].
  apply livePersisted_lookup in E as [Hx Hlt]. rewrite Hl in Hx. injection Hx as <-. lia.
Qed.

Lemma pruned_hash v :
  hset [("last", formatInt m); ("revision", v)] (without (deadFields m ys) (leaseHash row)) =
  leaseHash (setPersistedLeases (setSeen row v m) live).
Proof.
  assert (forall f, f ∈ leaseBaseFields -> f ∉ deadFields m ys) as Hbase.
  { intros f Hf (d & l & -> & _)%elem_of_dead. by destruct (leaseField_base d _ Hf). }
  apply map_eq. intros f. unfold leaseHash, leaseBase, hset. cbn [foldl fst snd].
  change (persistedLeasesOf (setPersistedLeases (setSeen row v m) live)) with live. simpl ps_PolicyID. simpl ps_Revision.
  simpl ps_ObservedMicros.
  destruct (decide (f ∈ leaseBaseFields)) as [Hf|Hf].
  - pose proof (Hbase f Hf) as Hdead. unfold leaseBaseFields in Hf.
    repeat (apply elem_of_cons in Hf as [->|Hf]); [..|by apply elem_of_nil in Hf]; hash_read; try done;
      rewrite lookup_without, bool_decide_eq_false_2 by done; by hash_read.
  - unfold leaseBaseFields in Hf. repeat (apply not_elem_of_cons in Hf as [? Hf]).
    rewrite !lookup_insert_ne by done. rewrite lookup_without. case_bool_decide as Hd; [by rewrite dead_kmap|].
    rewrite !lookup_insert_ne by done. by apply live_kmap.
Qed.

(** The earliest expiry that the scan finds. *)
Lemma earliest_least e :
  0 <= m -> live <> ∅ -> instant (earliestLease (ls_of <$> live)) = e * 1000 ->
  foldl earlier 0 (live_entries m (omap Datatypes.id ys)) = e.
Proof.
  intros Hm Hne He. set (xs := live_entries m (omap Datatypes.id ys)).
  assert (forall d l, (d, l) ∈ xs <-> live !! d = Some l) as Hmem.
  { intros d l. unfold xs, live_entries, live. rewrite list_elem_of_filter, Hys, elem_of_map_to_list, livePersisted_lookup. simpl. tauto. }
  destruct (earliestLease_least (ls_of <$> live)) as [(i & x & Hx & Hi) Hmin].
  { intros i x Hx. rewrite lookup_fmap in Hx. destruct (live !! i) as [l|] eqn:E; simplify_eq/=.
    apply livePersisted_lookup in E as [E _]. destruct (row_small _ _ E) as [[_ Hl] _]. unfold exact_micros in Hl. lia. }
  { by intros E%fmap_empty_iff. }
  rewrite lookup_fmap in Hx. destruct (live !! i) as [l|] eqn:E; simplify_eq/=.
  destruct (foldl_earlier xs) with (e := 0) as (Hall & _ & Hex & Hzero); [|lia|].
  { apply Forall_forall. intros [d y] [Hd _]%list_elem_of_filter. simpl in *. lia. }
  rewrite Forall_forall in Hall. pose proof (Hall (i, l) (proj2 (Hmem i l) E)) as Hle. simpl in Hle.
  assert (Exists (fun dl => foldl earlier 0 xs = pl_ExpiresMicros dl.2) xs) as Hex'.
  { destruct Hex as [Hz|]; [|done]. destruct (Hzero Hz) as [_ Hnil]. apply Hmem in E. by rewrite Hnil in E; apply elem_of_nil in E. }
  apply Exists_exists in Hex' as ([j y] & Hy%Hmem & Hr). specialize (Hmin j (ls_of y)). rewrite lookup_fmap, Hy in Hmin.
  specialize (Hmin eq_refl). rewrite He in Hmin. rewrite Hi in He. simpl in *. lia.
Qed.
End Pruned.

Hypothesis Hname : strlen name <= 64 /\ strlen (ps_Revision row) <= 64.

Lemma row_fields xs : xs ≡ₚ map_to_list (leaseHash row) -> Forall proper_field xs.
Proof.
  intros Hx. rewrite Hx, leaseHash_list. apply Forall_app. split.
  - pose proof (digits_of_int _ (lrow_observed _ _ Hrow)) as Hlen.
    pose proof Hname as [Hid Hrev]. rewrite <- (lrow_policy _ _ Hrow) in Hid.
    repeat apply Forall_cons_2; try apply Forall_nil_2;
      (split; [by vm_compute| |left; apply (bool_decide_eq_true_1 _); reflexivity]);
      cbn [fst snd]; match goal with |- strlen ?f + _ <= _ => assert (strlen f <= 9) by (by vm_compute) end; try lia; by vm_compute.
  - apply Forall_fmap, Forall_forall. intros [digest l] Hl%elem_of_map_to_list. destruct (row_small _ _ Hl) as [Hs Hd].
    destruct (leaseField_valid _ Hd) as [H1 H2]. pose proof (leaseText_length l Hs). simpl. split; simpl; [lia|lia|by right].
Qed.
End Row.

(** ** Replies *)

(** The lease a reply stands for. *)
Definition valkeyLease (request : LeaseRequest) (us : Z) : Lease :=
  let r := lr_Request request in
  mkLease (LeaseID request) (req_Key r) (id (req_Policy r)) (revision (req_Policy r)) (Cost r) (ofUnixMicro us) "valkey".

Definition grantedReply (remaining limit us m : Z) : reply :=
  ["1"; formatInt remaining; formatInt limit; formatInt us; "0"; "allowed"; formatInt us; formatInt m].
Definition limitedReply (remaining limit us retry m : Z) : reply :=
  ["0"; formatInt remaining; formatInt limit; formatInt us; formatInt retry; "limited"; "0"; formatInt m].

Section Decode.
Context (request : LeaseRequest) (remaining limit us m : Z).
Hypothesis Hrem : 0 <= remaining <= maxExact.
Hypothesis Hlim : 0 <= limit <= maxExact.
Hypothesis Hus : 0 <= m < us /\ us <= maxExact.

Lemma decode_six allowed retry reason :
  0 <= retry <= maxExact -> reason = ReasonAllowed \/ reason = ReasonLimited ->
  decodeDecision [flag allowed; formatInt remaining; formatInt limit; formatInt us; formatInt retry; reason] =
  (mkDecision allowed remaining limit (ofUnixMicro us) (retry * 1000) reason EmptyString EmptyString,
   if allowed then None else Some (Sent ErrRejected)).
Proof.
  intros Hr Hreason. unfold decodeDecision. rewrite bool_decide_eq_false_2 by (by destruct allowed).
  assert (ParseBool (flag allowed) = Some allowed) as -> by (by destruct allowed).
  rewrite (formatInt_uint remaining), (formatInt_uint limit) by lia.
  rewrite !ParseUint_format, !parseInt64_format by (unfold is_i64, is_u64; lia).
  rewrite (proj2 (Z.ltb_ge _ _)), i64_id by (unfold is_i64; lia).
  by destruct Hreason as [-> | ->], allowed.
Qed.

Lemma after_effective : Before (ofUnixMicro us) (ofUnixMicro m) = false /\ After (ofUnixMicro us) (ofUnixMicro m) = true.
Proof. unfold Before, After. simpl. split; [apply Z.ltb_ge|apply Z.ltb_lt]; lia. Qed.

Lemma decode_granted :
  decodeStrictLeaseReply (grantedReply remaining limit us m) request =
  (valkeyLease request us, mkDecision true remaining limit (ofUnixMicro us) 0 ReasonAllowed EmptyString EmptyString, None).
Proof.
  unfold decodeStrictLeaseReply, grantedReply. cbn [length lookup list_lookup take]. rewrite (parseInt64_format m) by (unfold is_i64; lia).
  unfold decodeLeaseReply. cbn [take]. change (bool_decide ("allowed" = "not_owned")) with false. cbv iota.
  change (decodeDecision _) with (decodeDecision [flag true; formatInt remaining; formatInt limit; formatInt us; formatInt 0; ReasonAllowed]).
  rewrite (decode_six true 0 ReasonAllowed) by (auto || lia). rewrite parseInt64_format by (unfold is_i64; lia).
  cbn [negb bool_decide Reset ExpiresAt notRejected]. destruct after_effective as [-> ->]. rewrite !andb_false_r. unfold Equal.
  rewrite Z.eqb_refl, andb_false_r. done.
Qed.

Lemma decode_limited retry :
  0 <= retry <= maxExact ->
  decodeStrictLeaseReply (limitedReply remaining limit us retry m) request =
  (zeroLease, mkDecision false remaining limit (ofUnixMicro us) (retry * 1000) ReasonLimited EmptyString EmptyString,
   Some (Sent ErrRejected)).
Proof.
  intros Hretry.
  unfold decodeStrictLeaseReply, limitedReply. cbn [length lookup list_lookup take]. rewrite (parseInt64_format m) by (unfold is_i64; lia).
  unfold decodeLeaseReply. cbn [take]. change (bool_decide ("limited" = "not_owned")) with false. cbv iota.
  change (decodeDecision _) with (decodeDecision [flag false; formatInt remaining; formatInt limit; formatInt us; formatInt retry; ReasonLimited]).
  rewrite (decode_six false retry ReasonLimited) by (auto || lia). change (parseInt64 "0") with (Some 0).
  cbn [negb bool_decide Reset ExpiresAt notRejected]. destruct after_effective as [-> _]. rewrite !andb_false_r. done.
Qed.
End Decode.

(** ** The acquisition script *)

(** The result of a row operation as the Valkey backend reports it. *)
Definition onValkey (l : Lease) : Lease :=
  mkLease (lease_ID l) (lease_Key l) (lease_PolicyID l) (lease_PolicyRevision l) (lease_Cost l)
    (mkTime (instant (ExpiresAt l)) Local) "valkey".

Definition valkeyResult (l : Lease) (d : Decision) (err : option error) : Lease * Decision * option error :=
  match err with
  | None => (onValkey l, localized d, None)
  | Some _ => (l, if errorsIs err ErrRejected then localized d else d, err)
  end.

(** The script ended with the reply for the mutation [x], and the key holds the
    successor row; only a granted lease renews the expiry of the key. *)
Definition leaseEnds (request : LeaseRequest) (expires before : option Z) (x : leaseMutation)
    (o : outcome reply) (e : option entry) : Prop :=
  let '(row', l, d, err) := x in
  exists reply row1, row' = Some row1 /\ o = Ret reply /\ decodeStrictLeaseReply reply request = valkeyResult l d err /\
    e = Some (mkEntry (leaseHash row1) (match err with None => expires | Some _ => before end)).

(** What a key of leases holds. *)
Definition leaseKeyed (name : string) (row : option persistedState) (e : option entry) : Prop :=
  match row, e with
  | None, None => True
  | Some row, Some e => sound_leases name row /\ strlen (ps_Revision row) <= 64 /\ en_fields e = leaseHash row
  | _, _ => False
  end.

Section Acquisition.
Context (p : Policy) (env : environment) (r : Request) (leaseID : string) (ttl : Z).
Hypothesis Hwf : wf_policy p.
Hypothesis Hal : algorithm p = Concurrency.
Hypothesis Hp : req_Policy r = p.
Hypothesis Hcost : 1 <= Cost r <= maxCost p.
Hypothesis Httl : 1 <= ttl <= maxExact.

Abbreviation L := (lease_micros p).
Abbreviation digest := (leaseDigest leaseID).
Abbreviation request := (mkLeaseRequest r leaseID).

Definition leaseCall : leaseArguments :=
  mkLeaseArguments true "1" (id p) (revision p) (Some (ofZ (Limit p))) (Some (ofZ (Cost r))) (Some (ofZ L)) (Some (ofZ ttl))
    (leaseField digest).

Lemma units_exact : 1 <= Limit p <= MaxConcurrencyLeases /\ 1 <= Cost r <= Limit p /\ 1 <= L.
Proof.
  destruct (free_units p Hwf Hal 0 ltac:(lia)) as (_ & HL & Hm). destruct (lease_whole p Hwf Hal) as (_ & ? & _). lia.
Qed.

Lemma insert_lease row d l h :
  leaseHash row = h -> hset [(leaseField d, leaseText l)] h = leaseHash (setPersistedLeases row (<[d := l]> (persistedLeasesOf row))).
Proof.
  intros <-. unfold leaseHash, leaseBase. cbn [hset foldl fst snd].
  change (persistedLeasesOf (setPersistedLeases row (<[d := l]> (persistedLeasesOf row)))) with (<[d := l]> (persistedLeasesOf row)).
  rewrite fmap_insert, (kmap_insert leaseField). simpl ps_PolicyID. simpl ps_Revision. simpl ps_ObservedMicros.
  repeat (rewrite (insert_insert_ne _ (leaseField d)) by discriminate). done.
Qed.

Lemma wp_pexpire {A} (k : unit -> prog A) Q h d :
  (forall u, wp env (k u) Q (Some (mkEntry h (expiresAt env ttl)))) -> wp env (call (PEXPIRE (ofZ ttl)) ≫= k) Q (Some (mkEntry h d)).
Proof.
  intros Hk. apply wp_call. intros u _. cbn [effect pexpire en_fields]. rewrite toInt64_Z by lia.
  rewrite (proj2 (Z.leb_gt _ _)) by lia. apply Hk.
Qed.

Section Decide.
Context (row1 : persistedState) (m use e e' : Z) (dead : list string) (d : option Z).
Abbreviation live := (persistedLeasesOf row1).
Hypothesis Hrow1 : sound_leases (id p) row1.
Hypothesis Hm : 0 <= m <= maxExact - L.
Hypothesis Huse : 0 <= use <= MaxConcurrencyLeases.
Hypothesis Hlive : forall i l, live !! i = Some l -> m < pl_ExpiresMicros l.
Hypothesis He : Limit p - Z.min use (Limit p) < Cost r -> e' = e /\ m < e <= maxExact.
Abbreviation sc := (mkLeaseScan (ofZ use) (ofZ e') dead).
Abbreviation x := (decideLease row1 (mkLeaseRequest (at_micros r m) leaseID) digest live use e).

Lemma free_exact : Limit p -u Z.min use (Limit p) = Limit p - Z.min use (Limit p).
Proof. by destruct (free_units p Hwf Hal use) as [-> _]; [lia|]. Qed.

Lemma wp_retry l :
  live !! digest = Some l ->
  wp env (retryLease leaseCall (ofZ m) sc (leaseText l)) (leaseEnds request (expiresAt env ttl) d x)
    (Some (mkEntry (leaseHash row1) d)).
Proof.
  intros Hl. pose proof units_exact as (HL & HC & HLs).
  destruct (row_small _ _ Hrow1 _ _ Hl) as [Hs _]. pose proof Hs as [Hc Hexp]. unfold exact_micros in Hexp. pose proof (Hlive _ _ Hl) as Hlt.
  unfold retryLease, decideLease. simpl lr_Request. simpl LeaseID. simpl req_Policy. rewrite Hp, Hl, free_exact.
  rewrite cutColon_lease, canonical_uint, canonical_int by (done || lia). cbn [negb orb andb leaseCall l_strict l_cost].
  rewrite tonumber_uint by lia. cbn [luaEqual]. rewrite feq_Z by lia. change (Cost (at_micros r m)) with (Cost r).
  destruct (Z.eqb_spec (pl_Cost l) (Cost r)) as [Ec|Ec]; cbn [negb]; cbv iota.
  - cbn [leaseCall l_ttl_ms]. rewrite number_bind. apply wp_pexpire. intros _. cbn [leaseCall l_limit]. rewrite number_bind, tonumber_int, number_bind by lia.
    cbn [ls_used]. rewrite mathMin_Z, fsub_Z by lia. unfold leaseReply. rewrite !integer_Z by lia.
    eexists _, row1. split; [done|]. split; [done|]. split; [|done].
    change (?a ++ _) with (grantedReply (Limit p - Z.min use (Limit p)) (Limit p) (pl_ExpiresMicros l) m).
    rewrite decode_granted by lia. unfold valkeyLease. simpl lr_Request. rewrite Hp. unfold valkeyResult, onValkey, postgresLease. simpl. by rewrite Hp.
  - eexists _, row1. split; [done|]. split; [done|]. by split.
Qed.

Lemma wp_grant :
  live !! digest = None ->
  wp env (grantLease leaseCall (ofZ m) sc) (leaseEnds request (expiresAt env ttl) d x) (Some (mkEntry (leaseHash row1) d)).
Proof.
  intros Hl. pose proof units_exact as (HL & HC & HLs). destruct (lease_whole p Hwf Hal) as (Hlease & _).
  unfold grantLease, decideLease. simpl lr_Request. simpl LeaseID. simpl req_Policy. rewrite Hp, Hl, free_exact.
  cbn [leaseCall l_limit l_cost l_strict]. rewrite !number_bind. cbn [ls_used ls_earliest]. change (Zero false) with (ofZ 0).
  rewrite fsub_Z, mathMax_Z, flt_Z by lia. change (Cost (at_micros r m)) with (Cost r).
  replace (0 `max` (Limit p - use)) with (Limit p - Z.min use (Limit p)) by lia.
  destruct (Z.ltb_spec (Limit p - Z.min use (Limit p)) (Cost r)) as [Hover|Hfit].
  - destruct (He Hover) as [-> Hm']. rewrite fsub_Z, mathMax_Z by lia. unfold leaseReply. rewrite !integer_Z by lia.
    eexists _, row1. split; [done|]. split; [done|]. split; [|done].
    change (?a ++ _) with (limitedReply (Limit p - Z.min use (Limit p)) (Limit p) e (0 `max` (e - m)) m).
    rewrite decode_limited by lia. unfold valkeyResult, localized. simpl.
    replace (Z.max (Sub (ofUnixMicro e) (toUTC (ofUnixMicro m))) 0) with (0 `max` (e - m) * 1000); [done|].
    unfold Sub. simpl. lia.
  - cbn [leaseCall l_lease_us]. rewrite number_bind, fadd_Z by lia. rewrite !integer_Z by lia.
    assert (UnixMicro (Add (Now (at_micros r m)) (lease p)) = m + L) as Hexp.
    { unfold Add; simpl. rewrite Hlease. replace (m * 1000 + _) with ((m + L) * 1000) by lia.
      apply UnixMicro_at. unfold is_i64. lia. }
    apply wp_hset. intros _. rewrite (formatInt_uint (Cost r)) by lia.
    change (formatUint (Cost r) +:+ ":" +:+ formatInt (m + L)) with (leaseText (mkPersistedLease (Cost r) (m + L))).
    cbn [leaseCall l_field l_ttl_ms]. rewrite (insert_lease row1 digest _ _ eq_refl), number_bind. apply wp_pexpire. intros _.
    rewrite fsub_Z by lia. unfold leaseReply. rewrite !integer_Z by lia. rewrite Hexp.
    eexists _, _. split; [done|]. split; [done|]. split; [|done].
    change (?a ++ _) with (grantedReply (Limit p - Z.min use (Limit p) - Cost r) (Limit p) (m + L) m).
    rewrite decode_granted by lia. rewrite (u64_id (_ - Cost r)) by (unfold is_u64; lia).
    unfold valkeyLease, valkeyResult, onValkey, postgresLease, localized. simpl. rewrite Hp, Hlease.
    unfold ofUnixMicro. rewrite Z.mul_add_distr_r. done.
Qed.
End Decide.

(** The decision on the pruned hash. *)
Lemma wp_decide row m ys d e :
  sound_leases (id p) row -> 0 <= m <= maxExact - L -> omap Datatypes.id ys ≡ₚ map_to_list (persistedLeasesOf row) ->
  let live := livePersisted m (persistedLeasesOf row) in
  let use := weight (ls_of <$> live) in
  0 <= use <= MaxConcurrencyLeases -> (live <> ∅ -> instant (earliestLease (ls_of <$> live)) = e * 1000) ->
  wp env
    (decideLeaseScript leaseCall (ofZ m)
       (mkLeaseScan (ofZ use) (ofZ (foldl earlier 0 (live_entries m (omap Datatypes.id ys)))) (deadFields m ys)))
    (leaseEnds request (expiresAt env ttl) d
       (decideLease (setPersistedLeases (setSeen row (revision p) m) live) (mkLeaseRequest (at_micros r m) leaseID) digest live use e))
    (Some (mkEntry (leaseHash row) d)).
Proof.
  intros Hrow Hm Hys live use Huse Hmin. pose proof units_exact as (HL & HC & HLs).
  set (row1 := setPersistedLeases _ live).
  pose proof (live_sound m _ (lrow_entries _ _ Hrow)) as Hsound. fold live in Hsound.
  assert (sound_leases (id p) row1) as Hrow1 by (apply keeps_sound; [done|unfold exact_micros; lia|done|apply Huse]).
  unfold decideLeaseScript. cbn [leaseCall l_strict ls_expired l_revision].
  apply wp_deleteFields.
  { unfold leaseHash, leaseBase. hash_read. by eexists. }
  { intros (i & l & E & _)%(elem_of_dead row m ys Hys). discriminate. }
  apply wp_hset. intros _. rewrite integer_Z, (pruned_hash row m ys Hys) by lia. fold live row1.
  eapply wp_hget; [cbn [fieldsOf en_fields]; apply lookup_leaseField|].
  change (persistedLeasesOf row1) with live.
  assert (forall i l, live !! i = Some l -> m < pl_ExpiresMicros l) as Hlive by (by intros i l [_ ?]%livePersisted_lookup).
  destruct (live !! digest) as [l|] eqn:E; cbn [fmap option_fmap option_map].
  - by apply (wp_retry row1).
  - apply (wp_grant row1); try done. intros Hover.
    assert (live <> ∅) as Hne.
    { intros E0. unfold use in Hover. rewrite E0, fmap_empty in Hover. unfold weight in Hover. rewrite map_fold_empty in Hover. lia. }
    pose proof (Hmin Hne) as Hfirst. split; [by apply (earliest_least (id p) row Hrow m ys Hys); [lia|..]|].
    destruct (earliestLease_least (ls_of <$> live)) as [(i & x & Hx & Hi) _].
    { intros i x Hx. rewrite lookup_fmap in Hx. destruct (live !! i) as [l|] eqn:El; simplify_eq/=.
      destruct (Hsound i l El) as (_ & _ & Hexp). unfold exact_micros in Hexp. lia. }
    { by intros E0%fmap_empty_iff. }
    rewrite lookup_fmap in Hx. destruct (live !! i) as [l|] eqn:El; simplify_eq/=.
    destruct (Hsound i l El) as (_ & _ & Hexp). unfold exact_micros in Hexp. apply livePersisted_lookup in El as [_ Hlt].
    rewrite Hi in Hfirst. simpl in Hfirst. lia.
Qed.

(** The script once the hash is open, on the row that it holds. *)
Lemma wp_acquireStored row m d :
  sound_leases (id p) row -> strlen (id p) <= 64 /\ strlen (ps_Revision row) <= 64 ->
  lease_valid p (at_micros r m) m -> 0 <= m -> Z.max m (ps_ObservedMicros row) <= maxExact - L ->
  wp env (acquireStored leaseCall (Some (ofZ m)))
    (leaseEnds request (expiresAt env ttl) d (mutateLease (Some row) (mkLeaseRequest (at_micros r m) leaseID) digest))
    (Some (mkEntry (leaseHash row) d)).
Proof.
  intros Hrow Hlen Hvalid Hm Hlate. pose proof units_exact as (HL & HC & HLs).
  destruct (mutateLease_eq p Hwf Hal row _ m leaseID digest Hrow Hvalid Hlate) as (e & -> & Huse & Hmin).
  set (m' := Z.max m (ps_ObservedMicros row)) in *. pose proof (row_count _ _ Hrow) as Hcount.
  pose proof (lrow_observed _ _ Hrow) as Hobs. unfold exact_micros in Hobs.
  unfold acquireStored. wp_read. rewrite leaseHash_size, (proj2 (Z.ltb_ge _ _)) by (unfold maxLeaseFields; lia).
  apply wp_call. intros xs Hxs. cbn [answers fieldsOf en_fields effect] in Hxs |- *.
  rewrite leaseFieldsValid_proper; [|by eapply row_fields|].
  2:{ rewrite Hxs, length_map_to_list, leaseHash_size. unfold max_state_bytes. lia. }
  cbn [leaseCall l_strict negb andb].
  eapply wp_hget; [unfold leaseHash, leaseBase; cbn [fieldsOf en_fields]; by hash_read|].
  rewrite exactSigned_int by lia. cbn [negb]. rewrite number_bind, tonumberOf_int, number_bind, flt_Z by lia.
  cbn [leaseCall l_lease_us]. rewrite number_bind.
  replace (if m <? ps_ObservedMicros row then ofZ (ps_ObservedMicros row) else ofZ m) with (ofZ m')
    by (unfold m'; destruct (Z.ltb_spec m (ps_ObservedMicros row)); f_equal; lia).
  unfold max_exact. rewrite fsub_Z, flt_Z, (proj2 (Z.ltb_ge _ _)) by lia.
  destruct (row_scanned _ _ Hrow xs Hxs) as (ys & Hys & Hperm). change (Zero false) with (ofZ 0).
  assert (entries_weight (live_entries m' (omap Datatypes.id ys)) = weight (ls_of <$> livePersisted m' (persistedLeasesOf row))) as Hw.
  { rewrite <- live_weight. apply entries_weight_perm. unfold live_entries. by rewrite Hperm. }
  rewrite (scanLeases_eq m' xs ys Hys) by (unfold exact_micros; lia). rewrite Hw, Z.add_0_l. cbn [app].
  apply wp_decide; try done. unfold m'; lia.
Qed.

(** A key that holds nothing is a key that holds the row its creation writes. *)
Definition openedRow (m : Z) : persistedState := setSeen (freshLeaseRow request) (revision p) m.

Lemma opened_sound m : exact_micros m -> sound_leases (id p) (openedRow m).
Proof.
  intros Hm. split; [done|by simpl; rewrite Hp|done|done| |].
  { intros i l Hl. change (persistedLeasesOf (openedRow m)) with (∅ : gmap string persistedLease) in Hl. by rewrite lookup_empty in Hl. }
  change (persistedLeasesOf (openedRow m)) with (∅ : persistedLeases). rewrite fmap_empty. unfold weight. by rewrite map_fold_empty.
Qed.

Lemma opened_mutation m :
  0 <= m -> lease_valid p (at_micros r m) m ->
  mutateLease None (mkLeaseRequest (at_micros r m) leaseID) digest =
  mutateLease (Some (openedRow m)) (mkLeaseRequest (at_micros r m) leaseID) digest.
Proof.
  intros Hm (_ & _ & _ & Hrange). destruct (lease_whole p Hwf Hal) as (_ & HLs & _). unfold mutateLease, mutateLeaseMode.
  rewrite (loaded_sound p (openedRow m)) by (done || apply opened_sound; unfold exact_micros; lia).
  simpl loadedLeaseRow. simpl lr_Request. change (Now (at_micros r m)) with (toUTC (ofUnixMicro m)). rewrite UnixMicro_utc by (unfold is_i64; lia).
  simpl ps_ObservedMicros. rewrite !Z.max_l by lia. rewrite Z.eqb_refl. cbn [negb]. done.
Qed.

Definition observedAt (row : option persistedState) (m : Z) : Z :=
  match row with Some row => Z.max m (ps_ObservedMicros row) | None => m end.

Hypothesis Hmem : env_memory env <= max_allocator_bytes.
Hypothesis Hnames : strlen (id p) <= 64 /\ strlen (revision p) <= 64.

Lemma wp_guardLeaseTime m k Q e :
  0 <= m <= maxExact - L -> wp env k Q e -> wp env (guardLeaseTime leaseCall (Some (ofZ m)) k) Q e.
Proof.
  intros Hm Hk. destruct units_exact as (_ & _ & HLs). unfold guardLeaseTime. cbn [leaseCall l_strict l_lease_us].
  rewrite !number_bind. unfold leaseOutsideRange, max_exact. change (Zero false) with (ofZ 0).
  rewrite !beyondExact_false, fle_Z, flt_Z, fsub_Z, flt_Z by lia.
  rewrite (proj2 (Z.leb_gt _ _)), !(proj2 (Z.ltb_ge _ _)) by lia. exact Hk.
Qed.

Lemma wp_acquire row m e :
  leaseKeyed (id p) row e -> lease_valid p (at_micros r m) m -> 0 <= m -> observedAt row m <= maxExact - L ->
  wp env (acquireArguments leaseCall (Some (ofZ m)))
    (leaseEnds request (expiresAt env ttl) (deadlineOf e) (mutateLease row (mkLeaseRequest (at_micros r m) leaseID) digest)) e.
Proof.
  intros Hkey Hvalid Hm Hlate. pose proof Hvalid as (_ & _ & _ & Hrange). unfold acquireArguments.
  apply wp_guardLeaseTime; [lia|]. destruct units_exact as (_ & _ & HLs).
  destruct row as [row|], e as [[h d]|]; try done; unfold openLeaseHash.
  - destruct Hkey as (Hrow & Hrev & E). simpl in E. subst h. wp_read. cbn [Z.eqb Pos.eqb].
    apply wp_checkMemory; [done|]. apply wp_checkIdentity; try (unfold leaseHash, leaseBase; cbn [fieldsOf en_fields]; by hash_read).
    + unfold leaseHash, leaseBase; cbn [fieldsOf en_fields]. hash_read. by rewrite (lrow_policy _ _ Hrow).
    + apply wp_acquireStored; try done. split; [apply Hnames|done].
  - wp_read. cbn [Z.eqb]. rewrite number_bind. apply wp_call. intros _ _. cbn [effect fieldsOf deadlineOf mbind option_bind].
    cbn [leaseCall l_schema l_policy_id l_revision]. rewrite integer_Z by lia.
    rewrite (opened_mutation m Hm Hvalid). pose proof (opened_sound m ltac:(unfold exact_micros; lia)) as Hrow.
    replace (hset _ ∅) with (leaseHash (openedRow m)).
    + apply wp_acquireStored; try done. simpl. lia.
    + unfold leaseHash, leaseBase. rewrite (lrow_policy _ _ Hrow).
      change (persistedLeasesOf (openedRow m)) with (∅ : persistedLeases). rewrite fmap_empty, (kmap_empty leaseField). done.
Qed.
End Acquisition.

(** ** The release script *)

Lemma releaseFieldsValid_proper xs ys : Forall2 scanned xs ys -> forall used bytes,
  Forall proper_field xs -> bytes + 127 * Z.of_nat (length xs) <= max_state_bytes -> 0 <= used ->
  used + entries_weight (omap Datatypes.id ys) <= MaxConcurrencyLeases -> releaseFieldsValid xs (ofZ used) bytes = true.
Proof.
  induction 1 as [|[f v] y xs ys Hy Hys IH]; intros used bytes Hx Hb Hu Hw; [done|].
  apply Forall_cons in Hx as [[H1 H2 H3] Hx]. simpl in H1, H2, H3. cbn [length] in Hb.
  pose proof (strlen_nonneg f). pose proof (strlen_nonneg v). cbn [releaseFieldsValid].
  rewrite !(proj2 (Z.ltb_ge _ _)) by lia. cbn [orb]. destruct y as [[digest l]|]; cbn [omap list_omap Datatypes.id] in Hw.
  - destruct Hy as [[= -> ->] Hl]. pose proof Hl as [Hc Hexp]. rewrite bool_decide_eq_false_2 by (intros E; by destruct (leaseField_base digest _ E)).
    destruct H3 as [E| ->]; [by destruct (leaseField_base digest _ E)|]. cbn [negb].
    rewrite cutColon_lease, leaseValid_lease by done. cbn [negb]. simpl in Hw.
    pose proof (entries_weight_nonneg (omap Datatypes.id ys)) as Hpos.
    assert (0 <= entries_weight (omap Datatypes.id ys)) as Hw0.
    { apply Hpos. eapply Forall_impl; [by eapply scanned_small|]. by intros dl [[? _] _]. }
    rewrite tonumber_uint, fsub_Z, flt_Z, fadd_Z, (proj2 (Z.ltb_ge _ _)) by lia. apply IH; done || lia.
  - rewrite bool_decide_eq_true_2; [apply IH; done || lia|]. destruct H3 as [|Hv]; [done|].
    unfold valid_lease_field in Hv. apply andb_true_iff in Hv as [[_ Hv]%andb_true_iff _]. by apply bool_decide_eq_true_1 in Hv.
Qed.

Lemma leaseText_inj l x :
  small_lease l -> is_u64 (pl_Cost x) -> is_i64 (pl_ExpiresMicros x) -> leaseText l = leaseText x -> l = x.
Proof.
  intros Hl Hc He E. pose proof Hl as [Hlc Hle]. unfold is_u64, exact_micros in *.
  assert (cutColon (leaseText x) = Some (formatUint (pl_Cost x), formatInt (pl_ExpiresMicros x))) as Hx.
  { apply cutColon_app, digits_free; [lia|]. apply formatUint_digits. lia. }
  rewrite <- E, cutColon_lease in Hx by done. injection Hx as H1 H2.
  apply (f_equal ParseUint) in H1. apply (f_equal parseInt64) in H2.
  rewrite !ParseUint_format in H1 by (unfold is_u64; lia). rewrite !parseInt64_format in H2 by (unfold is_i64 in *; lia).
  destruct l, x; simpl in *. congruence.
Qed.

Lemma delete_lease row d : delete (leaseField d) (leaseHash row) = leaseHash (setPersistedLeases row (delete d (persistedLeasesOf row))).
Proof.
  unfold leaseHash, leaseBase, hset. cbn [foldl fst snd].
  change (persistedLeasesOf (setPersistedLeases row (delete d (persistedLeasesOf row)))) with (delete d (persistedLeasesOf row)).
  rewrite fmap_delete, (kmap_delete leaseField). simpl ps_PolicyID. simpl ps_Revision. simpl ps_ObservedMicros.
  by rewrite !delete_insert_ne by discriminate.
Qed.

(** The answer to a release and what the key holds after it: the lease of the row
    that [ownedLease] takes away, and no key when it was the last. *)
Definition releasedEntry (row : option persistedState) (l : Lease) (e : option entry) : option error * option entry :=
  match row with
  | None => (Some (Sent ErrLeaseNotFound), e)
  | Some row =>
      match ownedLease row (leaseDigest (lease_ID l)) l with
      | Err err => (Some err, e)
      | Ok remaining =>
          (None, if bool_decide (remaining = ∅) then None
                 else Some (mkEntry (leaseHash (setPersistedLeases row remaining)) (deadlineOf e)))
      end
  end.

Section Release.
Context (env : environment) (l : Lease).
Hypothesis Hmem : env_memory env <= max_allocator_bytes.
Hypothesis Hname : strlen (lease_PolicyID l) <= 64.
Hypothesis Htyped : is_u64 (lease_Cost l) /\ is_i64 (UnixMicro (ExpiresAt l)).
Abbreviation digest := (leaseDigest (lease_ID l)).
Abbreviation asked := (mkPersistedLease (lease_Cost l) (UnixMicro (ExpiresAt l))).

Lemma wp_releaseOwned row d :
  sound_leases (lease_PolicyID l) row ->
  wp env (releaseOwned (leaseField digest) (leaseText asked))
    (fun o e => exists reply, o = Ret reply /\ (decodeReleaseReply reply, e) = releasedEntry (Some row) l (Some (mkEntry (leaseHash row) d)))
    (Some (mkEntry (leaseHash row) d)).
Proof.
  intros Hrow. unfold releaseOwned, releasedEntry, ownedLease. eapply wp_hget; [cbn [fieldsOf en_fields]; apply lookup_leaseField|].
  destruct (persistedLeasesOf row !! digest) as [x|] eqn:E; cbn [fmap option_fmap option_map]; [|by eexists].
  destruct (row_small _ _ Hrow _ _ E) as [Hx _].
  destruct (decide (x = asked)) as [Heq|Hne].
  - rewrite Heq. simpl pl_Cost. simpl pl_ExpiresMicros. rewrite bool_decide_eq_true_2, !Z.eqb_refl by done. cbn [negb orb].
    apply wp_call. intros _ _. cbn [effect]. unfold hdel. cbn [fieldsOf en_fields deadlineOf mbind option_bind en_deadline].
    rewrite delete_lease. set (rest := setPersistedLeases row (delete digest (persistedLeasesOf row))).
    rewrite (bool_decide_eq_false_2 (leaseHash rest = ∅)).
    2:{ intros E0. pose proof (leaseHash_size rest) as Hsize. rewrite E0, map_size_empty in Hsize. lia. }
    wp_read. rewrite leaseHash_size. change (persistedLeasesOf rest) with (delete digest (persistedLeasesOf row)).
    case_bool_decide as Hlast.
    + rewrite Hlast, map_size_empty. cbn. intros _ _. by eexists.
    + destruct (Z.eqb_spec (Z.of_nat (5 + size (delete digest (persistedLeasesOf row)))) 5) as [E5|E5]; [|by eexists].
      destruct Hlast. apply map_size_empty_inv. lia.
  - rewrite bool_decide_eq_false_2 by (intros Ht; apply Hne; apply leaseText_inj; [done|apply Htyped|apply Htyped|done]). cbn [negb].
    replace (negb _ || negb _) with true; [by eexists|]. symmetry. apply orb_true_iff. rewrite !negb_true_iff, !Z.eqb_neq.
    destruct (decide (pl_Cost x = lease_Cost l)) as [Ec|]; [right|by left]. intros Ee. apply Hne. destruct x; simpl in *. by rewrite Ec, Ee.
Qed.

Lemma wp_strictRelease row e :
  leaseKeyed (lease_PolicyID l) row e ->
  wp env (strictReleaseLeaseScript (releaseArgs l ++ ["strict"]))
    (fun o e' => exists reply, o = Ret reply /\ (decodeReleaseReply reply, e') = releasedEntry row l e) e.
Proof.
  intros Hkey. unfold strictReleaseLeaseScript, releaseLeaseScriptBody, releaseArgs. cbn [app].
  destruct row as [row|], e as [[h d]|]; try done; [|wp_read; by eexists].
  destruct Hkey as (Hrow & Hrev & E). simpl in E. subst h. wp_read. cbn [Z.eqb Pos.eqb].
  apply wp_checkMemory; [done|]. pose proof (lrow_observed _ _ Hrow) as Hobs. pose proof (row_count _ _ Hrow) as Hcount.
  apply wp_checkIdentity; try (unfold leaseHash, leaseBase; cbn [fieldsOf en_fields]; hash_read; done || by rewrite (lrow_policy _ _ Hrow)).
  unfold checkRelease. wp_read. rewrite leaseHash_size, (proj2 (Z.ltb_ge _ _)) by (unfold maxLeaseFields; lia).
  apply wp_call. intros xs Hxs. cbn [answers fieldsOf en_fields effect] in Hxs |- *.
  eapply wp_hget; [unfold leaseHash, leaseBase; cbn [fieldsOf en_fields]; by hash_read|].
  rewrite exactSigned_int by exact Hobs. cbn [negb]. destruct (row_scanned _ _ Hrow xs Hxs) as (ys & Hys & Hperm).
  change (Zero false) with (ofZ 0). rewrite (releaseFieldsValid_proper xs ys Hys); [by apply wp_releaseOwned| |..].
  - eapply row_fields; [exact Hrow|by split|done].
  - rewrite Hxs, length_map_to_list, leaseHash_size. unfold max_state_bytes. lia.
  - lia.
  - rewrite (entries_weight_perm _ _ Hperm), <- weight_entries. apply Hrow.
Qed.
End Release.

(** ** Through the client *)

(** What the theorems ask of a lease request, of the clocks and of the memory a
    key uses; the effective time leaves room for the lease in 53 bits. *)
Record leasable (opts : Options) (env : environment) (row : option persistedState) (r : Request) : Prop := {
  la_policy : wf_policy (req_Policy r);
  la_algorithm : algorithm (req_Policy r) = Concurrency;
  la_cost : 1 <= Cost r <= maxCost (req_Policy r);
  la_names : strlen (id (req_Policy r)) <= 64 /\ strlen (revision (req_Policy r)) <= 64;
  la_memory : env_memory env <= max_allocator_bytes;
  la_server : 0 <= env_clock env <= maxExact;
  la_clock : 0 <= scriptClock opts env r;
  la_time : observedAt row (scriptClock opts env r) <= maxExact - lease_micros (req_Policy r)
}.

Section Grants.
Context (opts : Options) (env : environment) (row : option persistedState) (request : LeaseRequest).
Abbreviation r := (lr_Request request).
Abbreviation p := (req_Policy r).
Abbreviation m := (scriptClock opts env r).
Abbreviation ttl := (valkeyStateTTL (lease p) ÷ Millisecond).
Hypothesis Hla : leasable opts env row r.

(** The mutation that the script carries out. *)
Definition leaseMutationAt : leaseMutation :=
  mutateLease row (mkLeaseRequest (at_micros r m) (LeaseID request)) (leaseDigest (LeaseID request)).

Lemma clock_leasable : lease_valid p (at_micros r m) m.
Proof.
  destruct Hla as [Hwf Hal Hc _ _ _ Hm Hlate]. split_and!; try done; simpl; try lia.
  destruct row; simpl in Hlate; lia.
Qed.

Lemma wp_strictAcquire e :
  leaseKeyed (id p) row e ->
  wp env (strictAcquireLeaseScript (acquireArgs opts request (valkeyStateTTL (lease p)) ++ ["strict"]))
    (leaseEnds request (expiresAt env ttl) (deadlineOf e) leaseMutationAt) e.
Proof.
  intros Hkey. pose proof Hla as [Hwf Hal Hc Hn Hmem Hs Hm Hlate].
  destruct (lease_whole p Hwf Hal) as (Hlease & HLs & Hi). pose proof (stateTTL_range (lease p) Hi ltac:(lia)) as Httl.
  destruct (units_exact p r Hwf Hal Hc) as (HL & HC & _). destruct clock_leasable as (_ & _ & _ & Hrange).
  unfold strictAcquireLeaseScript, acquireLeaseScriptBody, acquireArgs. cbn [app].
  apply wp_scriptTime; [done| |].
  { unfold scriptClock in Hrange. destruct (bool_decide_reflect (opt_Clock opts = ServerClock)); [by right|left; lia]. }
  rewrite Microseconds_nonneg by lia. fold (lease_micros p). rewrite !tonumber_uint, !tonumber_int by lia.
  change ("l:" +:+ digestOf (LeaseID request)) with (leaseField (leaseDigest (LeaseID request))).
  pose proof (wp_acquire p env r (LeaseID request) ttl Hwf Hal eq_refl Hc ltac:(lia) Hmem Hn row m e Hkey clock_leasable Hm Hlate) as Hwp.
  unfold leaseMutationAt. destruct request. exact Hwp.
Qed.

(** The successor of a sound row is sound. *)
Lemma mutation_sound row0 :
  sound_leases (id p) row0 -> Z.max m (ps_ObservedMicros row0) <= maxExact - lease_micros p ->
  exists row' l d err,
    mutateLease (Some row0) (mkLeaseRequest (at_micros r m) (LeaseID request)) (leaseDigest (LeaseID request)) = (Some row', l, d, err) /\
    sound_leases (id p) row' /\ ps_Revision row' = revision p.
Proof.
  intros Hrow Hlate. pose proof Hla as [Hwf Hal Hc _ _ _ Hm _]. destruct (lease_whole p Hwf Hal) as (Hlease & HLs & _).
  destruct (mutateLease_eq p Hwf Hal row0 _ m (LeaseID request) (leaseDigest (LeaseID request)) Hrow clock_leasable Hlate) as (e & -> & Huse & _).
  set (m' := Z.max m (ps_ObservedMicros row0)) in *. set (live := livePersisted m' _) in *.
  pose proof (live_sound m' _ (lrow_entries _ _ Hrow)) as Hsound. fold live in Hsound.
  assert (exact_micros m') as Hex by (unfold exact_micros, m' in *; lia).
  assert (UnixMicro (Add (Now (at_micros (at_micros r m) m')) (lease p)) = m' + lease_micros p) as Hexp.
  { unfold Add; simpl. rewrite Hlease at 1. replace (m' * 1000 + _) with ((m' + lease_micros p) * 1000) by lia.
    apply UnixMicro_at. unfold exact_micros, is_i64 in *. lia. }
  unfold decideLease. simpl lr_Request. simpl req_Policy. destruct (free_units p Hwf Hal (weight (ls_of <$> live)) (proj1 Huse)) as (-> & HL & Hmax).
  destruct (live !! leaseDigest (LeaseID request)) as [l|] eqn:E.
  { destruct (negb _); eexists _, _, _, _; (split; [done|]); (split; [|done]); apply keeps_sound; try done; apply Huse. }
  case_match eqn:Hover; eexists _, _, _, _; (split; [done|]); (split; [|done]).
  - apply keeps_sound; try done; apply Huse.
  - apply Z.ltb_ge in Hover. simpl in Hover. rewrite Hexp.
    destruct (grant_sound live (LeaseID request) (Cost r) (m' + lease_micros p)) as [Hs Hw]; try done; [lia|unfold exact_micros in *; lia|lia|].
    by apply (keeps_sound p row0).
Qed.

Lemma mutation_keyed e :
  leaseKeyed (id p) row e ->
  exists row' l d err, leaseMutationAt = (Some row', l, d, err) /\ sound_leases (id p) row' /\ strlen (ps_Revision row') <= 64.
Proof.
  intros Hkey. pose proof Hla as [Hwf Hal Hc Hn _ _ Hm Hlate]. destruct (lease_whole p Hwf Hal) as (_ & HLs & _).
  pose proof mutation_sound as Hms. pose proof clock_leasable as Hcl. unfold leaseMutationAt. destruct row as [row0|].
  - destruct e; [|done]. destruct Hkey as [Hrow _].
    destruct (Hms row0 Hrow Hlate) as (row' & l & d & err & E & Hs & Hr). exists row', l, d, err. rewrite Hr. by destruct Hn.
  - rewrite (opened_mutation p r (LeaseID request) Hwf Hal eq_refl m Hm Hcl).
    destruct (Hms (openedRow p r (LeaseID request) m)) as (row' & l & d & err & E & Hs & Hr).
    + apply opened_sound; [done|]. simpl in Hlate. unfold exact_micros. lia.
    + simpl in *. lia.
    + exists row', l, d, err. rewrite Hr. by destruct Hn.
Qed.
End Grants.

Section Client.
Context {W S : Type} `{ServerLaws S} (server : W -> S).
Context (withTimeout : Context W -> Duration -> Context W) (client : Client W).
Hypothesis client_runs : forall ctx s k args w,
  let '(o, s') := execute k (program s args) (server w) in
  match execScript client ctx s [k] args w with
  | (Ret (Ok messages), w') => server w' = s' /\ exists reply, o = Ret reply /\ messages = Ok <$> reply
  | (Ret (Err _), w') | (Panic, w') => server w' = server w \/ server w' = s'
  end.
Hypothesis timeout_quiet : forall ctx d, quiet server ctx -> quiet server (withTimeout ctx d).

(** The key alone changed, to the hash of [row]. *)
Definition leased (k : string) (row : persistedState) (expires : option Z) (s s' : S) : Prop :=
  server_entry s' k = Some (mkEntry (leaseHash row) expires) /\
  (forall other, other <> k -> server_entry s' other = server_entry s other).

(** C15: a strict acquisition on a Valkey server is the PostgreSQL acquisition.
    [AcquireStrict] on a key that is absent or holds the leases of a sound row
    returns the lease, the decision and the error of [mutateLease] on that row at
    the script's time, with the hash of the successor row stored and, when the
    lease was granted or retried by its owner, the expiry of the key renewed; or
    reports that the context had ended, with the server untouched; or reports an
    unknown outcome, when the script ran once or not at all.  The successor is
    sound again, so the integrity checks of the script never refuse it, and no
    other key changes. *)
Theorem valkey_strict_acquisition opts ctx request row w :
  let r := lr_Request request in
  let k := key opts r in
  let env := server_env (server w) k in
  let before := server_entry (server w) k in
  quiet server ctx -> LeaseRequest_Validate request = None -> leaseKeyed (id (req_Policy r)) row before -> leasable opts env row r ->
  exists row' l d err, leaseMutationAt opts env row request = (Some row', l, d, err) /\
    sound_leases (id (req_Policy r)) row' /\ strlen (ps_Revision row') <= 64 /\
    let renewed := expiresAt env (valkeyStateTTL (lease (req_Policy r)) ÷ Millisecond) in
    let done := leased k row' (match err with None => renewed | Some _ => deadlineOf before end) (server w) in
    match AcquireStrict withTimeout (Some (mkStore (Some (nativeExecutor client)) opts)) (iface_of ctx) request w with
    | (Ret (l', d', err'), w') =>
        (l', d', err') = valkeyResult l d err /\ done (server w') \/
        l' = zeroLease /\ d' = emptyDecision /\
          ((err' = Some CanceledOutcome \/ err' = Some DeadlineOutcome) /\ server w' = server w \/
           (exists c, err' = Some (UnknownOutcome c)) /\ (server w' = server w \/ done (server w')))
    | (Panic, w') => server w' = server w \/ done (server w')
    end.
Proof.
  intros r k env before Hquiet Hvalid Hkey Hla.
  destruct (mutation_keyed opts env row request Hla _ Hkey) as (row' & l & d & err & Hmut & Hsound & Hrev).
  pose proof (wp_sound k _ _ (server w) (wp_strictAcquire opts env row request Hla _ Hkey)) as Hends.
  exists row', l, d, err. split_and!; [done..|]. intros renewed done.
  set (args := acquireArgs opts request (valkeyStateTTL (lease (req_Policy (lr_Request request)))) ++ ["strict"]) in *.
  pose proof (execute_frame k (strictAcquireLeaseScript args)) as Hframe. rewrite Hmut in Hends.
  destruct Hends as (reply & row1 & [= <-] & Ho & Hdec & Hentry).
  assert (done (execute k (strictAcquireLeaseScript args) (server w)).2) as Hdone by (split; [done|by intros; apply Hframe]).
  pose proof (strict_call server withTimeout client client_runs timeout_quiet opts ctx nativeStrictAcquireScript k args
    (fun err => (zeroLease, emptyDecision, Some err)) (fun reply => decodeStrictLeaseReply reply request)) as Hcall.
  unfold AcquireStrict. rewrite Hvalid.
  match goal with |- context [strictEntry _ _ None _ ?run w] => specialize (Hcall run w Hquiet eq_refl) end.
  change (program nativeStrictAcquireScript) with strictAcquireLeaseScript in Hcall.
  destruct (execute k (strictAcquireLeaseScript args) (server w)) as [o s']. simpl in Ho, Hdone. subst o.
  destruct (strictEntry _ _ None _ _ w) as [[[[l' d'] err']|] w']; [|destruct Hcall as [-> | ->]; auto].
  destruct Hcall as [(reply' & [= <-] & -> & ->)|[[Hearly Hw]|[[c [= -> -> ->]] Hs]]].
  - left. by rewrite Hdec.
  - right. destruct Hearly as [[= -> -> ->]|[= -> -> ->]]; auto 10.
  - right. split_and!; try done. right. split; [by exists c|]. destruct Hs as [-> | ->]; auto.
Qed.

(** C16: a strict release on a Valkey server takes away exactly the lease it names.
    [ReleaseStrict] answers what [ownedLease] answers on the row that the key
    holds: not found, not owned when the cost or the expiry differ, or released;
    the key then holds the row without that lease and nothing else has changed,
    and the key is gone when the lease was its last.  Otherwise the context had
    ended and nothing ran, or the outcome is unknown and the script ran once or
    not at all. *)
Theorem valkey_strict_release opts ctx l row w :
  let k := storeKey opts (lease_PolicyID l) (key_value (lease_Key l)) in
  let before := server_entry (server w) k in
  let '(answer, after) := releasedEntry row l before in
  let done s' := server_entry s' k = after /\ forall other, other <> k -> server_entry s' other = server_entry (server w) other in
  quiet server ctx -> leaseKeyed (lease_PolicyID l) row before ->
  env_memory (server_env (server w) k) <= max_allocator_bytes -> strlen (lease_PolicyID l) <= 64 ->
  lease_ID l <> EmptyString -> lease_PolicyID l <> EmptyString -> key_value (lease_Key l) <> EmptyString ->
  is_u64 (lease_Cost l) -> lease_Cost l <> 0 -> instant (ExpiresAt l) <> zero_instant ->
  match ReleaseStrict withTimeout (Some (mkStore (Some (nativeExecutor client)) opts)) (iface_of ctx) l w with
  | (Ret err, w') =>
      err = answer /\ done (server w') \/
      (err = Some CanceledOutcome \/ err = Some DeadlineOutcome) /\ server w' = server w \/
      (exists c, err = Some (UnknownOutcome c)) /\ (server w' = server w \/ done (server w'))
  | (Panic, w') => server w' = server w \/ done (server w')
  end.
Proof.
  intros k before. destruct (releasedEntry row l before) as [answer after] eqn:Erel.
  intros done Hquiet Hkey Hmem Hname H1 H2 H3 Hcost H4 H5.
  assert (is_i64 (UnixMicro (ExpiresAt l))) as Hexp by apply i64_range.
  pose proof (wp_sound k _ _ (server w) (wp_strictRelease _ l Hmem Hname (conj Hcost Hexp) row _ Hkey)) as (reply & Ho & Hdec).
  set (args := releaseArgs l ++ ["strict"]) in *. fold before in Hdec. rewrite Erel in Hdec. injection Hdec as Hanswer Hafter.
  pose proof (execute_frame k (strictReleaseLeaseScript args)) as Hframe.
  assert (done (execute k (strictReleaseLeaseScript args) (server w)).2) as Hdone by (split; [done|by intros; apply Hframe]).
  pose proof (strict_call server withTimeout client client_runs timeout_quiet opts ctx nativeStrictReleaseScript k args
    Some decodeReleaseReply) as Hcall.
  unfold ReleaseStrict. unfold IsZero. rewrite !bool_decide_eq_false_2, !(proj2 (Z.eqb_neq _ _)) by done. cbn [orb].
  match goal with |- context [strictEntry _ _ None _ ?run w] => specialize (Hcall run w Hquiet eq_refl) end.
  change (program nativeStrictReleaseScript) with strictReleaseLeaseScript in Hcall.
  destruct (execute k (strictReleaseLeaseScript args) (server w)) as [o s']. simpl in Ho, Hdone. subst o.
  destruct (strictEntry _ _ None _ _ w) as [[err|] w']; [|destruct Hcall as [-> | ->]; auto].
  destruct Hcall as [(reply' & [= <-] & -> & ->)|[[Hearly Hw]|[[c ->] Hs]]].
  - by left.
  - by right; left.
  - right; right. split; [by exists c|]. destruct Hs as [-> | ->]; auto.
Qed.
End Client.

(** ** A server that holds a lease *)

Module DemoHeld.
Definition request : LeaseRequest := DemoJobs.job "b".
Definition k : string := key DemoValkey.opts (lr_Request request).
(** Lease "a" holds 2 of the 4 units. *)
Definition server : serverState :=
  mkServerState {[ k := mkEntry (leaseHash DemoLeases.row) (Some 1700000060000) ]} (mkEnvironment 1700000001000000 4096).
Definition held : Lease :=
  mkLease "a" (mkKey "http:v1:principal:x" "principal") "jobs" "v1" 2 (ofUnixMicro 1700000030000000) "valkey".
End DemoHeld.

Lemma demo_held : leaseKeyed "jobs" (Some DemoLeases.row) (server_entry DemoHeld.server DemoHeld.k).
Proof.
  unfold server_entry. cbn [memoryServer DemoHeld.server ss_keys]. rewrite lookup_singleton_eq.
  split; [exact demo_row_leases|]. split; [by vm_compute|done].
Qed.

Lemma demo_leasable : leasable DemoValkey.opts (server_env DemoHeld.server DemoHeld.k) (Some DemoLeases.row) (lr_Request DemoHeld.request).
Proof. split; [exact demo_jobs_wf|done|..]; vm_compute; repeat split; discriminate. Qed.

Lemma demo_releases e : releasedEntry (Some DemoLeases.row) DemoHeld.held e = (None, None).
Proof.
  unfold releasedEntry, ownedLease. change (persistedLeasesOf DemoLeases.row)
    with ({[ leaseDigest "a" := mkPersistedLease 2 1700000030000000 ]} : gmap string persistedLease).
  change (lease_ID DemoHeld.held) with "a". rewrite lookup_singleton_eq.
  change (UnixMicro (ExpiresAt DemoHeld.held)) with 1700000030000000. cbn [pl_Cost pl_ExpiresMicros lease_Cost DemoHeld.held Z.eqb Pos.eqb negb orb].
  by rewrite delete_singleton_eq, bool_decide_eq_true_2.
Qed.

Lemma valkey_strict_acquisition_witness :
  exists row' l d err,
    leaseMutationAt DemoValkey.opts (server_env DemoHeld.server DemoHeld.k) (Some DemoLeases.row) DemoHeld.request = (Some row', l, d, err) /\
    sound_leases "jobs" row' /\
    match AcquireStrict (fun c _ => c) (Some (mkStore (Some (nativeExecutor DemoValkey.client)) DemoValkey.opts))
            (iface_of DemoValkey.ctx) DemoHeld.request DemoHeld.server with
    | (Ret (l', d', None), w') => (l', d', None) = valkeyResult l d err
    | _ => True
    end.
Proof.
  destruct (valkey_strict_acquisition (fun w => w) (fun c _ => c) DemoValkey.client demo_client_runs ltac:(done) DemoValkey.opts
    DemoValkey.ctx DemoHeld.request (Some DemoLeases.row) DemoHeld.server ltac:(done) eq_refl demo_held demo_leasable)
    as (row' & l & d & err & Hmut & Hsound & _ & Hcases).
  exists row', l, d, err. split; [exact Hmut|]. split; [exact Hsound|].
  destruct (AcquireStrict _ _ _ _ _) as [[[[l' d'] [err'|]]|] w']; try exact Logic.I.
  destruct Hcases as [[E _]|(_ & _ & [[[?|?] _]|[[c ?] _]])]; [exact E|discriminate..].
Defined.

Lemma valkey_strict_release_witness :
  match ReleaseStrict (fun c _ => c) (Some (mkStore (Some (nativeExecutor DemoValkey.client)) DemoValkey.opts))
          (iface_of DemoValkey.ctx) DemoHeld.held DemoHeld.server with
  | (Ret None, w') => server_entry w' DemoHeld.k = None
  | _ => True
  end.
Proof.
  pose proof (valkey_strict_release (fun w => w) (fun c _ => c) DemoValkey.client demo_client_runs ltac:(done) DemoValkey.opts
    DemoValkey.ctx DemoHeld.held (Some DemoLeases.row) DemoHeld.server) as Hrel.
  cbv beta zeta in Hrel. change (storeKey DemoValkey.opts (lease_PolicyID DemoHeld.held) (key_value (lease_Key DemoHeld.held))) with DemoHeld.k in Hrel.
  rewrite demo_releases in Hrel.
  specialize (Hrel (fun w => eq_refl) demo_held). destruct (ReleaseStrict _ _ _ _ _) as [[[err|]|] w']; try exact Logic.I.
  destruct Hrel as [(_ & Hk & _)|[[[?|?] _]|[[c ?] _]]]; try discriminate; [vm_compute; split; [discriminate|reflexivity]|exact Hk].
Defined.
