(* ===== verification/ClientIP.v ===== *)
(** * Client addresses behind trusted proxies: adapters/http/client_ip.go

    The extractor trusts the [X-Forwarded-For] chain only of configured peers and
    walks it from the right.  The theorems: it trusts exactly the configured
    networks, nothing a client writes left of a trusted hop changes the address,
    and the address is always a proper one. *)

From S2P Require Import Prelude GoHash Errors Keys GoJson GoNet.

Local Open Scope string_scope.
Local Open Scope list_scope.
Local Open Scope Z_scope.

Definition MaxTrustedProxies : nat := 64.
Definition maxForwardedBytes : nat := 4096.
Definition maxForwardedHops : nat := 32.

Record ClientIPOptions := mkClientIPOptions { TrustedProxies : list Prefix }.

(** The slice is nil in the zero value only. *)
Record ClientIPExtractor := mkClientIPExtractor { trusted : option (list Prefix) }.

(** The fields of [http.Request] that the adapter reads. *)
Record Incoming := mkIncoming { RemoteAddr : string; in_Header : Header }.

Definition clientIPError (text : string) : error := errorf ErrInvalidClientIP text.

Fixpoint copyPrefixes (index : nat) (prefixes : list Prefix) : result error (list Prefix) :=
  match prefixes with
  | [] => Ok []
  | prefix :: rest =>
      if negb (prefixIsValid prefix)
      then Err (clientIPError ("trusted proxy at index " +:+ formatInt (Z.of_nat index) +:+ " is invalid"))
      else match copyPrefixes (S index) rest with
           | Ok copied => Ok (Masked prefix :: copied)
           | Err e => Err e
           end
  end.

Definition NewClientIPExtractor (options : ClientIPOptions) : result error ClientIPExtractor :=
  if (MaxTrustedProxies <? length (TrustedProxies options))%nat
  then Err (clientIPError "too many trusted proxies") else
  match copyPrefixes 0 (TrustedProxies options) with
  | Ok copied => Ok (mkClientIPExtractor (Some copied))
  | Err e => Err e
  end.

Definition isTrusted (extractor : ClientIPExtractor) (address : Addr) : bool :=
  existsb (fun prefix => Contains prefix address) (default [] (trusted extractor)).

Definition parseRemoteAddr (value : string) : result error Addr :=
  let host := match SplitHostPort value with Some host => host | None => value end in
  match ParseAddr host with
  | Some address => Ok (Unmap address)
  | None => Err (clientIPError "malformed remote address")
  end.

Fixpoint parseHops (parts : list string) : result error (list Addr) :=
  match parts with
  | [] => Ok []
  | part :: rest =>
      match ParseAddr (TrimSpace part) with
      | None => Err (clientIPError "malformed forwarded hop")
      | Some address =>
          match parseHops rest with
          | Ok addresses => Ok (Unmap address :: addresses)
          | Err e => Err e
          end
      end
  end.

(** The loop over the hops from the right; the leftmost when all are trusted. *)
Definition selectHop (extractor : ClientIPExtractor) (addresses : list Addr) : Addr :=
  match List.find (fun address => negb (isTrusted extractor address)) (reverse addresses) with
  | Some address => address
  | None => match addresses with address :: _ => address | [] => ZeroAddr end
  end.

Definition forwardedIP (extractor : ClientIPExtractor) (forwarded : string) : result error Addr :=
  if (maxForwardedBytes <? String.length forwarded)%nat
  then Err (clientIPError "forwarded chain too large") else
  let parts := splitByte 44 forwarded in
  if (maxForwardedHops <? length parts)%nat
  then Err (clientIPError "too many forwarded hops") else
  match parseHops parts with
  | Err e => Err e
  | Ok addresses => Ok (selectHop extractor addresses)
  end.

Definition ClientIP (extractor : option ClientIPExtractor) (request : option Incoming)
    : result error Addr :=
  match extractor with
  | None | Some (mkClientIPExtractor None) =>
      Err (clientIPError "extractor is nil or uninitialized")
  | Some extractor =>
      match request with
      | None => Err (clientIPError "request is required")
      | Some request =>
          match parseRemoteAddr (RemoteAddr request) with
          | Err e => Err e
          | Ok peer =>
              if negb (isTrusted extractor peer) then Ok peer else
              let forwarded := headerGet (in_Header request) "X-Forwarded-For" in
              if bool_decide (forwarded = EmptyString) then Ok peer
              else forwardedIP extractor forwarded
          end
      end
  end.

(** ** Networks *)

(** Addresses and prefixes as [netip] builds them. *)
Definition wf_addr (a : Addr) : Prop :=
  match a with
  | ZeroAddr => False
  | Addr4 bits => 0 <= bits < 2 ^ 32
  | Addr6 bits _ => 0 <= bits < 2 ^ 128
  end.

Definition wf_prefix (p : Prefix) : Prop :=
  wf_addr (prefix_ip p) /\ 0 <= bitsPlusOne p <= BitLen (prefix_ip p) + 1.

(** The first [n] of [w] bits agree. *)
Definition shares (w n a b : Z) : Prop := a / 2 ^ (w - n) = b / 2 ^ (w - n).

(** [ip] lies in the network of [p]. *)
Definition covers (p : Prefix) (ip : Addr) : Prop :=
  prefixIsValid p = true /\
  match prefix_ip p, ip with
  | Addr4 network, Addr4 bits => shares 32 (prefixBits p) bits network
  | Addr6 network _, Addr6 bits zone => zone = EmptyString /\ shares 128 (prefixBits p) bits network
  | _, _ => False
  end.

Lemma mask_shift w n : 0 <= n <= w -> mask w n = Z.shiftl (Z.ones n) (w - n).
Proof.
  intros H. unfold mask. rewrite Z.shiftl_mul_pow2, Z.ones_equiv by lia.
  assert (2 ^ w = 2 ^ n * 2 ^ (w - n)) as -> by (rewrite <- Z.pow_add_r by lia; f_equal; lia). lia.
Qed.

Lemma shiftr_small w x i : 0 <= w -> 0 <= x < 2 ^ w -> w <= i -> Z.testbit x i = false.
Proof.
  intros Hw Hx Hi. rewrite <- (Z.mod_small x (2 ^ w)) by done. by apply Z.mod_pow2_bits_high.
Qed.

(** Masking clears the bits that shifting drops. *)
Lemma land_mask w n x :
  0 <= n <= w -> 0 <= x < 2 ^ w -> Z.land x (mask w n) = Z.shiftl (Z.shiftr x (w - n)) (w - n).
Proof.
  intros Hn Hx. rewrite mask_shift by done. apply Z.bits_inj'. intros i Hi.
  rewrite Z.land_spec. destruct (Z.lt_ge_cases i (w - n)).
  - rewrite !Z.shiftl_spec_low by done. apply andb_false_r.
  - rewrite !Z.shiftl_spec_high by lia. rewrite Z.shiftr_spec by lia.
    replace (i - (w - n) + (w - n)) with i by lia.
    destruct (Z.lt_ge_cases i w).
    + rewrite Z.ones_spec_low by lia. apply andb_true_r.
    + by rewrite (shiftr_small w x i) by lia.
Qed.

Lemma lxor_bound w a b : 0 <= w -> 0 <= a < 2 ^ w -> 0 <= b < 2 ^ w -> 0 <= Z.lxor a b < 2 ^ w.
Proof.
  intros Hw Ha Hb. assert (0 <= Z.lxor a b) by (apply Z.lxor_nonneg; lia). split; [done|].
  apply Z.nle_gt. intros Hge. pose proof (Z.log2_le_mono _ _ Hge) as Hl.
  rewrite Z.log2_pow2 in Hl by done.
  assert (0 < Z.lxor a b) as Hpos by (pose proof (Z.pow_pos_nonneg 2 w); lia).
  pose proof (Z.bit_log2 _ Hpos) as Hbit. rewrite Z.lxor_spec in Hbit.
  by rewrite !(shiftr_small w) in Hbit by lia.
Qed.

Lemma shares_iff w n a b :
  0 <= n <= w -> shares w n a b <-> Z.shiftr (Z.lxor a b) (w - n) = 0.
Proof.
  intros Hn. unfold shares. rewrite Z.shiftr_lxor, Z.lxor_eq_0_iff.
  by rewrite !Z.shiftr_div_pow2 by lia.
Qed.

Lemma shiftl_zero x n : 0 <= n -> Z.shiftl x n = 0 <-> x = 0.
Proof.
  intros Hn. rewrite Z.shiftl_mul_pow2 by done. pose proof (Z.pow_pos_nonneg 2 n). lia.
Qed.

Lemma Contains_iff p ip : wf_prefix p -> wf_addr ip -> Contains p ip = true <-> covers p ip.
Proof.
  intros [Hp Hb] Hip. unfold Contains, covers, prefixBits. destruct p as [[|net|net z] plus]; [done|..]; simpl in *.
  all: destruct (prefixIsValid _) eqn:Hv; simpl; [|by split; [|intros [??]]].
  all: unfold prefixIsValid in Hv; simpl in Hv; apply Z.ltb_lt in Hv.
  all: destruct ip as [|bits|bits zone]; simpl in *; try done.
  - replace (Z.land (32 - (plus - 1)) 63) with (32 - (plus - 1))
      by (change 63 with (Z.ones 6); rewrite Z.land_ones, Z.mod_small; lia).
    pose proof (lxor_bound 32 bits net ltac:(lia) Hip Hp) as Hx.
    rewrite shares_iff by lia. rewrite Z.mod_small; [rewrite Z.eqb_eq; tauto|].
    rewrite Z.shiftr_div_pow2 by lia. pose proof (Z.pow_pos_nonneg 2 (32 - (plus - 1)) ltac:(lia) ltac:(lia)).
    split; [apply Z.div_pos; lia|]. apply Z.div_lt_upper_bound; nia.
  - case_bool_decide; simpl; split; done || by intros [].
  - by split; [|intros [_ []]].
  - case_bool_decide; simpl; [|by split; [|intros [_ []]]].
    pose proof (lxor_bound 128 bits net ltac:(lia) Hip Hp) as Hx.
    rewrite land_mask, Z.eqb_eq, shiftl_zero, <- shares_iff by lia. tauto.
Qed.

Lemma shiftr_range w n x : 0 <= n <= w -> 0 <= x < 2 ^ w -> 0 <= Z.shiftl (Z.shiftr x n) n < 2 ^ w.
Proof.
  intros Hn Hx. rewrite Z.shiftl_mul_pow2, Z.shiftr_div_pow2 by lia.
  pose proof (Z.pow_pos_nonneg 2 n ltac:(lia) ltac:(lia)). pose proof (Z.mul_div_le x (2 ^ n) ltac:(lia)).
  pose proof (Z.div_pos x (2 ^ n) ltac:(lia) ltac:(lia)). lia.
Qed.

Lemma shares_masked w n a x :
  0 <= n <= w -> 0 <= x < 2 ^ w -> shares w n a (Z.land x (mask w n)) <-> shares w n a x.
Proof.
  intros Hn Hx. unfold shares. rewrite land_mask by done.
  rewrite Z.shiftl_mul_pow2, Z.shiftr_div_pow2, Z.div_mul by
    (try lia; pose proof (Z.pow_pos_nonneg 2 (w - n)); lia). done.
Qed.

(** Masking a valid prefix keeps its network. *)
Lemma Masked_spec p :
  wf_prefix p -> prefixIsValid p = true ->
  wf_prefix (Masked p) /\ forall ip, covers (Masked p) ip <-> covers p ip.
Proof.
  intros [Hp Hb] Hv. unfold Masked, prefixBits. unfold prefixIsValid in Hv. apply Z.ltb_lt in Hv.
  destruct p as [[|net|net z] plus]; [done|..]; simpl in *.
  all: destruct (Z.ltb_spec (plus - 1) 0); [lia|].
  all: rewrite ?(proj2 (Z.ltb_ge 32 (plus - 1))), ?(proj2 (Z.ltb_ge 128 (plus - 1))) by lia.
  all: unfold PrefixFrom; simpl.
  all: destruct (Z.leb_spec 0 (plus - 1)); [|lia].
  all: rewrite ?(proj2 (Z.leb_le (plus - 1) 32)), ?(proj2 (Z.leb_le (plus - 1) 128)) by lia; simpl.
  all: split; [split; simpl; [rewrite land_mask by lia; apply shiftr_range|]; lia|].
  all: intros [|bits|bits zone]; unfold covers, prefixIsValid, prefixBits; simpl.
  all: destruct (Z.ltb_spec 0 (plus - 1 + 1)), (Z.ltb_spec 0 plus); try lia.
  all: rewrite ?Z.sub_add, ?shares_masked by lia.
  all: tauto.
Qed.

Lemma copyPrefixes_spec prefixes index copied :
  Forall wf_prefix prefixes -> copyPrefixes index prefixes = Ok copied ->
  forall ip, wf_addr ip ->
    existsb (fun p => Contains p ip) copied = existsb (fun p => Contains p ip) prefixes.
Proof.
  intros Hwf. revert index copied. induction Hwf as [|p ps Hp Hps IH]; intros index copied E ip Hip; simpl in E.
  { by injection E as <-. }
  destruct (prefixIsValid p) eqn:Hv; simpl in E; [|done].
  destruct (copyPrefixes (S index) ps) as [rest|] eqn:Er; [|done]. injection E as <-. simpl.
  rewrite (IH _ _ Er ip Hip). f_equal. destruct (Masked_spec p Hp Hv) as [Hm Hc].
  apply eq_true_iff_eq. by rewrite !Contains_iff, Hc.
Qed.

(** The extractor trusts exactly the configured networks: construction
    succeeds for at most 64 valid prefixes, and then an address is trusted if and
    only if it has no zone and shares its leading bits with a configured prefix
    of its family, masked or not. *)
Theorem trusts_configured_networks options extractor address :
  Forall wf_prefix (TrustedProxies options) -> wf_addr address ->
  NewClientIPExtractor options = Ok extractor ->
  (length (TrustedProxies options) <= 64)%nat /\
  Forall (fun p => prefixIsValid p = true) (TrustedProxies options) /\
  (isTrusted extractor address = true <-> exists p, p ∈ TrustedProxies options /\ covers p address).
Proof.
  intros Hwf Hip. unfold NewClientIPExtractor, MaxTrustedProxies. case_test; [done|].
  destruct (copyPrefixes 0 (TrustedProxies options)) as [copied|] eqn:E; [|done]. intros [= <-].
  apply Nat.ltb_ge in Heqb. split; [done|]. split.
  - clear Hwf. revert E. generalize 0%nat. clear. revert copied.
    induction (TrustedProxies options) as [|p ps IH]; intros copied i E; [done|]. simpl in E.
    destruct (prefixIsValid p) eqn:Hv; [|done]. simpl in E.
    destruct (copyPrefixes (S i) ps) eqn:Er; [|done]. constructor; [done|]. by eapply IH.
  - unfold isTrusted. simpl. rewrite (copyPrefixes_spec _ _ _ Hwf E address Hip), existsb_exists.
    rewrite Forall_forall in Hwf. setoid_rewrite <- list_elem_of_In.
    split; intros (p & Hin & Hc); exists p; split; [done|..|done|];
      by apply (Contains_iff p address (Hwf p Hin) Hip).
Qed.

(** ** The forwarded chain *)

Lemma splitByte_nonempty b s : splitByte b s <> [].
Proof. destruct s as [|c s]; simpl; [done|]. repeat case_test; done. Qed.

Lemma splitByte_app b c s t :
  at_byte b c = true -> splitByte b (s +:+ String c t) = splitByte b s ++ splitByte b t.
Proof.
  intros Hc. induction s as [|c' s IH]; simpl; [by rewrite Hc|].
  destruct (at_byte b c'); simpl; rewrite IH; [done|].
  pose proof (splitByte_nonempty b s). by destruct (splitByte b s).
Qed.

Lemma parseHops_app l1 l2 :
  parseHops (l1 ++ l2) =
  match parseHops l1 with
  | Ok a1 => match parseHops l2 with Ok a2 => Ok (a1 ++ a2) | Err e => Err e end
  | Err e => Err e
  end.
Proof.
  induction l1 as [|p l1 IH]; simpl; [by destruct (parseHops l2)|].
  destruct (ParseAddr (TrimSpace p)); [|done]. rewrite IH.
  destruct (parseHops l1); [|done]. by destruct (parseHops l2).
Qed.

(** Hops left of an untrusted one do not matter. *)
Lemma selectHop_app extractor l1 l2 :
  existsb (fun a => negb (isTrusted extractor a)) l2 = true ->
  selectHop extractor (l1 ++ l2) = selectHop extractor l2.
Proof.
  intros H. unfold selectHop. rewrite reverse_app.
  set (f := fun a => negb (isTrusted extractor a)) in *.
  assert (exists a, List.find f (reverse l2) = Some a) as [a Ha].
  { destruct (List.find f (reverse l2)) eqn:E; [eauto|exfalso].
    apply existsb_exists in H as (x & Hx & Hf). pose proof (List.find_none _ _ E x) as Hn.
    rewrite Hn in Hf; [done|]. by rewrite <- list_elem_of_In, elem_of_reverse, list_elem_of_In. }
  rewrite Ha. clear H. revert Ha. generalize (reverse l2). intros l. induction l as [|x l IH]; simpl; [done|].
  destruct (f x); [by intros [= ->]|]. apply IH.
Qed.

(** The address that a chain is resolved to when the peer may forward it. *)
Lemma forwardedIP_inv extractor forwarded a :
  forwardedIP extractor forwarded = Ok a ->
  (String.length forwarded <= 4096)%nat /\ (length (splitByte 44 forwarded) <= 32)%nat /\
  exists hops, parseHops (splitByte 44 forwarded) = Ok hops /\ a = selectHop extractor hops.
Proof.
  unfold forwardedIP, maxForwardedBytes, maxForwardedHops. case_test; [done|]. case_test; [done|].
  destruct (parseHops (splitByte 44 forwarded)) as [hops|]; [|done]. intros [= <-].
  apply Nat.ltb_ge in Heqb, Heqb0. eauto.
Qed.

Lemma forwardedIP_ok extractor forwarded hops :
  (String.length forwarded <= 4096)%nat -> (length (splitByte 44 forwarded) <= 32)%nat ->
  parseHops (splitByte 44 forwarded) = Ok hops ->
  forwardedIP extractor forwarded = Ok (selectHop extractor hops).
Proof.
  intros H1 H2 E. unfold forwardedIP, maxForwardedBytes, maxForwardedHops.
  apply Nat.ltb_ge in H1, H2. by rewrite H1, H2, E.
Qed.

(** The chain of a request: the first line of its header. *)
Definition chain (request : Incoming) : string := headerGet (in_Header request) "X-Forwarded-For".

(** The rightmost untrusted hop is selected. *)
Lemma selectHop_rightmost extractor before hop proxies :
  isTrusted extractor hop = false -> Forall (fun a => isTrusted extractor a = true) proxies ->
  selectHop extractor (before ++ hop :: proxies) = hop.
Proof.
  intros Hh Hp. rewrite selectHop_app by (simpl; by rewrite Hh). unfold selectHop.
  rewrite reverse_cons. apply Forall_reverse in Hp. revert Hp. generalize (reverse proxies). intros l Hl.
  induction Hl as [|a l Ha Hl IH]; simpl; [by rewrite Hh|]. by rewrite Ha.
Qed.

(** ** Parsed addresses are proper *)

Definition below (n z : Z) : Prop := 0 <= z < n.

Lemma bigEndian_range base ds :
  0 < base -> Forall (below base) ds -> 0 <= bigEndian base ds < base ^ Z.of_nat (length ds).
Proof.
  intros Hb. unfold bigEndian. induction ds as [|d ds IH] using rev_ind; intros Hf; [simpl; lia|].
  apply Forall_app in Hf as [Hf Hd]. apply Forall_cons in Hd as [Hd _]. unfold below in Hd.
  specialize (IH Hf). rewrite foldl_app, length_app. simpl.
  rewrite Nat2Z.inj_add, Z.pow_add_r by lia. change (base ^ Z.of_nat 1) with (base ^ 1). rewrite Z.pow_1_r.
  set (x := foldl _ 0 ds) in *. pose proof (scale_le (x + 1) (base ^ Z.of_nat (length ds)) base).
  pose proof (Z.mul_nonneg_nonneg x base). lia.
Qed.

Lemma isDigit_range c : isDigit c = true -> 48 <= byte_of c <= 57.
Proof. unfold isDigit, in_range. intros H. btrue. lia. Qed.

Lemma ipv4Fields_range s prev val digLen fields l :
  below 256 val -> Forall (below 256) fields -> (length fields <= 3)%nat ->
  ipv4Fields s prev val digLen fields = Some l -> Forall (below 256) l /\ length l = 4%nat.
Proof.
  revert prev val digLen fields. induction s as [|c s IH]; intros prev val digLen fields Hv Hf Hl; simpl.
  - destruct (Nat.ltb_spec (length fields) 3); [done|]. intros [= <-].
    rewrite length_app. split; [|simpl; lia]. apply Forall_app. by split; [|constructor].
  - destruct (isDigit c) eqn:Hd.
    + case_test; [done|]. destruct (Z.ltb_spec 255 (val * 10 + (byte_of c - 48))); [done|].
      apply isDigit_range in Hd. apply IH; try done. unfold below in *. lia.
    + case_test; [|done]. case_test; [done|]. destruct (Nat.eqb_spec (length fields) 3); [done|].
      apply IH; [done|apply Forall_app; by split; [|constructor]|rewrite length_app; simpl; lia].
Qed.

Lemma parseIPv4Fields_range s l :
  parseIPv4Fields s = Some l -> Forall (below 256) l /\ length l = 4%nat.
Proof. apply ipv4Fields_range; [done|constructor|simpl; lia]. Qed.

Lemma hexValue_range c v : GoJson.hexValue c = Some v -> 0 <= v < 16.
Proof.
  unfold GoJson.hexValue, in_range. repeat case_test; intros [= <-]; btrue; lia.
Qed.

Lemma hexGroup_range s off acc n v rest :
  below 65536 acc -> hexGroup s off acc = Some (n, v, rest) -> below 65536 v.
Proof.
  revert off acc. induction s as [|c s IH]; intros off acc Hacc; simpl; [by intros [= _ <- _]|].
  destruct (GoJson.hexValue c) as [d|] eqn:Ed; [|by intros [= _ <- _]].
  case_test; [done|]. apply IH. apply hexValue_range in Ed. btrue. unfold below in *. lia.
Qed.

Lemma ipv6Groups_range room s ellipsis groups l e rest :
  Forall (below 65536) groups -> (length groups + room = 8)%nat ->
  ipv6Groups room s ellipsis groups = Some (l, e, rest) ->
  Forall (below 65536) l /\ (length l <= 8)%nat.
Proof.
  revert s ellipsis groups. induction room as [|room IH]; intros s ellipsis groups Hg Hlen; simpl.
  { intros [= <- _ _]. split; [done|lia]. }
  destruct (hexGroup s 0 0) as [[[[|n] acc] [|c after]]|] eqn:Eh; try done.
  all: apply hexGroup_range in Eh; [|unfold below; lia].
  all: assert (Forall (below 65536) (groups ++ [acc]) /\ length (groups ++ [acc]) = S (length groups)) as [Hg' Hlen']
    by (split; [by rewrite Forall_app, Forall_singleton|rewrite length_app; simpl; lia]).
  - intros [= <- _ _]. split; [done|lia].
  - destruct (at_byte 46 c); [|destruct (at_byte 58 c); simpl; [|done]].
    + case_test; [done|]. btrue. apply Nat.ltb_ge in H0.
      destruct (parseIPv4Fields s) as [[|b1 [|b2 [|b3 [|b4 [|]]]]]|] eqn:E4; try done. intros [= <- _ _].
      apply parseIPv4Fields_range in E4 as [Hf _]. rewrite !Forall_cons in Hf. unfold below in Hf.
      rewrite length_app. split; [|simpl; lia]. apply Forall_app. split; [done|].
      rewrite Forall_cons, Forall_singleton. unfold below. lia.
    + destruct after as [|c2 after2]; [done|]. destruct (at_byte 58 c2).
      * destruct ellipsis; [done|]. case_test; [intros [= <- _ _]; split; [done|lia]|].
        apply IH; [done|lia].
      * apply IH; [done|lia].
Qed.

Lemma ParseAddr_wf s a : ParseAddr s = Some a -> wf_addr a.
Proof.
  unfold ParseAddr. destruct (addrKind s) as [k|]; [|done].
  destruct (decide (k = 46)) as [->|]; [|destruct (decide (k = 58)) as [->|]].
  - unfold parseIPv4. destruct (parseIPv4Fields s) as [l|] eqn:E; [|done]. intros [= <-]. simpl.
    apply parseIPv4Fields_range in E as [Hf Hl]. pose proof (bigEndian_range 256 l ltac:(lia) Hf) as H.
    rewrite Hl in H. exact H.
  - unfold parseIPv6. case_test. destruct o as [zone|]; [|done].
    destruct (bool_decide (stake 2 s0 = "::") && _); [by intros [= <-]|].
    destruct (ipv6Groups _ _ _ _) as [[[groups ellipsis] trailing]|] eqn:Heqo; [|done].
    apply ipv6Groups_range in Heqo as [Hf Hl]; [|constructor|done].
    case_test; [done|]. destruct ellipsis as [at_|].
    + destruct (Nat.leb_spec 8 (length groups)); [done|]. intros [= <-]. simpl.
      assert (Forall (below 65536) (take at_ groups ++ replicate (8 - length groups) 0 ++ drop at_ groups)) as Hf'.
      { rewrite !Forall_app. split_and!; [by apply Forall_take|by apply Forall_replicate|by apply Forall_drop]. }
      apply (bigEndian_range 65536) in Hf'; [|lia].
      rewrite !length_app, length_replicate, length_take, length_drop in Hf'.
      by replace (at_ `min` length groups + (8 - length groups + (length groups - at_)))%nat with 8%nat in Hf' by lia.
    + destruct (Nat.ltb_spec (length groups) 8); [done|]. intros [= <-]. simpl.
      apply (bigEndian_range 65536) in Hf; [|lia]. by replace (length groups) with 8%nat in Hf by lia.
  - intros H. exfalso. by destruct k as [|p|]; try done; repeat (destruct p as [p|p|]; try done).
Qed.

(** An address as the adapter hands it on: in range, and 4-in-6 unmapped. *)
Definition normal_addr (a : Addr) : Prop := wf_addr a /\ Is4In6 a = false.

Lemma Unmap_normal a : wf_addr a -> normal_addr (Unmap a).
Proof.
  intros Hw. unfold normal_addr, Unmap. destruct a as [|bits|bits zone]; [done..|].
  destruct (Is4In6 _) eqn:E; [|done]. split; [|done]. simpl. apply Z.mod_pos_bound. lia.
Qed.

Lemma parseHops_normal parts hops :
  parseHops parts = Ok hops -> Forall normal_addr hops /\ length hops = length parts.
Proof.
  revert hops. induction parts as [|p ps IH]; intros hops; simpl; [intros [= <-]; done|].
  destruct (ParseAddr (TrimSpace p)) as [a|] eqn:Ea; [|done].
  destruct (parseHops ps) as [rest|]; [|done]. intros [= <-]. destruct (IH rest eq_refl) as [Hf Hl].
  split; [constructor; [|done]|simpl; lia]. eapply Unmap_normal, ParseAddr_wf, Ea.
Qed.

Lemma selectHop_in extractor hops : hops <> [] -> selectHop extractor hops ∈ hops.
Proof.
  intros Hne. unfold selectHop. destruct (List.find _ (reverse hops)) as [a|] eqn:E.
  - apply List.find_some in E as [Hin _]. by rewrite <- list_elem_of_In, elem_of_reverse in Hin.
  - destruct hops; [done|]. apply list_elem_of_here.
Qed.

(** The extractor only returns proper addresses: an IPv4 address of 32 bits or
    an IPv6 address of 128 bits that is not an embedded IPv4 one, never the zero
    [netip.Addr], so a client has one address however its proxies write it; and a
    chain it accepts is at most 4096 bytes and 32 hops long. *)
Theorem client_ip_is_proper extractor request a :
  ClientIP extractor (Some request) = Ok a ->
  normal_addr a /\
  (parseRemoteAddr (RemoteAddr request) <> Ok a ->
     (String.length (chain request) <= 4096)%nat /\ (length (splitByte 44 (chain request)) <= 32)%nat).
Proof.
  unfold ClientIP. destruct extractor as [[[ps|]]|]; [|done..]. intros H.
  destruct (parseRemoteAddr (RemoteAddr request)) as [peer|] eqn:Ep; [|done].
  assert (normal_addr peer) as Hpeer.
  { revert Ep. unfold parseRemoteAddr. destruct (ParseAddr _) eqn:E; [|done]. intros [= <-].
    eapply Unmap_normal, ParseAddr_wf, E. }
  case_test_in H; [by injection H as <-|]. case_test_in H; [by injection H as <-|].
  apply forwardedIP_inv in H as (H1 & H2 & hops & Eh & ->). split; [|done].
  apply parseHops_normal in Eh as [Hf Hl]. rewrite Forall_forall in Hf. apply Hf, selectHop_in.
  intros ->. apply (splitByte_nonempty 44 (headerGet (in_Header request) "X-Forwarded-For")).
  by destruct (splitByte _ _).
Qed.

(** ** Whose address it is *)

(** An address of a configured proxy network. *)
Definition configured (options : ClientIPOptions) (a : Addr) : Prop :=
  exists p, p ∈ TrustedProxies options /\ covers p a.

(** [hop] is the rightmost address of a chain that no configured network covers. *)
Definition names_client (options : ClientIPOptions) (forwarded : string) (hop : Addr) : Prop :=
  exists before proxies, parseHops (splitByte 44 forwarded) = Ok (before ++ hop :: proxies) /\
    ~ configured options hop /\ Forall (configured options) proxies.

Section Resolution.
Context (options : ClientIPOptions) (extractor : ClientIPExtractor).
Hypothesis Hwf : Forall wf_prefix (TrustedProxies options).
Hypothesis Hnew : NewClientIPExtractor options = Ok extractor.

Lemma isTrusted_configured a : wf_addr a -> isTrusted extractor a = true <-> configured options a.
Proof. intros Ha. by apply trusts_configured_networks. Qed.

Lemma isTrusted_other a : wf_addr a -> isTrusted extractor a = false <-> ~ configured options a.
Proof. intros Ha. rewrite <- isTrusted_configured by done. by rewrite not_true_iff_false. Qed.

(** The decisions of a constructed extractor. *)
Lemma ClientIP_resolves remote header peer :
  parseRemoteAddr remote = Ok peer ->
  ClientIP (Some extractor) (Some (mkIncoming remote header)) =
  if negb (isTrusted extractor peer) then Ok peer else
  if bool_decide (chain (mkIncoming remote header) = EmptyString) then Ok peer else
  forwardedIP extractor (chain (mkIncoming remote header)).
Proof.
  intros Ep. revert Hnew. unfold NewClientIPExtractor. case_test; [done|].
  destruct (copyPrefixes _ _); [|done]. intros [= <-]. unfold ClientIP. simpl. by rewrite Ep.
Qed.

Lemma names_client_selected forwarded hop :
  names_client options forwarded hop ->
  exists hops, parseHops (splitByte 44 forwarded) = Ok hops /\
    forall before, selectHop extractor (before ++ hops) = hop.
Proof.
  intros (before & proxies & E & Hh & Hp). eexists. split; [exact E|]. intros left.
  apply parseHops_normal in E as [Hn _]. apply Forall_app in Hn as [_ Hn]. apply Forall_cons in Hn as [[Hw _] Hn].
  rewrite app_assoc. apply selectHop_rightmost; [by apply isTrusted_other|].
  rewrite Forall_forall in *. intros a Ha. apply isTrusted_configured; [apply Hn, Ha|by apply Hp].
Qed.

Lemma forwarded_own own hop :
  names_client options own hop -> (String.length own <= 4096)%nat -> (length (splitByte 44 own) <= 32)%nat ->
  forwardedIP extractor own = Ok hop.
Proof.
  intros Hn Hl Hc. apply names_client_selected in Hn as (hops & E & Hs).
  rewrite (forwardedIP_ok _ _ _ Hl Hc E). f_equal. apply (Hs []).
Qed.

Lemma forwarded_claimed claimed own hop a :
  names_client options own hop ->
  forwardedIP extractor (claimed +:+ "," +:+ own) = Ok a -> a = hop.
Proof.
  intros Hn H. apply names_client_selected in Hn as (hops & E & Hs).
  apply forwardedIP_inv in H as (_ & _ & all & Ea & ->).
  change ("," +:+ own) with (String (chr 44) own) in Ea.
  rewrite splitByte_app, parseHops_app, E in Ea by done.
  destruct (parseHops (splitByte 44 claimed)); [|done]. injection Ea as <-. apply Hs.
Qed.

Lemma names_client_nonempty own hop : names_client options own hop -> own <> EmptyString.
Proof. intros (before & proxies & E & _) ->. discriminate E. Qed.
End Resolution.

(** C37: a client cannot choose its address.  The header of a peer outside the
    configured proxy networks is ignored, whatever it holds.  Behind a configured
    peer the address is the rightmost hop of the first [X-Forwarded-For] line that
    no configured network covers: when the part [own] of the line that the proxies
    wrote names such a hop, a line of that part alone resolves to it, within 4096
    bytes and 32 hops, and no text that a client sends in front of it makes the
    extractor return another address (it may make it return an error). *)
Theorem client_ip_resists_spoofing options extractor remote peer header :
  Forall wf_prefix (TrustedProxies options) -> NewClientIPExtractor options = Ok extractor ->
  parseRemoteAddr remote = Ok peer ->
  let request := mkIncoming remote header in
  (~ configured options peer -> ClientIP (Some extractor) (Some request) = Ok peer) /\
  (configured options peer -> chain request = EmptyString -> ClientIP (Some extractor) (Some request) = Ok peer) /\
  (configured options peer -> forall own hop, names_client options own hop ->
     (chain request = own -> (String.length own <= 4096)%nat -> (length (splitByte 44 own) <= 32)%nat ->
      ClientIP (Some extractor) (Some request) = Ok hop) /\
     (forall claimed a, chain request = claimed +:+ "," +:+ own ->
      ClientIP (Some extractor) (Some request) = Ok a -> a = hop)).
Proof.
  intros Hwf Hnew Ep request. assert (wf_addr peer) as Hpeer.
  { revert Ep. unfold parseRemoteAddr. destruct (ParseAddr _) eqn:E; [|done]. intros [= <-].
    eapply Unmap_normal, ParseAddr_wf, E. }
  pose proof (ClientIP_resolves _ _ Hnew remote header peer Ep) as E.
  fold request in E. rewrite E. clear E. split_and!.
  - intros Hn. by rewrite (proj2 (isTrusted_other _ _ Hwf Hnew peer Hpeer) Hn).
  - intros Hc He. by rewrite (proj2 (isTrusted_configured _ _ Hwf Hnew peer Hpeer) Hc), He.
  - intros Hc own hop Hn. rewrite (proj2 (isTrusted_configured _ _ Hwf Hnew peer Hpeer) Hc). simpl. split.
    + intros -> Hl Hs. rewrite bool_decide_eq_false_2 by (by eapply names_client_nonempty).
      by apply (forwarded_own options).
    + intros claimed a -> H. rewrite bool_decide_eq_false_2 in H by (by destruct claimed).
      by eapply forwarded_claimed.
Qed.

(** ** Witnesses *)

Definition demo_proxies : ClientIPOptions :=
  mkClientIPOptions [PrefixFrom (Addr4 167772165) 8; PrefixFrom (Addr6 (2 ^ 127) EmptyString) 64].
Definition demo_extractor : ClientIPExtractor :=
  match NewClientIPExtractor demo_proxies with Ok e => e | Err _ => mkClientIPExtractor None end.
Definition demo_chain (value : string) : Incoming :=
  mkIncoming "10.1.2.3:4711" (headerSet "x-forwarded-for" value ∅).

Lemma client_ip_resists_spoofing_witness :
  configured demo_proxies (Addr4 167838211) /\
  names_client demo_proxies "203.0.113.9, 10.0.0.8" (Addr4 3405803785) /\
  ClientIP (Some demo_extractor) (Some (demo_chain "203.0.113.9, 10.0.0.8")) = Ok (Addr4 3405803785).
Proof.
  assert (configured demo_proxies (Addr4 167838211)) as Hc.
  { eexists. split; [apply list_elem_of_here|]. vm_compute. done. }
  assert (names_client demo_proxies "203.0.113.9, 10.0.0.8" (Addr4 3405803785)) as Hn.
  { exists [], [Addr4 167772168]. split; [by vm_compute|]. split.
    - intros (p & Hp & Hcov). apply list_elem_of_In in Hp.
      destruct Hp as [<-|[<-|[]]]; vm_compute in Hcov; by destruct Hcov.
    - constructor; [|done]. eexists. split; [apply list_elem_of_here|]. vm_compute. done. }
  split; [exact Hc|]. split; [exact Hn|].
  destruct (client_ip_resists_spoofing demo_proxies demo_extractor "10.1.2.3:4711" (Addr4 167838211)
    (headerSet "x-forwarded-for" "203.0.113.9, 10.0.0.8" ∅)) as (_ & _ & H).
  - repeat constructor; vm_compute; done.
  - by vm_compute.
  - by vm_compute.
  - by apply (H Hc _ _ Hn); [by vm_compute|vm_compute; lia..].
Defined.
