(* ===== verification/Http.v ===== *)
(** * HTTP admission: adapters/http/middleware.go

    The middleware derives a key, a cost and a time, asks the strict service, and
    only then calls the handler.  The writer, the handler and the callbacks are
    arbitrary operations on the world.  The theorems: the handler runs once and
    only after an admission that allowed the request, and the headers say what the
    decision says, in whole seconds rounded up. *)

From Stdlib Require Import QArith Qround Lqa.
From S2P Require Import Prelude Float64 GoTime GoHash Errors Keys Policy Backend StrictService StrictFacts GoJson GoNet ClientIP.

Local Open Scope string_scope.
Local Open Scope list_scope.
Local Open Scope Z_scope.

(** [http.ResponseWriter]: updating the map that [Header] returns, the status
    and the body. *)
Record ResponseWriter (W : Type) := mkResponseWriter {
  rw_Header : (Header -> Header) -> M W unit;
  rw_WriteHeader : Z -> M W unit;
  rw_Write : string -> M W unit
}.
Arguments mkResponseWriter {W} _ _ _.
Arguments rw_Header {W} _ _.
Arguments rw_WriteHeader {W} _ _.
Arguments rw_Write {W} _ _.

(** [http.Request]: what the adapter reads of it, and its context. *)
Record HTTPRequest (W : Type) := mkHTTPRequest {
  http_Incoming : Incoming;
  http_Context : iface (Context W)
}.
Arguments mkHTTPRequest {W} _ _.
Arguments http_Incoming {W} _.
Arguments http_Context {W} _.

Definition Handler (W : Type) : Type := ResponseWriter W -> HTTPRequest W -> M W unit.

Definition StatusBadRequest : Z := 400.
Definition StatusTooManyRequests : Z := 429.
Definition StatusServiceUnavailable : Z := 503.

Record Options (W : Type) := mkOptions {
  opt_Service : option (StrictService W);
  opt_Policy : Policy;
  opt_Now : option (M W Time);
  opt_Cost : option (HTTPRequest W -> M W (result error Z));
  opt_Key : option (HTTPRequest W -> M W (result error Key));
  opt_ClientIP : ClientIPOptions
}.
Arguments mkOptions {W} _ _ _ _ _ _.
Arguments opt_Service {W} _.
Arguments opt_Policy {W} _.
Arguments opt_Now {W} _.
Arguments opt_Cost {W} _.
Arguments opt_Key {W} _.
Arguments opt_ClientIP {W} _.

(** The options after [New] filled in the defaults. *)
Record Middleware (W : Type) := mkMiddleware {
  mw_Service : option (StrictService W);
  mw_Policy : Policy;
  mw_Now : M W Time;
  mw_Cost : HTTPRequest W -> M W (result error Z);
  mw_Key : HTTPRequest W -> M W (result error Key)
}.
Arguments mkMiddleware {W} _ _ _ _ _.
Arguments mw_Service {W} _.
Arguments mw_Policy {W} _.
Arguments mw_Now {W} _.
Arguments mw_Cost {W} _.
Arguments mw_Key {W} _.

(** [math.Ceil] of the seconds of a duration, as an integer. *)
Definition ceilSeconds (d : Duration) : Z := toInt64 (fceil (Seconds d)).

(** The updates that [writeHeaders] makes. *)
Definition rateHeaders (decision : Decision) (now : Time) (h : Header) : Header :=
  let h := headerSet "RateLimit-Limit" (formatUint (dec_Limit decision)) h in
  let h := headerSet "RateLimit-Remaining" (formatUint (Remaining decision)) h in
  let h := headerSet "RateLimit-Reset"
             (formatInt (ceilSeconds (Z.max (Sub (Reset decision) now) 0))) h in
  if 0 <? RetryAfter decision
  then headerSet "Retry-After" (formatInt (ceilSeconds (RetryAfter decision))) h else h.

(** The key of the default [Key] callback. *)
Definition clientKey (extractor : ClientIPExtractor) (request : Incoming) : result error Key :=
  match ClientIP (Some extractor) (Some request) with
  | Err e => Err e
  | Ok address => NewKey (mkKeySpec "http" "v1" (mkSubject "ip" (addrString address)) true)
  end.

Section Middleware.
Context {W : Type}.
(** [time.Now], as the monotonic clock of the service and as a time. *)
Context (clock : W -> Z * W).
Context (systemTime : M W Time).

Definition New (options : Options W) : result error (Middleware W) :=
  match opt_Service options with
  | None => Err (errorf ErrInvalidPolicy "strict service is required")
  | Some _ =>
      if bool_decide (id (opt_Policy options) = EmptyString)
      then Err (errorf ErrInvalidPolicy "policy is required") else
      match NewClientIPExtractor (opt_ClientIP options) with
      | Err e => Err e
      | Ok extractor =>
          Ok (mkMiddleware (opt_Service options) (opt_Policy options)
                (default systemTime (opt_Now options))
                (default (fun _ => mret (Ok 1)) (opt_Cost options))
                (default (fun request => mret (clientKey extractor (http_Incoming request)))
                         (opt_Key options)))
      end
  end.

(** [http.Error]. *)
Definition httpError (writer : ResponseWriter W) (text : string) (code : Z) : M W unit :=
  _ ← rw_Header writer (fun h =>
        headerSet "X-Content-Type-Options" "nosniff"
          (headerSet "Content-Type" "text/plain; charset=utf-8" (headerDel "Content-Length" h)));
  _ ← rw_WriteHeader writer code;
  rw_Write writer (text +:+ newline).

Definition writeHeaders (writer : ResponseWriter W) (decision : Decision) (now : Time) : M W unit :=
  rw_Header writer (rateHeaders decision now).

(** The handler that [Wrap] returns. *)
Definition serve (middleware : Middleware W) (next : Handler W) : Handler W :=
  fun writer request =>
    key ← mw_Key middleware request;
    match key with
    | Err _ => httpError writer "invalid rate limit subject" StatusBadRequest
    | Ok key =>
        cost ← mw_Cost middleware request;
        match cost with
        | Err _ => httpError writer "invalid rate limit cost" StatusBadRequest
        | Ok cost =>
            now ← mw_Now middleware;
            let now := toUTC now in
            result ← Admit clock (mw_Service middleware) (http_Context request)
                       (mkRequest (mw_Policy middleware) key cost now);
            let '(decision, err) := result in
            _ ← writeHeaders writer decision now;
            if errorsIs err ErrRejected
            then httpError writer "rate limit exceeded" StatusTooManyRequests else
            if negb (isNil err)
            then httpError writer "rate limit unavailable" StatusServiceUnavailable
            else next writer request
        end
    end.

Definition Wrap (middleware : option (Middleware W)) (next : iface (Handler W))
    : result error (Handler W) :=
  let uninitialized := Err (errorf ErrInvalidPolicy "middleware is nil or uninitialized") in
  match middleware with
  | None => uninitialized
  | Some middleware =>
      match mw_Service middleware, next with
      | None, _ => uninitialized
      | Some _, iface_of next => Ok (serve middleware next)
      | Some _, _ => Err (errorf ErrInvalidPolicy "handler is required")
      end
  end.
End Middleware.

(** ** Admission before the handler *)

Section Gate.
Context {W : Type} (clock : W -> Z * W).
Context (middleware : Middleware W) (writer : ResponseWriter W) (request : HTTPRequest W) (w : W).

Let run (next : Handler W) := serve clock middleware next writer request w.

(** The callbacks returned a key, a cost and a time, in this order. *)
Definition derives (key : Key) (cost : Z) (now : Time) (w' : W) : Prop :=
  exists w1 w2, returns (mw_Key middleware request) w (Ok key) w1 /\
    returns (mw_Cost middleware request) w1 (Ok cost) w2 /\ returns (mw_Now middleware) w2 now w'.

(** The service answered for the derived request. *)
Definition answers (key : Key) (cost : Z) (now : Time) (d : Decision) (e : option error) (w' : W) : Prop :=
  exists w1, derives key cost now w1 /\
    returns (Admit clock (mw_Service middleware) (http_Context request)
               (mkRequest (mw_Policy middleware) key cost (toUTC now))) w1 (d, e) w'.

(** A callback, the service or the writer panicked on the way to the answer. *)
Inductive interrupted : W -> Prop :=
| interrupted_key w' : mw_Key middleware request w = (Panic, w') -> interrupted w'
| interrupted_cost key w1 w' :
    returns (mw_Key middleware request) w (Ok key) w1 -> mw_Cost middleware request w1 = (Panic, w') -> interrupted w'
| interrupted_now key cost w1 w2 w' :
    returns (mw_Key middleware request) w (Ok key) w1 -> returns (mw_Cost middleware request) w1 (Ok cost) w2 ->
    mw_Now middleware w2 = (Panic, w') -> interrupted w'
| interrupted_admit key cost now w1 w' :
    derives key cost now w1 ->
    Admit clock (mw_Service middleware) (http_Context request)
      (mkRequest (mw_Policy middleware) key cost (toUTC now)) w1 = (Panic, w') -> interrupted w'
| interrupted_headers key cost now d e w1 w' :
    answers key cost now d e w1 -> writeHeaders writer d (toUTC now) w1 = (Panic, w') -> interrupted w'.

(** One error response with its cause, whatever the handler is. *)
Inductive denied : Prop :=
| denied_panic w' : interrupted w' -> (forall next, run next = (Panic, w')) -> denied
| denied_subject e w' :
    returns (mw_Key middleware request) w (Err e) w' ->
    (forall next, run next = httpError writer "invalid rate limit subject" 400 w') -> denied
| denied_cost key e w1 w' :
    returns (mw_Key middleware request) w (Ok key) w1 -> returns (mw_Cost middleware request) w1 (Err e) w' ->
    (forall next, run next = httpError writer "invalid rate limit cost" 400 w') -> denied
| denied_rate key cost now d e w1 w2 :
    answers key cost now d (Some e) w1 -> errorsIsAt e ErrRejected = true -> Allowed d = false ->
    returns (writeHeaders writer d (toUTC now)) w1 tt w2 ->
    (forall next, run next = httpError writer "rate limit exceeded" 429 w2) -> denied
| denied_unavailable key cost now d e w1 w2 :
    answers key cost now d (Some e) w1 -> errorsIsAt e ErrRejected = false -> Allowed d = false ->
    returns (writeHeaders writer d (toUTC now)) w1 tt w2 ->
    (forall next, run next = httpError writer "rate limit unavailable" 503 w2) -> denied.

(** The handler ran once, last, after an admission that allowed the request. *)
Definition served : Prop :=
  exists key cost now d w1 w2,
    answers key cost now d None w1 /\ Allowed d = true /\
    returns (writeHeaders writer d (toUTC now)) w1 tt w2 /\
    forall next, run next = next writer request w2.

(** C36: the HTTP middleware fails closed.  For every request, world and callback
    one of these happens.  The key or the cost cannot be derived and 400
    is written.  The strict service rejects the derived request and 429 is
    written; it fails in any other way and 503 is written; in both cases after the
    headers of its decision, which does not allow the request.  A callback, the
    service or the writer panics.  In all of these the handler has no influence on
    the outcome.  Or the service returned an allowed decision without an error,
    its headers were written, and the handler is called once, as the last step. *)
Theorem http_fails_closed : denied \/ served.
Proof.
  destruct (mw_Key middleware request w) as [[[key|e]|] w1] eqn:Ek.
  2: { left. eapply denied_subject; [exact Ek|]. intros next. unfold run, serve. by rewrite bind_unfold, Ek. }
  2: { left. eapply denied_panic; [by apply interrupted_key|]. intros next. unfold run, serve. by rewrite bind_unfold, Ek. }
  destruct (mw_Cost middleware request w1) as [[[cost|e]|] w2] eqn:Ec.
  2: { left. eapply denied_cost; [exact Ek|exact Ec|]. intros next. unfold run, serve. by rewrite bind_unfold, Ek, bind_unfold, Ec. }
  2: { left. eapply denied_panic; [by eapply interrupted_cost|]. intros next. unfold run, serve. by rewrite bind_unfold, Ek, bind_unfold, Ec. }
  destruct (mw_Now middleware w2) as [[now|] w3] eqn:En.
  2: { left. eapply denied_panic; [by eapply interrupted_now|]. intros next. unfold run, serve.
       by rewrite bind_unfold, Ek, bind_unfold, Ec, bind_unfold, En. }
  assert (derives key cost now w3) as Hder by (by exists w1, w2).
  destruct (Admit clock (mw_Service middleware) (http_Context request)
    (mkRequest (mw_Policy middleware) key cost (toUTC now)) w3) as [[[d err]|] w4] eqn:Ea.
  2: { left. eapply denied_panic; [by eapply interrupted_admit|]. intros next. unfold run, serve.
       by rewrite bind_unfold, Ek, bind_unfold, Ec, bind_unfold, En, bind_unfold, Ea. }
  assert (answers key cost now d err w4) as Hans by (by exists w3).
  pose proof (strict_admit_allowed_iff_nil clock _ _ _ _ _ _ _ Ea) as Hallowed.
  destruct (writeHeaders writer d (toUTC now) w4) as [[[]|] w5] eqn:Eh.
  2: { left. eapply denied_panic; [by eapply interrupted_headers|]. intros next. unfold run, serve.
       rewrite bind_unfold, Ek, bind_unfold, Ec, bind_unfold, En, bind_unfold, Ea. by rewrite bind_unfold, Eh. }
  assert (forall next, run next =
    (if errorsIs err ErrRejected then httpError writer "rate limit exceeded" 429 else
     if negb (isNil err) then httpError writer "rate limit unavailable" 503 else next writer request) w5) as Hrun.
  { intros next. unfold run, serve.
    rewrite bind_unfold, Ek, bind_unfold, Ec, bind_unfold, En, bind_unfold, Ea. by rewrite bind_unfold, Eh. }
  destruct err as [e|].
  - assert (Allowed d = false) as Hd by (destruct (Allowed d); [by destruct Hallowed as [H _]; discriminate H|done]).
    left. simpl in Hrun. destruct (errorsIsAt e ErrRejected) eqn:Ei; [by eapply denied_rate|by eapply denied_unavailable].
  - right. exists key, cost, now, d, w4, w5. split_and!; try done. by apply Hallowed.
Qed.
End Gate.

(** ** Whole seconds *)


Lemma toInt64_integral b z : - two63 <= z < two63 -> toInt64 (integral b z) = z.
Proof.
  intros Hz. unfold toInt64, integral. destruct (Z.eqb_spec z 0) as [->|]; [done|]. simpl.
  rewrite Z.quot_1_r. destruct (Z.leb_spec (- two63) z), (Z.ltb_spec z two63); simpl; lia.
Qed.

Lemma ceiling_between v k : (inject_Z k < v)%Q -> (v <= inject_Z (k + 1))%Q -> Qceiling (Qred v) = k + 1.
Proof.
  intros Hl Hu. rewrite (Qceiling_comp _ _ (Qred_correct v)).
  pose proof (Qle_ceiling v) as H1. pose proof (Qceiling_lt v) as H2.
  assert (inject_Z k < inject_Z (Qceiling v))%Q as H3 by (by eapply Qlt_le_trans). rewrite <- Zlt_Qlt in H3.
  assert (inject_Z (Qceiling v - 1) < inject_Z (k + 1))%Q as H4 by (by eapply Qlt_le_trans). rewrite <- Zlt_Qlt in H4. lia.
Qed.

(** The fraction of a second, as a double. *)
Lemma fraction_spec ns :
  0 < ns < 1000000000 ->
  exists v, fdiv (ofZ ns) (ofZ 1000000000) = Finite (Qred v) /\
    ((999999999 # 1000000000000000000) <= v <= 1)%Q.
Proof.
  intros Hns. rewrite !ofZ_nonzero by lia. cbn [fdiv].
  set (q := (inject_Z ns / inject_Z 1000000000)%Q).
  assert ((1 # 1000000000) <= q <= 1)%Q as [Hl Hu].
  { unfold q, Qdiv, Qinv, Qmult, Qle, inject_Z. simpl Qnum. simpl Qden. lia. }
  destruct (round64_spec q) as (v & E & _ & Hint & Herr & _).
  - lra.
  - apply (Qle_lt_trans _ 1); [done|]. by vm_compute.
  - apply (Qle_trans _ ((1 # 1000000000) * inject_Z (2 ^ 100))); [by vm_compute|].
    apply Qmult_le_compat_r; [done|]. by vm_compute.
  - exists v. split; [exact E|]. split; [|by apply (Hint 1)]. lra.
Qed.

(** The seconds of a duration below 2^23 seconds round up exactly. *)
Lemma ceilSeconds_exact d :
  0 <= d < 2 ^ 23 * 1000000000 -> ceilSeconds d = (d + 999999999) / 1000000000.
Proof.
  intros Hd. change (2 ^ 23) with 8388608 in Hd. unfold ceilSeconds, Seconds.
  rewrite Z.rem_mod_nonneg, Z.quot_div_nonneg by lia.
  set (sec := d / 1000000000). set (ns := d mod 1000000000).
  assert (0 <= sec < 8388608 /\ 0 <= ns < 1000000000 /\ d = sec * 1000000000 + ns) as (Hs & Hn & Ed)
    by (unfold sec, ns; zlia).
  destruct (decide (ns = 0)) as [E|].
  { rewrite E. change (fdiv (ofZ 0) (ofZ 1000000000)) with (ofZ 0).
    rewrite fadd_Z by lia. rewrite Z.add_0_r, ofZ_exact by lia.
    assert (fceil (integral false sec) = integral false sec) as ->.
    { unfold integral. destruct (Z.eqb_spec sec 0) as [->|]; [done|]. cbn [fceil].
      rewrite Qceiling_Z. unfold integral. destruct (Z.eqb_spec sec 0); [lia|done]. }
    rewrite toInt64_integral by lia. zlia. }
  destruct (fraction_spec ns) as (v & Ev & Hv1 & Hv2); [lia|]. rewrite Ev.
  assert ((d + 999999999) / 1000000000 = sec + 1) as -> by zlia.
  assert (exists u, fadd (ofZ sec) (Finite (Qred v)) = Finite (Qred u) /\
    (inject_Z sec < u)%Q /\ (u <= inject_Z (sec + 1))%Q) as (u & -> & Hu1 & Hu2).
  { destruct (decide (sec = 0)) as [->|Hs0].
    - exists v. split; [done|]. split; [|exact Hv2]. apply (Qlt_le_trans _ (999999999 # 1000000000000000000)); done.
    - rewrite ofZ_nonzero by lia. cbn [fadd]. set (q := (inject_Z sec + Qred v)%Q).
      assert (q == inject_Z sec + v)%Q as Hq by (unfold q; by rewrite Qred_correct).
      assert (1 <= inject_Z sec)%Q as Hs1 by (change 1%Q with (inject_Z 1); rewrite <- Zle_Qle; lia).
      assert (inject_Z sec <= inject_Z 8388607)%Q as Hs2 by (rewrite <- Zle_Qle; lia).
      change (inject_Z 8388607) with (8388607 # 1)%Q in Hs2.
      destruct (round64_spec q) as (u & Eu & _ & Hint & Herr & _).
      + lra.
      + change (inject_Z two53) with (9007199254740992 # 1)%Q. lra.
      + change (inject_Z (2 ^ 100)) with (1267650600228229401496703205376 # 1)%Q. lra.
      + exists u. split; [exact Eu|]. split; [lra|]. apply Hint. rewrite inject_Z_plus. change (inject_Z 1) with 1%Q. lra. }
  cbn [fceil]. rewrite (ceiling_between u sec) by done. rewrite toInt64_integral by lia. done.
Qed.

Ltac find_header :=
  repeat (rewrite lookup_insert_eq || rewrite lookup_insert_ne by (discriminate || naive_solver)); try reflexivity.

(** The response headers say what the decision says.  After [writeHeaders]
    the limit and the remaining units stand in decimal, the reset in the seconds
    from now until it, rounded up and never negative, and [Retry-After] is set
    exactly when the decision has a positive delay, rounded up; other headers are
    untouched.  The rounding goes through [float64] and is exact below 2^23
    seconds (97 days). *)
Theorem rate_headers_exact decision now h :
  Sub (Reset decision) now < 2 ^ 23 * 1000000000 -> RetryAfter decision < 2 ^ 23 * 1000000000 ->
  let seconds d := formatInt ((Z.max d 0 + 999999999) / 1000000000) in
  let h' := rateHeaders decision now h in
  h' !! "Ratelimit-Limit" = Some [formatUint (dec_Limit decision)] /\
  h' !! "Ratelimit-Remaining" = Some [formatUint (Remaining decision)] /\
  h' !! "Ratelimit-Reset" = Some [seconds (Sub (Reset decision) now)] /\
  h' !! "Retry-After" =
    (if 0 <? RetryAfter decision then Some [seconds (RetryAfter decision)] else h !! "Retry-After") /\
  forall name, name ∉ ["Ratelimit-Limit"; "Ratelimit-Remaining"; "Ratelimit-Reset"; "Retry-After"] ->
    h' !! name = h !! name.
Proof.
  intros Hreset Hretry. unfold rateHeaders, headerSet, Header in *.
  change (CanonicalHeaderKey "RateLimit-Limit") with "Ratelimit-Limit".
  change (CanonicalHeaderKey "RateLimit-Remaining") with "Ratelimit-Remaining".
  change (CanonicalHeaderKey "RateLimit-Reset") with "Ratelimit-Reset".
  change (CanonicalHeaderKey "Retry-After") with "Retry-After".
  rewrite (ceilSeconds_exact (Z.max (Sub (Reset decision) now) 0)) by lia.
  cbv zeta. destruct (Z.ltb_spec 0 (RetryAfter decision)).
  - rewrite ceilSeconds_exact, (Z.max_l (RetryAfter decision) 0) by lia.
    split_and!; [by find_header..|]. intros name Hn. set_unfold. find_header.
  - split_and!; [by find_header..|]. intros name Hn. set_unfold. find_header.
Qed.

(** The rounding of longer durations can lose a nanosecond. *)
Lemma ceilSeconds_inexact : ceilSeconds (2 ^ 24 * 1000000000 + 1) = 2 ^ 24.
Proof. vm_compute. reflexivity. Qed.
