(* ===== verification/Queue.v ===== *)
(** * Queue admission: adapters/queue/middleware.go

    Like the HTTP middleware, for messages: a rejection becomes a [Deferred] error
    that tells the durable queue when to retry.  The theorems: the handler runs
    once and only after an admission that allowed the message, and two messages
    share a key only if they share queue and tenant. *)

From S2P Require Import Prelude GoTime GoHash Errors Keys Policy Backend StrictService StrictFacts GoJson JsonFacts.

Local Open Scope string_scope.
Local Open Scope list_scope.
Local Open Scope Z_scope.

Record Message := mkMessage {
  msg_ID : string;
  Queue : string;
  Tenant : string;
  msg_Principal : string;
  Attempt : Z
}.

(** The errors of this package's handlers: ordinary ones, and [*Deferred], whose
    pointer may be nil. *)
Inductive queueError :=
| Failed (e : error)
| Deferred (RetryAfter : Duration) (cause : option error)
| nilDeferred.

(** [Deferred.Unwrap]. *)
Definition unwrapDeferred (e : queueError) : option error :=
  match e with
  | Failed e => None
  | Deferred _ (Some cause) => Some cause
  | Deferred _ None | nilDeferred => Some (Sent ErrRejected)
  end.

Definition queueErrorIs (e : queueError) (target : Sentinel) : bool :=
  match e with
  | Failed e => errorsIsAt e target
  | e => errorsIs (unwrapDeferred e) target
  end.

Definition queueErrorText (e : queueError) : string :=
  match e with Failed e => errorText e | _ => "rate-limited queue admission deferred" end.

Definition Handler (W : Type) : Type := iface (Context W) -> Message -> M W (option queueError).
Definition SubjectFunc (W : Type) : Type := Message -> M W (result error Subject).

Record Options (W : Type) := mkOptions {
  opt_Service : option (StrictService W);
  opt_Policy : Policy;
  opt_Subject : option (SubjectFunc W);
  opt_Cost : option (Message -> M W (result error Z));
  opt_Now : option (M W Time)
}.
Arguments mkOptions {W} _ _ _ _ _.
Arguments opt_Service {W} _.
Arguments opt_Policy {W} _.
Arguments opt_Subject {W} _.
Arguments opt_Cost {W} _.
Arguments opt_Now {W} _.

(** The options after [New] filled in the defaults. *)
Record Middleware (W : Type) := mkMiddleware {
  mw_Service : option (StrictService W);
  mw_Policy : Policy;
  mw_Subject : SubjectFunc W;
  mw_Cost : Message -> M W (result error Z);
  mw_Now : M W Time
}.
Arguments mkMiddleware {W} _ _ _ _ _.
Arguments mw_Service {W} _.
Arguments mw_Policy {W} _.
Arguments mw_Subject {W} _.
Arguments mw_Cost {W} _.
Arguments mw_Now {W} _.

Definition failed (s : Sentinel) (text : string) : option queueError := Some (Failed (errorf s text)).

(** ** Subjects *)

Definition byQueueAndTenant (message : Message) : result error Subject :=
  if bool_decide (Queue message = EmptyString) || bool_decide (Tenant message = EmptyString)
  then Err (errorf ErrInvalidKey "queue and tenant are required")
  else Ok (mkSubject "queue-tenant"
             (formatInt (strlen (Queue message)) +:+ ":" +:+ Queue message +:+ Tenant message)).

Definition byPrincipal (message : Message) : result error Subject :=
  if bool_decide (msg_Principal message = EmptyString)
  then Err (errorf ErrInvalidKey "principal is required")
  else Ok (mkSubject "principal" (msg_Principal message)).

Definition queueSpec (subject : Subject) : KeySpec := mkKeySpec "queue" "v1" subject true.

Section Middleware.
Context {W : Type}.
Context (clock : W -> Z * W).
Context (systemTime : M W Time).

Definition ByQueueAndTenant : SubjectFunc W := fun message => mret (byQueueAndTenant message).
Definition ByPrincipal : SubjectFunc W := fun message => mret (byPrincipal message).

(** [HandlerFunc.Handle]; the function may be nil. *)
Definition HandlerFunc_Handle (function : option (Handler W)) : Handler W :=
  fun ctx message =>
    match function with
    | None => mret (failed ErrInvalidPolicy "handler is required")
    | Some function =>
        if isNilInterface ctx then mret (failed ErrInvalidRequest "context is required")
        else function ctx message
    end.

Definition New (options : Options W) : result error (Middleware W) :=
  match opt_Service options with
  | None => Err (errorf ErrInvalidPolicy "strict service is required")
  | Some _ =>
      if bool_decide (id (opt_Policy options) = EmptyString)
      then Err (errorf ErrInvalidPolicy "policy is required") else
      match opt_Subject options with
      | None => Err (errorf ErrInvalidPolicy "subject is required")
      | Some subject =>
          Ok (mkMiddleware (opt_Service options) (opt_Policy options) subject
                (default (fun _ => mret (Ok 1)) (opt_Cost options))
                (default systemTime (opt_Now options)))
      end
  end.

(** The function that [Wrap] makes a [HandlerFunc] of. *)
Definition handle (middleware : Middleware W) (next : Handler W) : Handler W :=
  fun ctx message =>
    if isNilInterface ctx then mret (failed ErrInvalidRequest "context is required") else
    subject ← mw_Subject middleware message;
    match subject with
    | Err err => mret (Some (Failed err))
    | Ok subject =>
        match NewKey (queueSpec subject) with
        | Err err => mret (Some (Failed err))
        | Ok key =>
            cost ← mw_Cost middleware message;
            match cost with
            | Err err => mret (Some (Failed err))
            | Ok cost =>
                now ← mw_Now middleware;
                result ← Admit clock (mw_Service middleware) ctx
                           (mkRequest (mw_Policy middleware) key cost (toUTC now));
                let '(decision, err) := result in
                if errorsIs err ErrRejected
                then mret (Some (Deferred (RetryAfter decision) err)) else
                match err with
                | Some err => mret (Some (Failed err))
                | None => next ctx message
                end
            end
        end
    end.

Definition Wrap (middleware : option (Middleware W)) (next : iface (Handler W))
    : result error (Handler W) :=
  let uninitialized := Err (errorf ErrInvalidPolicy "middleware is nil or uninitialized") in
  match middleware with
  | None => uninitialized
  | Some middleware =>
      match mw_Service middleware, next with
      | None, _ => uninitialized
      | Some _, iface_of next => Ok (HandlerFunc_Handle (Some (handle middleware next)))
      | Some _, _ => Err (errorf ErrInvalidPolicy "handler is required")
      end
  end.
End Middleware.

(** ** Admission before the handler *)

Section Gate.
Context {W : Type} (clock : W -> Z * W).
Context (middleware : Middleware W) (ctx : iface (Context W)) (message : Message) (w : W).

Let run (next : Handler W) := HandlerFunc_Handle (Some (handle clock middleware next)) ctx message w.

(** Subject, cost and time were derived in this order, and the service answered
    for the key of the subject. *)
Definition answers (d : Decision) (e : option error) (w' : W) : Prop :=
  exists subject key cost now w1 w2 w3,
    returns (mw_Subject middleware message) w (Ok subject) w1 /\
    NewKey (queueSpec subject) = Ok key /\
    returns (mw_Cost middleware message) w1 (Ok cost) w2 /\ returns (mw_Now middleware) w2 now w3 /\
    returns (Admit clock (mw_Service middleware) ctx
               (mkRequest (mw_Policy middleware) key cost (toUTC now))) w3 (d, e) w'.

(** No request could be made of the message. *)
Inductive underivable : error -> W -> Prop :=
| no_context : isNilInterface ctx = true ->
    underivable (errorf ErrInvalidRequest "context is required") w
| no_subject e w' : returns (mw_Subject middleware message) w (Err e) w' -> underivable e w'
| no_key subject e w' : returns (mw_Subject middleware message) w (Ok subject) w' ->
    NewKey (queueSpec subject) = Err e -> underivable e w'
| no_cost subject key e w' w'' : returns (mw_Subject middleware message) w (Ok subject) w' ->
    NewKey (queueSpec subject) = Ok key -> returns (mw_Cost middleware message) w' (Err e) w'' ->
    underivable e w''.

(** A callback, the clock or the service panicked. *)
Inductive interrupted : W -> Prop :=
| interrupted_subject w' : mw_Subject middleware message w = (Panic, w') -> interrupted w'
| interrupted_cost subject w1 w' : returns (mw_Subject middleware message) w (Ok subject) w1 ->
    mw_Cost middleware message w1 = (Panic, w') -> interrupted w'
| interrupted_now subject cost w1 w2 w' : returns (mw_Subject middleware message) w (Ok subject) w1 ->
    returns (mw_Cost middleware message) w1 (Ok cost) w2 -> mw_Now middleware w2 = (Panic, w') -> interrupted w'
| interrupted_admit subject key cost now w1 w2 w3 w' : returns (mw_Subject middleware message) w (Ok subject) w1 ->
    NewKey (queueSpec subject) = Ok key -> returns (mw_Cost middleware message) w1 (Ok cost) w2 ->
    returns (mw_Now middleware) w2 now w3 ->
    Admit clock (mw_Service middleware) ctx (mkRequest (mw_Policy middleware) key cost (toUTC now)) w3 = (Panic, w') ->
    interrupted w'.

(** The outcomes of a wrapped handler, for every handler at once. *)
Inductive handled : Prop :=
| handled_panic w' : interrupted w' -> (forall next, run next = (Panic, w')) -> handled
| handled_invalid e w' : underivable e w' ->
    (forall next, run next = (Ret (Some (Failed e)), w')) -> handled
| handled_deferred d e w' : answers d (Some e) w' -> errorsIsAt e ErrRejected = true -> Allowed d = false ->
    (forall next, run next = (Ret (Some (Deferred (RetryAfter d) (Some e))), w')) -> handled
| handled_failed d e w' : answers d (Some e) w' -> errorsIsAt e ErrRejected = false -> Allowed d = false ->
    (forall next, run next = (Ret (Some (Failed e)), w')) -> handled
| handled_next d w' : answers d None w' -> Allowed d = true ->
    (forall next, run next = next ctx message w') -> handled.

(** The body of [run], one binding after another. *)
Ltac enter Ectx := intros next; unfold run, HandlerFunc_Handle, handle; rewrite Ectx.
Ltac step E := rewrite bind_unfold, E; cbn iota beta.

(** C38: the queue middleware fails closed and defers exactly the rejections.
    For every message, context, world and callback, either the handler is called
    exactly once, as the last step, after the strict service returned an allowed
    decision for the derived key; or it has no influence on the outcome, which is
    a [Deferred] error with the decision's delay exactly when the service rejected
    the message, and otherwise the error of the derivation or of the service, or a
    panic of a callback, the clock or the service. *)
Theorem queue_fails_closed : handled.
Proof.
  destruct (isNilInterface ctx) eqn:Ectx.
  { eapply handled_invalid; [by apply no_context|]. by enter Ectx. }
  destruct (mw_Subject middleware message w) as [[[subject|e]|] w1] eqn:Es.
  2: { eapply handled_invalid; [by apply no_subject|]. enter Ectx. by step Es. }
  2: { eapply handled_panic; [by apply interrupted_subject|]. enter Ectx. by step Es. }
  destruct (NewKey (queueSpec subject)) as [key|e] eqn:Ek.
  2: { eapply handled_invalid; [by eapply no_key|]. enter Ectx. step Es. by rewrite Ek. }
  destruct (mw_Cost middleware message w1) as [[[cost|e]|] w2] eqn:Ec.
  2: { eapply handled_invalid; [by eapply no_cost|]. enter Ectx. step Es. rewrite Ek. by step Ec. }
  2: { eapply handled_panic; [by eapply interrupted_cost|]. enter Ectx. step Es. rewrite Ek. by step Ec. }
  destruct (mw_Now middleware w2) as [[now|] w3] eqn:En.
  2: { eapply handled_panic; [by eapply interrupted_now|]. enter Ectx. step Es. rewrite Ek. step Ec. by step En. }
  destruct (Admit clock (mw_Service middleware) ctx
    (mkRequest (mw_Policy middleware) key cost (toUTC now)) w3) as [[[d err]|] w4] eqn:Ea.
  2: { eapply handled_panic; [by eapply interrupted_admit|]. enter Ectx. step Es. rewrite Ek. step Ec. step En. by step Ea. }
  pose proof (strict_admit_allowed_iff_nil clock _ _ _ _ _ _ _ Ea) as Hallowed.
  assert (answers d err w4) as Hans by (by exists subject, key, cost, now, w1, w2, w3).
  assert (forall next, run next =
    (if errorsIs err ErrRejected then (Ret (Some (Deferred (RetryAfter d) err)), w4) else
     match err with Some e => (Ret (Some (Failed e)), w4) | None => next ctx message w4 end)) as Hrun.
  { enter Ectx. step Es. rewrite Ek. step Ec. step En. step Ea. by repeat case_test. }
  destruct err as [e|]; simpl in Hrun; [|by eapply handled_next; [done|apply Hallowed|]].
  assert (Allowed d = false) as Hd by (destruct (Allowed d); [by destruct Hallowed as [H _]; discriminate H|done]).
  destruct (errorsIsAt e ErrRejected) eqn:Ei; [by eapply handled_deferred|by eapply handled_failed].
Qed.
End Gate.

(** ** Keys of queues and tenants *)

Lemma append_split s1 s2 t1 t2 :
  String.length s1 = String.length s2 -> s1 +:+ t1 = s2 +:+ t2 -> s1 = s2 /\ t1 = t2.
Proof.
  revert s2. induction s1 as [|c s1 IH]; intros [|c' s2]; simpl; try done.
  intros [= Hl] [= -> E]. by destruct (IH s2 Hl E) as [-> ->].
Qed.

Lemma formatUint_colon n : 0 <= n < ten20 -> free_of (chr 58) (formatUint n).
Proof.
  intros Hn. destruct (decimalDigits_spec 20 n) as (_ & Ha & _); [lia|done|].
  unfold free_of. revert Ha. apply all_bytes_mono. unfold in_range. intros c Hc. btrue.
  apply negb_true_iff, Z.eqb_neq. change (byte_of (chr 58)) with 58. lia.
Qed.

(** The length prefix makes the concatenation of two names unambiguous. *)
Lemma prefixed_inj q1 q2 t1 t2 :
  strlen q1 < ten20 -> strlen q2 < ten20 ->
  formatInt (strlen q1) +:+ ":" +:+ q1 +:+ t1 = formatInt (strlen q2) +:+ ":" +:+ q2 +:+ t2 ->
  q1 = q2 /\ t1 = t2.
Proof.
  intros H1 H2. pose proof (strlen_nonneg q1). pose proof (strlen_nonneg q2). unfold formatInt.
  rewrite !(proj2 (Z.ltb_ge _ 0)) by done. change (":" +:+ ?x) with (String (chr 58) x). intros E.
  apply separator_inj in E as [Ef E]; [|by apply formatUint_colon..].
  apply append_split; [|exact E].
  destruct (allDigits_format (strlen q1)) as [_ V1]; [done|].
  destruct (allDigits_format (strlen q2)) as [_ V2]; [done|]. rewrite Ef, V2 in V1.
  unfold strlen in V1. lia.
Qed.

Lemma byQueueAndTenant_inv m s :
  byQueueAndTenant m = Ok s ->
  s = mkSubject "queue-tenant" (formatInt (strlen (Queue m)) +:+ ":" +:+ Queue m +:+ Tenant m).
Proof. unfold byQueueAndTenant. case_match; [done|]. by intros [= <-]. Qed.

(** Queues and tenants never share a key by accident: if two messages derive
    [ByQueueAndTenant] subjects with the same admission key, then they name the
    same queue and the same tenant, whatever bytes (colons included) the names
    contain, or else they exhibit a SHA-256 collision. *)
Theorem queue_keys_separate a b sa sb k :
  byQueueAndTenant a = Ok sa -> byQueueAndTenant b = Ok sb ->
  NewKey (queueSpec sa) = Ok k -> NewKey (queueSpec sb) = Ok k ->
  (Queue a = Queue b /\ Tenant a = Tenant b) \/
  (keyPreimage (queueSpec sa) <> keyPreimage (queueSpec sb) /\
   sha256 (keyPreimage (queueSpec sa)) = sha256 (keyPreimage (queueSpec sb))).
Proof.
  intros Ha Hb Hka Hkb. destruct (NewKey_injective _ _ _ Hka Hkb eq_refl) as [E|(_ & H)]; [left|by right].
  apply byQueueAndTenant_inv in Ha, Hb.
  apply NewKey_inv in Hka as (_ & _ & _ & [_ Hla] & _). apply NewKey_inv in Hkb as (_ & _ & _ & [_ Hlb] & _).
  apply (f_equal (fun spec => Value (key_Subject spec))) in E. subst sa sb. simpl in *.
  rewrite !strlen_app in Hla, Hlb. unfold MaxSubjectBytes in *.
  pose proof (strlen_nonneg (formatInt (strlen (Queue a)))). pose proof (strlen_nonneg (Tenant a)).
  pose proof (strlen_nonneg (formatInt (strlen (Queue b)))). pose proof (strlen_nonneg (Tenant b)).
  change (strlen ":") with 1 in *. apply prefixed_inj; [lia..|exact E].
Qed.

(** ** Witness *)

Definition demo_message : Message := mkMessage "m-1" "mail:eu" "acme" "user-42" 1.
Definition demo_subject : Subject := mkSubject "queue-tenant" "7:mail:euacme".
