(* ===== verification/Rpc.v ===== *)
(** * JSON-RPC admission: ratelimitrpc/middleware.go

    A call passes an ordered list of rules, each with a policy, a subject and a
    cost, before its handler runs.  There is no rollback: the theorem says exactly
    which rules have charged when a call is refused. *)

From S2P Require Import Prelude GoTime GoHash Errors Keys Policy Backend Service GoJson.

Local Open Scope string_scope.
Local Open Scope list_scope.
Local Open Scope Z_scope.

Definition CodeRateLimited : Z := -32029.
Definition CodeRateUnavailable : Z := -32030.
Definition MaxRules : nat := 16.

(** [V] is the type of the values that Go passes as [any]. *)
Record Call (V : Type) := mkCall {
  call_ID : option V;
  call_Method : string;
  call_Principal : string;
  call_Tenant : string
}.
Arguments mkCall {V} _ _ _ _.
Arguments call_ID {V} _.
Arguments call_Method {V} _.
Arguments call_Principal {V} _.
Arguments call_Tenant {V} _.

Record Error := mkError {
  Code : Z;
  err_Message : string;
  err_RetryAfter : Duration
}.

Record Response (V : Type) := mkResponse {
  resp_ID : option V;
  Result : option V;
  resp_Error : option Error
}.
Arguments mkResponse {V} _ _ _.
Arguments resp_ID {V} _.
Arguments Result {V} _.
Arguments resp_Error {V} _.

(** ** Subjects *)

Definition requiredSubject (kind value : string) : result error Subject :=
  if bool_decide (value = EmptyString) then Err (errorf ErrInvalidKey ("missing " +:+ kind))
  else Ok (mkSubject kind value).

Definition rpcSpec (subject : Subject) : KeySpec := mkKeySpec "rpc" "v1" subject true.

Section Middleware.
Context {W V : Type}.
Context (clock : W -> Z * W).
Context (systemTime : M W Time).

Definition Handler : Type := Context W -> Call V -> M W (Response V * option error).
Definition SubjectFunc : Type := Call V -> M W (result error Subject).

Definition Global (value : string) : SubjectFunc := fun _ => mret (requiredSubject "global" value).
Definition Principal : SubjectFunc := fun call => mret (requiredSubject "principal" (call_Principal call)).
Definition Method : SubjectFunc := fun call => mret (requiredSubject "method" (call_Method call)).
Definition Tenant : SubjectFunc := fun call => mret (requiredSubject "tenant" (call_Tenant call)).

Record Rule := mkRule {
  rule_Policy : Policy;
  rule_Subject : option SubjectFunc;
  rule_Cost : option (Call V -> M W (result error Z))
}.

(** A rule of the copied slice, complete and with its default cost. *)
Record CheckedRule := mkCheckedRule {
  cr_Policy : Policy;
  cr_Subject : SubjectFunc;
  cr_Cost : Call V -> M W (result error Z)
}.

Record Options := mkOptions {
  opt_Service : option (Service W);
  Rules : list Rule;
  opt_Now : option (M W Time)
}.

Fixpoint checkRules (index : nat) (rules : list Rule) : result error (list CheckedRule) :=
  match rules with
  | [] => Ok []
  | rule :: rest =>
      let incomplete :=
        Err (errorf ErrInvalidPolicy ("rule " +:+ formatInt (Z.of_nat index) +:+ " is incomplete")) in
      if bool_decide (id (rule_Policy rule) = EmptyString) then incomplete else
      match rule_Subject rule with
      | None => incomplete
      | Some subject =>
          match checkRules (S index) rest with
          | Err e => Err e
          | Ok checked =>
              Ok (mkCheckedRule (rule_Policy rule) subject
                    (default (fun _ => mret (Ok 1)) (rule_Cost rule)) :: checked)
          end
      end
  end.

Definition unavailable (call : Call V) (text : string) : Response V :=
  mkResponse (call_ID call) None (Some (mkError CodeRateUnavailable text 0)).

(** One iteration of the loop over the rules: [None] goes on to the next. *)
Definition applyRule (service : Service W) (now : M W Time) (rule : CheckedRule)
    (ctx : Context W) (call : Call V) : M W (option (Response V * option error)) :=
  subject ← cr_Subject rule call;
  match subject with
  | Err err => mret (Some (unavailable call "invalid rate limit subject", Some err))
  | Ok subject =>
      match NewKey (rpcSpec subject) with
      | Err err => mret (Some (unavailable call "invalid rate limit subject", Some err))
      | Ok key =>
          cost ← cr_Cost rule call;
          match cost with
          | Err err => mret (Some (unavailable call "invalid rate limit cost", Some err))
          | Ok cost =>
              at_ ← now;
              result ← Admit clock service ctx (mkRequest (cr_Policy rule) key cost (toUTC at_));
              let '(decision, err) := result in
              if errorsIs err ErrRejected
              then mret (Some (mkResponse (call_ID call) None
                     (Some (mkError CodeRateLimited "rate limit exceeded" (RetryAfter decision))), err))
              else match err with
                   | Some _ => mret (Some (unavailable call "rate limit unavailable", err))
                   | None => mret None
                   end
          end
      end
  end.

Fixpoint handle (service : Service W) (now : M W Time) (rules : list CheckedRule) (next : Handler)
    : Handler :=
  fun ctx call =>
    match rules with
    | [] => next ctx call
    | rule :: rest =>
        stop ← applyRule service now rule ctx call;
        match stop with
        | Some response => mret response
        | None => handle service now rest next ctx call
        end
    end.

(** [New]: a middleware takes a handler to a handler. *)
Definition New (options : Options) : result error (Handler -> Handler) :=
  let required := Err (errorf ErrInvalidPolicy "service and bounded rules are required") in
  match opt_Service options with
  | None => required
  | Some service =>
      if (length (Rules options) =? 0)%nat || (MaxRules <? length (Rules options))%nat then required else
      match checkRules 0 (Rules options) with
      | Err e => Err e
      | Ok rules => Ok (handle service (default systemTime (opt_Now options)) rules)
      end
  end.

(** ** The rules a call passed *)

Section Run.
Context (service : Service W) (now : M W Time) (ctx : Context W) (call : Call V).

(** The rule derived a request and the service answered it. *)
Definition asks (rule : CheckedRule) (w : W) (d : Decision) (e : option error) (w' : W) : Prop :=
  exists subject key cost at_ w1 w2 w3,
    returns (cr_Subject rule call) w (Ok subject) w1 /\ NewKey (rpcSpec subject) = Ok key /\
    returns (cr_Cost rule call) w1 (Ok cost) w2 /\ returns now w2 at_ w3 /\
    returns (Admit clock service ctx (mkRequest (cr_Policy rule) key cost (toUTC at_))) w3 (d, e) w'.

(** Every rule of a list admitted the call, one after the other. *)
Inductive passed : list CheckedRule -> W -> W -> Prop :=
| passed_nil w : passed [] w w
| passed_cons rule rules d w w1 w2 :
    asks rule w d None w1 -> passed rules w1 w2 -> passed (rule :: rules) w w2.

(** A callback of the rule, the clock or the service panicked. *)
Inductive interrupted (rule : CheckedRule) (w : W) : W -> Prop :=
| interrupted_subject w' : cr_Subject rule call w = (Panic, w') -> interrupted rule w w'
| interrupted_cost subject w1 w' :
    returns (cr_Subject rule call) w (Ok subject) w1 -> cr_Cost rule call w1 = (Panic, w') -> interrupted rule w w'
| interrupted_now subject cost w1 w2 w' :
    returns (cr_Subject rule call) w (Ok subject) w1 -> returns (cr_Cost rule call) w1 (Ok cost) w2 ->
    now w2 = (Panic, w') -> interrupted rule w w'
| interrupted_admit subject key cost at_ w1 w2 w3 w' :
    returns (cr_Subject rule call) w (Ok subject) w1 -> NewKey (rpcSpec subject) = Ok key ->
    returns (cr_Cost rule call) w1 (Ok cost) w2 -> returns now w2 at_ w3 ->
    Admit clock service ctx (mkRequest (cr_Policy rule) key cost (toUTC at_)) w3 = (Panic, w') -> interrupted rule w w'.

(** How one rule ends a call, with its cause: the response and the error
    returned with it. *)
Inductive stops (rule : CheckedRule) (w : W) : outcome (Response V * option error) -> W -> Prop :=
| stops_panic w' : interrupted rule w w' -> stops rule w Panic w'
| stops_subject e w' : returns (cr_Subject rule call) w (Err e) w' ->
    stops rule w (Ret (unavailable call "invalid rate limit subject", Some e)) w'
| stops_key subject e w' : returns (cr_Subject rule call) w (Ok subject) w' -> NewKey (rpcSpec subject) = Err e ->
    stops rule w (Ret (unavailable call "invalid rate limit subject", Some e)) w'
| stops_cost subject key e w1 w' :
    returns (cr_Subject rule call) w (Ok subject) w1 -> NewKey (rpcSpec subject) = Ok key ->
    returns (cr_Cost rule call) w1 (Err e) w' ->
    stops rule w (Ret (unavailable call "invalid rate limit cost", Some e)) w'
| stops_limited d e w' : asks rule w d (Some e) w' -> errorsIsAt e ErrRejected = true ->
    stops rule w (Ret (mkResponse (call_ID call) None
      (Some (mkError CodeRateLimited "rate limit exceeded" (RetryAfter d))), Some e)) w'
| stops_unavailable d e w' : asks rule w d (Some e) w' -> errorsIsAt e ErrRejected = false ->
    stops rule w (Ret (unavailable call "rate limit unavailable", Some e)) w'.

(** A rule admits and goes on, or stops the call. *)
Lemma applyRule_cases rule w :
  (exists d w', asks rule w d None w' /\ applyRule service now rule ctx call w = (Ret None, w')) \/
  (exists out w', stops rule w out w' /\
     applyRule service now rule ctx call w =
       (match out with Ret r => Ret (Some r) | Panic => Panic end, w')).
Proof.
  unfold applyRule. rewrite bind_unfold.
  destruct (cr_Subject rule call w) as [[[subject|e]|] w1] eqn:Es.
  2: { right. eexists (Ret _), w1. split; [by apply stops_subject|reflexivity]. }
  2: { right. exists Panic, w1. split; [by apply stops_panic, interrupted_subject|done]. }
  destruct (NewKey (rpcSpec subject)) as [key|e] eqn:Ek.
  2: { right. eexists (Ret _), w1. split; [by eapply stops_key|reflexivity]. }
  rewrite bind_unfold. destruct (cr_Cost rule call w1) as [[[cost|e]|] w2] eqn:Ec.
  2: { right. eexists (Ret _), w2. split; [by eapply stops_cost|reflexivity]. }
  2: { right. exists Panic, w2. split; [by eapply stops_panic, interrupted_cost|done]. }
  rewrite bind_unfold. destruct (now w2) as [[t|] w3] eqn:En.
  2: { right. exists Panic, w3. split; [by eapply stops_panic, interrupted_now|done]. }
  rewrite bind_unfold. destruct (Admit clock service ctx _ w3) as [[[d err]|] w4] eqn:Ea.
  2: { right. exists Panic, w4. split; [by eapply stops_panic, interrupted_admit|done]. }
  assert (asks rule w d err w4) as Hask by (by exists subject, key, cost, t, w1, w2, w3).
  destruct err as [e|]; [right|left; eauto]. simpl.
  destruct (errorsIsAt e ErrRejected) eqn:Ei; eexists (Ret _), w4; (split; [|reflexivity]).
  - by apply stops_limited.
  - by eapply stops_unavailable.
Qed.

(** C39: rules run in order and stop at the first that does not admit.  For every
    list of rules, call and world there is a prefix of rules that each derived a
    request and had it admitted; either the prefix is the whole list and the
    handler is called exactly once, as the last step, or the handler has no
    influence and the next rule ended the call.  It ended it with code -32029 and
    the delay of the decision when the service rejected the request, with code
    -32030 and no delay when the service failed otherwise or the subject, the key
    or the cost could not be derived, each with its own text and with the error
    that caused it, or by a panic of a callback, the clock or the service.  What
    the prefix charged stays charged. *)
Theorem rpc_rules_in_order rules w :
  exists before after w1, rules = before ++ after /\ passed before w w1 /\
    match after with
    | [] => forall next, handle service now rules next ctx call w = next ctx call w1
    | rule :: _ => exists out w2, stops rule w1 out w2 /\
        forall next, handle service now rules next ctx call w = (out, w2)
    end.
Proof.
  revert w. induction rules as [|rule rules IH]; intros w.
  { exists [], [], w. split_and!; [done|constructor|done]. }
  destruct (applyRule_cases rule w) as [(d & w' & Hask & E)|(out & w' & Hstop & E)].
  - destruct (IH w') as (before & after & w1 & -> & Hp & H).
    exists (rule :: before), after, w1. split_and!; [done|by eapply passed_cons|].
    destruct after as [|r after]; [intros next|destruct H as (out & w2 & Hs & H); exists out, w2; split; [done|intros next]].
    all: cbn [handle]; rewrite bind_unfold, E; apply H.
  - exists [], (rule :: rules), w. split_and!; [done|constructor|]. exists out, w'. split; [done|].
    intros next. cbn [handle]. rewrite bind_unfold, E. by destruct out.
Qed.
End Run.

End Middleware.
