(* ===== verification/Telemetry.v ===== *)
(** * Identities and telemetry: adapters/authentication, adapters/slog, adapters/otel

    The key of an authenticated principal, and the two observers.  Loggers,
    meters and principals are foreign code: records of operations on the world.
    The theorems: an observer reports the outcome of a decision and never the text
    of an error, and every error of the strict service has a documented kind. *)

From S2P Require Import Prelude Float64 GoTime GoHash Errors Keys Policy Backend StrictService StrictFacts StrictBatch.

Local Open Scope string_scope.
Local Open Scope list_scope.
Local Open Scope Z_scope.

(** ** adapters/authentication *)

Module Authentication.
(** [Principal] is an interface with one method. *)
Definition Key {W} (principal : iface (M W string)) : M W (result error Keys.Key) :=
  match principal with
  | iface_of Subject =>
      subject ← Subject;
      mret (if bool_decide (subject = EmptyString)
            then Err (errorf ErrInvalidKey "authenticated principal is required")
            else NewKey (mkKeySpec "auth" "v1" (mkSubject "principal" subject) true))
  | _ => mret (Err (errorf ErrInvalidPolicy "principal is required"))
  end.
End Authentication.

(** ** adapters/slog *)

Module Slog.
Inductive Attr :=
| AttrString (key value : string)
| AttrBool (key : string) (value : bool)
| AttrInt64 (key : string) (value : Z).

(** [slog.Logger.LogAttrs] with the background context. *)
Definition Logger (W : Type) : Type := Z -> string -> list Attr -> M W unit.

Record Options (W : Type) := mkOptions { opt_Logger : option (Logger W); Level : Z }.
Arguments mkOptions {W} _ _.
Arguments opt_Logger {W} _.
Arguments Level {W} _.

(** The logger is nil in the zero value. *)
Record Observer (W : Type) := mkObserver { logger : option (Logger W); level : Z }.
Arguments mkObserver {W} _ _.
Arguments logger {W} _.
Arguments level {W} _.

Definition New {W} (options : Options W) : result error (Observer W) :=
  match opt_Logger options with
  | None => Err (errorf ErrInvalidPolicy "logger is required")
  | Some logger => Ok (mkObserver (Some logger) (Level options))
  end.

Definition errorKind (err : option error) : string :=
  if isNil err then "none" else
  if errorsIs err ErrOutcomeUnknown then "outcome_unknown" else
  if errorsIs err ErrCanceled then "canceled" else
  if errorsIs err ErrDeadline then "deadline" else
  if errorsIs err ErrRejected then "rejected" else
  if errorsIs err ErrUnavailable then "unavailable" else
  if errorsIs err ErrOverflow then "overflow" else
  if errorsIs err ErrCorrupt then "corrupt" else
  if errorsIs err ErrUnsupported then "unsupported" else
  if errorsIs err ErrInvalidPolicy || errorsIs err ErrInvalidKey || errorsIs err ErrInvalidRequest
  then "invalid" else "internal".

(** The attributes of a record. *)
Definition attrs (observation : Observation) : list Attr :=
  let decision := obs_Decision observation in
  [AttrString "policy_id" (obs_PolicyID observation);
   AttrString "policy_revision" (dec_PolicyRevision decision);
   AttrString "subject_kind" (obs_SubjectKind observation);
   AttrString "backend" (dec_Backend decision);
   AttrString "reason" (dec_Reason decision);
   AttrBool "allowed" (Allowed decision);
   AttrInt64 "duration_ns" (obs_Duration observation);
   AttrString "error_kind" (errorKind (obs_Err observation))].

Definition Observe {W} (observer : option (Observer W)) (observation : Observation) : M W unit :=
  match observer with
  | Some (mkObserver (Some log) level) => log level "rate limit decision" (attrs observation)
  | _ => mret tt
  end.
End Slog.

(** ** adapters/otel *)

Module Otel.
Definition scopeName : string := "github.com/faustbrian/go-rate-limit/v3/adapters/otel".

(** String attributes, and the instruments of the metric API: each records a
    value with attributes. *)
Definition Attributes : Type := list (string * string).
Definition Int64Counter (W : Type) : Type := Z -> Attributes -> M W unit.
Definition Float64Histogram (W : Type) : Type := float64 -> Attributes -> M W unit.

(** [metric.Meter]: instruments by name, description and unit. *)
Record Meter (W : Type) := mkMeter {
  newInt64Counter : string -> string -> string -> M W (result error (iface (Int64Counter W)));
  newFloat64Histogram : string -> string -> string -> M W (result error (iface (Float64Histogram W)))
}.
Arguments mkMeter {W} _ _.
Arguments newInt64Counter {W} _ _ _ _.
Arguments newFloat64Histogram {W} _ _ _ _.

Definition MeterProvider (W : Type) : Type := string -> M W (Meter W).

Record Observer (W : Type) := mkObserver {
  decisions : iface (Int64Counter W);
  duration : iface (Float64Histogram W)
}.
Arguments mkObserver {W} _ _.
Arguments decisions {W} _.
Arguments duration {W} _.

Definition New {W} (provider : iface (MeterProvider W)) : M W (result error (Observer W)) :=
  match provider with
  | iface_of meterOf =>
      meter ← meterOf scopeName;
      counter ← newInt64Counter meter "rate_limit.decisions" "Rate limit admission decisions" "{decision}";
      match counter with
      | Err err => mret (Err err)
      | Ok counter =>
          histogram ← newFloat64Histogram meter "rate_limit.decision.duration"
                        "Rate limit decision latency" "s";
          match histogram with
          | Err err => mret (Err err)
          | Ok histogram => mret (Ok (mkObserver counter histogram))
          end
      end
  | _ => mret (Err (errorf ErrInvalidPolicy "meter provider is required"))
  end.

Definition errorKind (err : option error) : string :=
  if isNil err then "none" else
  if errorsIs err ErrOutcomeUnknown then "outcome_unknown" else
  if errorsIs err ErrCanceled then "canceled" else
  if errorsIs err ErrDeadline then "deadline" else
  if errorsIs err ErrRejected then "rejected" else
  if errorsIs err ErrUnavailable then "unavailable" else
  if errorsIs err ErrOverflow then "overflow" else
  if errorsIs err ErrCorrupt then "corrupt" else
  if errorsIs err ErrUnsupported then "unsupported" else
  if errorsIs err ErrInvalidPolicy || errorsIs err ErrInvalidKey || errorsIs err ErrInvalidRequest
  then "invalid" else "internal".

Definition attributes (observation : Observation) : Attributes :=
  let decision := obs_Decision observation in
  [("rate_limit.policy.id", obs_PolicyID observation);
   ("rate_limit.policy.revision", dec_PolicyRevision decision);
   ("rate_limit.subject.kind", obs_SubjectKind observation);
   ("rate_limit.backend", dec_Backend decision);
   ("rate_limit.reason", dec_Reason decision);
   ("rate_limit.error.kind", errorKind (obs_Err observation))].

(** An instrument method on an interface that holds a nil pointer still runs. *)
Definition Observe {W} (observer : option (Observer W)) (observation : Observation) : M W unit :=
  match observer with
  | None => mret tt
  | Some observer =>
      match decisions observer, duration observer with
      | nil_iface, _ | _, nil_iface => mret tt
      | (typed_nil add | iface_of add), (typed_nil record | iface_of record) =>
          let attributes := attributes observation in
          _ ← add 1 attributes;
          record (Seconds (obs_Duration observation)) attributes
      end
  end.
End Otel.

(** ** What a record says *)

(** The two packages classify alike. *)
Lemma error_kinds_agree err : Slog.errorKind err = Otel.errorKind err.
Proof. reflexivity. Qed.

Lemma outcome_kind k c : k <> strictOutcomeNone ->
  Slog.errorKind (Some (strictOutcomeError k c)) <> "internal".
Proof. by destruct k, c. Qed.

Lemma declared_kind e s : declares e s -> s = ErrRejected \/ admit_category s ->
  Slog.errorKind (Some e) <> "internal".
Proof. intros [-> | ->]; unfold admit_category; intros [-> | [-> | [-> | [-> | ->]]]]; done. Qed.

Lemma verdict_kind request raw rawErr d e :
  admit_verdict request raw rawErr d e -> Slog.errorKind e <> "internal".
Proof.
  intros H. destruct H as [|e ? Hd| | | |c ? ?| |e s ? Hd Hs]; try done.
  - eapply declared_kind; [exact Hd|by left].
  - by destruct c.
  - eapply declared_kind; [exact Hd|by right].
Qed.

Lemma kind_none err : Slog.errorKind err = "none" <-> err = None.
Proof.
  split; [|by intros ->]. destruct err as [e|]; [|done]. unfold Slog.errorKind. cbn [isNil].
  by repeat case_test.
Qed.

Section Records.
Context {W : Type} (clock : W -> Z * W).
Context (log : Slog.Logger W) (level : Z).

(** A strict service whose only observer is a slog observer. *)
Definition logged (backend : StrictBackend W) (name : string) : StrictService W :=
  mkStrictService (iface_of backend)
    [mkObserver (Slog.Observe (Some (Slog.mkObserver (Some log) level)))] name.

(** The record of a result. *)
Definition record_of (request : Request) (d : Decision) (e : option error) (elapsed : Duration) : Observation :=
  mkObservation (id (req_Policy request)) (subjectKind (req_Key request)) d e elapsed.

(** What has been logged so far, and a call that logs nothing. *)
Context (journal : W -> list (Z * string * list Slog.Attr)).

Definition quiet {A} (c : M W A) : Prop := forall w, journal (c w).2 = journal w.

(** The logger appends one record per call, and nothing but the observer writes
    to it: neither the clock nor the caller's context nor the backend. *)
Record journals (ctx : Context W) (backend : StrictBackend W) : Prop := {
  log_appends : forall lv msg attrs w, journal (log lv msg attrs w).2 = journal w ++ [(lv, msg, attrs)];
  clock_quiet : forall w, journal (clock w).2 = journal w;
  context_quiet : forall w, journal (ctxErr ctx w).2 = journal w;
  backend_quiet : forall request, quiet (AdmitStrict backend ctx request)
}.

Lemma quiet_ret {A} (a : A) : quiet (mret a).
Proof. done. Qed.

Lemma quiet_bind {A B} (c : M W A) (k : A -> M W B) : quiet c -> (forall a, quiet (k a)) -> quiet (c ≫= k).
Proof.
  intros Hc Hk w. rewrite bind_unfold. specialize (Hc w). destruct (c w) as [[a|] w1]; [|done].
  by rewrite (Hk a w1).
Qed.

Lemma quiet_lift {A} (f : W -> A * W) : (forall w, journal (f w).2 = journal w) -> quiet (lift f).
Proof. intros Hf w. specialize (Hf w). unfold lift. by destruct (f w). Qed.

Lemma quiet_returns {A} (c : M W A) w a w' : quiet c -> returns c w a w' -> journal w' = journal w.
Proof. intros Hc H. specialize (Hc w). unfold returns in H. by rewrite H in Hc. Qed.

Lemma caller_quiet ctx backend : journals ctx backend -> quiet (strictCallerContext ctx).
Proof. intros J. apply quiet_bind; [apply quiet_lift, J|intros; apply quiet_ret]. Qed.

Lemma normalize_quiet ctx backend service request raw rawErr :
  journals ctx backend -> quiet (normalizeAdmit service ctx request raw rawErr).
Proof.
  intros J. assert (quiet (unknownDecision service ctx request)) as Hu.
  { apply quiet_bind; [apply quiet_lift, J|intros; apply quiet_ret]. }
  unfold normalizeAdmit. repeat case_match; done.
Qed.

(** The one record of a call that found the clock at [started]. *)
Definition one_record (request : Request) (d : Decision) (e : option error) (started : Z) (w w' : W) : Prop :=
  exists w1, journal w' = journal w ++
    [(level, "rate limit decision", Slog.attrs (record_of request d e ((clock w1).1 - started)))].

Lemma observe_logs ctx backend name request d e started w w' :
  journals ctx backend ->
  returns (observe clock (logged backend name) request d e started) w tt w' ->
  one_record request d e started w w'.
Proof.
  intros J. unfold observe. rewrite bind_returns. intros (finished & w1 & Hc & H).
  apply (proj1 (lift_returns clock _ _ _)) in Hc. exists w. rewrite Hc. simpl.
  assert (journal w1 = journal w) as <- by (pose proof (clock_quiet _ _ J w) as Hq; by rewrite Hc in Hq).
  cbn [logged ss_observers observeAll] in H. apply bind_returns in H as ([] & w2 & H & Hret).
  apply ret_returns in Hret as [_ <-]. injection H as <-. apply J.
Qed.

Lemma normalizeAdmit_kind (service : StrictService W) ctx request raw rawErr w d e w' :
  returns (normalizeAdmit service ctx request raw rawErr) w (d, e) w' -> Slog.errorKind e <> "internal".
Proof.
  intros H. destruct (normalizeAdmit_refines service ctx request raw rawErr w) as [(d' & e' & Hv & Hr)|[_ Hu]].
  - unfold returns in *. rewrite H in Hr. simplify_eq. by eapply verdict_kind.
  - rewrite Hu in H. apply unknownDecision_returns in H as (_ & c & ->). apply outcome_kind. done.
Qed.

Lemma ready_reports backend name ctx request w d e b w' :
  journals ctx backend ->
  returns (admitReady clock (logged backend name) backend ctx request false) w (d, e, b) w' ->
  one_record request d e (clock w).1 w w' /\ Slog.errorKind e <> "internal".
Proof.
  intros J H. unfold admitReady in H. apply bind_returns in H as (started & w2 & Hs & H).
  apply (proj1 (lift_returns clock _ _ _)) in Hs. pose proof (clock_quiet _ _ J w) as Hj. rewrite Hs in *. simpl in *.
  apply bind_returns in H as (caller & w3 & Hc & H).
  pose proof (quiet_returns _ _ _ _ (caller_quiet _ _ J) Hc) as Hj3. apply strictCallerContext_returns in Hc.
  unfold one_record. rewrite <- Hj, <- Hj3. destruct caller as [err|].
  - case_test_in H; apply bind_returns in H as ([] & w4 & Ho & H); apply ret_returns in H as [[= <- <- <-] <-];
      apply (observe_logs _ _ _ _ _ _ _ _ _ J) in Ho; (split; [exact Ho|]); [done|].
    by destruct Hc as [|[[= ->]|[[= ->] _]]].
  - apply bind_returns in H as ([raw rawErr] & w4 & Hb & H). apply bind_returns in H as ([d' e'] & w5 & Hn & H).
    apply bind_returns in H as ([] & w6 & Ho & H). apply ret_returns in H as [[= <- <- <-] <-].
    apply (observe_logs _ _ _ _ _ _ _ _ _ J) in Ho. split; [|by eapply normalizeAdmit_kind].
    apply (quiet_returns _ _ _ _ (backend_quiet _ _ J request)) in Hb. rewrite <- Hb.
    apply (quiet_returns _ _ _ _ (normalize_quiet _ _ _ _ _ _ J)) in Hn. by rewrite <- Hn.
Qed.

End Records.

(** ** Witness *)

(** A world that is the journal itself, with the demo backend's answers. *)
Definition demo_log : Slog.Logger (list (Z * string * list Slog.Attr)) :=
  fun level msg attrs w => (Ret tt, w ++ [(level, msg, attrs)]).
Definition demo_journal_clock (w : list (Z * string * list Slog.Attr)) := (1000 + Z.of_nat (length w), w).
Definition demo_journal_context : Context (list (Z * string * list Slog.Attr)) := mkContext (fun w => (None, w)).
Definition demo_journal_backend : StrictBackend (list (Z * string * list Slog.Attr)) :=
  mkStrictBackend "demo" (fun _ _ => mret (Demo.granted, None)) None None.

